(** * ProjectMnemosyne: the marketplace scripts, embedded and checked

    A shallow embedding of the Python scripts under [scripts/]:

    - [validate_plugins.py]            -> [Module ValidatePlugins]
    - [generate_marketplace.py]        -> [Module GenerateMarketplace]
    - [fix_validation_warnings.py]     -> [Module FixValidationWarnings]
    - [fix_failed_attempts_tables.py]  -> [Module FixFailedAttemptsTables]
    - [fix_remaining_warnings.py]      -> [Module FixRemainingWarnings]
    - [add_user_invocable.py]          -> [Module AddUserInvocable]

    and of the validator that ships with the registry commands,
    [plugins/tooling/skills-registry-commands/scripts/validate_plugins.py]
    -> [Module RegistryValidatePlugins],

    on top of small models of what they use of the Python runtime:
    [Module Py] (strings, exceptions), [Module Re] (the [re] patterns the
    scripts contain, run by a backtracking matcher), [Module Json] (values
    [json.load] returns and how Python compares them) and [Module Fs]
    (a directory tree read through [pathlib]).

    Conventions of the embedding.

    - A Python [str] is the list of the bytes of its UTF-8 encoding
      ([Py.str]).  Substring tests, [split], [replace], [startswith], the
      anchors and literals of a pattern and the order [<] on strings are
      the same on UTF-8 bytes as on code points.  [len], slices, [.] in a
      pattern, [\s], [\d] and [strip] count or classify one byte where
      Python takes one code point: they agree on ASCII text.  A
      property stated for every text holds of the script as it holds of
      the embedding: it uses operations of the first kind only, or it
      says of a pattern, of [strip] or of a length something that holds
      whichever characters beyond ASCII count as white space and however
      they are counted (where a match that ends at an anchor or at a
      literal stands, what a call keeps of a text, a bound on a length).
      A property that depends on it (the digits of a date, the length
      of a text, the white space that [strip] removes or [\s] takes)
      takes its strings to be ASCII text, [ascii_text]; the others are
      stated at ASCII inputs.  The two
      non-ASCII literals of the scripts, a cross mark and a dash, are
      only ever copied or compared.
    - A call that can raise returns [Py.res]; an exception nobody catches
      travels up to [main] and ends the process.
    - The tree of [Module Fs] has files and directories, no links and no
      access rights: every directory in it can be listed and searched,
      so [exists], [is_dir] and [iterdir] never raise [PermissionError].
      What [find_plugins] finds is stated of the calls that return, and
      holds of them where access rights make other calls raise.
    - [json.load] itself is not modelled: the functions that read a
      manifest take the decoder as their first argument.
    - Console output is left out; no property below reads it. *)

From Stdlib Require Import Ascii String ZArith Lia Bool Arith List.
From Stdlib Require Import Sorting.Sorted Sorting.Permutation.
From Stdlib Require Import Numbers.DecimalString.
Import ListNotations.

Set Implicit Arguments.
Set Warnings "-register-all".
Open Scope string_scope.
Open Scope nat_scope.
Open Scope list_scope.

(* ================================================================== *)
(** * Python: strings and exceptions *)
(* ================================================================== *)

Module Py.

Definition str := list ascii.

(** A literal of the source. *)
Definition txt (s : string) : str := list_ascii_of_string s.
Arguments txt s%_string.

Definition nl : ascii := "010"%char.

(** [sep.join(l)] *)
Definition join (sep : str) (l : list str) : str :=
  match l with
  | [] => []
  | x :: xs => x ++ flat_map (fun y => sep ++ y) xs
  end.

(** A literal of several lines (a triple-quoted string), line by line. *)
Definition text_of_lines (l : list string) : str := join [nl] (map txt l).

(** ** Exceptions *)

Inductive exn : Type :=
| AttributeError
| TypeError
| FileNotFoundError
| NotADirectoryError
| IsADirectoryError (msg : str)
| OSError (msg : str).

Inductive res (A : Type) : Type :=
| Ret (a : A)
| Raise (e : exn).
Arguments Ret {A} a.
Arguments Raise {A} e.

Definition bind {A B} (m : res A) (f : A -> res B) : res B :=
  match m with
  | Ret a => f a
  | Raise e => Raise e
  end.

(** [mapM f l]: the list comprehension [[f(x) for x in l]]; the first
    exception ends it. *)
Fixpoint mapM {A B} (f : A -> res B) (l : list A) : res (list B) :=
  match l with
  | [] => Ret []
  | x :: xs =>
      bind (f x) (fun y => bind (mapM f xs) (fun ys => Ret (y :: ys)))
  end.

(** A [for] loop that updates an accumulator, with a body that can
    raise. *)
Fixpoint for_each {A B} (body : B -> A -> res B) (acc : B) (l : list A)
    : res B :=
  match l with
  | [] => Ret acc
  | x :: l' => bind (body acc x) (fun acc' => for_each body acc' l')
  end.

(** ** [str] operations *)

Fixpoint str_eqb (a b : str) : bool :=
  match a, b with
  | [], [] => true
  | x :: a', y :: b' => Ascii.eqb x y && str_eqb a' b'
  | _, _ => false
  end.

(** [s.startswith(p)] *)
Fixpoint startswith (p s : str) : bool :=
  match p, s with
  | [], _ => true
  | x :: p', y :: s' => Ascii.eqb x y && startswith p' s'
  | _ :: _, [] => false
  end.

(** [sub in s] *)
Fixpoint contains (sub s : str) : bool :=
  startswith sub s ||
  match s with
  | [] => false
  | _ :: s' => contains sub s'
  end.

(** [s.partition(sep)], [None] when [sep] does not occur: the text before
    the first occurrence and the text after it. *)
Fixpoint partition (sep s : str) : option (str * str) :=
  if startswith sep s then Some ([], skipn (length sep) s)
  else match s with
       | [] => None
       | c :: s' =>
           match partition sep s' with
           | Some (b, a) => Some (c :: b, a)
           | None => None
           end
       end.

(** [s.split(sep)] for a non-empty [sep] (every separator of the scripts
    is a non-empty literal).  Each round removes one occurrence, so
    [length s] rounds are enough. *)
Fixpoint split_rounds (n : nat) (sep s : str) : list str :=
  match n with
  | O => [s]
  | S n' =>
      match partition sep s with
      | None => [s]
      | Some (b, a) => b :: split_rounds n' sep a
      end
  end.

Definition split (sep s : str) : list str := split_rounds (length s) sep s.

(** [l[i]] on a list of strings; the scripts only index where the element
    exists, the default stands for the [IndexError] that cannot happen. *)
Definition item (i : nat) (l : list str) : str := nth i l [].

(** [s.replace(old, new)], [old] non-empty. *)
Definition replace (old new s : str) : str := join new (split old s).

(** [c.isspace()] on the ASCII range. *)
Definition isspace (c : ascii) : bool :=
  let n := nat_of_ascii c in
  ((9 <=? n) && (n <=? 13)) || ((28 <=? n) && (n <=? 32)).

Fixpoint lstrip (s : str) : str :=
  match s with
  | c :: s' => if isspace c then lstrip s' else s
  | [] => []
  end.

Definition rstrip (s : str) : str := rev (lstrip (rev s)).

Definition strip (s : str) : str := rstrip (lstrip s).

(** [str(n)] for a length or a counter. *)
Definition str_of_nat (n : nat) : str :=
  txt (NilZero.string_of_uint (Nat.to_uint n)).

Definition str_of_Z (z : Z) : str :=
  txt (NilZero.string_of_int (Z.to_int z)).

(** The order [<] of Python on strings: lexicographic on code points. *)
Fixpoint str_cmp (a b : str) : comparison :=
  match a, b with
  | [], [] => Eq
  | [], _ :: _ => Lt
  | _ :: _, [] => Gt
  | x :: a', y :: b' =>
      match Nat.compare (nat_of_ascii x) (nat_of_ascii y) with
      | Eq => str_cmp a' b'
      | c => c
      end
  end.

Definition str_ltb (a b : str) : bool :=
  match str_cmp a b with Lt => true | _ => false end.

(** [sorted(l)] on strings. *)
Fixpoint insert_str (x : str) (l : list str) : list str :=
  match l with
  | [] => [x]
  | y :: l' => if str_ltb x y then x :: l else y :: insert_str x l'
  end.

Definition sorted_strs (l : list str) : list str :=
  fold_left (fun acc x => insert_str x acc) l [].

End Py.

Module PyNotations.
Notation "x <- m ;; k" := (Py.bind m (fun x => k))
  (at level 61, m at next level, right associativity).
End PyNotations.

(* ================================================================== *)
(** * Python: the [re] module, for the patterns of the scripts *)
(* ================================================================== *)

(** The patterns of the scripts use literals, the anchors [^], [$] and
    [\Z], classes, greedy and lazy quantifiers on one-character atoms,
    groups and alternation.  [Re.regex] is their syntax and [Re.run] a
    backtracking matcher with the priorities of CPython's engine: an
    alternative or a repetition count is tried in the order [re] tries it,
    and the first way to complete the whole match wins. *)

Module Re.
Import Py.

Record flags : Type := { multiline : bool; dotall : bool }.

Definition no_flags := {| multiline := false; dotall := false |}.
Definition MULTILINE := {| multiline := true; dotall := false |}.
Definition MULTILINE_DOTALL := {| multiline := true; dotall := true |}.

(** One-character atoms. *)
Inductive atom : Type :=
| Any                                    (* [.]  *)
| Space                                  (* [\s] *)
| Digit                                  (* [\d] *)
| Class (ranges : list (ascii * ascii)). (* [[a-z0-9-]] *)

Inductive regex : Type :=
| Lit (s : str)                          (* literal text *)
| One (a : atom)
| Rep (greedy : bool) (lo : nat) (hi : option nat) (a : atom)
| Bol                                    (* [^]  *)
| Eol                                    (* [$]  *)
| EndZ                                   (* [\Z] *)
| Seq (r1 r2 : regex)
| Alt (r1 r2 : regex)
| Grp (i : nat) (r : regex).             (* capturing group number [i] *)

Definition Star a := Rep true 0 None a.          (* [a*]   *)
Definition Plus a := Rep true 1 None a.          (* [a+]   *)
Definition Opt a := Rep true 0 (Some 1) a.       (* [a?]   *)
Definition Times n a := Rep true n (Some n) a.   (* [a{n}] *)
Definition LazyStar a := Rep false 0 None a.     (* [a*?]  *)
Definition LazyPlus a := Rep false 1 None a.     (* [a+?]  *)

Definition in_range (c : ascii) (r : ascii * ascii) : bool :=
  (nat_of_ascii (fst r) <=? nat_of_ascii c) &&
  (nat_of_ascii c <=? nat_of_ascii (snd r)).

Definition atom_ok (fl : flags) (a : atom) (c : ascii) : bool :=
  match a with
  | Any => dotall fl || negb (Ascii.eqb c nl)
  | Space => isspace c
  | Digit => in_range c ("0"%char, "9"%char)
  | Class ranges => existsb (in_range c) ranges
  end.

(** Where the matcher stands: the character just before (none at the
    start of the text), the text still ahead, and the offset. *)
Record cursor : Type := { prev : option ascii; rest : str; pos : nat }.

Definition start_of (s : str) : cursor :=
  {| prev := None; rest := s; pos := 0 |}.

(** Spans of the groups matched so far, latest first. *)
Definition captures := list (nat * (nat * nat)).

Definition at_bol (fl : flags) (c : cursor) : bool :=
  match prev c with
  | None => true
  | Some p => multiline fl && Ascii.eqb p nl
  end.

Definition at_eol (fl : flags) (c : cursor) : bool :=
  match rest c with
  | [] => true
  | x :: r =>
      Ascii.eqb x nl && (multiline fl || match r with [] => true | _ => false end)
  end.

Section Matcher.
Variable R : Type.
Variable fl : flags.

(** A quantified atom; [n] repetitions are already taken. *)
Fixpoint rep (a : atom) (greedy : bool) (lo : nat) (hi : option nat)
    (k : cursor -> option R) (n : nat)
    (p : option ascii) (s : str) (i : nat) {struct s} : option R :=
  let stop :=
    if lo <=? n then k {| prev := p; rest := s; pos := i |} else None in
  let more :=
    match s with
    | c :: s' =>
        if match hi with None => true | Some h => n <? h end && atom_ok fl a c
        then rep a greedy lo hi k (S n) (Some c) s' (S i)
        else None
    | [] => None
    end in
  if greedy
  then match more with Some r => Some r | None => stop end
  else match stop with Some r => Some r | None => more end.

Fixpoint lit (l : str) (k : cursor -> option R)
    (p : option ascii) (s : str) (i : nat) {struct l} : option R :=
  match l with
  | [] => k {| prev := p; rest := s; pos := i |}
  | x :: l' =>
      match s with
      | c :: s' => if Ascii.eqb x c then lit l' k (Some c) s' (S i) else None
      | [] => None
      end
  end.

Fixpoint run (r : regex) (c : cursor) (g : captures)
    (k : cursor -> captures -> option R) {struct r} : option R :=
  match r with
  | Lit l => lit l (fun c' => k c' g) (prev c) (rest c) (pos c)
  | One a =>
      match rest c with
      | x :: s' =>
          if atom_ok fl a x
          then k {| prev := Some x; rest := s'; pos := S (pos c) |} g
          else None
      | [] => None
      end
  | Rep greedy lo hi a =>
      rep a greedy lo hi (fun c' => k c' g) 0 (prev c) (rest c) (pos c)
  | Bol => if at_bol fl c then k c g else None
  | Eol => if at_eol fl c then k c g else None
  | EndZ => match rest c with [] => k c g | _ => None end
  | Seq r1 r2 => run r1 c g (fun c' g' => run r2 c' g' k)
  | Alt r1 r2 =>
      match run r1 c g k with
      | Some x => Some x
      | None => run r2 c g k
      end
  | Grp i r1 =>
      run r1 c g (fun c' g' => k c' ((i, (pos c, pos c')) :: g'))
  end.

End Matcher.

(** A match object: [m.start()], [m.end()], the groups, and the cursor at
    the end of the match (where [finditer] goes on). *)
Record mobj : Type :=
  { m_start : nat; m_end : nat; m_groups : captures; m_after : cursor }.

Definition match_at (fl : flags) (r : regex) (c : cursor) : option mobj :=
  run fl r c []
    (fun c' g =>
       Some {| m_start := pos c; m_end := pos c'; m_groups := g; m_after := c' |}).

(** [re.match(r, s)]: at the start of the text only. *)
Definition match_ (fl : flags) (r : regex) (s : str) : option mobj :=
  match_at fl r (start_of s).

(** The leftmost match at or after a cursor. *)
Fixpoint search_from (fl : flags) (r : regex)
    (p : option ascii) (s : str) (i : nat) {struct s} : option mobj :=
  match match_at fl r {| prev := p; rest := s; pos := i |} with
  | Some m => Some m
  | None =>
      match s with
      | [] => None
      | c :: s' => search_from fl r (Some c) s' (S i)
      end
  end.

(** [re.search(r, s)] *)
Definition search (fl : flags) (r : regex) (s : str) : option mobj :=
  search_from fl r None s 0.

(** [m.group(i)] in the text [s] the match was made on; the empty string
    stands for a group that did not take part. *)
Fixpoint span_of (i : nat) (g : captures) : option (nat * nat) :=
  match g with
  | [] => None
  | (j, sp) :: g' => if i =? j then Some sp else span_of i g'
  end.

Definition slice (b e : nat) (s : str) : str := firstn (e - b) (skipn b s).

Definition group (i : nat) (m : mobj) (s : str) : str :=
  match span_of i (m_groups m) with
  | Some (b, e) => slice b e s
  | None => []
  end.

(** [re.finditer(r, s)], as the list of its matches.  After a match the
    scan goes on where it ended; after an empty match the model moves one
    character on (no pattern of the scripts given to [finditer] or [sub]
    matches the empty string).  Every round moves at least one character
    on, so [S (length s)] rounds find every match. *)
Fixpoint finditer_from (n : nat) (fl : flags) (r : regex) (c : cursor)
    : list mobj :=
  match n with
  | O => []
  | S n' =>
      match search_from fl r (prev c) (rest c) (pos c) with
      | None => []
      | Some m =>
          m ::
          (if m_start m <? m_end m
           then finditer_from n' fl r (m_after m)
           else match rest (m_after m) with
                | [] => []
                | x :: s' =>
                    finditer_from n' fl r
                      {| prev := Some x; rest := s'; pos := S (pos (m_after m)) |}
                end)
      end
  end.

Definition finditer (fl : flags) (r : regex) (s : str) : list mobj :=
  finditer_from (S (length s)) fl r (start_of s).

(** [re.sub(r, repl, s)] for a replacement without group references:
    the text between the matches is kept, each match becomes [repl]. *)
Fixpoint sub_between (repl : str) (ms : list mobj) (from : nat) (s : str)
    : str :=
  match ms with
  | [] => skipn from s
  | m :: ms' =>
      slice from (m_start m) s ++ repl ++ sub_between repl ms' (m_end m) s
  end.

Definition sub (fl : flags) (r : regex) (repl s : str) : str :=
  sub_between repl (finditer fl r s) 0 s.

End Re.

Module ReNotations.
Infix ";;;" := Re.Seq (at level 60, right associativity).
End ReNotations.

(* ================================================================== *)
(** * Python: the values [json.load] returns *)
(* ================================================================== *)

Module Json.
Import Py.

(** A decoded JSON document.  An object is a Python [dict]: its pairs in
    insertion order, a key looked up from the left.  Numbers are the
    integers; no property below depends on a fractional number. *)
Inductive json : Type :=
| JNull
| JBool (b : bool)
| JNum (z : Z)
| JStr (s : str)
| JArr (l : list json)
| JObj (kv : list (str * json)).

(** What [json.load] does with the text of a file: a value, or
    [json.JSONDecodeError] with its message. *)
Inductive decoded : Type :=
| Decoded (v : json)
| JSONDecodeError (msg : str).

Definition decoder := str -> decoded.

(** ** Dictionaries *)

Fixpoint dict_find (k : str) (kv : list (str * json)) : option json :=
  match kv with
  | [] => None
  | (k', v) :: kv' => if str_eqb k k' then Some v else dict_find k kv'
  end.

(** [k in d] *)
Definition has_key (k : str) (kv : list (str * json)) : bool :=
  match dict_find k kv with Some _ => true | None => false end.

(** [d.get(k, default)] *)
Definition dict_get (k : str) (default : json) (kv : list (str * json)) : json :=
  match dict_find k kv with Some v => v | None => default end.

(** [d[k] = v]: an existing key keeps its place, a new one goes last. *)
Fixpoint dict_set (k : str) (v : json) (kv : list (str * json))
    : list (str * json) :=
  match kv with
  | [] => [(k, v)]
  | (k', v') :: kv' =>
      if str_eqb k k' then (k', v) :: kv' else (k', v') :: dict_set k v kv'
  end.

(** [isinstance(v, dict)] *)
Definition is_object (v : json) : bool :=
  match v with JObj _ => true | _ => false end.

(** ** Comparisons *)

Definition Z_of_bool (b : bool) : Z := if b then 1%Z else 0%Z.

(** [a == b] *)
Fixpoint py_eq (a b : json) {struct a} : bool :=
  match a, b with
  | JNull, JNull => true
  | JBool x, JBool y => Bool.eqb x y
  | JBool x, JNum y => Z.eqb (Z_of_bool x) y
  | JNum x, JBool y => Z.eqb x (Z_of_bool y)
  | JNum x, JNum y => Z.eqb x y
  | JStr x, JStr y => str_eqb x y
  | JArr xs, JArr ys =>
      (fix all2 (xs : list json) (ys : list json) {struct xs} : bool :=
         match xs, ys with
         | [], [] => true
         | x :: xs', y :: ys' => py_eq x y && all2 xs' ys'
         | _, _ => false
         end) xs ys
  | JObj xs, JObj ys =>
      (length xs =? length ys) &&
      (fix every (xs : list (str * json)) {struct xs} : bool :=
         match xs with
         | [] => true
         | (k, v) :: xs' =>
             match dict_find k ys with
             | Some w => py_eq v w && every xs'
             | None => false
             end
         end) xs
  | _, _ => false
  end.

(** [a < b]; [TypeError] where Python has no order. *)
Fixpoint py_lt (a b : json) {struct a} : res bool :=
  match a, b with
  | JBool x, JBool y => Ret (Z.ltb (Z_of_bool x) (Z_of_bool y))
  | JBool x, JNum y => Ret (Z.ltb (Z_of_bool x) y)
  | JNum x, JBool y => Ret (Z.ltb x (Z_of_bool y))
  | JNum x, JNum y => Ret (Z.ltb x y)
  | JStr x, JStr y => Ret (str_ltb x y)
  | JArr xs, JArr ys =>
      (fix first_diff (xs : list json) (ys : list json) {struct xs}
           : res bool :=
         match xs, ys with
         | [], [] => Ret false
         | [], _ :: _ => Ret true
         | _ :: _, [] => Ret false
         | x :: xs', y :: ys' =>
             if py_eq x y then first_diff xs' ys' else py_lt x y
         end) xs ys
  | _, _ => Raise TypeError
  end.

(** [(a1, a2) < (b1, b2)] on tuples: the first components that differ
    decide. *)
Definition pair_lt (a b : json * json) : res bool :=
  if py_eq (fst a) (fst b)
  then if py_eq (snd a) (snd b) then Ret false else py_lt (snd a) (snd b)
  else py_lt (fst a) (fst b).

(** [len(v)] *)
Definition py_len (v : json) : res nat :=
  match v with
  | JStr s => Ret (length s)
  | JArr l => Ret (length l)
  | JObj kv => Ret (length kv)
  | _ => Raise TypeError
  end.

(** [str(v)] inside an f-string, for the values that can be hashed. *)
Definition py_str (v : json) : res str :=
  match v with
  | JNull => Ret (txt "None")
  | JBool true => Ret (txt "True")
  | JBool false => Ret (txt "False")
  | JNum z => Ret (str_of_Z z)
  | JStr s => Ret s
  | _ => Raise TypeError
  end.

End Json.

(* ================================================================== *)
(** * The file system, as [pathlib] reads it *)
(* ================================================================== *)

Module Fs.
Import Py.

(** A file that can be read holds a text; one that cannot carries the
    message of the exception reading it raises. *)
Inductive fdata : Type :=
| Readable (text : str)
| Unreadable (why : str).

(** A directory lists its entries in the order [iterdir] yields them. *)
Inductive node : Type :=
| File (d : fdata)
| Dir (entries : list (str * node)).

(** A path is the list of its components, from the working directory. *)
Definition path := list str.

Fixpoint entry (name : str) (es : list (str * node)) : option node :=
  match es with
  | [] => None
  | (n, x) :: es' => if str_eqb name n then Some x else entry name es'
  end.

Fixpoint lookup (fs : node) (p : path) : option node :=
  match p with
  | [] => Some fs
  | c :: p' =>
      match fs with
      | Dir es =>
          match entry c es with
          | Some x => lookup x p'
          | None => None
          end
      | File _ => None
      end
  end.

(** [p.exists()] *)
Definition exists_ (fs : node) (p : path) : bool :=
  match lookup fs p with Some _ => true | None => false end.

(** [p.is_dir()] *)
Definition is_dir (fs : node) (p : path) : bool :=
  match lookup fs p with Some (Dir _) => true | _ => false end.

(** [p.name] *)
Definition name (p : path) : str := last p [].

(** [p.parent] *)
Definition parent (p : path) : path := removelast p.

(** [str(p)] *)
Definition to_str (p : path) : str :=
  match p with
  | [] => txt "."
  | _ => join (txt "/") p
  end.

(** [p.relative_to(q)] when [q] is [p] cut short, as it is at its one
    call. *)
Definition relative_to (q p : path) : path := skipn (length q) p.

(** [p.is_file()] *)
Definition is_file (fs : node) (p : path) : bool :=
  match lookup fs p with Some (File _) => true | _ => false end.

(** The path [p] runs through a regular file: one of its proper
    prefixes is one. *)
Definition through_file (fs : node) (p : path) : bool :=
  existsb (fun n => is_file fs (firstn n p)) (seq 0 (length p)).

(** What the system answers for a path that is not there: [ENOTDIR]
    when the path runs through a regular file, [ENOENT] otherwise. *)
Definition missing (fs : node) (p : path) : exn :=
  if through_file fs p then NotADirectoryError else FileNotFoundError.

(** [p.iterdir()], drained by a [for] loop. *)
Definition iterdir (fs : node) (p : path) : res (list path) :=
  match lookup fs p with
  | None => Raise (missing fs p)
  | Some (File _) => Raise NotADirectoryError
  | Some (Dir es) => Ret (map (fun e => p ++ [fst e]) es)
  end.

(** [list(p.glob("*/" + leaf))]: the entries of [p] that are directories
    and have an entry called [leaf]. *)
Definition glob_star (fs : node) (p : path) (leaf : str) : list path :=
  match lookup fs p with
  | Some (Dir es) =>
      flat_map
        (fun e =>
           match snd e with
           | Dir es' =>
               match entry leaf es' with
               | Some _ => [p ++ [fst e; leaf]]
               | None => []
               end
           | File _ => []
           end) es
  | _ => []
  end.

(** [open(p).read()] and [p.read_text()] *)
Definition read_text (fs : node) (p : path) : res str :=
  match lookup fs p with
  | None => Raise (missing fs p)
  | Some (Dir _) =>
      Raise (IsADirectoryError
               (txt "[Errno 21] Is a directory: '" ++ to_str p ++ txt "'"))
  | Some (File (Readable t)) => Ret t
  | Some (File (Unreadable why)) => Raise (OSError why)
  end.

(** [Path(s)]: the components of [s].  Empty components and [.] are
    dropped; [..] and links are not followed, and a path is read from the
    directory the tree stands for. *)
Definition Path (s : str) : path :=
  filter (fun c => negb (str_eqb c [] || str_eqb c (txt "."))) (split (txt "/") s).

(** The directory both [main]s work on:
    [Path(sys.argv[1] if len(sys.argv) > 1 else "plugins")]. *)
Definition plugins_dir_of (argv : list str) : path :=
  Path (if 1 <? length argv then item 1 argv else txt "plugins").

(** [str(e)] of a caught exception. *)
Definition exn_text (e : exn) : str :=
  match e with
  | IsADirectoryError m | OSError m => m
  | AttributeError => txt "AttributeError"
  | TypeError => txt "TypeError"
  | FileNotFoundError => txt "FileNotFoundError"
  | NotADirectoryError => txt "NotADirectoryError"
  end.

End Fs.

(* ================================================================== *)
(** * scripts/validate_plugins.py *)
(* ================================================================== *)

Module ValidatePlugins.
Import Py Re ReNotations Json Fs PyNotations.

Definition MIN_DESCRIPTION_LENGTH : nat := 20.

Definition VALID_CATEGORIES : list str :=
  map txt
    ["training"; "evaluation"; "optimization"; "debugging"; "architecture";
     "tooling"; "ci-cd"; "testing"].

Definition REQUIRED_PLUGIN_FIELDS : list str :=
  map txt ["name"; "version"; "description"; "category"; "date"; "tags"].

Record ValidationResult : Type :=
  { plugin_path : path;
    is_valid : bool;
    errors : list str;
    warnings : list str }.

(** [x in S] for a set of strings. *)
Definition mem (x : str) (s : list str) : bool := existsb (str_eqb x) s.

(** [r"^[a-z0-9-]+$"] *)
Definition name_pattern : regex :=
  Bol ;;; Plus (Class [("a", "z"); ("0", "9"); ("-", "-")]%char) ;;; Eol.

(** [r"^\d{4}-\d{2}-\d{2}$"] *)
Definition date_pattern : regex :=
  Bol ;;; Times 4 Digit ;;; Lit (txt "-") ;;; Times 2 Digit ;;;
  Lit (txt "-") ;;; Times 2 Digit ;;; Eol.

(** [re.match(pattern, v)] as a truth value; [TypeError] when [v] is not
    a string. *)
Definition re_match_json (r : regex) (v : json) : res bool :=
  match v with
  | JStr s =>
      Ret (match match_ no_flags r s with Some _ => true | None => false end)
  | _ => Raise TypeError
  end.

(** The checks of [validate_plugin_json] on a decoded manifest (from
    "Check required fields" to the [return]). *)
Definition manifest_checks (data : json) : res (list str * list str) :=
  let errors : list str := [] in
  let warnings : list str := [] in
  match data with
  | JObj kv =>
      (* Check required fields *)
      let missing_fields :=
        filter (fun f => negb (has_key f kv)) REQUIRED_PLUGIN_FIELDS in
      let errors :=
        match missing_fields with
        | [] => errors
        | _ =>
            errors ++
            [txt "Missing required fields: " ++
             join (txt ", ") (sorted_strs missing_fields)]
        end in
      (* Validate name format *)
      errors <-
        match dict_find (txt "name") kv with
        | Some name =>
            ok <- re_match_json name_pattern name ;;
            if ok then Ret errors
            else
              shown <- py_str name ;;
              Ret (errors ++
                   [txt "Invalid name format '" ++ shown ++
                    txt "' (use lowercase, numbers, hyphens)"])
        | None => Ret errors
        end ;;
      (* Validate description length *)
      errors <-
        match dict_find (txt "description") kv with
        | Some desc =>
            n <- py_len desc ;;
            if n <? MIN_DESCRIPTION_LENGTH
            then Ret (errors ++
                      [txt "Description too short (" ++ str_of_nat n ++
                       txt " chars, min " ++
                       str_of_nat MIN_DESCRIPTION_LENGTH ++ txt ")"])
            else Ret errors
        | None => Ret errors
        end ;;
      (* Validate category *)
      errors <-
        match dict_find (txt "category") kv with
        | Some category =>
            (* hashing a list or a dict raises; [py_str] raises on the same *)
            shown <- py_str category ;;
            if match category with
               | JStr c => mem c VALID_CATEGORIES
               | _ => false
               end
            then Ret errors
            else Ret (errors ++
                      [txt "Invalid category '" ++ shown ++ txt "'. Valid: " ++
                       join (txt ", ") (sorted_strs VALID_CATEGORIES)])
        | None => Ret errors
        end ;;
      (* Validate date format *)
      errors <-
        match dict_find (txt "date") kv with
        | Some date =>
            ok <- re_match_json date_pattern date ;;
            if ok then Ret errors
            else
              shown <- py_str date ;;
              Ret (errors ++
                   [txt "Invalid date format '" ++ shown ++
                    txt "' (use YYYY-MM-DD)"])
        | None => Ret errors
        end ;;
      (* Validate tags is a list *)
      match dict_find (txt "tags") kv with
      | Some (JArr []) =>
          Ret (errors, warnings ++ [txt "No tags provided - reduces searchability"])
      | Some (JArr _) => Ret (errors, warnings)
      | Some _ => Ret (errors ++ [txt "tags must be a list"], warnings)
      | None => Ret (errors, warnings)
      end
  | _ =>
      (* [data.keys()] on a value that is not a dict *)
      Raise AttributeError
  end.

(** [plugin_dir / ".claude-plugin" / "plugin.json"] *)
Definition manifest_path (plugin_dir : path) : path :=
  plugin_dir ++ [txt ".claude-plugin"; txt "plugin.json"].

Definition validate_plugin_json (load : decoder) (fs : node) (plugin_dir : path)
    : res (list str * list str * json) :=
  let errors : list str := [] in
  let warnings : list str := [] in
  let data := JObj [] in
  let plugin_json_path := manifest_path plugin_dir in
  if negb (exists_ fs plugin_json_path)
  then Ret (errors ++ [txt "Missing .claude-plugin/plugin.json"], warnings, data)
  else
    text <- read_text fs plugin_json_path ;;
    match load text with
    | JSONDecodeError e =>
        Ret (errors ++ [txt "Invalid JSON in plugin.json: " ++ e], warnings, data)
    | Decoded data =>
        ew <- manifest_checks data ;;
        Ret (fst ew, snd ew, data)
    end.

Definition required_sections : list (str * str) :=
  [ (txt "## Overview", txt "Overview table");
    (txt "## When to Use", txt "When to Use section");
    (txt "## Verified Workflow", txt "Verified Workflow section");
    (txt "## Failed Attempts", txt "Failed Attempts section (REQUIRED)");
    (txt "## Results", txt "Results & Parameters section") ].

(** The text the table check of [validate_skill_md] looks at:
    [content.split("## Failed Attempts")[1].split("##")[0]]. *)
Definition failed_section (content : str) : str :=
  item 0 (split (txt "##") (item 1 (split (txt "## Failed Attempts") content))).

(** The checks of [validate_skill_md] on the text of the document (from
    "Check for YAML frontmatter" to the [return]). *)
Definition skill_checks (content : str) : list str * list str :=
  let errors : list str := [] in
  let warnings : list str := [] in
  let errors :=
    if negb (startswith (txt "---") content)
    then errors ++ [txt "SKILL.md missing YAML frontmatter (must start with ---)"]
    else errors in
  let '(errors, warnings) :=
    fold_left
      (fun (ew : list str * list str) (sec : str * str) =>
         let '(section_marker, section_name) := sec in
         if negb (contains section_marker content)
         then if contains (txt "Failed Attempts") section_name
              then (fst ew ++ [txt "Missing " ++ section_name], snd ew)
              else (fst ew, snd ew ++ [txt "Missing " ++ section_name])
         else ew)
      required_sections (errors, warnings) in
  let warnings :=
    if contains (txt "## Failed Attempts") content
    then if negb (contains (txt "|") (failed_section content))
         then warnings ++ [txt "Failed Attempts section should contain a table"]
         else warnings
    else warnings in
  (errors, warnings).

Definition validate_skill_md (fs : node) (plugin_dir : path) (plugin_data : json)
    : list str * list str :=
  let errors : list str := [] in
  let warnings : list str := [] in
  let skills_dir := plugin_dir ++ [txt "skills"] in
  if negb (exists_ fs skills_dir)
  then (errors ++ [txt "Missing skills/ directory"], warnings)
  else
    match glob_star fs skills_dir (txt "SKILL.md") with
    | [] => (errors ++ [txt "No SKILL.md found in skills/ subdirectories"], warnings)
    | skill_md_path :: _ =>
        match read_text fs skill_md_path with
        | Raise e => (errors ++ [txt "Failed to read SKILL.md: " ++ exn_text e], warnings)
        | Ret content => skill_checks content
        end
    end.

Definition validate_plugin (load : decoder) (fs : node) (plugin_dir : path)
    : res ValidationResult :=
  j <- validate_plugin_json load fs plugin_dir ;;
  let '(json_errors, json_warnings, plugin_data) := j in
  let '(skill_errors, skill_warnings) := validate_skill_md fs plugin_dir plugin_data in
  let errors := json_errors ++ skill_errors in
  let warnings := json_warnings ++ skill_warnings in
  Ret {| plugin_path := plugin_dir;
         is_valid := length errors =? 0;
         errors := errors;
         warnings := warnings |}.

Definition find_plugins (fs : node) (plugins_dir : path) : res (list path) :=
  category_dirs <- iterdir fs plugins_dir ;;
  for_each
    (fun plugins category_dir =>
       if negb (is_dir fs category_dir) then Ret plugins
       else if startswith (txt ".") (name category_dir) then Ret plugins
       else
         plugin_dirs <- iterdir fs category_dir ;;
         for_each
           (fun plugins plugin_dir =>
              if negb (is_dir fs plugin_dir) then Ret plugins
              else if startswith (txt ".") (name plugin_dir) then Ret plugins
              else if exists_ fs (plugin_dir ++ [txt ".claude-plugin"])
                      || exists_ fs (plugin_dir ++ [txt "skills"])
                   then Ret (plugins ++ [plugin_dir])
                   else Ret plugins)
           plugins plugin_dirs)
    [] category_dirs.

(** [main()], with [sys.argv] as [argv]; the value is the one it
    returns. *)
Definition main (load : decoder) (fs : node) (argv : list str) : res Z :=
  let plugins_dir := plugins_dir_of argv in
  if negb (exists_ fs plugins_dir) then Ret 1%Z
  else
    plugins <- find_plugins fs plugins_dir ;;
    match plugins with
    | [] => Ret 0%Z
    | _ =>
        results <- mapM (validate_plugin load fs) plugins ;;
        let total := length results in
        let passed := length (filter is_valid results) in
        let failed := total - passed in
        Ret (if 0 <? failed then 1%Z else 0%Z)
    end.

(** [sys.exit(main())]: the exit status of the process.  An exception
    that leaves [main] ends the interpreter with status 1. *)
Definition exit_status (r : res Z) : Z :=
  match r with
  | Ret code => code
  | Raise _ => 1%Z
  end.

End ValidatePlugins.

(* ================================================================== *)
(** * scripts/generate_marketplace.py *)
(* ================================================================== *)

Module GenerateMarketplace.
Import Py Json Fs PyNotations.

(** One element of the [plugins] array. *)
Record entry : Type :=
  { e_name : json;
    e_description : json;
    e_version : json;
    e_source : str;
    e_category : json;
    e_tags : json }.

Record owner_t : Type := { o_name : str; o_url : str }.

Record marketplace : Type :=
  { m_name : str;
    m_owner : owner_t;
    m_description : str;
    m_version : str;
    m_plugins : list entry }.

(** The result is [None] or the dict. *)
Definition load_plugin_metadata (load : decoder) (fs : node) (plugin_dir : path)
    : res (option (list (str * json))) :=
  let plugin_json_path := ValidatePlugins.manifest_path plugin_dir in
  if negb (exists_ fs plugin_json_path) then Ret None
  else
    text <- read_text fs plugin_json_path ;;
    match load text with
    | JSONDecodeError _ => Ret None
    | Decoded (JObj data) =>
        (* Get category from parent directory if not in plugin.json *)
        let data :=
          if negb (has_key (txt "category") data)
          then dict_set (txt "category") (JStr (name (parent plugin_dir))) data
          else data in
        (* Add path to plugin *)
        let data := dict_set (txt "path") (JStr (to_str plugin_dir)) data in
        Ret (Some data)
    | Decoded _ =>
        (* a list, a string, a number or null: the membership test or the
           item assignment raises *)
        Raise TypeError
    end.

Definition find_plugins (fs : node) (plugins_dir : path) : res (list path) :=
  category_dirs <- iterdir fs plugins_dir ;;
  for_each
    (fun plugins category_dir =>
       if negb (is_dir fs category_dir) then Ret plugins
       else if startswith (txt ".") (name category_dir) then Ret plugins
       else
         plugin_dirs <- iterdir fs category_dir ;;
         for_each
           (fun plugins plugin_dir =>
              if negb (is_dir fs plugin_dir) then Ret plugins
              else if startswith (txt ".") (name plugin_dir) then Ret plugins
              else if exists_ fs (plugin_dir ++ [txt ".claude-plugin"; txt "plugin.json"])
                   then Ret (plugins ++ [plugin_dir])
                   else Ret plugins)
           plugins plugin_dirs)
    [] category_dirs.

(** The key of [plugin_entries.sort]. *)
Definition sort_key (x : entry) : json * json := (e_category x, e_name x).

(** [list.sort(key=...)].  CPython sorts with a stable merge sort that
    only asks [<] of the keys; the model is the stable insertion sort,
    which returns the same list whenever [<] orders the keys (as it does
    for strings).  A new element goes before the first one it is less
    than; a comparison that raises ends the sort. *)
Fixpoint insert_sorted (x : entry) (l : list entry) : res (list entry) :=
  match l with
  | [] => Ret [x]
  | y :: l' =>
      lt <- pair_lt (sort_key x) (sort_key y) ;;
      if lt then Ret (x :: l)
      else l'' <- insert_sorted x l' ;; Ret (y :: l'')
  end.

Definition sort_entries (l : list entry) : res (list entry) :=
  for_each (fun acc x => insert_sorted x acc) [] l.

(** The loop of [generate_marketplace] that fills [plugin_entries]. *)
Definition collect_entries (load : decoder) (fs : node) (plugins_dir : path)
    (plugins : list path) : res (list entry) :=
  for_each
    (fun plugin_entries plugin_path =>
       metadata <- load_plugin_metadata load fs plugin_path ;;
       match metadata with
       | Some metadata =>
           let entry :=
             {| e_name := dict_get (txt "name") (JStr (name plugin_path)) metadata;
                e_description := dict_get (txt "description") (JStr []) metadata;
                e_version := dict_get (txt "version") (JStr (txt "1.0.0")) metadata;
                e_source :=
                  txt "./" ++
                  to_str (relative_to (parent plugins_dir) plugin_path);
                e_category := dict_get (txt "category") (JStr (txt "unknown")) metadata;
                e_tags := dict_get (txt "tags") (JArr []) metadata |} in
           Ret (plugin_entries ++ [entry])
       | None => Ret plugin_entries
       end)
    [] plugins.

Definition generate_marketplace (load : decoder) (fs : node) (plugins_dir : path)
    : res marketplace :=
  plugins <- find_plugins fs plugins_dir ;;
  plugin_entries <- collect_entries load fs plugins_dir plugins ;;
  (* Sort by category then name *)
  plugin_entries <- sort_entries plugin_entries ;;
  Ret {| m_name := txt "ProjectMnemosyne";
         m_owner :=
           {| o_name := txt "HomericIntelligence";
              o_url := txt "https://github.com/HomericIntelligence" |};
         m_description :=
           txt "Skills marketplace for the HomericIntelligence agentic ecosystem";
         m_version := txt "1.0.0";
         m_plugins := plugin_entries |}.

(** [main()]: the value it returns and the index it writes, if it gets
    that far.  The serialisation by [json.dump] is not modelled, and the
    write is taken to succeed: [mkdir] and [open] can raise where the
    output path cannot be made or written. *)
Definition main (load : decoder) (fs : node) (argv : list str)
    : res (Z * option (path * marketplace)) :=
  let output_file_arg :=
    if 2 <? length argv then item 2 argv
    else txt ".claude-plugin/marketplace.json" in
  let plugins_dir := plugins_dir_of argv in
  let output_file := Path output_file_arg in
  if negb (exists_ fs plugins_dir) then Ret (1%Z, None)
  else
    marketplace <- generate_marketplace load fs plugins_dir ;;
    Ret (0%Z, Some (output_file, marketplace)).

End GenerateMarketplace.

(* ================================================================== *)
(** * scripts/fix_validation_warnings.py *)
(* ================================================================== *)

Module FixValidationWarnings.
Import Py Re ReNotations.

Definition found (m : option mobj) : bool :=
  match m with Some _ => true | None => false end.

Definition quote : atom := Class [("034", "034"); ("039", "039")]%char.

(** [r'^date:\s*["\']?([0-9-]+)["\']?'] *)
Definition date_line : regex :=
  Bol ;;; Lit (txt "date:") ;;; Star Space ;;; Opt quote ;;;
  Grp 1 (Plus (Class [("0", "9"); ("-", "-")]%char)) ;;; Opt quote.

Definition extract_frontmatter_date (content : str) : str :=
  match search MULTILINE date_line content with
  | Some m => group 1 m content
  | None => txt "N/A"
  end.

(** The [for line in lines] loop of [extract_objective]; the result is
    [objective_lines] when the loop ends or breaks. *)
Fixpoint objective_loop (lines : list str) (in_frontmatter past_title : bool)
    (objective_lines : list str) : list str :=
  match lines with
  | [] => objective_lines
  | line :: lines' =>
      if str_eqb (strip line) (txt "---")
      then objective_loop lines' (negb in_frontmatter) past_title objective_lines
      else if in_frontmatter
      then objective_loop lines' in_frontmatter past_title objective_lines
      else if startswith (txt "# ") line
      then objective_loop lines' in_frontmatter true objective_lines
      else if past_title && negb (length (strip line) =? 0)
                 && negb (startswith (txt "#") line)
      then
        let objective_lines := objective_lines ++ [strip line] in
        if 100 <? length (join (txt " ") objective_lines)
        then objective_lines
        else objective_loop lines' in_frontmatter past_title objective_lines
      else objective_loop lines' in_frontmatter past_title objective_lines
  end.

Definition extract_objective (content : str) : str :=
  let lines := split [nl] content in
  let objective_lines := objective_loop lines false false [] in
  let objective := join (txt " ") objective_lines in
  let objective :=
    if 150 <? length objective then firstn 147 objective ++ txt "..."
    else objective in
  match objective with
  | [] => txt "Document workflow and best practices"
  | _ => objective
  end.

(** [r'^## Overview'] *)
Definition has_overview_section (content : str) : bool :=
  found (search MULTILINE (Bol ;;; Lit (txt "## Overview")) content).

(** [r'^## Verified Workflow'] *)
Definition has_verified_workflow_section (content : str) : bool :=
  found (search MULTILINE (Bol ;;; Lit (txt "## Verified Workflow")) content).

(** [r'^## Results'] *)
Definition has_results_section (content : str) : bool :=
  found (search MULTILINE (Bol ;;; Lit (txt "## Results")) content).

(** [r'^## Failed Attempts\s*$(.*?)^##'] *)
Definition failed_attempts_up_to_heading : regex :=
  Bol ;;; Lit (txt "## Failed Attempts") ;;; Star Space ;;; Eol ;;;
  Grp 1 (LazyStar Any) ;;; Bol ;;; Lit (txt "##").

Definition has_failed_attempts_table (content : str) : bool :=
  match search MULTILINE_DOTALL failed_attempts_up_to_heading content with
  | None => true
  | Some m => contains (txt "|") (group 1 m content)
  end.

(** The [for i, line in enumerate(lines)] loop of [add_overview_section];
    the result is [insert_pos]. *)
Fixpoint title_pos (lines : list str) (i : nat) (in_frontmatter : bool) : nat :=
  match lines with
  | [] => 0
  | line :: lines' =>
      if str_eqb (strip line) (txt "---")
      then title_pos lines' (S i) (negb in_frontmatter)
      else if negb in_frontmatter && startswith (txt "# ") line
      then S i
      else title_pos lines' (S i) in_frontmatter
  end.

Definition add_overview_section (content : str) : str :=
  let date := extract_frontmatter_date content in
  let objective := extract_objective content in
  let overview_table :=
    text_of_lines [""; "## Overview"; ""; "| Item | Details |";
                   "|------|---------|"] ++
    [nl] ++ txt "| Date | " ++ date ++ txt " |" ++
    [nl] ++ txt "| Objective | " ++ objective ++ txt " |" ++
    [nl] ++ text_of_lines ["| Outcome | Operational |"; ""] in
  let lines := split [nl] content in
  let insert_pos := title_pos lines 0 false in
  join [nl] (firstn insert_pos lines ++ [overview_table] ++ skipn insert_pos lines).

(** [r'^## Workflow$'] *)
Definition workflow_heading : regex := Bol ;;; Lit (txt "## Workflow") ;;; Eol.

Definition rename_workflow_to_verified (content : str) : str :=
  if has_verified_workflow_section content then content
  else sub MULTILINE workflow_heading (txt "## Verified Workflow") content.

Definition add_results_section (content : str) : str :=
  let results_section :=
    text_of_lines [""; "## Results & Parameters"; "";
                   "N/A — this skill describes a workflow pattern."; ""] in
  if contains (txt "## References") content
  then replace (txt "## References")
         (results_section ++ [nl] ++ txt "## References") content
  else rstrip content ++ [nl] ++ results_section.

(** [r'^## Failed Attempts\s*$'] *)
Definition failed_attempts_heading : regex :=
  Bol ;;; Lit (txt "## Failed Attempts") ;;; Star Space ;;; Eol.

(** [r'^## Failed Attempts\s*$(.*?)(?:^##|\Z)'] *)
Definition failed_attempts_section : regex :=
  Bol ;;; Lit (txt "## Failed Attempts") ;;; Star Space ;;; Eol ;;;
  Grp 1 (LazyStar Any) ;;; Alt (Bol ;;; Lit (txt "##")) EndZ.

Definition add_failed_attempts_table (content : str) : str :=
  match search MULTILINE failed_attempts_heading content with
  | None => content
  | Some m =>
      match search MULTILINE_DOTALL failed_attempts_section content with
      | None => content
      | Some section_match =>
          let section_content := group 1 section_match content in
          let has_subsections :=
            found (search MULTILINE (Bol ;;; Lit (txt "###")) section_content) in
          let table :=
            if has_subsections
            then text_of_lines
                   [""; ""; "| Attempt | Why Failed | Lesson |";
                    "|---------|-----------|--------|";
                    "| See detailed subsections below | Various technical issues | Refer to individual attempt details |";
                    ""]
            else text_of_lines
                   [""; ""; "| Attempt | Why Failed | Lesson |";
                    "|---------|-----------|--------|";
                    "| Initial approach | See details below | Refer to notes in this section |";
                    ""] in
          let insert_pos := m_end m in
          firstn insert_pos content ++ table ++ skipn insert_pos content
      end
  end.

(** The four fixes of [fix_skill_file], in order: the patched content and
    the list [fixes]. *)
Definition apply_fixes (content : str) : str * list str :=
  let fixes : list str := [] in
  (* Fix 1: Add Overview if missing *)
  let '(content, fixes) :=
    if negb (has_overview_section content)
    then (add_overview_section content, fixes ++ [txt "Added ## Overview table"])
    else (content, fixes) in
  (* Fix 2: Rename Workflow to Verified Workflow *)
  let '(content, fixes) :=
    if negb (has_verified_workflow_section content)
    then
      let new_content := rename_workflow_to_verified content in
      if negb (str_eqb new_content content)
      then (new_content, fixes ++ [txt "Renamed ## Workflow to ## Verified Workflow"])
      else (content, fixes)
    else (content, fixes) in
  (* Fix 3: Add Results section if missing *)
  let '(content, fixes) :=
    if negb (has_results_section content)
    then (add_results_section content, fixes ++ [txt "Added ## Results & Parameters"])
    else (content, fixes) in
  (* Fix 4: Add Failed Attempts table if missing *)
  let '(content, fixes) :=
    if negb (has_failed_attempts_table content)
    then (add_failed_attempts_table content,
          fixes ++ [txt "Added Failed Attempts summary table"])
    else (content, fixes) in
  (content, fixes).

(** What a call of [fix_skill_file] leaves behind: the pair it returns,
    and the text it gave to [write_file] ([None]: no call). *)
Record run : Type :=
  { modified : bool; fixes_applied : list str; written : option str }.

(** [fix_skill_file] on a file whose text is [original_content]. *)
Definition fix_skill_file (original_content : str) : run :=
  let '(content, fixes) := apply_fixes original_content in
  if negb (str_eqb content original_content)
  then {| modified := true; fixes_applied := fixes; written := Some content |}
  else {| modified := false; fixes_applied := []; written := None |}.

(** The text of the file after the call. *)
Definition file_after (original_content : str) : str :=
  match written (fix_skill_file original_content) with
  | Some content => content
  | None => original_content
  end.

End FixValidationWarnings.

(* ================================================================== *)
(** * scripts/fix_failed_attempts_tables.py *)
(* ================================================================== *)

Module FixFailedAttemptsTables.
Import Py Re ReNotations.

(** [r'^## Failed Attempts.*?$(.*?)(?:^##|\Z)'] *)
Definition failed_attempts_section : regex :=
  Bol ;;; Lit (txt "## Failed Attempts") ;;; LazyStar Any ;;; Eol ;;;
  Grp 1 (LazyStar Any) ;;; Alt (Bol ;;; Lit (txt "##")) EndZ.

Definition has_failed_attempts_table (content : str) : bool :=
  match search MULTILINE_DOTALL failed_attempts_section content with
  | None => true
  | Some m => contains (txt "|") (group 1 m content)
  end.

Record attempt : Type := { title : str; position : nat }.

(** The three patterns of [attempt_patterns], in order. *)
Definition attempt_patterns : list regex :=
  [ (* r'###\s*❌\s*Attempt\s+\d+:\s*(.+?)$' *)
    Lit (txt "###") ;;; Star Space ;;; Lit (txt "❌") ;;; Star Space ;;;
    Lit (txt "Attempt") ;;; Plus Space ;;; Plus Digit ;;; Lit (txt ":") ;;;
    Star Space ;;; Grp 1 (LazyPlus Any) ;;; Eol;
    (* r'###\s*Attempt\s+\d+:\s*(.+?)$' *)
    Lit (txt "###") ;;; Star Space ;;; Lit (txt "Attempt") ;;; Plus Space ;;;
    Plus Digit ;;; Lit (txt ":") ;;; Star Space ;;; Grp 1 (LazyPlus Any) ;;; Eol;
    (* r'###\s*(.+?)$' *)
    Lit (txt "###") ;;; Star Space ;;; Grp 1 (LazyPlus Any) ;;; Eol ].

(** The loop over the patterns: the first one with a match gives the
    attempts, at most three. *)
Fixpoint attempts_of (patterns : list regex) (section_content : str)
    : list attempt :=
  match patterns with
  | [] => []
  | pattern :: patterns' =>
      match finditer MULTILINE pattern section_content with
      | [] => attempts_of patterns' section_content
      | matches =>
          map (fun m =>
                 {| title := strip (group 1 m section_content);
                    position := m_start m |})
              (firstn 3 matches)
      end
  end.

Definition extract_attempts_from_subsections (section_content : str)
    : list attempt :=
  attempts_of attempt_patterns section_content.

(** The rows of the table, numbered from [i]. *)
Fixpoint attempt_rows (i : nat) (attempts : list attempt) : str :=
  match attempts with
  | [] => []
  | a :: attempts' =>
      let title := title a in
      let title :=
        if 50 <? length title then firstn 47 title ++ txt "..." else title in
      txt "| " ++ str_of_nat i ++ txt ". " ++ title ++
      txt " | See details below | Documented in subsections |" ++ [nl] ++
      attempt_rows (S i) attempts'
  end.

Definition generate_summary_table (section_content : str) : str :=
  match extract_attempts_from_subsections section_content with
  | [] =>
      text_of_lines
        [""; "| Attempt | Issue | Resolution |";
         "|---------|-------|------------|";
         "| See detailed notes below | Various approaches tried | Refer to documentation in this section |";
         ""]
  | attempts =>
      text_of_lines
        [""; "| Attempt | Issue | Resolution |";
         "|---------|-------|------------|"; ""] ++
      attempt_rows 1 attempts
  end.

(** [r'^## Failed Attempts.*?$'] *)
Definition failed_attempts_heading : regex :=
  Bol ;;; Lit (txt "## Failed Attempts") ;;; LazyStar Any ;;; Eol.

Definition add_failed_attempts_table (content : str) : str :=
  match search MULTILINE failed_attempts_heading content with
  | None => content
  | Some m =>
      match search MULTILINE_DOTALL failed_attempts_section content with
      | None => content
      | Some section_match =>
          let section_content := group 1 section_match content in
          let table := generate_summary_table section_content in
          let insert_pos := m_end m in
          firstn insert_pos content ++ table ++ skipn insert_pos content
      end
  end.

(** What a call of [fix_skill_file] leaves behind: the pair it returns,
    and the text it gave to [write_file] ([None]: no call). *)
Record run : Type :=
  { modified : bool; description : str; written : option str }.

Definition fix_skill_file (content : str) : run :=
  if has_failed_attempts_table content
  then {| modified := false; description := txt "Already has table"; written := None |}
  else
    let original_content := content in
    let content := add_failed_attempts_table content in
    if negb (str_eqb content original_content)
    then {| modified := true; description := txt "Added summary table";
            written := Some content |}
    else {| modified := false; description := txt "No changes needed";
            written := None |}.

End FixFailedAttemptsTables.

(* ================================================================== *)
(** * scripts/fix_remaining_warnings.py *)
(* ================================================================== *)

Module FixRemainingWarnings.
Import Py Re ReNotations.

Definition found (m : option mobj) : bool :=
  match m with Some _ => true | None => false end.

(** [r'^## Verified Workflow'] *)
Definition has_verified_workflow_section (content : str) : bool :=
  found (search MULTILINE (Bol ;;; Lit (txt "## Verified Workflow")) content).

(** [r'^## Failed Attempts\s*$(.*?)(?:^##|\Z)'] *)
Definition failed_attempts_section : regex :=
  Bol ;;; Lit (txt "## Failed Attempts") ;;; Star Space ;;; Eol ;;;
  Grp 1 (LazyStar Any) ;;; Alt (Bol ;;; Lit (txt "##")) EndZ.

Definition has_failed_attempts_table (content : str) : bool :=
  match search MULTILINE_DOTALL failed_attempts_section content with
  | None => true
  | Some m => contains (txt "|") (group 1 m content)
  end.

Definition workflow_sections : list str :=
  map txt ["Quick Reference"; "Analysis Workflow"; "Workflow Steps";
           "Implementation Steps"; "Usage"].

(** [f'^## {section_name}$']: the names hold letters and blanks only. *)
Definition section_heading (section_name : str) : regex :=
  Bol ;;; Lit (txt "## " ++ section_name) ;;; Eol.

(** [f'## Verified Workflow\n\n### {section_name}'] *)
Definition wrapped_heading (section_name : str) : str :=
  txt "## Verified Workflow" ++ [nl; nl] ++ txt "### " ++ section_name.

(** The [for section_name in workflow_sections] loop: the first name
    with a heading line is wrapped, wherever that line stands, and the
    function returns. *)
Fixpoint wrap_first (names : list str) (content : str) : str :=
  match names with
  | [] => content
  | section_name :: names' =>
      let pattern := section_heading section_name in
      if found (search MULTILINE pattern content)
      then sub MULTILINE pattern (wrapped_heading section_name) content
      else wrap_first names' content
  end.

Definition add_verified_workflow_wrapper (content : str) : str :=
  wrap_first workflow_sections content.

Definition generic_table : str :=
  text_of_lines
    [""; ""; "| Approach | Issue | Resolution |";
     "|----------|-------|------------|";
     "| See details below | Various implementation challenges | Documented in this section |";
     ""].

(** When the section has a pipe the function looks at the line after the
    first line with a pipe and then returns [content] whatever it saw. *)
Definition improve_failed_attempts_table (content : str) : str :=
  match search MULTILINE_DOTALL failed_attempts_section content with
  | None => content
  | Some m =>
      let section_content := group 1 m content in
      if contains (txt "|") section_content then content
      else
        let insert_pos := m_end m in
        firstn insert_pos content ++ generic_table ++ skipn insert_pos content
  end.

(** The two fixes of [fix_skill_file], in order: the patched content and
    the list [fixes]. *)
Definition apply_fixes (original_content : str) : str * list str :=
  let content := original_content in
  let fixes : list str := [] in
  (* Fix 1: Add Verified Workflow wrapper *)
  let '(content, fixes) :=
    if negb (has_verified_workflow_section content)
    then
      let new_content := add_verified_workflow_wrapper content in
      if negb (str_eqb new_content content)
      then (new_content, fixes ++ [txt "Added ## Verified Workflow wrapper"])
      else (content, fixes)
    else (content, fixes) in
  (* Fix 2: Improve Failed Attempts table *)
  let '(content, fixes) :=
    if negb (has_failed_attempts_table content)
    then
      let content := improve_failed_attempts_table content in
      if negb (str_eqb content original_content)
         && match fixes with [] => true | _ => false end
      then (content, fixes ++ [txt "Improved Failed Attempts table"])
      else if negb (str_eqb content original_content)
      then (content, fixes ++ [txt "Improved Failed Attempts table"])
      else (content, fixes)
    else (content, fixes) in
  (content, fixes).

(** What a call of [fix_skill_file] leaves behind: the pair it returns,
    and the text it gave to [write_file] ([None]: no call). *)
Record run : Type :=
  { modified : bool; fixes_applied : list str; written : option str }.

Definition fix_skill_file (original_content : str) : run :=
  let '(content, fixes) := apply_fixes original_content in
  if negb (str_eqb content original_content)
  then {| modified := true; fixes_applied := fixes; written := Some content |}
  else {| modified := false; fixes_applied := []; written := None |}.

End FixRemainingWarnings.

(* ================================================================== *)
(** * scripts/add_user_invocable.py *)
(* ================================================================== *)

Module AddUserInvocable.
Import Py Re ReNotations.

(** [re.DOTALL] alone: [^] is the start of the text only. *)
Definition DOTALL : flags := {| multiline := false; dotall := true |}.

(** [r'^(---\n)(.*?)(---\n)'] *)
Definition pattern : regex :=
  Bol ;;; Grp 1 (Lit (txt "---" ++ [nl])) ;;; Grp 2 (LazyStar Any) ;;;
  Grp 3 (Lit (txt "---" ++ [nl])).

(** What a call of [add_user_invocable] leaves behind: the value it
    returns, and the text it gave to [write_text] ([None]: no call). *)
Record run : Type := { updated : bool; written : option str }.

(** [add_user_invocable] on a file whose text is [content]. *)
Definition add_user_invocable (content : str) : run :=
  if contains (txt "user-invocable:") content
  then {| updated := false; written := None |}
  else
    match match_ DOTALL pattern content with
    | None => {| updated := false; written := None |}
    | Some m =>
        let frontmatter := group 2 m content in
        let new_frontmatter :=
          rstrip frontmatter ++ [nl] ++ txt "user-invocable: false" ++ [nl] in
        let new_content :=
          txt "---" ++ [nl] ++ new_frontmatter ++ txt "---" ++ [nl] ++
          skipn (m_end m) content in
        {| updated := true; written := Some new_content |}
    end.

End AddUserInvocable.

(* ================================================================== *)
(** * plugins/tooling/skills-registry-commands/scripts/validate_plugins.py *)
(* ================================================================== *)

Module RegistryValidatePlugins.
Import Py Json Fs PyNotations.

Definition REQUIRED_FIELDS : list str := map txt ["name"; "version"; "description"].

Definition MIN_DESCRIPTION_LENGTH : nat := 20.

(** [k in v] for a string [k]: a key of a dict, an element of a list, a
    piece of a string; [TypeError] on a number, a boolean or [None]. *)
Definition py_in (k : str) (v : json) : res bool :=
  match v with
  | JObj kv => Ret (has_key k kv)
  | JArr l => Ret (existsb (py_eq (JStr k)) l)
  | JStr s => Ret (contains k s)
  | _ => Raise TypeError
  end.

(** [plugin.get(k, default)]; only a dict has [get]. *)
Definition py_get (k : str) (default : json) (v : json) : res json :=
  match v with
  | JObj kv => Ret (dict_get k default kv)
  | _ => Raise AttributeError
  end.

(** The checks of [validate_plugin] on a decoded manifest (from "Check
    required fields" to the [return]). *)
Definition manifest_checks (plugin : json) : res (list str) :=
  let errors : list str := [] in
  (* Check required fields *)
  errors <-
    for_each
      (fun errors field =>
         present <- py_in field plugin ;;
         if negb present
         then Ret (errors ++ [txt "Missing required field: " ++ field])
         else Ret errors)
      errors REQUIRED_FIELDS ;;
  (* Check description quality *)
  desc <- py_get (txt "description") (JStr []) plugin ;;
  n <- py_len desc ;;
  let errors :=
    if n <? MIN_DESCRIPTION_LENGTH
    then errors ++
         [txt "Description too short (" ++ str_of_nat n ++ txt " chars, min " ++
          str_of_nat MIN_DESCRIPTION_LENGTH ++ txt ")"]
    else errors in
  has_trigger <- py_in (txt "Use when:") desc ;;
  let errors :=
    if negb has_trigger
    then errors ++ [txt "Description should include 'Use when:' trigger conditions"]
    else errors in
  Ret errors.

(** [validate_plugin(plugin_path)]: [plugin_path] is the manifest file. *)
Definition validate_plugin (load : decoder) (fs : node) (plugin_path : path)
    : res (list str) :=
  text <- read_text fs plugin_path ;;
  match load text with
  | JSONDecodeError e => Ret [txt "Invalid JSON: " ++ e]
  | Decoded plugin => manifest_checks plugin
  end.

End RegistryValidatePlugins.

(* ================================================================== *)
(** * Sample inputs *)
(* ================================================================== *)

Module Examples.
Import Py Json Fs.

(** A text written with ['] where the file has a double quote. *)
Definition quoted (s : string) : str :=
  map (fun c => if Ascii.eqb c "'"%char then "034"%char else c) (txt s).

(** The manifest of the scenario of the specification. *)
Definition demo_text : str :=
  quoted "{'name': 'Demo_Tool', 'version':'1.0.0', 'description':'short', 'category':'bogus', 'date':'2024-13-40', 'tags':'x'}".

Definition demo_manifest : json :=
  JObj [ (txt "name", JStr (txt "Demo_Tool"));
         (txt "version", JStr (txt "1.0.0"));
         (txt "description", JStr (txt "short"));
         (txt "category", JStr (txt "bogus"));
         (txt "date", JStr (txt "2024-13-40"));
         (txt "tags", JStr (txt "x")) ].

(** A manifest that passes every check. *)
Definition good_text (name : string) : str :=
  quoted "{'name': '" ++ txt name ++
  quoted "', 'version': '1.0.0', 'description': 'Use when: a demo is needed', 'category': 'tooling', 'date': '2024-01-31', 'tags': ['demo']}".

Definition good_manifest (name : string) : json :=
  JObj [ (txt "name", JStr (txt name));
         (txt "version", JStr (txt "1.0.0"));
         (txt "description", JStr (txt "Use when: a demo is needed"));
         (txt "category", JStr (txt "tooling"));
         (txt "date", JStr (txt "2024-01-31"));
         (txt "tags", JArr [JStr (txt "demo")]) ].

(** [json.load] on the texts of the samples: the five documents below
    decode to their values; any other text of the samples is not JSON
    from its first character on, and gets the message [json] gives
    then. *)
Definition sample_decoder : decoder :=
  fun text =>
    if str_eqb text demo_text then Decoded demo_manifest
    else if str_eqb text (good_text "alpha") then Decoded (good_manifest "alpha")
    else if str_eqb text (good_text "beta") then Decoded (good_manifest "beta")
    else if str_eqb text (txt "[]") then Decoded (JArr [])
    else if str_eqb text (txt "42") then Decoded (JNum 42)
    else JSONDecodeError (txt "Expecting value: line 1 column 1 (char 0)").

(** A skill document with every required section and a table. *)
Definition good_skill : str :=
  text_of_lines
    ["---"; "name: demo"; "date: 2024-01-31"; "---"; "# Demo"; "";
     "## Overview"; ""; "| Item | Details |"; "|------|---------|"; "";
     "## When to Use"; ""; "Whenever."; "";
     "## Verified Workflow"; ""; "1. Do it."; "";
     "## Failed Attempts"; ""; "| Attempt | Why Failed | Lesson |";
     "|---------|-----------|--------|"; "| First | Broke | Test |"; "";
     "## Results & Parameters"; ""; "None."; ""].

(** A plugin directory: its manifest and one skill document. *)
Definition plugin (manifest skill : str) : node :=
  Dir [ (txt ".claude-plugin", Dir [(txt "plugin.json", File (Readable manifest))]);
        (txt "skills", Dir [(txt "main", Dir [(txt "SKILL.md", File (Readable skill))])]) ].

(** [plugins/tooling/] holding the plugins [ps]. *)
Definition tree (ps : list (str * node)) : node :=
  Dir [ (txt "plugins", Dir [(txt "tooling", Dir ps)]) ].

Definition in_tooling (name : string) : path :=
  [txt "plugins"; txt "tooling"; txt name].

(** One good plugin and the plugin of the scenario. *)
Definition demo_tree : node :=
  tree [ (txt "alpha", plugin (good_text "alpha") good_skill);
         (txt "demo", plugin demo_text good_skill) ].

(** Two good plugins, listed out of order. *)
Definition good_tree : node :=
  tree [ (txt "beta", plugin (good_text "beta") good_skill);
         (txt "alpha", plugin (good_text "alpha") good_skill) ].

(** The same two plugins, listed in order. *)
Definition good_tree_relisted : node :=
  tree [ (txt "alpha", plugin (good_text "alpha") good_skill);
         (txt "beta", plugin (good_text "beta") good_skill) ].

(** Two plugin directories whose manifests give the same name and the
    same category, and the same tree listed the other way round. *)
Definition twin_tree : node :=
  tree [ (txt "one", plugin (good_text "alpha") good_skill);
         (txt "two", plugin (good_text "alpha") good_skill) ].

Definition twin_tree_relisted : node :=
  tree [ (txt "two", plugin (good_text "alpha") good_skill);
         (txt "one", plugin (good_text "alpha") good_skill) ].

(** A manifest that is valid JSON but a list. *)
Definition list_tree : node :=
  tree [ (txt "alpha", plugin (good_text "alpha") good_skill);
         (txt "lst", plugin (txt "[]") good_skill) ].

(** A manifest that is not JSON. *)
Definition broken_tree : node :=
  tree [ (txt "broken", plugin (txt "not json") good_skill) ].

(** A plugin directory without a manifest. *)
Definition bare_tree : node :=
  tree [ (txt "bare", Dir [(txt ".claude-plugin", Dir [])]) ].

(** No [plugins] directory at all. *)
Definition empty_tree : node := Dir [].

Definition argv0 : list str := [txt "validate_plugins.py"].

(** ** Skill documents *)

(** A skill document whose Overview is a subsection. *)
Definition overview_as_subheading : str :=
  text_of_lines
    ["---"; "### Overview"; "## When to Use"; "## Verified Workflow";
     "## Failed Attempts"; "| a | b |"; "## Results"; ""].

(** A skill document with a table under a subsection of Failed Attempts,
    and one with two hashes inside a line of the section. *)
Definition table_under_subsection : str :=
  text_of_lines
    ["---"; "## Failed Attempts"; ""; "### Attempt 1"; ""; "| a | b |"; "";
     "## Results"; ""].

Definition hashes_inside_a_line : str :=
  text_of_lines
    ["---"; "## Failed Attempts"; ""; "See issue ##12 | not fixed"; "";
     "## Results"; ""].

(** A skill document whose last line is [## Workflow] followed by a
    blank. *)
Definition workflow_with_trailing_blank : str :=
  text_of_lines ["## Overview"; "## Workflow "; ""].

(** A skill document with [## References] on the line of [## Workflow]. *)
Definition workflow_before_references : str :=
  text_of_lines ["## Overview"; "## Workflow## References"; ""].

(** The document of the scenario of the specification. *)
Definition wrong_config_document : str :=
  text_of_lines
    ["## Failed Attempts"; ""; "### Attempt 1: Wrong config"; "Details"; ""].

End Examples.

(* ================================================================== *)
(** * Notions the statements use *)
(* ================================================================== *)

Import Py Re ReNotations Json Fs PyNotations Examples.

Unset Implicit Arguments.
Arguments txt : simpl never.

(** [sub] occurs in [s] at offset [i]. *)
Definition occurs_at (sub : str) (i : nat) (s : str) : Prop :=
  startswith sub (skipn i s) = true.

(** [content] has a line that is exactly [h]. *)
Definition has_line (h content : str) : bool :=
  existsb (str_eqb h) (split [nl] content).

(** A line of a document that is a level-2 heading: it starts with two
    hashes and not with three. *)
Definition is_h2 (line : str) : bool :=
  startswith (txt "##") line && negb (startswith (txt "###") line).

Fixpoint until_h2 (lines : list str) : list str :=
  match lines with
  | [] => []
  | l :: ls => if is_h2 l then [] else l :: until_h2 ls
  end.

Fixpoint lines_after (heading : str) (lines : list str) : option (list str) :=
  match lines with
  | [] => None
  | l :: ls => if str_eqb l heading then Some (until_h2 ls) else lines_after heading ls
  end.

(** The body of a section as the claim describes it: the lines between
    the heading line and the next level-2 heading line, or the end. *)
Definition section_body (heading content : str) : option (list str) :=
  lines_after heading (split [nl] content).

(** The sort key of an entry whose category and name are strings. *)
Definition key_of (e : GenerateMarketplace.entry) : option (str * str) :=
  match GenerateMarketplace.e_category e, GenerateMarketplace.e_name e with
  | JStr c, JStr n => Some (c, n)
  | _, _ => None
  end.

(** The category and the name of an entry are strings. *)
Definition string_keyed (e : GenerateMarketplace.entry) : Prop :=
  exists c n, GenerateMarketplace.e_category e = JStr c /\
              GenerateMarketplace.e_name e = JStr n.

(** Pairs of strings, compared as Python compares tuples of strings:
    by category, then by name. *)
Definition key_cmp (a b : str * str) : comparison :=
  match str_cmp (fst a) (fst b) with
  | Eq => str_cmp (snd a) (snd b)
  | c => c
  end.

(** [x] comes no later than [y] in ascending (category, name) order. *)
Definition entry_le (x y : GenerateMarketplace.entry) : Prop :=
  exists kx ky, key_of x = Some kx /\ key_of y = Some ky /\ key_cmp kx ky <> Gt.

(** A manifest value under key [k] is a string, or there is none. *)
Definition string_or_absent (k : str) (kv : list (str * json)) : Prop :=
  match dict_find k kv with
  | Some (JStr _) | None => True
  | Some _ => False
  end.

(** A plugin directory whose manifest the index builder can take: there
    is no manifest; or the manifest is not JSON; or it is a JSON object
    whose name and category, where given, are strings. *)
Definition manifest_for_index (load : decoder) (fs : node) (plugin_dir : path) : Prop :=
  exists_ fs (ValidatePlugins.manifest_path plugin_dir) = false \/
  exists text,
    read_text fs (ValidatePlugins.manifest_path plugin_dir) = Ret text /\
    match load text with
    | JSONDecodeError _ => True
    | Decoded (JObj kv) =>
        string_or_absent (txt "name") kv /\ string_or_absent (txt "category") kv
    | Decoded _ => False
    end.

(** The insertion of the sort, when no comparison raises. *)
Fixpoint place (x : GenerateMarketplace.entry) (l : list GenerateMarketplace.entry)
    : list GenerateMarketplace.entry :=
  match l with
  | [] => [x]
  | y :: l' =>
      match key_of x, key_of y with
      | Some kx, Some ky =>
          match key_cmp kx ky with
          | Lt => x :: l
          | _ => y :: place x l'
          end
      | _, _ => y :: place x l'
      end
  end.

(** ** Discovery *)

(** The entries of the directory [p], as paths, in listing order. *)
Definition children (fs : node) (p : path) : list path :=
  match lookup fs p with
  | Some (Dir es) => map (fun e => p ++ [fst e]) es
  | _ => []
  end.

(** A directory whose name does not start with a dot. *)
Definition visible_dir (fs : node) (q : path) : bool :=
  is_dir fs q && negb (startswith (txt ".") (name q)).

(** The marker of a plugin directory for the validator: it has a
    [.claude-plugin] or a [skills] entry. *)
Definition plugin_marker (fs : node) (q : path) : bool :=
  exists_ fs (q ++ [txt ".claude-plugin"]) || exists_ fs (q ++ [txt "skills"]).

(** The marker for the index builder: the manifest file exists. *)
Definition has_manifest (fs : node) (q : path) : bool :=
  exists_ fs (ValidatePlugins.manifest_path q).

(** ** Reading a pattern *)

(** The character before the cursor once [w] has been read. *)
Definition last_opt (w : str) (p : option ascii) : option ascii :=
  fold_left (fun _ c => Some c) w p.

(** The longest prefix of characters that pass [ok], and what follows
    it. *)
Fixpoint take_while (ok : ascii -> bool) (s : str) : str :=
  match s with
  | c :: s' => if ok c then c :: take_while ok s' else []
  | [] => []
  end.

Fixpoint drop_while (ok : ascii -> bool) (s : str) : str :=
  match s with
  | c :: s' => if ok c then drop_while ok s' else s
  | [] => []
  end.

(** ** The manifest rules *)

(** A character of a plugin name: a lowercase letter, a digit or a
    hyphen. *)
Definition name_char (c : ascii) : bool :=
  existsb (in_range c) [("a", "z"); ("0", "9"); ("-", "-")]%char.

(** A name the validator takes: one name character or more, then nothing
    or one newline. *)
Definition valid_name (s : str) : bool :=
  negb (length (take_while name_char s) =? 0) &&
  (let r := drop_while name_char s in str_eqb r [] || str_eqb r [nl]).

Definition digit (c : ascii) : bool := in_range c ("0", "9")%char.

Definition hyphen (c : ascii) : bool := Ascii.eqb "-"%char c.

(** A date the validator takes: four digits, a hyphen, two digits, a
    hyphen, two digits, then nothing or one newline. *)
Definition valid_date (s : str) : bool :=
  match s with
  | y1 :: y2 :: y3 :: y4 :: h1 :: m1 :: m2 :: h2 :: d1 :: d2 :: r =>
      digit y1 && digit y2 && digit y3 && digit y4 && hyphen h1 &&
      digit m1 && digit m2 && hyphen h2 && digit d1 && digit d2 &&
      (str_eqb r [] || str_eqb r [nl])
  | _ => false
  end.

(** ** The messages of the manifest checks *)

(** The value under [k], where there is one, passes [good]. *)
Definition field_ok (k : str) (good : json -> bool) (kv : list (str * json)) : bool :=
  match dict_find k kv with Some v => good v | None => true end.

Definition is_str (v : json) : bool :=
  match v with JStr _ => true | _ => false end.

(** [len(v)] is defined. *)
Definition has_len (v : json) : bool :=
  match v with JStr _ | JArr _ | JObj _ => true | _ => false end.

(** [v] can be looked up in a set. *)
Definition hashable (v : json) : bool :=
  match v with JArr _ | JObj _ => false | _ => true end.

(** A text of ASCII characters: on it the embedding counts and
    classifies as Python does. *)
Definition ascii_text (s : str) : bool :=
  forallb (fun c => nat_of_ascii c <? 128) s.

(** [v] is no string, or a string of ASCII characters. *)
Definition ascii_json (v : json) : bool :=
  match v with JStr s => ascii_text s | _ => true end.

(** The fields of a manifest have types the checks can take: the name
    and the date are strings, the description has a length, the category
    can be hashed. *)
Definition well_typed (kv : list (str * json)) : bool :=
  field_ok (txt "name") is_str kv && field_ok (txt "description") has_len kv &&
  field_ok (txt "category") hashable kv && field_ok (txt "date") is_str kv.

Definition missing_fields (kv : list (str * json)) : list str :=
  filter (fun f => negb (has_key f kv)) ValidatePlugins.REQUIRED_PLUGIN_FIELDS.

Definition missing_msgs (kv : list (str * json)) : list str :=
  match missing_fields kv with
  | [] => []
  | m => [txt "Missing required fields: " ++ join (txt ", ") (sorted_strs m)]
  end.

Definition name_msg (s : str) : str :=
  txt "Invalid name format '" ++ s ++ txt "' (use lowercase, numbers, hyphens)".

Definition name_msgs (kv : list (str * json)) : list str :=
  match dict_find (txt "name") kv with
  | Some (JStr s) => if valid_name s then [] else [name_msg s]
  | _ => []
  end.

Definition desc_msg (n : nat) : str :=
  txt "Description too short (" ++ str_of_nat n ++ txt " chars, min " ++
  str_of_nat ValidatePlugins.MIN_DESCRIPTION_LENGTH ++ txt ")".

Definition desc_msgs (kv : list (str * json)) : list str :=
  match dict_find (txt "description") kv with
  | Some d =>
      match py_len d with
      | Ret n => if n <? ValidatePlugins.MIN_DESCRIPTION_LENGTH then [desc_msg n] else []
      | Raise _ => []
      end
  | None => []
  end.

Definition category_msg (shown : str) : str :=
  txt "Invalid category '" ++ shown ++ txt "'. Valid: " ++
  join (txt ", ") (sorted_strs ValidatePlugins.VALID_CATEGORIES).

Definition valid_category (c : json) : bool :=
  match c with
  | JStr c => ValidatePlugins.mem c ValidatePlugins.VALID_CATEGORIES
  | _ => false
  end.

Definition category_msgs (kv : list (str * json)) : list str :=
  match dict_find (txt "category") kv with
  | Some c =>
      match py_str c with
      | Ret shown => if valid_category c then [] else [category_msg shown]
      | Raise _ => []
      end
  | None => []
  end.

Definition date_msg (s : str) : str :=
  txt "Invalid date format '" ++ s ++ txt "' (use YYYY-MM-DD)".

Definition date_msgs (kv : list (str * json)) : list str :=
  match dict_find (txt "date") kv with
  | Some (JStr s) => if valid_date s then [] else [date_msg s]
  | _ => []
  end.

Definition tags_msgs (kv : list (str * json)) : list str :=
  match dict_find (txt "tags") kv with
  | Some (JArr _) | None => []
  | Some _ => [txt "tags must be a list"]
  end.

Definition tags_warnings (kv : list (str * json)) : list str :=
  match dict_find (txt "tags") kv with
  | Some (JArr []) => [txt "No tags provided - reduces searchability"]
  | _ => []
  end.

(** The six required fields in alphabetical order. *)
Definition fields_in_order : list str :=
  map txt ["category"; "date"; "description"; "name"; "tags"; "version"].

(** ** The index *)

(** The manifest of a plugin directory, when the file is there, can be
    read and holds a JSON object. *)
Definition manifest_of (load : decoder) (fs : node) (plugin_dir : path)
    : option (list (str * json)) :=
  match read_text fs (ValidatePlugins.manifest_path plugin_dir) with
  | Ret text =>
      match load text with
      | Decoded (JObj kv) => Some kv
      | _ => None
      end
  | Raise _ => None
  end.

(** The entry of the index for the plugin directory [plugin_dir] under
    [plugins_dir], read off its manifest [kv]. *)
Definition entry_of (plugins_dir plugin_dir : path) (kv : list (str * json))
    : GenerateMarketplace.entry :=
  {| GenerateMarketplace.e_name := dict_get (txt "name") (JStr (name plugin_dir)) kv;
     GenerateMarketplace.e_description := dict_get (txt "description") (JStr []) kv;
     GenerateMarketplace.e_version := dict_get (txt "version") (JStr (txt "1.0.0")) kv;
     GenerateMarketplace.e_source :=
       txt "./" ++ to_str (relative_to (parent plugins_dir) plugin_dir);
     GenerateMarketplace.e_category :=
       dict_get (txt "category") (JStr (name (parent plugin_dir))) kv;
     GenerateMarketplace.e_tags := dict_get (txt "tags") (JArr []) kv |}.

Definition entries_of (load : decoder) (fs : node) (plugins_dir : path)
    (plugins : list path) : list GenerateMarketplace.entry :=
  flat_map
    (fun p =>
       match manifest_of load fs p with
       | Some kv => [entry_of plugins_dir p kv]
       | None => []
       end)
    plugins.

(** The entries of a list whose key is the pair of strings [(c, n)]. *)
Definition keyed (c n : str) (e : GenerateMarketplace.entry) : bool :=
  match key_of e with
  | Some (c', n') => str_eqb c c' && str_eqb n n'
  | None => false
  end.

(** ** Lines and sections of a document *)

(** The cursor is at the start of a line: at the start of the text or
    after a newline. *)
Definition bol (p : option ascii) : bool :=
  match p with
  | None => true
  | Some c => Ascii.eqb c nl
  end.

Definition not_nl (c : ascii) : bool := negb (Ascii.eqb c nl).

(** The number of characters up to the end of the line. *)
Definition line_len (s : str) : nat := length (take_while not_nl s).

(** The offset of the first line start at which [s] goes on with [h]. *)
Fixpoint find_line (h : str) (p : option ascii) (s : str) : option nat :=
  if bol p && startswith h s then Some 0
  else match s with
       | [] => None
       | c :: s' => option_map S (find_line h (Some c) s')
       end.

(** The character before offset [e] of [s]. *)
Definition char_before (e : nat) (s : str) : option ascii :=
  last_opt (firstn e s) None.

(** The length of the text from the cursor up to the next line that
    starts with two hashes, or to the end of the text. *)
Fixpoint body_len (p : option ascii) (s : str) : nat :=
  if bol p && startswith (txt "##") s then 0
  else match s with
       | [] => 0
       | c :: s' => S (body_len (Some c) s')
       end.

(** That text ends at a line that starts with two hashes, not at the end
    of the text. *)
Fixpoint ends_at_hashes (p : option ascii) (s : str) : bool :=
  if bol p && startswith (txt "##") s then true
  else match s with
       | [] => false
       | c :: s' => ends_at_hashes (Some c) s'
       end.

Definition failed_attempts : str := txt "## Failed Attempts".

(** Where the first line that starts with [## Failed Attempts] ends. *)
Definition heading_line_end (s : str) : option nat :=
  match find_line failed_attempts None s with
  | None => None
  | Some a => Some (a + 18 + line_len (skipn (a + 18) s))
  end.

(** The text of the section that starts at offset [e]. *)
Definition body_from (e : nat) (s : str) : str :=
  firstn (body_len (char_before e s) (skipn e s)) (skipn e s).

(** The match object a pattern that started at [st] leaves. *)
Definition final (st : nat) : cursor -> captures -> option mobj :=
  fun c' g => Some {| m_start := st; m_end := pos c'; m_groups := g; m_after := c' |}.

(** The cursor [j] characters on. *)
Definition advance (j : nat) (c : cursor) : cursor :=
  {| prev := last_opt (firstn j (rest c)) (prev c);
     rest := skipn j (rest c);
     pos := pos c + j |}.

(** The text of the file after a call of the table patcher's
    [fix_skill_file]. *)
Definition after_table_patch (content : str) : str :=
  match FixFailedAttemptsTables.written (FixFailedAttemptsTables.fix_skill_file content) with
  | Some new_content => new_content
  | None => content
  end.

(** A character of a date in the frontmatter: a digit or a hyphen. *)
Definition date_char (c : ascii) : bool :=
  existsb (in_range c) [("0", "9"); ("-", "-")]%char.

(** The text of the file after a call of [add_user_invocable]. *)
Definition after_user_invocable (content : str) : str :=
  match AddUserInvocable.written (AddUserInvocable.add_user_invocable content) with
  | Some new_content => new_content
  | None => content
  end.

(** The delimiter line of the frontmatter, with its newline. *)
Definition dashes : str := txt "---" ++ [nl].

(** ** Rewriting whole lines *)

(** What [re.sub(r'^old$', new, ...)] makes of one line. *)
Definition rename_line (old new l : str) : str :=
  if str_eqb l old then new else l.

(** The lines from a cursor on, rewritten: the first one is a whole line
    only when the cursor is at the start of a line. *)
Definition rename_from (old new : str) (p : option ascii) (lines : list str)
    : list str :=
  match lines with
  | [] => []
  | l :: lines' =>
      (if bol p then rename_line old new l else l) ::
      map (rename_line old new) lines'
  end.

(** ** The match of the Failed Attempts section *)

(** [\s*$] under [re.MULTILINE] with a rest of the pattern that always
    goes on: the number of white-space characters the greedy star keeps,
    up to the last place of the run where a line ends; [None] when the
    run has no such place. *)
Fixpoint space_stop (s : str) : option nat :=
  match s with
  | [] => Some 0
  | c :: s' =>
      match (if isspace c then space_stop s' else None) with
      | Some j => Some (S j)
      | None => if Ascii.eqb c nl then Some 0 else None
      end
  end.

(** Where [^## Failed Attempts\s*$(.*?)(?:^##|\Z)] matches first: the
    offset of the line, and the length of the white space the match
    takes after the heading. *)
Fixpoint find_section (p : option ascii) (s : str) : option (nat * nat) :=
  let next :=
    match s with
    | [] => None
    | c :: s' =>
        match find_section (Some c) s' with
        | Some (a, j) => Some (S a, j)
        | None => None
        end
    end in
  if bol p && startswith failed_attempts s
  then match space_stop (skipn 18 s) with
       | Some j => Some (0, j)
       | None => next
       end
  else next.

(** ** The same tree, listed in another order *)

(** [iterdir] yields the entries of a directory in an order the system
    chooses.  [fs'] is the tree [fs] listed in another order when every
    path leads in both to the same file, or to directories that hold the
    same names, or to nothing. *)
Definition relisted (fs fs' : node) : Prop :=
  forall p : path,
    match lookup fs p, lookup fs' p with
    | Some (File d), Some (File d') => d = d'
    | Some (Dir es), Some (Dir es') => Permutation (map fst es) (map fst es')
    | None, None => True
    | _, _ => False
    end.

(* ================================================================== *)
(** * Properties *)
(* ================================================================== *)

(** ** Strings and lists *)

Lemma str_eqb_refl (a : str) : str_eqb a a = true.
Proof.
  induction a as [|c a IH]; simpl; trivial.
  now rewrite Ascii.eqb_refl.
Qed.

Lemma str_eqb_eq (a b : str) : str_eqb a b = true <-> a = b.
Proof.
  split.
  - revert b; induction a as [|c a IH]; intros [|d b] H; simpl in H;
      try discriminate; trivial.
    apply andb_true_iff in H as [Hc Hr].
    apply Ascii.eqb_eq in Hc. f_equal; auto.
  - intros ->. apply str_eqb_refl.
Qed.

Lemma str_eqb_neq (a b : str) : str_eqb a b = false <-> a <> b.
Proof.
  rewrite <- str_eqb_eq. destruct (str_eqb a b); intuition congruence.
Qed.

Lemma mem_In (x : str) (l : list str) : In x l <-> ValidatePlugins.mem x l = true.
Proof.
  unfold ValidatePlugins.mem. rewrite existsb_exists. split.
  - intros H. exists x. split; trivial. apply str_eqb_refl.
  - intros (y & Hy & E). apply str_eqb_eq in E. now subst.
Qed.

Lemma length_filter_le {A} (f : A -> bool) (l : list A) :
  length (filter f l) <= length l.
Proof.
  induction l as [|x l IH]; simpl; trivial.
  destruct (f x); simpl; lia.
Qed.

(** The count [failed = total - passed] of [main] is positive exactly
    when some result is not valid. *)
Lemma failed_positive {A} (f : A -> bool) (l : list A) :
  (0 <? length l - length (filter f l)) = existsb (fun r => negb (f r)) l.
Proof.
  induction l as [|x l IH]; trivial.
  cbn [filter existsb]. destruct (f x); cbn [negb orb length].
  - exact IH.
  - pose proof (length_filter_le f l).
    apply Nat.ltb_lt. lia.
Qed.

(** ** The result monad *)

Lemma mapM_raises {A B} (f : A -> res B) (l : list A) (x : A) (e : exn) :
  In x l -> f x = Raise e -> exists e', mapM f l = Raise e'.
Proof.
  induction l as [|y l IH]; intros Hin Hx; [contradiction|].
  simpl. destruct (f y) as [b|e1] eqn:Hy; simpl.
  - destruct Hin as [->|Hin]; [congruence|].
    destruct (IH Hin Hx) as [e' He']. rewrite He'. simpl. now exists e'.
  - now exists e1.
Qed.

Lemma mapM_returns {A B} (f : A -> res B) (l : list A) (rs : list B) :
  mapM f l = Ret rs -> forall r, In r rs -> exists x, In x l /\ f x = Ret r.
Proof.
  revert rs; induction l as [|y l IH]; simpl; intros rs H r Hr.
  - inversion H; subst. contradiction.
  - destruct (f y) as [b|] eqn:Hy; simpl in H; [|discriminate].
    destruct (mapM f l) as [bs|] eqn:Hl; simpl in H; [|discriminate].
    inversion H; subst. destruct Hr as [<-|Hr].
    + exists y; auto.
    + destruct (IH bs eq_refl r Hr) as (x & Hx & Hfx). exists x; auto.
Qed.

(** ** The file system *)

Lemma read_text_exists (fs : node) (p : path) (t : str) :
  read_text fs p = Ret t -> exists_ fs p = true.
Proof.
  unfold read_text, exists_. destruct (lookup fs p) as [[d|es]|]; trivial.
  discriminate.
Qed.

Lemma iterdir_missing (fs : node) (p : path) :
  exists_ fs p = false -> iterdir fs p = Raise (missing fs p).
Proof.
  unfold exists_, iterdir. destruct (lookup fs p); [discriminate|trivial].
Qed.

Lemma skipn_app_le {A} (i : nat) (x w : list A) :
  i <= length x -> skipn i (x ++ w) = skipn i x ++ w.
Proof.
  intros Hi. rewrite skipn_app.
  replace (i - length x) with 0 by lia. reflexivity.
Qed.

Lemma contains_char (c : ascii) (s : str) :
  contains [c] s = existsb (Ascii.eqb c) s.
Proof.
  induction s as [|x s IH]; [reflexivity|].
  cbn [contains startswith existsb]. now rewrite IH, andb_true_r.
Qed.

(** What [validate_skill_md] returns once it has read the document. *)
Lemma validate_skill_md_content
    (fs : node) (plugin_dir : path) (plugin_data : json)
    (skill_md_path : path) (others : list path) (content : str) :
  glob_star fs (plugin_dir ++ [txt "skills"]) (txt "SKILL.md") = skill_md_path :: others ->
  read_text fs skill_md_path = Ret content ->
  ValidatePlugins.validate_skill_md fs plugin_dir plugin_data
  = ValidatePlugins.skill_checks content.
Proof.
  intros Hglob Hread. unfold ValidatePlugins.validate_skill_md.
  assert (He : exists_ fs (plugin_dir ++ [txt "skills"]) = true).
  { unfold glob_star in Hglob. unfold exists_.
    destruct (lookup fs (plugin_dir ++ [txt "skills"])); [reflexivity|discriminate]. }
  rewrite He, Hglob, Hread. reflexivity.
Qed.

(* ------------------------------------------------------------------ *)
(** ** [startswith], [partition] and [split] *)

Lemma startswith_app (p s : str) : startswith p (p ++ s) = true.
Proof.
  induction p as [|c p IH]; simpl; trivial.
  now rewrite Ascii.eqb_refl.
Qed.

Lemma startswith_split (p s : str) :
  startswith p s = true -> s = p ++ skipn (length p) s.
Proof.
  revert s; induction p as [|c p IH]; intros s H; simpl; trivial.
  destruct s as [|d s]; simpl in H; [discriminate|].
  apply andb_true_iff in H as [Hc Hr]. apply Ascii.eqb_eq in Hc. subst d.
  simpl. f_equal. now apply IH.
Qed.

Lemma startswith_weaken (p s w : str) :
  startswith p s = true -> startswith p (s ++ w) = true.
Proof.
  revert s; induction p as [|c p IH]; intros s H; simpl; trivial.
  destruct s as [|d s]; simpl in H; [discriminate|].
  apply andb_true_iff in H as [Hc Hr]. simpl. rewrite Hc. now apply IH.
Qed.

Lemma startswith_length (p s : str) :
  startswith p s = true -> length p <= length s.
Proof.
  revert s; induction p as [|c p IH]; intros s H; simpl; [lia|].
  destruct s as [|d s]; simpl in H; [discriminate|].
  apply andb_true_iff in H as [_ Hr]. apply IH in Hr. simpl. lia.
Qed.

Lemma startswith_head (p q s : str) :
  startswith (p ++ q) s = true -> startswith p s = true.
Proof.
  revert s; induction p as [|c p IH]; intros s H; simpl; trivial.
  destruct s as [|d s]; simpl in H; [discriminate|].
  apply andb_true_iff in H as [Hc Hr]. rewrite Hc. now apply IH.
Qed.

(** A prefix that lies inside [s] is a prefix of [s]. *)
Lemma startswith_inside (p s w : str) :
  length p <= length s -> startswith p (s ++ w) = true -> startswith p s = true.
Proof.
  revert s; induction p as [|c p IH]; intros s Hlen H; simpl; trivial.
  destruct s as [|d s]; simpl in Hlen; [lia|].
  simpl in H. apply andb_true_iff in H as [Hc Hr]. rewrite Hc.
  apply IH; [lia|exact Hr].
Qed.

Lemma partition_eq (sep s : str) :
  partition sep s =
  if startswith sep s then Some ([], skipn (length sep) s)
  else match s with
       | [] => None
       | c :: s' =>
           match partition sep s' with
           | Some (b, a) => Some (c :: b, a)
           | None => None
           end
       end.
Proof. destruct s; reflexivity. Qed.

(** [partition] cuts at the first occurrence. *)
Lemma partition_Some (sep s b a : str) :
  partition sep s = Some (b, a) ->
  s = b ++ sep ++ a /\ forall i, i < length b -> startswith sep (skipn i s) = false.
Proof.
  revert b a; induction s as [|c s IH]; intros b a H; rewrite partition_eq in H.
  - destruct (startswith sep []) eqn:E; [|discriminate].
    inversion H; subst; clear H. split; [|simpl; intros; lia].
    apply startswith_split in E. simpl in *.
    destruct sep; [reflexivity|discriminate].
  - destruct (startswith sep (c :: s)) eqn:E.
    + inversion H; subst; clear H. split; [|simpl; intros; lia].
      simpl. now apply startswith_split.
    + destruct (partition sep s) as [[b' a']|] eqn:P; [|discriminate].
      inversion H; subst; clear H.
      destruct (IH b' a eq_refl) as [-> Hno]. split; [reflexivity|].
      intros [|i] Hi; simpl; [exact E|]. apply Hno. simpl in Hi. lia.
Qed.

Lemma partition_first (sep b a : str) :
  (forall i, i < length b -> startswith sep (skipn i (b ++ sep ++ a)) = false) ->
  partition sep (b ++ sep ++ a) = Some (b, a).
Proof.
  induction b as [|c b IH]; intros H; rewrite partition_eq.
  - simpl. rewrite startswith_app. f_equal. f_equal.
    rewrite skipn_app, skipn_all, Nat.sub_diag. reflexivity.
  - pose proof (H 0 ltac:(simpl; lia)) as H0. rewrite skipn_O in H0.
    rewrite H0. simpl.
    rewrite IH; trivial. intros i Hi. apply (H (S i)). simpl. lia.
Qed.

Lemma partition_None (sep s : str) :
  partition sep s = None <-> forall i, startswith sep (skipn i s) = false.
Proof.
  induction s as [|c s IH]; rewrite partition_eq.
  - split.
    + intros H i. rewrite skipn_nil. now destruct (startswith sep []).
    + intros H. pose proof (H 0) as H0. rewrite skipn_O in H0. now rewrite H0.
  - split.
    + intros H [|i]; simpl.
      * now destruct (startswith sep (c :: s)).
      * destruct (startswith sep (c :: s)); [discriminate|].
        destruct (partition sep s) as [[b a]|] eqn:P; [discriminate|].
        now apply IH.
    + intros H. pose proof (H 0) as H0. rewrite skipn_O in H0. rewrite H0.
      assert (P : partition sep s = None) by (apply IH; intros i; apply (H (S i))).
      now rewrite P.
Qed.

Lemma contains_occurs (sub s : str) :
  contains sub s = true <-> exists i, startswith sub (skipn i s) = true.
Proof.
  induction s as [|c s IH]; simpl.
  - rewrite orb_false_r. split.
    + intros H. now exists 0.
    + intros [i H]. now rewrite skipn_nil in H.
  - rewrite orb_true_iff, IH. split.
    + intros [H|[i H]]; [now exists 0|now exists (S i)].
    + intros [[|i] H]; [now left|right; now exists i].
Qed.

Lemma contains_partition (sub s : str) :
  contains sub s = false <-> partition sub s = None.
Proof.
  rewrite partition_None. split.
  - intros H i. destruct (startswith sub (skipn i s)) eqn:E; trivial.
    assert (C : contains sub s = true) by (apply contains_occurs; now exists i).
    congruence.
  - intros H. destruct (contains sub s) eqn:E; trivial.
    apply contains_occurs in E as [i Hi]. rewrite H in Hi. discriminate.
Qed.

Lemma split_rounds_nil (n : nat) (sep : str) :
  sep <> [] -> split_rounds n sep [] = [[]].
Proof.
  intros Hsep. destruct n; trivial.
  destruct sep; [congruence|reflexivity].
Qed.

(** Enough rounds: more do not change the result of [split_rounds]. *)
Lemma split_rounds_enough (sep : str) :
  sep <> [] ->
  forall n m s, length s <= n -> length s <= m ->
                split_rounds n sep s = split_rounds m sep s.
Proof.
  intros Hsep. induction n as [|n IH]; intros m s Hn Hm.
  - destruct s; [|simpl in Hn; lia].
    now rewrite !split_rounds_nil.
  - destruct m as [|m].
    + destruct s; [|simpl in Hm; lia].
      now rewrite !split_rounds_nil.
    + cbn [split_rounds]. destruct (partition sep s) as [[b a]|] eqn:P; trivial.
      apply partition_Some in P as [-> _]. f_equal.
      rewrite !length_app in Hn, Hm.
      assert (0 < length sep) by (destruct sep; [congruence|simpl; lia]).
      apply IH; lia.
Qed.

(** [split], round by round. *)
Lemma split_cons (sep s b a : str) :
  sep <> [] -> partition sep s = Some (b, a) -> split sep s = b :: split sep a.
Proof.
  intros Hsep P. unfold split. destruct (length s) as [|n] eqn:L.
  - apply partition_Some in P as [-> _]. rewrite !length_app in L.
    destruct sep; [congruence|simpl in L; lia].
  - cbn [split_rounds]. rewrite P. f_equal.
    apply partition_Some in P as [-> _]. rewrite !length_app in L.
    assert (0 < length sep) by (destruct sep; [congruence|simpl; lia]).
    apply split_rounds_enough; trivial; lia.
Qed.

Lemma split_none (sep s : str) : partition sep s = None -> split sep s = [s].
Proof.
  intros P. unfold split. destruct (length s); cbn [split_rounds]; trivial.
  now rewrite P.
Qed.

Lemma item0_split (sep s : str) :
  sep <> [] ->
  item 0 (split sep s) =
  match partition sep s with Some (b, _) => b | None => s end.
Proof.
  intros Hsep. destruct (partition sep s) as [[b a]|] eqn:P.
  - now rewrite (split_cons _ _ _ _ Hsep P).
  - now rewrite (split_none _ _ P).
Qed.

(* ------------------------------------------------------------------ *)
(** ** The messages of [skill_checks] *)

(** The loop over [required_sections], for any presence test. *)
Lemma sections_loop (present : str -> bool) (secs : list (str * str))
    (errs warns : list str) :
  fold_left
    (fun (ew : list str * list str) (sec : str * str) =>
       let '(section_marker, section_name) := sec in
       if negb (present section_marker)
       then if contains (txt "Failed Attempts") section_name
            then (fst ew ++ [txt "Missing " ++ section_name], snd ew)
            else (fst ew, snd ew ++ [txt "Missing " ++ section_name])
       else ew)
    secs (errs, warns) =
  (errs ++
   flat_map (fun sec : str * str =>
               if negb (present (fst sec)) && contains (txt "Failed Attempts") (snd sec)
               then [txt "Missing " ++ snd sec] else []) secs,
   warns ++
   flat_map (fun sec : str * str =>
               if negb (present (fst sec)) && negb (contains (txt "Failed Attempts") (snd sec))
               then [txt "Missing " ++ snd sec] else []) secs).
Proof.
  revert errs warns; induction secs as [|[m n] secs IH]; intros errs warns.
  - cbn [fold_left flat_map]. now rewrite !app_nil_r.
  - cbn [fold_left flat_map fst snd].
    destruct (present m); cbn [negb andb].
    + rewrite IH. reflexivity.
    + destruct (contains (txt "Failed Attempts") n); cbn [negb fst snd];
        rewrite IH; cbn [app]; now rewrite <- !app_assoc.
Qed.

(** The lists [skill_checks] returns, message by message. *)
Lemma skill_checks_eq (content : str) :
  ValidatePlugins.skill_checks content =
  ( (if startswith (txt "---") content then []
     else [txt "SKILL.md missing YAML frontmatter (must start with ---)"]) ++
    (if contains (txt "## Failed Attempts") content then []
     else [txt "Missing Failed Attempts section (REQUIRED)"]),
    (if contains (txt "## Overview") content then []
     else [txt "Missing Overview table"]) ++
    (if contains (txt "## When to Use") content then []
     else [txt "Missing When to Use section"]) ++
    (if contains (txt "## Verified Workflow") content then []
     else [txt "Missing Verified Workflow section"]) ++
    (if contains (txt "## Results") content then []
     else [txt "Missing Results & Parameters section"]) ++
    (if contains (txt "## Failed Attempts") content
     then if contains (txt "|") (ValidatePlugins.failed_section content) then []
          else [txt "Failed Attempts section should contain a table"]
     else []) ).
Proof.
  unfold ValidatePlugins.skill_checks.
  rewrite (sections_loop (fun m => contains m content)).
  unfold ValidatePlugins.required_sections. cbn [flat_map fst snd].
  change (contains (txt "Failed Attempts") (txt "Overview table")) with false.
  change (contains (txt "Failed Attempts") (txt "When to Use section")) with false.
  change (contains (txt "Failed Attempts") (txt "Verified Workflow section")) with false.
  change (contains (txt "Failed Attempts") (txt "Failed Attempts section (REQUIRED)")) with true.
  change (contains (txt "Failed Attempts") (txt "Results & Parameters section")) with false.
  generalize (ValidatePlugins.failed_section content); intros fsec.
  destruct (contains (txt "|") fsec), (startswith (txt "---") content),
    (contains (txt "## Overview") content), (contains (txt "## When to Use") content),
    (contains (txt "## Verified Workflow") content),
    (contains (txt "## Failed Attempts") content),
    (contains (txt "## Results") content); reflexivity.
Qed.

(** Membership in a list given by cases, decided by [mem]. *)
Ltac decide_In :=
  rewrite ?mem_In;
  repeat match goal with
         | |- context [if ?b then _ else _] => destruct b
         end;
  vm_compute; intuition congruence.

(* ------------------------------------------------------------------ *)
(** ** The manifest of the scenario (C1) *)

Lemma demo_manifest_checks :
  ValidatePlugins.manifest_checks demo_manifest =
  Ret ([ txt "Invalid name format 'Demo_Tool' (use lowercase, numbers, hyphens)";
         txt "Description too short (5 chars, min 20)";
         txt "Invalid category 'bogus'. Valid: architecture, ci-cd, debugging, evaluation, optimization, testing, tooling, training";
         txt "tags must be a list" ], []).
Proof. vm_compute. reflexivity. Qed.

(** The date of the scenario has the shape the pattern asks for. *)
Lemma date_2024_13_40_matches :
  ValidatePlugins.re_match_json ValidatePlugins.date_pattern (JStr (txt "2024-13-40"))
  = Ret true.
Proof. vm_compute. reflexivity. Qed.

(** C1, as the claim states it, fails: for the manifest of the scenario
    [validate_plugin_json] reports four errors, and none of them is about
    the date. *)
Lemma C1_demo_manifest_has_no_date_error :
  exists errs warns,
    ValidatePlugins.validate_plugin_json sample_decoder demo_tree (in_tooling "demo")
    = Ret (errs, warns, demo_manifest) /\
    length errs = 4 /\
    ~ In (txt "Invalid date format '2024-13-40' (use YYYY-MM-DD)") errs /\
    forall e, In e errs -> startswith (txt "Invalid date format") e = false.
Proof.
  eexists; eexists. split; [vm_compute; reflexivity|].
  split; [reflexivity|]. split.
  - rewrite mem_In. vm_compute. discriminate.
  - intros e He. repeat (destruct He as [<-|He]; [vm_compute; reflexivity|]).
    destruct He.
Qed.

(** C1 (amended): for the manifest
    [{"name": "Demo_Tool", "version": "1.0.0", "description": "short",
      "category": "bogus", "date": "2024-13-40", "tags": "x"}]
    [validate_plugin_json] produces exactly four errors, in this order:
    invalid name format, description too short, invalid category, tags
    must be a list; there is no warning and no date error (2024-13-40 has
    the shape YYYY-MM-DD); and [validate_plugin] marks the plugin
    invalid, whatever its skill document. *)
Theorem C1_demo_manifest_errors
    (load : decoder) (fs : node) (plugin_dir : path) (text : str) :
  read_text fs (ValidatePlugins.manifest_path plugin_dir) = Ret text ->
  load text = Decoded demo_manifest ->
  ValidatePlugins.validate_plugin_json load fs plugin_dir =
    Ret ([ txt "Invalid name format 'Demo_Tool' (use lowercase, numbers, hyphens)";
           txt "Description too short (5 chars, min 20)";
           txt "Invalid category 'bogus'. Valid: architecture, ci-cd, debugging, evaluation, optimization, testing, tooling, training";
           txt "tags must be a list" ], [], demo_manifest) /\
  exists r, ValidatePlugins.validate_plugin load fs plugin_dir = Ret r /\
            ValidatePlugins.is_valid r = false.
Proof.
  intros Hread Hload.
  assert (E : ValidatePlugins.validate_plugin_json load fs plugin_dir =
              Ret ([ txt "Invalid name format 'Demo_Tool' (use lowercase, numbers, hyphens)";
                     txt "Description too short (5 chars, min 20)";
                     txt "Invalid category 'bogus'. Valid: architecture, ci-cd, debugging, evaluation, optimization, testing, tooling, training";
                     txt "tags must be a list" ], [], demo_manifest)).
  { unfold ValidatePlugins.validate_plugin_json.
    rewrite (read_text_exists _ _ _ Hread), Hread. cbn [negb bind].
    rewrite Hload, demo_manifest_checks. reflexivity. }
  split; [exact E|].
  unfold ValidatePlugins.validate_plugin. rewrite E. cbn [bind].
  destruct (ValidatePlugins.validate_skill_md fs plugin_dir demo_manifest)
    as [skill_errors skill_warnings].
  eexists. split; [reflexivity|]. reflexivity.
Qed.

(** The plugin [demo] of [demo_tree] holds the manifest of the scenario. *)
Lemma C1_demo_manifest_errors_witness :
  ValidatePlugins.validate_plugin_json sample_decoder demo_tree (in_tooling "demo") =
    Ret ([ txt "Invalid name format 'Demo_Tool' (use lowercase, numbers, hyphens)";
           txt "Description too short (5 chars, min 20)";
           txt "Invalid category 'bogus'. Valid: architecture, ci-cd, debugging, evaluation, optimization, testing, tooling, training";
           txt "tags must be a list" ], [], demo_manifest) /\
  exists r,
    ValidatePlugins.validate_plugin sample_decoder demo_tree (in_tooling "demo") = Ret r /\
    ValidatePlugins.is_valid r = false.
Proof.
  apply (C1_demo_manifest_errors sample_decoder demo_tree (in_tooling "demo") demo_text);
    vm_compute; reflexivity.
Defined.

(* ------------------------------------------------------------------ *)
(** ** Valid plugins and the exit status (C2) *)

Lemma validate_plugin_valid_iff (load : decoder) (fs : node) (p : path)
    (r : ValidatePlugins.ValidationResult) :
  ValidatePlugins.validate_plugin load fs p = Ret r ->
  (ValidatePlugins.is_valid r = true <-> ValidatePlugins.errors r = []).
Proof.
  unfold ValidatePlugins.validate_plugin. intros H.
  destruct (ValidatePlugins.validate_plugin_json load fs p)
    as [[[json_errors json_warnings] plugin_data]|]; [|discriminate].
  cbn [bind] in H.
  destruct (ValidatePlugins.validate_skill_md fs p plugin_data)
    as [skill_errors skill_warnings].
  inversion H; subst; clear H. cbn.
  rewrite Nat.eqb_eq. apply length_zero_iff_nil.
Qed.

(** C2, as the claim states it, fails: without a [plugins] directory the
    validator exits with status 1, and no plugin was discovered, so none
    is invalid. *)
Lemma C2_missing_root_exits_1_without_invalid_plugin :
  ValidatePlugins.exit_status (ValidatePlugins.main sample_decoder empty_tree argv0) <> 0%Z /\
  ~ (exists plugins p r,
       ValidatePlugins.find_plugins empty_tree (plugins_dir_of argv0) = Ret plugins /\
       In p plugins /\
       ValidatePlugins.validate_plugin sample_decoder empty_tree p = Ret r /\
       ValidatePlugins.is_valid r = false).
Proof.
  split.
  - vm_compute. discriminate.
  - intros (plugins & p & r & Hfind & _). vm_compute in Hfind. discriminate.
Qed.

(** C2 (amended): the result of [validate_plugin] has [is_valid] true if
    and only if its error list is empty (the warnings play no part).
    When the plugins directory does not exist, [main] returns 1.  When it
    exists and discovery and every validation return, [main] returns a
    status that is nonzero if and only if at least one discovered plugin
    is invalid. *)
Theorem C2_valid_iff_no_errors_and_exit_status
    (load : decoder) (fs : node) (argv : list str) :
  (forall p r, ValidatePlugins.validate_plugin load fs p = Ret r ->
               (ValidatePlugins.is_valid r = true <-> ValidatePlugins.errors r = [])) /\
  (exists_ fs (plugins_dir_of argv) = false ->
   ValidatePlugins.main load fs argv = Ret 1%Z) /\
  (forall plugins results,
     exists_ fs (plugins_dir_of argv) = true ->
     ValidatePlugins.find_plugins fs (plugins_dir_of argv) = Ret plugins ->
     mapM (ValidatePlugins.validate_plugin load fs) plugins = Ret results ->
     exists code,
       ValidatePlugins.main load fs argv = Ret code /\
       (code <> 0%Z <->
        exists p r, In p plugins /\
                    ValidatePlugins.validate_plugin load fs p = Ret r /\
                    ValidatePlugins.is_valid r = false)).
Proof.
  split; [|split].
  - intros p r. apply validate_plugin_valid_iff.
  - intros Hroot. unfold ValidatePlugins.main. rewrite Hroot. reflexivity.
  - intros plugins results Hroot Hfind Hmap.
    unfold ValidatePlugins.main. rewrite Hroot, Hfind. cbn [negb bind].
    destruct plugins as [|p0 ps].
    + exists 0%Z. split; [reflexivity|]. split; [congruence|].
      intros (p & r & [] & _).
    + rewrite Hmap. cbn [bind].
      rewrite (failed_positive ValidatePlugins.is_valid results).
      eexists. split; [reflexivity|].
      destruct (existsb (fun r => negb (ValidatePlugins.is_valid r)) results) eqn:E.
      * split; [intros _|discriminate].
        apply existsb_exists in E as (r & Hr & Hv).
        destruct (mapM_returns _ _ _ Hmap r Hr) as (p & Hp & Hpr).
        exists p, r. repeat split; trivial.
        now destruct (ValidatePlugins.is_valid r).
      * split; [congruence|]. intros (p & r & Hp & Hpr & Hv). exfalso.
        assert (Hin : In r results).
        { clear - Hmap Hp Hpr. revert results Hmap.
          induction (p0 :: ps) as [|q l IH]; [contradiction|].
          intros results Hmap. simpl in Hmap.
          destruct (ValidatePlugins.validate_plugin load fs q) as [b|] eqn:Hq;
            [|discriminate].
          cbn [bind] in Hmap.
          destruct (mapM (ValidatePlugins.validate_plugin load fs) l) as [bs|] eqn:Hl;
            [|discriminate].
          inversion Hmap; subst. destruct Hp as [->|Hp].
          - left. congruence.
          - right. now apply IH. }
        assert (Ht : existsb (fun r => negb (ValidatePlugins.is_valid r)) results = true).
        { apply existsb_exists. exists r. split; trivial. now rewrite Hv. }
        congruence.
Qed.

(** Without a root the status is 1; in [demo_tree] the plugin [demo] is
    invalid. *)
Lemma C2_valid_iff_no_errors_and_exit_status_witness :
  ValidatePlugins.main sample_decoder empty_tree argv0 = Ret 1%Z /\
  (exists code,
     ValidatePlugins.main sample_decoder demo_tree argv0 = Ret code /\
     (code <> 0%Z <->
      exists p r, In p [in_tooling "alpha"; in_tooling "demo"] /\
                  ValidatePlugins.validate_plugin sample_decoder demo_tree p = Ret r /\
                  ValidatePlugins.is_valid r = false)).
Proof.
  split.
  - apply (C2_valid_iff_no_errors_and_exit_status sample_decoder empty_tree argv0).
    vm_compute; reflexivity.
  - destruct (C2_valid_iff_no_errors_and_exit_status sample_decoder demo_tree argv0)
      as (_ & _ & H).
    destruct (mapM (ValidatePlugins.validate_plugin sample_decoder demo_tree)
                [in_tooling "alpha"; in_tooling "demo"]) as [results|] eqn:E;
      [|vm_compute in E; discriminate].
    apply (H [in_tooling "alpha"; in_tooling "demo"] results);
      [vm_compute; reflexivity|vm_compute; reflexivity|exact E].
Defined.

(* ------------------------------------------------------------------ *)
(** ** The text the table check reads (C3) *)

(** An occurrence in a prefix of a text is an occurrence in the text. *)
Lemma no_occurrence_in_prefix (sep x w : str) (i : nat) :
  i <= length x ->
  startswith sep (skipn i (x ++ w)) = false ->
  startswith sep (skipn i x) = false.
Proof.
  intros Hi H. rewrite skipn_app_le in H by trivial.
  destruct (startswith sep (skipn i x)) eqn:E; trivial.
  now rewrite (startswith_weaken _ _ w E) in H.
Qed.

(** No occurrence of [sep] starts in [body], and what follows [body] is
    shorter than [sep]: [sep] does not occur at all. *)
Lemma partition_none_short (sep body tail_ : str) :
  (forall i, i < length body -> startswith sep (skipn i (body ++ tail_)) = false) ->
  length tail_ < length sep ->
  partition sep (body ++ tail_) = None.
Proof.
  intros Hbody Hshort. apply partition_None. intros i.
  destruct (Nat.lt_ge_cases i (length body)) as [Hi|Hi]; [now apply Hbody|].
  destruct (startswith sep (skipn i (body ++ tail_))) eqn:E; trivial.
  apply startswith_length in E. rewrite length_skipn, length_app in E. lia.
Qed.

Lemma failed_section_after (content pre rem : str) :
  partition (txt "## Failed Attempts") content = Some (pre, rem) ->
  ValidatePlugins.failed_section content =
  let x := match partition (txt "## Failed Attempts") rem with
           | Some (b, _) => b
           | None => rem
           end in
  match partition (txt "##") x with
  | Some (b, _) => b
  | None => x
  end.
Proof.
  intros P. unfold ValidatePlugins.failed_section.
  rewrite (split_cons (txt "## Failed Attempts") content pre rem
             ltac:(discriminate) P).
  change (item 1 (pre :: split (txt "## Failed Attempts") rem))
    with (item 0 (split (txt "## Failed Attempts") rem)).
  rewrite !item0_split by discriminate. reflexivity.
Qed.

Lemma heading_starts_with_hashes (s : str) :
  startswith (txt "## Failed Attempts") s = true -> startswith (txt "##") s = true.
Proof.
  change (txt "## Failed Attempts") with (txt "##" ++ txt " Failed Attempts").
  apply startswith_head.
Qed.

Lemma heading_is_not_subheading (a : str) :
  startswith (txt "### Failed Attempts") (txt "## Failed Attempts" ++ a) = false.
Proof. reflexivity. Qed.

(** The text [failed_section] returns, from where the markers occur. *)
Lemma failed_section_text (content pre body rest : str) :
  content = pre ++ txt "## Failed Attempts" ++ body ++ rest ->
  (forall i, i < length pre -> startswith (txt "## Failed Attempts") (skipn i content) = false) ->
  (forall i, i < length body -> startswith (txt "##") (skipn i (body ++ rest)) = false) ->
  (rest = [] \/ startswith (txt "##") rest = true) ->
  ValidatePlugins.failed_section content =
  body ++ (if startswith (txt "### Failed Attempts") rest then txt "#" else []).
Proof.
  intros -> Hpre Hbody Hrest.
  rewrite (failed_section_after _ pre (body ++ rest)) by (now apply partition_first).
  cbv zeta.
  destruct (partition (txt "## Failed Attempts") (body ++ rest)) as [[b a]|] eqn:PA.
  - apply partition_Some in PA as [E Hno].
    assert (Hge : length body <= length b).
    { destruct (Nat.le_gt_cases (length body) (length b)) as [|Hlt]; trivial.
      exfalso. specialize (Hbody _ Hlt). rewrite E in Hbody.
      rewrite skipn_app, skipn_all, Nat.sub_diag in Hbody. cbn [skipn app] in Hbody.
      now rewrite heading_starts_with_hashes in Hbody by apply startswith_app. }
    assert (Eb : b = body ++ skipn (length body) b).
    { apply (f_equal (firstn (length body))) in E.
      rewrite firstn_app, firstn_all, Nat.sub_diag in E. cbn [firstn] in E.
      rewrite app_nil_r in E.
      rewrite firstn_app in E. replace (length body - length b) with 0 in E by lia.
      cbn [firstn] in E. rewrite app_nil_r in E.
      rewrite E at 1. now rewrite firstn_skipn. }
    assert (Er : rest = skipn (length body) b ++ txt "## Failed Attempts" ++ a).
    { apply (f_equal (skipn (length body))) in E.
      rewrite skipn_app, skipn_all, Nat.sub_diag in E. cbn [skipn app] in E.
      now rewrite skipn_app_le in E by trivial. }
    set (b' := skipn (length body) b) in *. clearbody b'. subst b rest.
    assert (Hr : startswith (txt "##") (b' ++ txt "## Failed Attempts" ++ a) = true).
    { destruct Hrest as [Hnil|Hr]; trivial. now destruct b'. }
    destruct b' as [|c1 [|c2 b'']].
    + (* the heading comes back right after [body] *)
      cbn [app]. rewrite heading_is_not_subheading, !app_nil_r.
      replace (partition (txt "##") body) with (@None (str * str)).
      * reflexivity.
      * symmetry. rewrite <- (app_nil_r body).
        apply partition_none_short; [|change (length (txt "##")) with 2; cbn [length]; lia].
        intros i Hi. rewrite app_nil_r.
        apply (no_occurrence_in_prefix _ body (txt "## Failed Attempts" ++ a)); [lia|].
        now apply Hbody.
    + (* [### Failed Attempts] *)
      cbn [app] in Hr. cbn [startswith] in Hr.
      apply andb_true_iff in Hr as [Hc1 _]. apply Ascii.eqb_eq in Hc1. subst c1.
      change (startswith (txt "### Failed Attempts")
                (["#"%char] ++ txt "## Failed Attempts" ++ a))
        with (startswith (txt "### Failed Attempts") (txt "### Failed Attempts" ++ a)).
      rewrite startswith_app.
      rewrite partition_none_short; [reflexivity| |change (length (txt "##")) with 2; cbn [length]; lia].
      intros i Hi.
      apply (no_occurrence_in_prefix _ (body ++ ["#"%char]) (txt "## Failed Attempts" ++ a));
        [rewrite length_app; lia|].
      rewrite <- app_assoc. now apply Hbody.
    + (* two hashes, then more text, then the heading *)
      cbn [app] in Hr. cbn [startswith] in Hr.
      apply andb_true_iff in Hr as [Hc1 Hr]. apply Ascii.eqb_eq in Hc1. subst c1.
      apply andb_true_iff in Hr as [Hc2 _]. apply Ascii.eqb_eq in Hc2. subst c2.
      change (body ++ "#"%char :: "#"%char :: b'') with (body ++ txt "##" ++ b'').
      rewrite partition_first.
      * destruct (startswith (txt "### Failed Attempts")
                    (("#"%char :: "#"%char :: b'') ++ txt "## Failed Attempts" ++ a))
          eqn:Ec; [|now rewrite app_nil_r].
        exfalso.
        specialize (Hno (S (length body))).
        rewrite length_app in Hno. cbn [length] in Hno.
        specialize (Hno ltac:(lia)).
        rewrite skipn_app in Hno.
        rewrite skipn_all2 in Hno by lia.
        replace (S (length body) - length body) with 1 in Hno by lia.
        cbn [app skipn] in Hno. cbn [app] in Ec.
        change (txt "### Failed Attempts")
          with ("#"%char :: txt "## Failed Attempts") in Ec.
        cbn [startswith] in Ec. rewrite Ascii.eqb_refl in Ec. cbn [andb] in Ec.
        congruence.
      * intros i Hi.
        apply (no_occurrence_in_prefix _ (body ++ txt "##" ++ b'')
                 (txt "## Failed Attempts" ++ a));
          [rewrite length_app; lia|].
        rewrite <- !app_assoc. now apply Hbody.
  - (* no second [## Failed Attempts] *)
    rewrite partition_None in PA.
    assert (Hcorner : startswith (txt "### Failed Attempts") rest = false).
    { destruct (startswith (txt "### Failed Attempts") rest) eqn:Ec; trivial.
      exfalso. specialize (PA (S (length body))).
      rewrite skipn_app, skipn_all2 in PA by lia.
      replace (S (length body) - length body) with 1 in PA by lia.
      destruct rest as [|c rest]; [discriminate|].
      change (txt "### Failed Attempts")
        with ("#"%char :: txt "## Failed Attempts") in Ec.
      cbn [startswith] in Ec. apply andb_true_iff in Ec as [_ Ec].
      cbn [app skipn] in PA. congruence. }
    rewrite Hcorner. transitivity body; [|now rewrite app_nil_r].
    destruct Hrest as [->|Hr].
    + rewrite partition_none_short;
        [apply app_nil_r| |change (length (txt "##")) with 2; cbn [length]; lia].
      exact Hbody.
    + apply startswith_split in Hr. rewrite Hr.
      rewrite partition_first; [reflexivity|].
      rewrite <- Hr. exact Hbody.
Qed.

(** C3, as the claim states it, fails: the text the check reads stops at
    the first [##] after the heading, wherever it stands.  In both
    documents the body of the section, up to the next level-2 heading,
    has a pipe; the text read has none, and the warning is given. *)
Lemma C3_table_after_hashes_is_not_seen :
  (section_body (txt "## Failed Attempts") table_under_subsection
     = Some (map txt [""; "### Attempt 1"; ""; "| a | b |"; ""]) /\
   ValidatePlugins.failed_section table_under_subsection = [nl; nl] /\
   In (txt "Failed Attempts section should contain a table")
      (snd (ValidatePlugins.validate_skill_md
              (tree [(txt "alpha", plugin (good_text "alpha") table_under_subsection)])
              (in_tooling "alpha") (good_manifest "alpha")))) /\
  (section_body (txt "## Failed Attempts") hashes_inside_a_line
     = Some (map txt [""; "See issue ##12 | not fixed"; ""]) /\
   ValidatePlugins.failed_section hashes_inside_a_line = [nl; nl] ++ txt "See issue " /\
   In (txt "Failed Attempts section should contain a table")
      (snd (ValidatePlugins.validate_skill_md
              (tree [(txt "alpha", plugin (good_text "alpha") hashes_inside_a_line)])
              (in_tooling "alpha") (good_manifest "alpha")))).
Proof.
  repeat split; try (vm_compute; reflexivity);
    rewrite mem_In; vm_compute; reflexivity.
Qed.

(** C3 (amended): when the document contains [## Failed Attempts] (as a
    substring, first at the end of [pre]), the text the pipe check reads is
    the text [body] between that occurrence and the next occurrence of the
    two characters [##], wherever they stand (also at the start of a
    [###] heading or inside a line), or the end of the document; when
    that next [##] begins [### Failed Attempts], one [#] more is read.
    The warning "Failed Attempts section should contain a table" is given
    if and only if that text has no [|], and it is never an error. *)
Theorem C3_table_check_reads_up_to_next_hashes
    (fs : node) (plugin_dir : path) (plugin_data : json)
    (skill_md_path : path) (others : list path) (content pre body rest : str) :
  glob_star fs (plugin_dir ++ [txt "skills"]) (txt "SKILL.md") = skill_md_path :: others ->
  read_text fs skill_md_path = Ret content ->
  content = pre ++ txt "## Failed Attempts" ++ body ++ rest ->
  (forall i, i < length pre -> ~ occurs_at (txt "## Failed Attempts") i content) ->
  (forall i, i < length body -> ~ occurs_at (txt "##") i (body ++ rest)) ->
  (rest = [] \/ occurs_at (txt "##") 0 rest) ->
  let examined :=
    body ++ (if startswith (txt "### Failed Attempts") rest then txt "#" else []) in
  let result := ValidatePlugins.validate_skill_md fs plugin_dir plugin_data in
  ValidatePlugins.failed_section content = examined /\
  (In (txt "Failed Attempts section should contain a table") (snd result)
     <-> contains (txt "|") examined = false) /\
  contains (txt "|") examined = contains (txt "|") body /\
  ~ In (txt "Failed Attempts section should contain a table") (fst result).
Proof.
  intros Hglob Hread Hc Hpre Hbody Hrest. cbv zeta.
  rewrite (validate_skill_md_content _ _ _ _ _ _ Hglob Hread).
  assert (Hfs : ValidatePlugins.failed_section content =
                body ++ (if startswith (txt "### Failed Attempts") rest
                         then txt "#" else [])).
  { apply (failed_section_text content pre body rest Hc).
    - intros i Hi. apply not_true_is_false. now apply Hpre.
    - intros i Hi. apply not_true_is_false. now apply Hbody.
    - destruct Hrest as [->|Hr]; [now left|right; exact Hr]. }
  assert (Hin : contains (txt "## Failed Attempts") content = true).
  { apply contains_occurs. exists (length pre). subst content.
    rewrite skipn_app, skipn_all, Nat.sub_diag. cbn [skipn app].
    apply startswith_app. }
  split; [exact Hfs|].
  rewrite skill_checks_eq. cbn [fst snd]. rewrite Hin, Hfs.
  split; [|split].
  - destruct (contains (txt "|")
                (body ++ (if startswith (txt "### Failed Attempts") rest
                          then txt "#" else []))); decide_In.
  - change (txt "|") with ["|"%char]. rewrite !contains_char, existsb_app.
    destruct (startswith (txt "### Failed Attempts") rest);
      cbn; now rewrite orb_false_r.
  - decide_In.
Qed.

(** The document [table_under_subsection]: the text read is the two
    newlines before the subsection. *)
Lemma C3_table_check_reads_up_to_next_hashes_witness :
  ValidatePlugins.failed_section table_under_subsection = [nl; nl] /\
  (In (txt "Failed Attempts section should contain a table")
      (snd (ValidatePlugins.validate_skill_md
              (tree [(txt "alpha", plugin (good_text "alpha") table_under_subsection)])
              (in_tooling "alpha") (good_manifest "alpha")))
   <-> contains (txt "|") [nl; nl] = false).
Proof.
  destruct (C3_table_check_reads_up_to_next_hashes
              (tree [(txt "alpha", plugin (good_text "alpha") table_under_subsection)])
              (in_tooling "alpha") (good_manifest "alpha")
              (in_tooling "alpha" ++ [txt "skills"; txt "main"; txt "SKILL.md"]) []
              table_under_subsection
              (text_of_lines ["---"; ""]) [nl; nl]
              (text_of_lines ["### Attempt 1"; ""; "| a | b |"; ""; "## Results"; ""]))
    as (H1 & H2 & _).
  - vm_compute; reflexivity.
  - vm_compute; reflexivity.
  - vm_compute; reflexivity.
  - intros i Hi. change (length (text_of_lines ["---"; ""])) with 4 in Hi.
    do 4 (destruct i as [|i]; [vm_compute; discriminate|]). lia.
  - intros i Hi. cbn [length] in Hi.
    do 2 (destruct i as [|i]; [vm_compute; discriminate|]). lia.
  - right. vm_compute; reflexivity.
  - split; [exact H1|exact H2].
Defined.

(* ------------------------------------------------------------------ *)
(** ** The required sections of a skill document (C4) *)

(** Which "Missing ..." messages [skill_checks] gives, and where. *)
Lemma skill_checks_required_sections (content : str) :
  let errs := fst (ValidatePlugins.skill_checks content) in
  let warns := snd (ValidatePlugins.skill_checks content) in
  (In (txt "Missing Failed Attempts section (REQUIRED)") errs
     <-> contains (txt "## Failed Attempts") content = false) /\
  ~ In (txt "Missing Failed Attempts section (REQUIRED)") warns /\
  (forall marker section_name,
     In (marker, section_name)
        [ (txt "## Overview", txt "Overview table");
          (txt "## When to Use", txt "When to Use section");
          (txt "## Verified Workflow", txt "Verified Workflow section");
          (txt "## Results", txt "Results & Parameters section") ] ->
     (In (txt "Missing " ++ section_name) warns <-> contains marker content = false) /\
     ~ In (txt "Missing " ++ section_name) errs).
Proof.
  cbv zeta. rewrite skill_checks_eq. cbn [fst snd].
  split; [|split].
  - decide_In.
  - decide_In.
  - intros marker section_name Hin.
    repeat (destruct Hin as [E|Hin]; [inversion E; subst; clear E|]);
      [| | | |destruct Hin]; split; decide_In.
Qed.

(** C4, as the claim states it, fails: the test is for a substring, not
    for a line.  This document has no line [## Overview] (it has
    [### Overview]), and [validate_skill_md] gives no message about a
    missing Overview. *)
Lemma C4_overview_found_inside_a_longer_line :
  let fs := tree [(txt "alpha", plugin (good_text "alpha") overview_as_subheading)] in
  let result :=
    ValidatePlugins.validate_skill_md fs (in_tooling "alpha") (good_manifest "alpha") in
  has_line (txt "## Overview") overview_as_subheading = false /\
  ~ In (txt "Missing Overview table") (snd result) /\
  ~ In (txt "Missing Overview table") (fst result).
Proof.
  cbv zeta. split; [vm_compute; reflexivity|].
  rewrite !mem_In. split; vm_compute; discriminate.
Qed.

(** C4 (amended): [validate_skill_md] tests each of the five required
    headings for presence as a substring of the document (so a heading
    is also found inside a longer line, such as [### Overview]).
    [## Failed Attempts] missing in this sense gives the error "Missing
    Failed Attempts section (REQUIRED)" and no warning; each of the other
    four missing gives its "Missing ..." warning and no error. *)
Theorem C4_required_sections_by_substring
    (fs : node) (plugin_dir : path) (plugin_data : json)
    (skill_md_path : path) (others : list path) (content : str) :
  glob_star fs (plugin_dir ++ [txt "skills"]) (txt "SKILL.md") = skill_md_path :: others ->
  read_text fs skill_md_path = Ret content ->
  let errs := fst (ValidatePlugins.validate_skill_md fs plugin_dir plugin_data) in
  let warns := snd (ValidatePlugins.validate_skill_md fs plugin_dir plugin_data) in
  (In (txt "Missing Failed Attempts section (REQUIRED)") errs
     <-> contains (txt "## Failed Attempts") content = false) /\
  ~ In (txt "Missing Failed Attempts section (REQUIRED)") warns /\
  (forall marker section_name,
     In (marker, section_name)
        [ (txt "## Overview", txt "Overview table");
          (txt "## When to Use", txt "When to Use section");
          (txt "## Verified Workflow", txt "Verified Workflow section");
          (txt "## Results", txt "Results & Parameters section") ] ->
     (In (txt "Missing " ++ section_name) warns <-> contains marker content = false) /\
     ~ In (txt "Missing " ++ section_name) errs).
Proof.
  intros Hglob Hread. cbv zeta.
  rewrite (validate_skill_md_content _ _ _ _ _ _ Hglob Hread).
  apply skill_checks_required_sections.
Qed.

(** The document [### Overview]: Failed Attempts is missing, Overview is
    found. *)
Lemma C4_required_sections_by_substring_witness :
  let fs := tree [(txt "alpha", plugin (good_text "alpha") (txt "### Overview"))] in
  let result :=
    ValidatePlugins.validate_skill_md fs (in_tooling "alpha") (good_manifest "alpha") in
  (In (txt "Missing Failed Attempts section (REQUIRED)") (fst result)
     <-> contains (txt "## Failed Attempts") (txt "### Overview") = false) /\
  (In (txt "Missing Overview table") (snd result)
     <-> contains (txt "## Overview") (txt "### Overview") = false).
Proof.
  cbv zeta.
  destruct (C4_required_sections_by_substring
              (tree [(txt "alpha", plugin (good_text "alpha") (txt "### Overview"))])
              (in_tooling "alpha") (good_manifest "alpha")
              (in_tooling "alpha" ++ [txt "skills"; txt "main"; txt "SKILL.md"]) []
              (txt "### Overview"))
    as (H1 & _ & H3); try (vm_compute; reflexivity).
  split; [exact H1|].
  apply (H3 (txt "## Overview") (txt "Overview table")). left; reflexivity.
Defined.

(* ------------------------------------------------------------------ *)
(** ** Discovery under a root that does not exist (C5) *)

(** C5, as the claim states it, fails: for a root that does not exist
    neither [find_plugins] returns the empty list. *)
Lemma C5_find_plugins_missing_root_not_empty :
  exists_ empty_tree [txt "plugins"] = false /\
  ValidatePlugins.find_plugins empty_tree [txt "plugins"] <> Ret [] /\
  GenerateMarketplace.find_plugins empty_tree [txt "plugins"] <> Ret [].
Proof. repeat split; vm_compute; discriminate. Qed.

(** C5 (amended): for every root path that does not exist, neither
    [find_plugins] returns a list: [iterdir] raises on such a path, and
    both [find_plugins], which have no [try] block, end with the
    exception it raises.  Both [main]s test the root first and return 1
    without calling [find_plugins]. *)
Theorem C5_find_plugins_missing_root (fs : node) (plugins_dir : path) :
  exists_ fs plugins_dir = false ->
  (exists e,
     iterdir fs plugins_dir = Raise e /\
     ValidatePlugins.find_plugins fs plugins_dir = Raise e /\
     GenerateMarketplace.find_plugins fs plugins_dir = Raise e) /\
  (forall load argv,
     plugins_dir_of argv = plugins_dir ->
     ValidatePlugins.main load fs argv = Ret 1%Z /\
     GenerateMarketplace.main load fs argv = Ret (1%Z, None)).
Proof.
  intros Hroot. split.
  - exists (missing fs plugins_dir).
    unfold ValidatePlugins.find_plugins, GenerateMarketplace.find_plugins.
    rewrite (iterdir_missing _ _ Hroot). repeat split.
  - intros load argv <-. split.
    + unfold ValidatePlugins.main. now rewrite Hroot.
    + unfold GenerateMarketplace.main. now rewrite Hroot.
Qed.

(** The empty tree has no [plugins] directory. *)
Lemma C5_find_plugins_missing_root_witness :
  (exists e,
     iterdir empty_tree [txt "plugins"] = Raise e /\
     ValidatePlugins.find_plugins empty_tree [txt "plugins"] = Raise e /\
     GenerateMarketplace.find_plugins empty_tree [txt "plugins"] = Raise e) /\
  ValidatePlugins.main sample_decoder empty_tree argv0 = Ret 1%Z /\
  GenerateMarketplace.main sample_decoder empty_tree argv0 = Ret (1%Z, None).
Proof.
  destruct (C5_find_plugins_missing_root empty_tree [txt "plugins"]) as [H1 H2];
    [reflexivity|].
  split; [exact H1|]. apply (H2 sample_decoder argv0). reflexivity.
Defined.

(** The exception is the one of the system: [FileNotFoundError] under a
    directory that has no such entry, [NotADirectoryError] under a
    regular file. *)
Lemma iterdir_where_nothing_is :
  iterdir empty_tree [txt "plugins"] = Raise FileNotFoundError /\
  iterdir (Dir [(txt "README.md", File (Readable []))])
    [txt "README.md"; txt "plugins"] = Raise NotADirectoryError /\
  ValidatePlugins.find_plugins (Dir [(txt "README.md", File (Readable []))])
    [txt "README.md"; txt "plugins"] = Raise NotADirectoryError.
Proof. repeat split. Qed.

(* ------------------------------------------------------------------ *)
(** ** The manifest loader of the index builder (C6) *)

(** C6, as the claim states it, fails: a manifest that is present and is
    not JSON gives the very result of an absent manifest, [None]. *)
Lemma C6_parse_error_is_no_metadata :
  exists_ broken_tree (ValidatePlugins.manifest_path (in_tooling "broken")) = true /\
  (exists msg, sample_decoder (txt "not json") = JSONDecodeError msg) /\
  exists_ bare_tree (ValidatePlugins.manifest_path (in_tooling "bare")) = false /\
  GenerateMarketplace.load_plugin_metadata sample_decoder broken_tree (in_tooling "broken")
  = GenerateMarketplace.load_plugin_metadata sample_decoder bare_tree (in_tooling "bare").
Proof.
  split; [vm_compute; reflexivity|]. split; [eexists; vm_compute; reflexivity|].
  split; vm_compute; reflexivity.
Qed.

(** C6 (amended): [load_plugin_metadata] returns [None] when the manifest
    file is absent, and it returns [None] as well when the file is present
    but is not JSON: the decode error is caught and not passed on, so the
    caller cannot tell the two cases apart. *)
Theorem C6_load_plugin_metadata_none
    (load : decoder) (fs : node) (plugin_dir : path) :
  (exists_ fs (ValidatePlugins.manifest_path plugin_dir) = false ->
   GenerateMarketplace.load_plugin_metadata load fs plugin_dir = Ret None) /\
  (forall text msg,
     read_text fs (ValidatePlugins.manifest_path plugin_dir) = Ret text ->
     load text = JSONDecodeError msg ->
     GenerateMarketplace.load_plugin_metadata load fs plugin_dir = Ret None).
Proof.
  unfold GenerateMarketplace.load_plugin_metadata. split.
  - intros H. now rewrite H.
  - intros text msg Hread Hload.
    rewrite (read_text_exists _ _ _ Hread), Hread. cbn [negb bind].
    now rewrite Hload.
Qed.

(** A plugin without a manifest, and a plugin whose manifest is the text
    [not json]. *)
Lemma C6_load_plugin_metadata_none_witness :
  GenerateMarketplace.load_plugin_metadata sample_decoder bare_tree (in_tooling "bare")
    = Ret None /\
  GenerateMarketplace.load_plugin_metadata sample_decoder broken_tree (in_tooling "broken")
    = Ret None.
Proof.
  split.
  - apply (C6_load_plugin_metadata_none sample_decoder bare_tree (in_tooling "bare")).
    vm_compute; reflexivity.
  - apply (C6_load_plugin_metadata_none sample_decoder broken_tree (in_tooling "broken"))
      with (text := txt "not json")
           (msg := txt "Expecting value: line 1 column 1 (char 0)");
      vm_compute; reflexivity.
Defined.

(* ------------------------------------------------------------------ *)
(** ** The order of the index *)

Lemma str_cmp_refl (a : str) : str_cmp a a = Eq.
Proof.
  induction a as [|x a IH]; simpl; trivial. now rewrite Nat.compare_refl.
Qed.

Lemma nat_of_ascii_inj (x y : ascii) : nat_of_ascii x = nat_of_ascii y -> x = y.
Proof.
  intros H. rewrite <- (ascii_nat_embedding x), <- (ascii_nat_embedding y).
  now rewrite H.
Qed.

Lemma str_cmp_eq (a b : str) : str_cmp a b = Eq -> a = b.
Proof.
  revert b; induction a as [|x a IH]; intros [|y b] H; simpl in H;
    try discriminate; trivial.
  destruct (Nat.compare_spec (nat_of_ascii x) (nat_of_ascii y)) as [E|L|G];
    try discriminate.
  apply nat_of_ascii_inj in E. subst y. f_equal. now apply IH.
Qed.

Lemma str_cmp_antisym (a b : str) : str_cmp b a = CompOpp (str_cmp a b).
Proof.
  revert b; induction a as [|x a IH]; intros [|y b]; simpl; trivial.
  rewrite (Nat.compare_antisym (nat_of_ascii x) (nat_of_ascii y)).
  destruct (nat_of_ascii x ?= nat_of_ascii y); simpl; trivial.
Qed.

Lemma str_cmp_lt_trans (a b c : str) :
  str_cmp a b = Lt -> str_cmp b c = Lt -> str_cmp a c = Lt.
Proof.
  revert b c; induction a as [|x a IH]; intros [|y b] [|z c] H1 H2;
    simpl in *; try discriminate; trivial.
  destruct (Nat.compare_spec (nat_of_ascii x) (nat_of_ascii y)) as [E1|L1|G1];
    try discriminate;
    destruct (Nat.compare_spec (nat_of_ascii y) (nat_of_ascii z)) as [E2|L2|G2];
    try discriminate.
  - rewrite E1, E2, Nat.compare_refl. now apply (IH b c).
  - rewrite E1. apply Nat.compare_lt_iff in L2. now rewrite L2.
  - rewrite <- E2. apply Nat.compare_lt_iff in L1. now rewrite L1.
  - assert (L : nat_of_ascii x < nat_of_ascii z) by lia.
    apply Nat.compare_lt_iff in L. now rewrite L.
Qed.

Lemma str_eqb_cmp (a b : str) : str_eqb a b = true <-> str_cmp a b = Eq.
Proof.
  rewrite str_eqb_eq. split.
  - intros ->. apply str_cmp_refl.
  - apply str_cmp_eq.
Qed.

Lemma key_cmp_eq (a b : str * str) : key_cmp a b = Eq -> a = b.
Proof.
  destruct a as [a1 a2], b as [b1 b2]. unfold key_cmp. cbn [fst snd].
  destruct (str_cmp a1 b1) eqn:E1; try discriminate.
  intros E2. apply str_cmp_eq in E1, E2. now subst.
Qed.

Lemma key_cmp_refl (a : str * str) : key_cmp a a = Eq.
Proof. unfold key_cmp. now rewrite !str_cmp_refl. Qed.

Lemma key_cmp_antisym (a b : str * str) : key_cmp b a = CompOpp (key_cmp a b).
Proof.
  unfold key_cmp. rewrite (str_cmp_antisym (fst a) (fst b)).
  destruct (str_cmp (fst a) (fst b)); simpl; trivial. apply str_cmp_antisym.
Qed.

Lemma key_cmp_lt_trans (a b c : str * str) :
  key_cmp a b = Lt -> key_cmp b c = Lt -> key_cmp a c = Lt.
Proof.
  destruct a as [a1 a2], b as [b1 b2], c as [c1 c2]. unfold key_cmp. cbn [fst snd].
  destruct (str_cmp a1 b1) eqn:E1; try discriminate;
    destruct (str_cmp b1 c1) eqn:E2; try discriminate; intros H1 H2.
  - apply str_cmp_eq in E1, E2. subst. rewrite str_cmp_refl.
    now apply (str_cmp_lt_trans a2 b2 c2).
  - apply str_cmp_eq in E1. subst. now rewrite E2.
  - apply str_cmp_eq in E2. subst. now rewrite E1.
  - now rewrite (str_cmp_lt_trans a1 b1 c1 E1 E2).
Qed.

Lemma key_cmp_le_trans (a b c : str * str) :
  key_cmp a b <> Gt -> key_cmp b c <> Gt -> key_cmp a c <> Gt.
Proof.
  intros H1 H2.
  destruct (key_cmp a b) eqn:E1; [| |congruence].
  - apply key_cmp_eq in E1. now subst.
  - destruct (key_cmp b c) eqn:E2; [| |congruence].
    + apply key_cmp_eq in E2. subst. now rewrite E1.
    + now rewrite (key_cmp_lt_trans a b c E1 E2).
Qed.

Lemma entry_le_trans (x y z : GenerateMarketplace.entry) :
  entry_le x y -> entry_le y z -> entry_le x z.
Proof.
  intros (kx & ky & Hx & Hy & H1) (ky' & kz & Hy' & Hz & H2).
  rewrite Hy in Hy'. inversion Hy'; subst ky'.
  exists kx, kz. repeat split; trivial. now apply (key_cmp_le_trans kx ky kz).
Qed.

Lemma string_keyed_key (e : GenerateMarketplace.entry) :
  string_keyed e -> exists k, key_of e = Some k /\
                              GenerateMarketplace.sort_key e = (JStr (fst k), JStr (snd k)).
Proof.
  intros (c & n & Hc & Hn). exists (c, n). unfold key_of, GenerateMarketplace.sort_key.
  now rewrite Hc, Hn.
Qed.

(** On string keys, the comparison of the sort is [key_cmp]. *)
Lemma pair_lt_strings (a b : str * str) :
  pair_lt (JStr (fst a), JStr (snd a)) (JStr (fst b), JStr (snd b)) =
  Ret (match key_cmp a b with Lt => true | _ => false end).
Proof.
  destruct a as [a1 a2], b as [b1 b2]. unfold pair_lt, key_cmp. cbn [fst snd py_eq py_lt].
  destruct (str_eqb a1 b1) eqn:E1.
  - apply str_eqb_cmp in E1. rewrite E1.
    destruct (str_eqb a2 b2) eqn:E2.
    + apply str_eqb_cmp in E2. now rewrite E2.
    + unfold str_ltb. reflexivity.
  - unfold str_ltb. destruct (str_cmp a1 b1) eqn:C; trivial.
    apply str_eqb_cmp in C. congruence.
Qed.

Lemma insert_sorted_place (x : GenerateMarketplace.entry)
    (l : list GenerateMarketplace.entry) :
  string_keyed x -> Forall string_keyed l ->
  GenerateMarketplace.insert_sorted x l = Ret (place x l).
Proof.
  intros Hx Hl. induction Hl as [|y l Hy Hl IH]; [reflexivity|].
  destruct (string_keyed_key x Hx) as (kx & Kx & Sx).
  destruct (string_keyed_key y Hy) as (ky & Ky & Sy).
  cbn [GenerateMarketplace.insert_sorted place].
  rewrite Sx, Sy, pair_lt_strings, Kx, Ky. cbn [bind].
  destruct (key_cmp kx ky); trivial; now rewrite IH.
Qed.

Lemma place_perm (x : GenerateMarketplace.entry) (l : list GenerateMarketplace.entry) :
  Permutation (x :: l) (place x l).
Proof.
  induction l as [|y l IH]; [reflexivity|].
  cbn [place].
  destruct (key_of x), (key_of y); try destruct (key_cmp p p0);
    try reflexivity; (rewrite perm_swap; now apply perm_skip).
Qed.

Lemma place_keyed (x : GenerateMarketplace.entry) (l : list GenerateMarketplace.entry) :
  string_keyed x -> Forall string_keyed l -> Forall string_keyed (place x l).
Proof.
  intros Hx Hl. apply (Permutation_Forall (place_perm x l)). now constructor.
Qed.

Lemma place_sorted (x : GenerateMarketplace.entry) (l : list GenerateMarketplace.entry) :
  string_keyed x -> Forall string_keyed l ->
  StronglySorted entry_le l -> StronglySorted entry_le (place x l).
Proof.
  intros Hx Hl Hs. induction Hs as [|y l Hs IH Hy]; cbn [place].
  - repeat constructor.
  - inversion Hl as [|? ? Ky Hl']; subst.
    destruct (string_keyed_key x Hx) as (kx & Kx & _).
    destruct (string_keyed_key y Ky) as (ky & Kyy & _).
    rewrite Kx, Kyy.
    assert (Hle : forall c, key_cmp kx ky = c -> c <> Gt -> entry_le x y).
    { intros c Hc Hn. exists kx, ky. repeat split; trivial. congruence. }
    assert (Hge : forall c, key_cmp kx ky = c -> c <> Lt -> entry_le y x).
    { intros c Hc Hn. exists ky, kx. repeat split; trivial.
      rewrite key_cmp_antisym, Hc. destruct c; simpl; congruence. }
    destruct (key_cmp kx ky) eqn:C.
    + constructor; [now apply IH|].
      apply (Permutation_Forall (place_perm x l)). constructor; trivial.
      apply (Hge Eq); congruence.
    + constructor; [now constructor|].
      constructor; [apply (Hle Lt); congruence|].
      apply Forall_forall. intros z Hz. rewrite Forall_forall in Hy.
      apply (entry_le_trans x y z); [apply (Hle Lt); congruence|now apply Hy].
    + constructor; [now apply IH|].
      apply (Permutation_Forall (place_perm x l)). constructor; trivial.
      apply (Hge Gt); congruence.
Qed.

(** The sort returns, and returns a sorted rearrangement, when every key
    is a pair of strings. *)
Lemma sort_entries_sorted (es : list GenerateMarketplace.entry) :
  Forall string_keyed es ->
  exists sorted,
    GenerateMarketplace.sort_entries es = Ret sorted /\
    Permutation es sorted /\
    StronglySorted entry_le sorted.
Proof.
  unfold GenerateMarketplace.sort_entries.
  assert (G : forall acc,
             Forall string_keyed acc -> StronglySorted entry_le acc ->
             Forall string_keyed es ->
             exists sorted,
               for_each (fun acc x => GenerateMarketplace.insert_sorted x acc) acc es
                 = Ret sorted /\
               Permutation (acc ++ es) sorted /\ StronglySorted entry_le sorted).
  { induction es as [|x es IH]; intros acc Ha Hs He.
    - exists acc. rewrite app_nil_r. repeat split; trivial.
    - inversion He as [|? ? Hx He']; subst. cbn [for_each].
      rewrite (insert_sorted_place x acc Hx Ha). cbn [bind].
      destruct (IH (place x acc)) as (sorted & E & P & S); trivial.
      + now apply place_keyed.
      + now apply place_sorted.
      + exists sorted. repeat split; trivial.
        transitivity (place x acc ++ es); [|exact P].
        transitivity ((x :: acc) ++ es).
        * symmetry. apply Permutation_middle.
        * apply Permutation_app_tail, place_perm. }
  intros He. apply (G []); trivial; constructor.
Qed.

Lemma dict_find_set_same (k : str) (v : json) (kv : list (str * json)) :
  dict_find k (dict_set k v kv) = Some v.
Proof.
  induction kv as [|[k' v'] kv IH]; cbn [dict_set dict_find].
  - now rewrite str_eqb_refl.
  - destruct (str_eqb k k') eqn:E; cbn [dict_find]; rewrite E; trivial.
Qed.

Lemma dict_find_set_other (k k' : str) (v : json) (kv : list (str * json)) :
  str_eqb k k' = false ->
  dict_find k (dict_set k' v kv) = dict_find k kv.
Proof.
  intros Hk. induction kv as [|[k1 v1] kv IH]; cbn [dict_set dict_find].
  - now rewrite Hk.
  - destruct (str_eqb k' k1) eqn:E; cbn [dict_find].
    + apply str_eqb_eq in E. subst k1. now rewrite Hk.
    + destruct (str_eqb k k1); trivial.
Qed.

(** What [load_plugin_metadata] gives for such a manifest: [None], or a
    dict with a string under "category" and a string or nothing under
    "name". *)
Lemma load_plugin_metadata_for_index (load : decoder) (fs : node) (plugin_dir : path) :
  manifest_for_index load fs plugin_dir ->
  GenerateMarketplace.load_plugin_metadata load fs plugin_dir = Ret None \/
  exists metadata c,
    GenerateMarketplace.load_plugin_metadata load fs plugin_dir = Ret (Some metadata) /\
    dict_find (txt "category") metadata = Some (JStr c) /\
    string_or_absent (txt "name") metadata.
Proof.
  unfold GenerateMarketplace.load_plugin_metadata.
  intros [Habs|(text & Hread & Hload)].
  - left. now rewrite Habs.
  - rewrite (read_text_exists _ _ _ Hread), Hread. cbn [negb bind].
    destruct (load text) as [[| | | | |kv]|msg]; try contradiction; [|now left].
    destruct Hload as [Hname Hcat]. right.
    unfold has_key. unfold string_or_absent in Hcat.
    destruct (dict_find (txt "category") kv) as [[| | |c| |]|] eqn:Ec;
      try contradiction; cbn [negb].
    + eexists; exists c. split; [reflexivity|]. split.
      * now rewrite dict_find_set_other.
      * unfold string_or_absent. now rewrite dict_find_set_other.
    + eexists; eexists. split; [reflexivity|]. split.
      * rewrite dict_find_set_other by reflexivity. apply dict_find_set_same.
      * unfold string_or_absent. now rewrite !dict_find_set_other.
Qed.

(** The loop of [generate_marketplace] returns for such manifests, and
    every entry it makes has strings for its category and its name. *)
Lemma collect_entries_string_keyed
    (load : decoder) (fs : node) (plugins_dir : path) (plugins : list path) :
  (forall p, In p plugins -> manifest_for_index load fs p) ->
  exists es,
    GenerateMarketplace.collect_entries load fs plugins_dir plugins = Ret es /\
    Forall string_keyed es.
Proof.
  unfold GenerateMarketplace.collect_entries.
  match goal with |- context [for_each ?f [] plugins] => set (body := f) end.
  assert (G : forall acc,
             Forall string_keyed acc ->
             (forall p, In p plugins -> manifest_for_index load fs p) ->
             exists es, for_each body acc plugins = Ret es /\ Forall string_keyed es).
  { induction plugins as [|p plugins IH]; intros acc Hacc Hall.
    - exists acc. now split.
    - cbn [for_each]. unfold body at 1.
      destruct (load_plugin_metadata_for_index load fs p (Hall p (or_introl eq_refl)))
        as [E|(metadata & c & E & Hc & Hn)]; rewrite E; cbn [bind].
      + apply IH; trivial. intros q Hq. apply Hall. now right.
      + apply IH; [|intros q Hq; apply Hall; now right].
        apply Forall_app. split; trivial. constructor; [|constructor].
        unfold string_keyed, dict_get. cbn. rewrite Hc.
        unfold string_or_absent in Hn.
        destruct (dict_find (txt "name") metadata) as [[| | |n| |]|];
          try contradiction; eexists; eexists; split; reflexivity. }
  intros Hall. apply G; trivial.
Qed.

(** Two sorted rearrangements of the same entries, no two of which share
    a key, are the same list. *)
Lemma sorted_rearrangements_agree (l1 l2 : list GenerateMarketplace.entry) :
  StronglySorted entry_le l1 -> StronglySorted entry_le l2 ->
  Permutation l1 l2 -> NoDup (map key_of l1) -> l1 = l2.
Proof.
  intros S1; revert l2; induction S1 as [|a l1 S1 IH Ha]; intros l2 S2 P N.
  - apply Permutation_nil in P. now subst.
  - destruct S2 as [|b l2 S2 Hb].
    + apply Permutation_sym, Permutation_nil in P. discriminate.
    + assert (E : a = b).
      { assert (Ia : In a (b :: l2)) by (apply (Permutation_in _ P); now left).
        assert (Ib : In b (a :: l1)).
        { apply (Permutation_in _ (Permutation_sym P)); now left. }
        destruct Ia as [Ea|Ia]; [now subst|].
        destruct Ib as [Eb|Ib]; [now subst|]. exfalso.
        rewrite Forall_forall in Ha, Hb.
        destruct (Ha b Ib) as (ka & kb & Ka & Kb & C1).
        destruct (Hb a Ia) as (kb' & ka' & Kb' & Ka' & C2).
        rewrite Ka in Ka'; inversion Ka'; subst ka'.
        rewrite Kb in Kb'; inversion Kb'; subst kb'.
        rewrite key_cmp_antisym in C2.
        assert (Ek : ka = kb).
        { apply key_cmp_eq. destruct (key_cmp ka kb); simpl in *; congruence. }
        subst kb. inversion N as [|? ? Hnot _]; subst. apply Hnot.
        rewrite Ka, <- Kb. now apply in_map. }
      subst b. f_equal. apply IH; trivial.
      * now apply Permutation_cons_inv in P.
      * now inversion N.
Qed.

(** The index does not depend on the order in which the directories are
    listed, as long as no two entries share (category, name): the sort
    brings any rearrangement of the same entries to the same list. *)
Lemma sort_entries_order_independent (es1 es2 : list GenerateMarketplace.entry) :
  Forall string_keyed es1 ->
  NoDup (map key_of es1) ->
  Permutation es1 es2 ->
  exists sorted,
    GenerateMarketplace.sort_entries es1 = Ret sorted /\
    GenerateMarketplace.sort_entries es2 = Ret sorted.
Proof.
  intros K N P.
  destruct (sort_entries_sorted es1 K) as (s1 & E1 & P1 & S1).
  destruct (sort_entries_sorted es2 (Permutation_Forall P K)) as (s2 & E2 & P2 & S2).
  exists s1. split; trivial. rewrite E2. f_equal. symmetry.
  apply sorted_rearrangements_agree; trivial.
  - now rewrite <- P1, P, P2.
  - apply (Permutation_NoDup (Permutation_map key_of P1) N).
Qed.

(** Two entries, sorted from either order. *)
Lemma sort_entries_order_independent_witness :
  let a := {| GenerateMarketplace.e_name := JStr (txt "alpha");
              GenerateMarketplace.e_description := JStr [];
              GenerateMarketplace.e_version := JStr (txt "1.0.0");
              GenerateMarketplace.e_source := txt "./plugins/tooling/alpha";
              GenerateMarketplace.e_category := JStr (txt "tooling");
              GenerateMarketplace.e_tags := JArr [] |} in
  let b := {| GenerateMarketplace.e_name := JStr (txt "beta");
              GenerateMarketplace.e_description := JStr [];
              GenerateMarketplace.e_version := JStr (txt "1.0.0");
              GenerateMarketplace.e_source := txt "./plugins/ci-cd/beta";
              GenerateMarketplace.e_category := JStr (txt "ci-cd");
              GenerateMarketplace.e_tags := JArr [] |} in
  exists sorted,
    GenerateMarketplace.sort_entries [a; b] = Ret sorted /\
    GenerateMarketplace.sort_entries [b; a] = Ret sorted.
Proof.
  cbv zeta. apply sort_entries_order_independent.
  - repeat constructor; eexists; eexists; split; reflexivity.
  - repeat constructor; cbn; intuition discriminate.
  - apply perm_swap.
Defined.

(* ------------------------------------------------------------------ *)
(** ** Running the section patcher twice (C8) *)

(** C8, at a failing input: the first run appends the Results section,
    which strips the blank after [## Workflow]; the second run then finds
    the line [## Workflow], renames it, reports one modification and
    writes the file again. *)
Theorem C8_second_run_still_modifies :
  let first := FixValidationWarnings.fix_skill_file workflow_with_trailing_blank in
  let after_first := FixValidationWarnings.file_after workflow_with_trailing_blank in
  let second := FixValidationWarnings.fix_skill_file after_first in
  FixValidationWarnings.modified first = true /\
  FixValidationWarnings.fixes_applied first = [txt "Added ## Results & Parameters"] /\
  after_first =
    text_of_lines ["## Overview"; "## Workflow"; ""; "## Results & Parameters"; "";
                   "N/A — this skill describes a workflow pattern."; ""] /\
  FixValidationWarnings.modified second = true /\
  FixValidationWarnings.fixes_applied second
    = [txt "Renamed ## Workflow to ## Verified Workflow"] /\
  FixValidationWarnings.written second =
    Some (text_of_lines ["## Overview"; "## Verified Workflow"; "";
                         "## Results & Parameters"; "";
                         "N/A — this skill describes a workflow pattern."; ""]) /\
  FixValidationWarnings.file_after after_first <> after_first.
Proof.
  cbv zeta. repeat split; try (vm_compute; reflexivity).
  apply str_eqb_neq. vm_compute. reflexivity.
Qed.

(** The same happens when the Results section is put before a
    [## References] that stands on the line of [## Workflow]. *)
Lemma second_run_modifies_before_references :
  let after_first := FixValidationWarnings.file_after workflow_before_references in
  FixValidationWarnings.modified (FixValidationWarnings.fix_skill_file after_first) = true /\
  FixValidationWarnings.fixes_applied (FixValidationWarnings.fix_skill_file after_first)
    = [txt "Renamed ## Workflow to ## Verified Workflow"].
Proof. cbv zeta. split; vm_compute; reflexivity. Qed.

(** The other half of the claim holds for every document: the file is
    written if and only if the patched content differs from the original,
    that is when the call reports a modification; a call that does not
    write reports no fix. *)
Lemma fix_skill_file_writes_iff_changed (original_content : str) :
  let r := FixValidationWarnings.fix_skill_file original_content in
  let patched := fst (FixValidationWarnings.apply_fixes original_content) in
  (FixValidationWarnings.written r = Some patched <-> patched <> original_content) /\
  (FixValidationWarnings.written r = None <-> patched = original_content) /\
  (FixValidationWarnings.modified r = true <-> patched <> original_content) /\
  (patched = original_content -> FixValidationWarnings.fixes_applied r = []).
Proof.
  cbv zeta. unfold FixValidationWarnings.fix_skill_file.
  destruct (FixValidationWarnings.apply_fixes original_content) as [content fixes].
  cbn [fst]. destruct (str_eqb content original_content) eqn:E; cbn.
  - apply str_eqb_eq in E. subst. repeat split; intros; congruence.
  - apply str_eqb_neq in E. repeat split; intros; congruence.
Qed.

(** A document that passes the four tests is left alone. *)
Lemma fix_skill_file_complete_document (content : str) :
  FixValidationWarnings.has_overview_section content = true ->
  FixValidationWarnings.has_verified_workflow_section content = true ->
  FixValidationWarnings.has_results_section content = true ->
  FixValidationWarnings.has_failed_attempts_table content = true ->
  FixValidationWarnings.fix_skill_file content =
  {| FixValidationWarnings.modified := false;
     FixValidationWarnings.fixes_applied := [];
     FixValidationWarnings.written := None |}.
Proof.
  intros H1 H2 H3 H4.
  unfold FixValidationWarnings.fix_skill_file, FixValidationWarnings.apply_fixes.
  rewrite H1. cbn [negb]. rewrite H2. cbn [negb]. rewrite H3. cbn [negb].
  rewrite H4. cbn [negb]. now rewrite str_eqb_refl.
Qed.

(** The document [good_skill] has every section and a table. *)
Lemma fix_skill_file_complete_document_witness :
  FixValidationWarnings.fix_skill_file good_skill =
  {| FixValidationWarnings.modified := false;
     FixValidationWarnings.fixes_applied := [];
     FixValidationWarnings.written := None |}.
Proof.
  apply fix_skill_file_complete_document; vm_compute; reflexivity.
Defined.

(* ------------------------------------------------------------------ *)
(** ** The table patcher and the subsection titles (C9) *)

(** C9, at a failing input: the section the patcher cuts out ends at the
    first line that starts with [##], and [### Attempt 1: Wrong config] is
    such a line.  The section handed to [generate_summary_table] is two
    newlines, no title is found, and the table that is written has the
    generic row; no row of the result mentions "Wrong config". *)
Theorem C9_subsection_titles_are_cut_off :
  let r := FixFailedAttemptsTables.fix_skill_file wrong_config_document in
  (exists m,
     search MULTILINE_DOTALL FixFailedAttemptsTables.failed_attempts_section
       wrong_config_document = Some m /\
     group 1 m wrong_config_document = [nl; nl]) /\
  FixFailedAttemptsTables.extract_attempts_from_subsections [nl; nl] = [] /\
  FixFailedAttemptsTables.modified r = true /\
  FixFailedAttemptsTables.written r =
    Some (text_of_lines
            ["## Failed Attempts";
             "| Attempt | Issue | Resolution |";
             "|---------|-------|------------|";
             "| See detailed notes below | Various approaches tried | Refer to documentation in this section |";
             ""; ""; "### Attempt 1: Wrong config"; "Details"; ""]) /\
  (forall text, FixFailedAttemptsTables.written r = Some text ->
                contains (txt "| 1. Wrong config") text = false /\
                forall line, In line (split [nl] text) ->
                             startswith (txt "|") line = true ->
                             contains (txt "Wrong config") line = false).
Proof.
  cbv zeta. split; [eexists; split; vm_compute; reflexivity|].
  split; [vm_compute; reflexivity|]. split; [vm_compute; reflexivity|].
  split; [vm_compute; reflexivity|].
  intros text E. vm_compute in E. inversion E; subst text; clear E.
  split; [vm_compute; reflexivity|].
  intros line Hin Hbar.
  match type of Hin with In _ ?l => set (ls := l) in Hin end.
  vm_compute in ls. subst ls.
  repeat (destruct Hin as [<-|Hin];
          [first [reflexivity | vm_compute in Hbar; discriminate]|]).
  destruct Hin.
Qed.

(** Given the whole section, [generate_summary_table] does what the
    claim says: a three-column table whose first data row is the first
    title, with at most three rows and long titles cut to 47 characters
    and dots. *)
Lemma generate_summary_table_on_whole_section :
  FixFailedAttemptsTables.generate_summary_table
    (text_of_lines [""; ""; "### Attempt 1: Wrong config"; "Details"; ""]) =
  text_of_lines
    [""; "| Attempt | Issue | Resolution |";
     "|---------|-------|------------|";
     "| 1. Wrong config | See details below | Documented in subsections |"; ""] /\
  FixFailedAttemptsTables.generate_summary_table
    (text_of_lines
       [""; "### Attempt 1: a";
        "### Attempt 2: A title that is much longer than the fifty characters a row may hold";
        "### Attempt 3: c"; "### Attempt 4: d"; ""]) =
  text_of_lines
    [""; "| Attempt | Issue | Resolution |";
     "|---------|-------|------------|";
     "| 1. a | See details below | Documented in subsections |";
     "| 2. A title that is much longer than the fifty char... | See details below | Documented in subsections |";
     "| 3. c | See details below | Documented in subsections |"; ""].
Proof. split; vm_compute; reflexivity. Qed.

(* ------------------------------------------------------------------ *)
(** ** A manifest that is JSON but not an object (C10) *)

(** C10: when the manifest file parses as JSON and the value is not an
    object (a list, a string, a number, a boolean, null),
    [validate_plugin_json] raises [AttributeError] instead of returning
    its lists; nothing catches it, so [validate_plugin] raises too and
    every run of [main] that discovers the plugin ends with an exception
    (exit status 1), with no result for any plugin. *)
Theorem C10_non_object_manifest_raises
    (load : decoder) (fs : node) (plugin_dir : path) (text : str) (v : json) :
  read_text fs (ValidatePlugins.manifest_path plugin_dir) = Ret text ->
  load text = Decoded v ->
  is_object v = false ->
  ValidatePlugins.validate_plugin_json load fs plugin_dir = Raise AttributeError /\
  ValidatePlugins.validate_plugin load fs plugin_dir = Raise AttributeError /\
  forall argv plugins,
    exists_ fs (plugins_dir_of argv) = true ->
    ValidatePlugins.find_plugins fs (plugins_dir_of argv) = Ret plugins ->
    In plugin_dir plugins ->
    (exists e, ValidatePlugins.main load fs argv = Raise e) /\
    ValidatePlugins.exit_status (ValidatePlugins.main load fs argv) = 1%Z.
Proof.
  intros Hread Hload Hv.
  assert (E : ValidatePlugins.validate_plugin_json load fs plugin_dir = Raise AttributeError).
  { unfold ValidatePlugins.validate_plugin_json.
    rewrite (read_text_exists _ _ _ Hread), Hread. cbn [negb bind].
    rewrite Hload. destruct v; try discriminate Hv; reflexivity. }
  assert (E' : ValidatePlugins.validate_plugin load fs plugin_dir = Raise AttributeError).
  { unfold ValidatePlugins.validate_plugin. rewrite E. reflexivity. }
  split; [exact E|]. split; [exact E'|].
  intros argv plugins Hroot Hfind Hin.
  unfold ValidatePlugins.main. rewrite Hroot, Hfind. cbn [negb bind].
  destruct plugins as [|p ps]; [contradiction|].
  destruct (mapM_raises (ValidatePlugins.validate_plugin load fs) (p :: ps)
              plugin_dir AttributeError Hin E') as [e He].
  rewrite He. split; [now exists e|reflexivity].
Qed.

(** In [list_tree] the manifest of [lst] is the JSON text of an empty list. *)
Lemma C10_non_object_manifest_raises_witness :
  ValidatePlugins.validate_plugin_json sample_decoder list_tree (in_tooling "lst")
    = Raise AttributeError /\
  ValidatePlugins.validate_plugin sample_decoder list_tree (in_tooling "lst")
    = Raise AttributeError /\
  ValidatePlugins.exit_status (ValidatePlugins.main sample_decoder list_tree argv0) = 1%Z.
Proof.
  destruct (C10_non_object_manifest_raises sample_decoder list_tree
              (in_tooling "lst") (txt "[]") (JArr []))
    as (E1 & E2 & E3); try (vm_compute; reflexivity).
  split; [exact E1|]. split; [exact E2|].
  apply (E3 argv0 [in_tooling "alpha"; in_tooling "lst"]).
  - vm_compute; reflexivity.
  - vm_compute; reflexivity.
  - right; left; reflexivity.
Defined.

(* ------------------------------------------------------------------ *)
(** ** Tags that are an empty list *)

(** The only warning of the manifest checks is the one for an empty list
    of tags, and it is given exactly then. *)
Lemma empty_tags_is_the_only_warning
    (kv : list (str * json)) (errs warns : list str) :
  ValidatePlugins.manifest_checks (JObj kv) = Ret (errs, warns) ->
  warns = match dict_find (txt "tags") kv with
          | Some (JArr []) => [txt "No tags provided - reduces searchability"]
          | _ => []
          end.
Proof.
  unfold ValidatePlugins.manifest_checks.
  repeat match goal with
         | |- context [bind ?m _] =>
             let E := fresh "E" in
             destruct m as [?|?] eqn:E; cbn [bind]; [|discriminate]
         end.
  destruct (dict_find (txt "tags") kv) as [[| | | |[|x l]|]|];
    intros H; inversion H; subst; reflexivity.
Qed.

(** The scenario of the specification: a complete manifest with
    [tags: []] has no error and one warning, and the plugin is valid. *)
Lemma empty_tags_scenario :
  let manifest :=
    JObj [ (txt "name", JStr (txt "alpha"));
           (txt "version", JStr (txt "1.0.0"));
           (txt "description", JStr (txt "Use when: a demo is needed"));
           (txt "category", JStr (txt "tooling"));
           (txt "date", JStr (txt "2024-01-31"));
           (txt "tags", JArr []) ] in
  ValidatePlugins.manifest_checks manifest =
  Ret ([], [txt "No tags provided - reduces searchability"]).
Proof. vm_compute. reflexivity. Qed.

(** The complete manifest with an empty list of tags. *)
Lemma empty_tags_is_the_only_warning_witness :
  [txt "No tags provided - reduces searchability"] =
  match dict_find (txt "tags")
          [ (txt "name", JStr (txt "alpha"));
            (txt "version", JStr (txt "1.0.0"));
            (txt "description", JStr (txt "Use when: a demo is needed"));
            (txt "category", JStr (txt "tooling"));
            (txt "date", JStr (txt "2024-01-31"));
            (txt "tags", JArr []) ] with
  | Some (JArr []) => [txt "No tags provided - reduces searchability"]
  | _ => []
  end.
Proof.
  apply (empty_tags_is_the_only_warning _ [] _ empty_tags_scenario).
Defined.

(* ------------------------------------------------------------------ *)
(** ** More on strings and lists *)

(** A text that starts with [w] starts with [p] as [w] does, when [p] is
    no longer than [w]. *)
Lemma startswith_literal (p w s : str) :
  length p <= length w -> startswith p (w ++ s) = startswith p w.
Proof.
  revert w; induction p as [|x p IH]; intros w Hl; cbn [startswith]; trivial.
  destruct w as [|y w]; cbn [length] in Hl; [lia|].
  cbn [app startswith]. rewrite IH by lia. reflexivity.
Qed.

Lemma firstn_add {A} (n m : nat) (l : list A) :
  firstn (n + m) l = firstn n l ++ firstn m (skipn n l).
Proof.
  revert l; induction n as [|n IH]; intros l; cbn [Nat.add firstn skipn app]; trivial.
  destruct l as [|x l]; cbn [firstn skipn app].
  - now rewrite firstn_nil.
  - now rewrite IH.
Qed.

(* ------------------------------------------------------------------ *)
(** ** Discovery of the plugin directories *)

Section Discovery.
Variable fs : node.
Variable marker : path -> bool.

Lemma plugin_loop (plugin_dirs acc : list path) :
  for_each
    (fun plugins plugin_dir =>
       if negb (is_dir fs plugin_dir) then Ret plugins
       else if startswith (txt ".") (name plugin_dir) then Ret plugins
       else if marker plugin_dir then Ret (plugins ++ [plugin_dir])
       else Ret plugins)
    acc plugin_dirs
  = Ret (acc ++ filter (fun q => visible_dir fs q && marker q) plugin_dirs).
Proof.
  revert acc; induction plugin_dirs as [|q l IH]; intros acc; cbn [for_each filter].
  - now rewrite app_nil_r.
  - unfold visible_dir at 1.
    destruct (is_dir fs q), (startswith (txt ".") (name q)), (marker q);
      cbn [negb andb bind]; rewrite IH; trivial.
    now rewrite <- app_assoc.
Qed.

Lemma iterdir_children (p : path) :
  is_dir fs p = true -> iterdir fs p = Ret (children fs p).
Proof.
  unfold is_dir, iterdir, children.
  destruct (lookup fs p) as [[d|es]|]; intros H; try discriminate. reflexivity.
Qed.

Lemma category_loop (category_dirs acc : list path) :
  for_each
    (fun plugins category_dir =>
       if negb (is_dir fs category_dir) then Ret plugins
       else if startswith (txt ".") (name category_dir) then Ret plugins
       else
         plugin_dirs <- iterdir fs category_dir ;;
         for_each
           (fun plugins plugin_dir =>
              if negb (is_dir fs plugin_dir) then Ret plugins
              else if startswith (txt ".") (name plugin_dir) then Ret plugins
              else if marker plugin_dir then Ret (plugins ++ [plugin_dir])
              else Ret plugins)
           plugins plugin_dirs)
    acc category_dirs
  = Ret (acc ++
         flat_map
           (fun c => filter (fun q => visible_dir fs q && marker q) (children fs c))
           (filter (visible_dir fs) category_dirs)).
Proof.
  revert acc; induction category_dirs as [|c l IH]; intros acc;
    cbn [for_each filter flat_map].
  - now rewrite app_nil_r.
  - unfold visible_dir at 2.
    destruct (is_dir fs c) eqn:Hd; cbn [negb andb bind].
    + destruct (startswith (txt ".") (name c)); cbn [negb bind].
      * apply IH.
      * rewrite (iterdir_children c Hd). cbn [bind].
        rewrite plugin_loop. cbn [bind flat_map]. rewrite IH.
        now rewrite <- app_assoc.
    + apply IH.
Qed.

End Discovery.

Lemma name_snoc (p : path) (c : str) : name (p ++ [c]) = c.
Proof. unfold name. apply last_last. Qed.

Lemma lookup_app (fs : node) (p q : path) :
  lookup fs (p ++ q) =
  match lookup fs p with Some x => lookup x q | None => None end.
Proof.
  revert fs; induction p as [|c p IH]; intros fs; cbn [app lookup]; trivial.
  destruct fs as [d|es]; trivial.
  destruct (entry c es); trivial.
Qed.

Lemma entry_In (c : str) (es : list (str * node)) (x : node) :
  entry c es = Some x -> In c (map fst es).
Proof.
  induction es as [|[n y] es IH]; cbn [entry map fst]; [discriminate|].
  destruct (str_eqb c n) eqn:E.
  - apply str_eqb_eq in E. subst. intros _. now left.
  - intros H. right. auto.
Qed.

(** A directory that exists is listed by its parent. *)
Lemma is_dir_child (fs : node) (p : path) (c : str) :
  is_dir fs (p ++ [c]) = true -> In (p ++ [c]) (children fs p).
Proof.
  unfold is_dir, children. rewrite lookup_app.
  destruct (lookup fs p) as [[d|es]|]; cbn [lookup]; try discriminate.
  destruct (entry c es) as [x|] eqn:E; [|discriminate]. intros _.
  apply in_map_iff. apply entry_In in E. apply in_map_iff in E as ([n y] & <- & Hin).
  now exists (n, y).
Qed.

Lemma children_snoc (fs : node) (p q : path) :
  In q (children fs p) -> exists c, q = p ++ [c].
Proof.
  unfold children. destruct (lookup fs p) as [[d|es]|]; cbn; try tauto.
  rewrite in_map_iff. intros ([n x] & <- & _). now exists n.
Qed.

(** What [find_plugins] returns, for any marker of a plugin directory. *)
Lemma discovered_In (fs : node) (marker : path -> bool) (root p : path) :
  In p (flat_map
          (fun c => filter (fun q => visible_dir fs q && marker q) (children fs c))
          (filter (visible_dir fs) (children fs root)))
  <-> exists c n,
        p = root ++ [c; n] /\
        visible_dir fs (root ++ [c]) = true /\
        visible_dir fs p = true /\ marker p = true.
Proof.
  rewrite in_flat_map. split.
  - intros (cd & Hcd & Hp). apply filter_In in Hcd as [Hcd Hv].
    apply filter_In in Hp as [Hp Hm]. apply andb_true_iff in Hm as [Hpv Hpm].
    apply children_snoc in Hcd as [c ->]. apply children_snoc in Hp as [n ->].
    exists c, n. rewrite <- app_assoc. cbn [app]. repeat split; trivial.
    all: now rewrite <- app_assoc in *.
  - intros (c & n & -> & Hc & Hp & Hm). exists (root ++ [c]).
    replace (root ++ [c; n]) with ((root ++ [c]) ++ [n]) in *
      by now rewrite <- app_assoc.
    split; apply filter_In; split.
    + apply is_dir_child. unfold visible_dir in Hc.
      now apply andb_true_iff in Hc as [-> _].
    + trivial.
    + apply is_dir_child. unfold visible_dir in Hp.
      now apply andb_true_iff in Hp as [-> _].
    + now rewrite Hp, Hm.
Qed.

Lemma find_plugins_validator (fs : node) (root : path) :
  ValidatePlugins.find_plugins fs root =
  cs <- iterdir fs root ;;
  Ret (flat_map
         (fun c => filter (fun q => visible_dir fs q && plugin_marker fs q)
                     (children fs c))
         (filter (visible_dir fs) cs)).
Proof.
  unfold ValidatePlugins.find_plugins.
  destruct (iterdir fs root) as [cs|e]; cbn [bind]; trivial.
  exact (category_loop fs (plugin_marker fs) cs []).
Qed.

Lemma find_plugins_index_builder (fs : node) (root : path) :
  GenerateMarketplace.find_plugins fs root =
  cs <- iterdir fs root ;;
  Ret (flat_map
         (fun c => filter (fun q => visible_dir fs q && has_manifest fs q)
                     (children fs c))
         (filter (visible_dir fs) cs)).
Proof.
  unfold GenerateMarketplace.find_plugins.
  destruct (iterdir fs root) as [cs|e]; cbn [bind]; trivial.
  exact (category_loop fs (has_manifest fs) cs []).
Qed.

(** X1: whenever the validator's [find_plugins] returns, it returns
    exactly the paths [root/c/n] where [c] and [n] are directories whose
    names do not start with a dot and [n] has an entry [.claude-plugin]
    or [skills]: two levels down, no more, no less. *)
Theorem find_plugins_two_levels (fs : node) (root : path) (plugins : list path) :
  ValidatePlugins.find_plugins fs root = Ret plugins ->
  forall p,
    In p plugins <->
    exists c n,
      p = root ++ [c; n] /\
      visible_dir fs (root ++ [c]) = true /\
      visible_dir fs p = true /\
      plugin_marker fs p = true.
Proof.
  rewrite find_plugins_validator.
  destruct (iterdir fs root) as [cs|e] eqn:Ei; cbn [bind]; [|discriminate].
  intros E. injection E as <-.
  assert (Hroot : is_dir fs root = true).
  { unfold iterdir in Ei. unfold is_dir.
    destruct (lookup fs root) as [[d|es]|]; trivial; discriminate. }
  rewrite (iterdir_children fs root Hroot) in Ei. injection Ei as <-.
  intros p. apply discovered_In.
Qed.

(** In [demo_tree] the two plugin directories of [plugins/tooling]. *)
Lemma find_plugins_two_levels_witness :
  ValidatePlugins.find_plugins demo_tree [txt "plugins"]
    = Ret [in_tooling "alpha"; in_tooling "demo"] /\
  forall p,
    In p [in_tooling "alpha"; in_tooling "demo"] <->
    exists c n,
      p = [txt "plugins"] ++ [c; n] /\
      visible_dir demo_tree ([txt "plugins"] ++ [c]) = true /\
      visible_dir demo_tree p = true /\
      plugin_marker demo_tree p = true.
Proof.
  assert (E : ValidatePlugins.find_plugins demo_tree [txt "plugins"]
              = Ret [in_tooling "alpha"; in_tooling "demo"]) by reflexivity.
  split; [exact E|].
  exact (find_plugins_two_levels demo_tree [txt "plugins"] _ E).
Defined.

Lemma manifest_is_marker (fs : node) (q : path) :
  has_manifest fs q = true -> plugin_marker fs q = true.
Proof.
  unfold has_manifest, plugin_marker, ValidatePlugins.manifest_path, exists_.
  replace (q ++ [txt ".claude-plugin"; txt "plugin.json"])
    with ((q ++ [txt ".claude-plugin"]) ++ [txt "plugin.json"])
    by now rewrite <- app_assoc.
  rewrite (lookup_app fs (q ++ [txt ".claude-plugin"])).
  destruct (lookup fs (q ++ [txt ".claude-plugin"])); [reflexivity|discriminate].
Qed.

Lemma filter_flat_map {A B} (f : A -> list B) (g : B -> bool) (l : list A) :
  filter g (flat_map f l) = flat_map (fun x => filter g (f x)) l.
Proof.
  induction l as [|x l IH]; cbn [flat_map filter]; trivial.
  now rewrite filter_app, IH.
Qed.

Lemma filter_filter {A} (f g : A -> bool) (l : list A) :
  filter g (filter f l) = filter (fun x => f x && g x) l.
Proof.
  induction l as [|x l IH]; cbn [filter]; trivial.
  destruct (f x); cbn [filter andb]; [destruct (g x)|]; now rewrite IH.
Qed.

(** X4: the two scripts walk the tree alike.  On every tree and root,
    when the validator's [find_plugins] and the index builder's both
    return, the index builder's list is the validator's cut down to the
    plugin directories that have a manifest file, in the same order. *)
Theorem find_plugins_of_index_builder
    (fs : node) (root : path) (validated indexed : list path) :
  ValidatePlugins.find_plugins fs root = Ret validated ->
  GenerateMarketplace.find_plugins fs root = Ret indexed ->
  indexed = filter (has_manifest fs) validated.
Proof.
  rewrite find_plugins_index_builder, find_plugins_validator.
  destruct (iterdir fs root) as [cs|e]; cbn [bind]; [|discriminate].
  intros E1 E2. injection E1 as <-. injection E2 as <-.
  rewrite filter_flat_map.
  apply flat_map_ext. intros c. rewrite filter_filter.
  apply filter_ext. intros q.
  destruct (has_manifest fs q) eqn:Hm; rewrite ?andb_false_r; trivial.
  now rewrite (manifest_is_marker fs q Hm), !andb_true_r.
Qed.

(** In [bare_tree] the one plugin directory has a [.claude-plugin]
    entry and no manifest: the validator finds it, the index builder
    does not. *)
Lemma find_plugins_of_index_builder_witness :
  ValidatePlugins.find_plugins bare_tree [txt "plugins"] = Ret [in_tooling "bare"] /\
  GenerateMarketplace.find_plugins bare_tree [txt "plugins"] = Ret [] /\
  [] = filter (has_manifest bare_tree) [in_tooling "bare"].
Proof.
  assert (E1 : ValidatePlugins.find_plugins bare_tree [txt "plugins"]
               = Ret [in_tooling "bare"]) by reflexivity.
  assert (E2 : GenerateMarketplace.find_plugins bare_tree [txt "plugins"] = Ret [])
    by reflexivity.
  split; [exact E1|]. split; [exact E2|].
  exact (find_plugins_of_index_builder bare_tree [txt "plugins"] _ _ E1 E2).
Defined.

(* ------------------------------------------------------------------ *)
(** ** The matcher, construct by construct *)

Lemma lit_spec {R} (l : str) (k : cursor -> option R)
    (p : option ascii) (s : str) (i : nat) :
  lit l k p s i =
  if startswith l s
  then k {| prev := last_opt l p; rest := skipn (length l) s; pos := i + length l |}
  else None.
Proof.
  revert p s i; induction l as [|x l IH]; intros p s i; cbn [lit startswith].
  - cbn [last_opt fold_left length skipn]. now rewrite Nat.add_0_r.
  - destruct s as [|c s]; trivial.
    destruct (Ascii.eqb x c) eqn:E; cbn [andb]; trivial.
    apply Ascii.eqb_eq in E. subst c.
    rewrite IH. cbn [last_opt fold_left length skipn].
    now rewrite Nat.add_succ_r.
Qed.

(** [a{n}]: [n] characters that pass, no fewer. *)
Lemma rep_times {R} (fl : flags) (a : atom) (lo : nat) (k : cursor -> option R)
    (m : nat) (p : option ascii) (s : str) (i : nat) :
  m <= lo ->
  rep fl a true lo (Some lo) k m p s i =
  if (lo - m <=? length s) && forallb (atom_ok fl a) (firstn (lo - m) s)
  then k {| prev := last_opt (firstn (lo - m) s) p;
            rest := skipn (lo - m) s; pos := i + (lo - m) |}
  else None.
Proof.
  revert m p i; induction s as [|c s IH]; intros m p i Hm; cbn [rep].
  - destruct (lo <=? m) eqn:E.
    + apply Nat.leb_le in E. replace (lo - m) with 0 by lia.
      cbn. now rewrite Nat.add_0_r.
    + apply Nat.leb_gt in E. cbn [length].
      destruct (lo - m) as [|d] eqn:Ed; [lia|]. reflexivity.
  - destruct (m <? lo) eqn:E1.
    + apply Nat.ltb_lt in E1.
      assert (E2 : (lo <=? m) = false) by (apply Nat.leb_gt; lia). rewrite E2.
      replace (lo - m) with (S (lo - S m)) by lia.
      cbn [firstn forallb skipn length andb last_opt fold_left].
      destruct (atom_ok fl a c); cbn [andb].
      * rewrite IH by lia. rewrite Nat.add_succ_r.
        change (S (lo - S m) <=? S (length s)) with (lo - S m <=? length s).
        destruct ((lo - S m <=? length s) &&
                  forallb (atom_ok fl a) (firstn (lo - S m) s)); [|reflexivity].
        cbn [Nat.add]. unfold last_opt. now destruct (k _).
      * now rewrite andb_false_r.
    + apply Nat.ltb_ge in E1.
      assert (E2 : (lo <=? m) = true) by (apply Nat.leb_le; lia). rewrite E2.
      cbn [andb]. replace (lo - m) with 0 by lia.
      cbn. now rewrite Nat.add_0_r.
Qed.

Lemma take_drop_while (ok : ascii -> bool) (s : str) :
  take_while ok s ++ drop_while ok s = s.
Proof.
  induction s as [|c s IH]; cbn; trivial.
  destruct (ok c); cbn; congruence.
Qed.

(** [a+$] or [a*$] without flags, for an atom that does not take a
    newline: the longest run decides, giving characters back cannot
    help. *)
Lemma rep_greedy_then_eol {R} (a : atom) (lo : nat) (f : cursor -> R)
    (n : nat) (p : option ascii) (s : str) (i : nat) :
  atom_ok no_flags a nl = false ->
  match rep no_flags a true lo None
          (fun c => if at_eol no_flags c then Some (f c) else None) n p s i with
  | Some _ =>
      lo <= n + length (take_while (atom_ok no_flags a) s) /\
      (drop_while (atom_ok no_flags a) s = [] \/
       drop_while (atom_ok no_flags a) s = [nl])
  | None =>
      ~ (lo <= n + length (take_while (atom_ok no_flags a) s) /\
         (drop_while (atom_ok no_flags a) s = [] \/
          drop_while (atom_ok no_flags a) s = [nl]))
  end.
Proof.
  intros Hnl. revert n p i; induction s as [|c s IH]; intros n p i;
    cbn [rep take_while drop_while].
  - cbn [at_eol rest length]. rewrite Nat.add_0_r.
    destruct (lo <=? n) eqn:E.
    + apply Nat.leb_le in E. auto.
    + apply Nat.leb_gt in E. intros [H _]. lia.
  - cbn [andb]. destruct (atom_ok no_flags a c) eqn:Hc.
    + specialize (IH (S n) (Some c) (S i)).
      cbn [length]. rewrite Nat.add_succ_r.
      destruct (rep no_flags a true lo None _ (S n) (Some c) s (S i)); trivial.
      assert (Hne : Ascii.eqb c nl = false).
      { destruct (Ascii.eqb c nl) eqn:E; trivial.
        apply Ascii.eqb_eq in E. congruence. }
      destruct (lo <=? n); cbn [at_eol rest]; rewrite ?Hne; exact IH.
    + cbn [length]. rewrite Nat.add_0_r.
      destruct (lo <=? n) eqn:E.
      * apply Nat.leb_le in E. cbn [at_eol rest multiline no_flags orb].
        destruct (Ascii.eqb c nl) eqn:E1; cbn [andb].
        -- apply Ascii.eqb_eq in E1. subst c.
           destruct s; [auto|]. intros [_ [H|H]]; discriminate.
        -- intros [_ [H|H]]; [discriminate|].
           injection H as -> _. now rewrite Ascii.eqb_refl in E1.
      * apply Nat.leb_gt in E. intros [H _]. lia.
Qed.

Lemma name_pattern_valid_name (s : str) :
  match match_ no_flags ValidatePlugins.name_pattern s with
  | Some _ => true
  | None => false
  end = valid_name s.
Proof.
  unfold match_, match_at, ValidatePlugins.name_pattern, Plus, start_of.
  cbn [run at_bol prev rest pos].
  pose proof (rep_greedy_then_eol
                (Class [("a", "z"); ("0", "9"); ("-", "-")]%char) 1
                (fun c' => {| m_start := 0; m_end := pos c'; m_groups := [];
                              m_after := c' |}) 0 None s 0 eq_refl) as H.
  cbn [run] in *. unfold valid_name.
  change (atom_ok no_flags (Class [("a", "z"); ("0", "9"); ("-", "-")]%char))
    with name_char in H.
  destruct (rep _ _ _ _ _ _ _ _ _ _).
  - destruct H as [H1 H2]. symmetry. apply andb_true_iff. split.
    + destruct (take_while name_char s); [cbn in H1; lia|reflexivity].
    + destruct H2 as [-> | ->]; reflexivity.
  - symmetry. apply not_true_iff_false. intros E. apply H.
    apply andb_true_iff in E as [E1 E2]. split.
    + destruct (take_while name_char s); [discriminate|cbn; lia].
    + apply orb_true_iff in E2 as [E2|E2]; apply str_eqb_eq in E2; auto.
Qed.

(* ------------------------------------------------------------------ *)
Lemma date_pattern_valid_date (s : str) :
  match match_ no_flags ValidatePlugins.date_pattern s with
  | Some _ => true
  | None => false
  end = valid_date s.
Proof.
  unfold match_, match_at, ValidatePlugins.date_pattern, Times, start_of.
  cbn [run at_bol prev rest pos].
  rewrite rep_times by lia. cbn beta iota delta [prev rest pos].
  rewrite lit_spec. cbn beta iota delta [prev rest pos].
  rewrite rep_times by lia. cbn beta iota delta [prev rest pos].
  rewrite lit_spec. cbn beta iota delta [prev rest pos].
  rewrite rep_times by lia. cbn beta iota delta [prev rest pos].
  unfold at_eol. cbn beta iota delta [rest multiline no_flags orb].
  change (atom_ok no_flags Digit) with digit.
  change (txt "-") with ["-"%char].
  unfold valid_date.
  do 10 (destruct s as [|? s];
         [cbn [Nat.sub length Nat.leb firstn forallb skipn andb startswith];
          repeat match goal with
                 | |- context [digit ?c] => destruct (digit c); cbn [andb]
                 | |- context [Ascii.eqb ?c ?d] => destruct (Ascii.eqb c d); cbn [andb]
                 end; reflexivity|]).
  cbn [Nat.sub length Nat.leb firstn forallb skipn andb startswith].
  unfold hyphen.
  repeat match goal with
         | |- context [digit ?c] => destruct (digit c); cbn [andb]
         end; trivial;
  repeat match goal with
         | |- context [Ascii.eqb "-" ?d] => destruct (Ascii.eqb "-" d); cbn [andb]
         end; trivial.
  destruct s as [|x s]; [reflexivity|]. cbn [str_eqb orb].
  destruct s; [|now rewrite !andb_false_r].
  rewrite !andb_true_r. unfold nl.
  destruct (Ascii.eqb x "010"); reflexivity.
Qed.

(* ------------------------------------------------------------------ *)
(** ** The manifest checks, message by message *)

Lemma name_step (kv : list (str * json)) (errors : list str)
    {T} (K : list str -> res T) :
  (errors <-
     match dict_find (txt "name") kv with
     | Some name =>
         ok <- ValidatePlugins.re_match_json ValidatePlugins.name_pattern name ;;
         if ok then Ret errors
         else
           shown <- py_str name ;;
           Ret (errors ++
                [txt "Invalid name format '" ++ shown ++
                 txt "' (use lowercase, numbers, hyphens)"])
     | None => Ret errors
     end ;;
   K errors)
  = if field_ok (txt "name") is_str kv then K (errors ++ name_msgs kv)
    else Raise TypeError.
Proof.
  unfold field_ok, name_msgs.
  destruct (dict_find (txt "name") kv) as [[| | |s| |]|];
    cbn [ValidatePlugins.re_match_json bind is_str]; rewrite ?app_nil_r; trivial.
  rewrite name_pattern_valid_name.
  destruct (valid_name s); cbn [py_str bind]; now rewrite ?app_nil_r.
Qed.

Lemma description_step (kv : list (str * json)) (errors : list str)
    {T} (K : list str -> res T) :
  (errors <-
     match dict_find (txt "description") kv with
     | Some desc =>
         n <- py_len desc ;;
         if n <? ValidatePlugins.MIN_DESCRIPTION_LENGTH
         then Ret (errors ++
                   [txt "Description too short (" ++ str_of_nat n ++
                    txt " chars, min " ++
                    str_of_nat ValidatePlugins.MIN_DESCRIPTION_LENGTH ++ txt ")"])
         else Ret errors
     | None => Ret errors
     end ;;
   K errors)
  = if field_ok (txt "description") has_len kv then K (errors ++ desc_msgs kv)
    else Raise TypeError.
Proof.
  unfold field_ok, desc_msgs.
  destruct (dict_find (txt "description") kv) as [[| | |s|l|o]|];
    cbn [py_len bind has_len]; rewrite ?app_nil_r; trivial;
    match goal with
    | |- context [?n <? ?m] => destruct (n <? m)
    end; cbn [bind]; now rewrite ?app_nil_r.
Qed.

Lemma category_step (kv : list (str * json)) (errors : list str)
    {T} (K : list str -> res T) :
  (errors <-
     match dict_find (txt "category") kv with
     | Some category =>
         shown <- py_str category ;;
         if match category with
            | JStr c => ValidatePlugins.mem c ValidatePlugins.VALID_CATEGORIES
            | _ => false
            end
         then Ret errors
         else Ret (errors ++
                   [txt "Invalid category '" ++ shown ++ txt "'. Valid: " ++
                    join (txt ", ") (sorted_strs ValidatePlugins.VALID_CATEGORIES)])
     | None => Ret errors
     end ;;
   K errors)
  = if field_ok (txt "category") hashable kv then K (errors ++ category_msgs kv)
    else Raise TypeError.
Proof.
  unfold field_ok, category_msgs, valid_category.
  destruct (dict_find (txt "category") kv) as [[|[]| |s| |]|];
    cbn [py_str bind hashable]; rewrite ?app_nil_r; trivial.
  destruct (ValidatePlugins.mem s ValidatePlugins.VALID_CATEGORIES);
    cbn [bind]; now rewrite ?app_nil_r.
Qed.

Lemma date_step (kv : list (str * json)) (errors : list str)
    {T} (K : list str -> res T) :
  (errors <-
     match dict_find (txt "date") kv with
     | Some date =>
         ok <- ValidatePlugins.re_match_json ValidatePlugins.date_pattern date ;;
         if ok then Ret errors
         else
           shown <- py_str date ;;
           Ret (errors ++
                [txt "Invalid date format '" ++ shown ++
                 txt "' (use YYYY-MM-DD)"])
     | None => Ret errors
     end ;;
   K errors)
  = if field_ok (txt "date") is_str kv then K (errors ++ date_msgs kv)
    else Raise TypeError.
Proof.
  unfold field_ok, date_msgs.
  destruct (dict_find (txt "date") kv) as [[| | |s| |]|];
    cbn [ValidatePlugins.re_match_json bind is_str]; rewrite ?app_nil_r; trivial.
  rewrite date_pattern_valid_date.
  destruct (valid_date s); cbn [py_str bind]; now rewrite ?app_nil_r.
Qed.

(** The lists [manifest_checks] returns on an object, message by
    message, and when it raises instead. *)
Lemma manifest_checks_messages (kv : list (str * json)) :
  ValidatePlugins.manifest_checks (JObj kv) =
  if well_typed kv
  then Ret (missing_msgs kv ++ name_msgs kv ++ desc_msgs kv ++
            category_msgs kv ++ date_msgs kv ++ tags_msgs kv,
            tags_warnings kv)
  else Raise TypeError.
Proof.
  unfold ValidatePlugins.manifest_checks.
  rewrite name_step.
  unfold well_typed.
  destruct (field_ok (txt "name") is_str kv); cbn [andb]; trivial.
  rewrite description_step.
  destruct (field_ok (txt "description") has_len kv); cbn [andb]; trivial.
  rewrite category_step.
  destruct (field_ok (txt "category") hashable kv); cbn [andb]; trivial.
  rewrite date_step.
  destruct (field_ok (txt "date") is_str kv); cbn [andb]; trivial.
  unfold tags_msgs, tags_warnings.
  destruct (dict_find (txt "tags") kv) as [[| | | |[|]|]|];
    match goal with
    | |- context [?m ++ name_msgs kv] =>
        replace m with (missing_msgs kv)
          by (unfold missing_msgs, missing_fields;
              destruct (filter _ ValidatePlugins.REQUIRED_PLUGIN_FIELDS); reflexivity)
    end;
    cbn [app]; rewrite ?app_nil_r, <- ?app_assoc; reflexivity.
Qed.

(* ------------------------------------------------------------------ *)
(** The messages of a group all start with the same words [w]: the ones
    that start with [p] are all of them or none. *)
Lemma filter_group (p w : str) (msgs : list str) :
  (forall m, In m msgs -> exists r, m = w ++ r) ->
  length p <= length w ->
  filter (startswith p) msgs = if startswith p w then msgs else [].
Proof.
  intros Hform Hl. induction msgs as [|m msgs IH]; cbn [filter].
  - now destruct (startswith p w).
  - destruct (Hform m (or_introl eq_refl)) as [r ->].
    rewrite startswith_literal by trivial.
    rewrite IH by (intros m' Hm'; apply Hform; now right).
    now destruct (startswith p w).
Qed.

Lemma missing_msgs_form (kv : list (str * json)) (m : str) :
  In m (missing_msgs kv) -> exists r, m = txt "Missing required fields: " ++ r.
Proof.
  unfold missing_msgs. destruct (missing_fields kv); cbn [In]; [tauto|].
  intros [<-|[]]. eauto.
Qed.

Lemma name_msgs_form (kv : list (str * json)) (m : str) :
  In m (name_msgs kv) -> exists r, m = txt "Invalid name format '" ++ r.
Proof.
  unfold name_msgs, name_msg.
  destruct (dict_find (txt "name") kv) as [[| | |s| |]|]; cbn [In]; try tauto.
  destruct (valid_name s); cbn [In]; [tauto|]. intros [<-|[]]. eauto.
Qed.

Lemma desc_msgs_form (kv : list (str * json)) (m : str) :
  In m (desc_msgs kv) -> exists r, m = txt "Description too short (" ++ r.
Proof.
  unfold desc_msgs, desc_msg.
  destruct (dict_find (txt "description") kv) as [d|]; cbn [In]; try tauto.
  destruct (py_len d) as [n|]; cbn [In]; try tauto.
  destruct (n <? _); cbn [In]; [|tauto]. intros [<-|[]]. eauto.
Qed.

Lemma category_msgs_form (kv : list (str * json)) (m : str) :
  In m (category_msgs kv) -> exists r, m = txt "Invalid category '" ++ r.
Proof.
  unfold category_msgs, category_msg.
  destruct (dict_find (txt "category") kv) as [c|]; cbn [In]; try tauto.
  destruct (py_str c) as [shown|]; cbn [In]; try tauto.
  destruct (valid_category c); cbn [In]; [tauto|]. intros [<-|[]]. eauto.
Qed.

Lemma date_msgs_form (kv : list (str * json)) (m : str) :
  In m (date_msgs kv) -> exists r, m = txt "Invalid date format '" ++ r.
Proof.
  unfold date_msgs, date_msg.
  destruct (dict_find (txt "date") kv) as [[| | |s| |]|]; cbn [In]; try tauto.
  destruct (valid_date s); cbn [In]; [tauto|]. intros [<-|[]]. eauto.
Qed.

Lemma tags_msgs_form (kv : list (str * json)) (m : str) :
  In m (tags_msgs kv) -> exists r, m = txt "tags must be a list" ++ r.
Proof.
  unfold tags_msgs.
  destruct (dict_find (txt "tags") kv) as [[| | | | |]|]; cbn [In]; try tauto;
    intros [<-|[]]; exists []; reflexivity.
Qed.

(** The errors of the manifest checks that start with [p], for a [p] of
    at most 18 characters: group by group. *)
Lemma manifest_errors_starting_with (kv : list (str * json)) (p : str) :
  length p <= 18 ->
  filter (startswith p)
    (missing_msgs kv ++ name_msgs kv ++ desc_msgs kv ++
     category_msgs kv ++ date_msgs kv ++ tags_msgs kv) =
  (if startswith p (txt "Missing required fields: ") then missing_msgs kv else []) ++
  (if startswith p (txt "Invalid name format '") then name_msgs kv else []) ++
  (if startswith p (txt "Description too short (") then desc_msgs kv else []) ++
  (if startswith p (txt "Invalid category '") then category_msgs kv else []) ++
  (if startswith p (txt "Invalid date format '") then date_msgs kv else []) ++
  (if startswith p (txt "tags must be a list") then tags_msgs kv else []).
Proof.
  intros Hp. rewrite !filter_app.
  rewrite (filter_group p _ _ (missing_msgs_form kv)) by (unfold txt; cbn [list_ascii_of_string length]; lia).
  rewrite (filter_group p _ _ (name_msgs_form kv)) by (unfold txt; cbn [list_ascii_of_string length]; lia).
  rewrite (filter_group p _ _ (desc_msgs_form kv)) by (unfold txt; cbn [list_ascii_of_string length]; lia).
  rewrite (filter_group p _ _ (category_msgs_form kv)) by (unfold txt; cbn [list_ascii_of_string length]; lia).
  rewrite (filter_group p _ _ (date_msgs_form kv)) by (unfold txt; cbn [list_ascii_of_string length]; lia).
  rewrite (filter_group p _ _ (tags_msgs_form kv)) by (unfold txt; cbn [list_ascii_of_string length]; lia).
  reflexivity.
Qed.

Lemma manifest_checks_returns (kv : list (str * json)) (errs warns : list str) :
  ValidatePlugins.manifest_checks (JObj kv) = Ret (errs, warns) ->
  well_typed kv = true /\
  errs = missing_msgs kv ++ name_msgs kv ++ desc_msgs kv ++
         category_msgs kv ++ date_msgs kv ++ tags_msgs kv /\
  warns = tags_warnings kv.
Proof.
  rewrite manifest_checks_messages. destruct (well_typed kv); [|discriminate].
  intros E. injection E as <- <-. auto.
Qed.

(** X5: the name rule.  When the manifest checks return and the name is
    the string [s], the error list holds the message about the name
    format, once, exactly when [s] is not one or more lowercase letters,
    digits and hyphens followed by nothing or by one newline. *)
Theorem name_rule (kv : list (str * json)) (s : str) (errs warns : list str) :
  ValidatePlugins.manifest_checks (JObj kv) = Ret (errs, warns) ->
  dict_find (txt "name") kv = Some (JStr s) ->
  filter (startswith (txt "Invalid name")) errs =
  if valid_name s then []
  else [txt "Invalid name format '" ++ s ++ txt "' (use lowercase, numbers, hyphens)"].
Proof.
  intros Hret Hname. apply manifest_checks_returns in Hret as (_ & -> & _).
  rewrite manifest_errors_starting_with by (unfold txt; cbn [list_ascii_of_string length]; lia).
  change (startswith (txt "Invalid name") (txt "Missing required fields: ")) with false.
  change (startswith (txt "Invalid name") (txt "Invalid name format '")) with true.
  change (startswith (txt "Invalid name") (txt "Description too short (")) with false.
  change (startswith (txt "Invalid name") (txt "Invalid category '")) with false.
  change (startswith (txt "Invalid name") (txt "Invalid date format '")) with false.
  change (startswith (txt "Invalid name") (txt "tags must be a list")) with false.
  cbn [app]. rewrite app_nil_r. unfold name_msgs. rewrite Hname. reflexivity.
Qed.

(** X6: the date rule.  When the manifest checks return and the date is
    the string [s], of ASCII characters, the error list holds the message
    about the date format, once, exactly when [s] is not four digits, a
    hyphen, two digits, a hyphen and two digits followed by nothing or by
    one newline; no month or day is looked at.  (Beyond ASCII, [\d] of
    Python also takes the digits of other scripts.) *)
Theorem date_rule (kv : list (str * json)) (s : str) (errs warns : list str) :
  ValidatePlugins.manifest_checks (JObj kv) = Ret (errs, warns) ->
  dict_find (txt "date") kv = Some (JStr s) ->
  ascii_text s = true ->
  filter (startswith (txt "Invalid date")) errs =
  if valid_date s then []
  else [txt "Invalid date format '" ++ s ++ txt "' (use YYYY-MM-DD)"].
Proof.
  intros Hret Hdate _. apply manifest_checks_returns in Hret as (_ & -> & _).
  rewrite manifest_errors_starting_with by (unfold txt; cbn [list_ascii_of_string length]; lia).
  change (startswith (txt "Invalid date") (txt "Missing required fields: ")) with false.
  change (startswith (txt "Invalid date") (txt "Invalid name format '")) with false.
  change (startswith (txt "Invalid date") (txt "Description too short (")) with false.
  change (startswith (txt "Invalid date") (txt "Invalid category '")) with false.
  change (startswith (txt "Invalid date") (txt "Invalid date format '")) with true.
  change (startswith (txt "Invalid date") (txt "tags must be a list")) with false.
  cbn [app]. rewrite app_nil_r. unfold date_msgs. rewrite Hdate. reflexivity.
Qed.

Lemma sorted_missing_fields (kv : list (str * json)) :
  sorted_strs (missing_fields kv) =
  filter (fun f => negb (has_key f kv)) fields_in_order.
Proof.
  unfold missing_fields, ValidatePlugins.REQUIRED_PLUGIN_FIELDS, fields_in_order.
  cbn [map filter].
  destruct (has_key (txt "name") kv), (has_key (txt "version") kv),
    (has_key (txt "description") kv), (has_key (txt "category") kv),
    (has_key (txt "date") kv), (has_key (txt "tags") kv); reflexivity.
Qed.

(** X7: the required fields.  When the manifest checks return, the error
    list holds no message about missing fields if the six required keys
    are present, and otherwise exactly one, which names the absent keys
    in alphabetical order, separated by a comma and a blank. *)
Theorem missing_fields_rule (kv : list (str * json)) (errs warns : list str) :
  ValidatePlugins.manifest_checks (JObj kv) = Ret (errs, warns) ->
  filter (startswith (txt "Missing")) errs =
  match filter (fun f => negb (has_key f kv)) fields_in_order with
  | [] => []
  | absent => [txt "Missing required fields: " ++ join (txt ", ") absent]
  end.
Proof.
  intros Hret. apply manifest_checks_returns in Hret as (_ & -> & _).
  rewrite manifest_errors_starting_with by (unfold txt; cbn [list_ascii_of_string length]; lia).
  change (startswith (txt "Missing") (txt "Missing required fields: ")) with true.
  change (startswith (txt "Missing") (txt "Invalid name format '")) with false.
  change (startswith (txt "Missing") (txt "Description too short (")) with false.
  change (startswith (txt "Missing") (txt "Invalid category '")) with false.
  change (startswith (txt "Missing") (txt "Invalid date format '")) with false.
  change (startswith (txt "Missing") (txt "tags must be a list")) with false.
  cbn [app]. rewrite app_nil_r. unfold missing_msgs.
  rewrite <- sorted_missing_fields.
  destruct (missing_fields kv) eqn:E; [reflexivity|].
  destruct (sorted_strs (s :: l)) eqn:E2; [|reflexivity].
  exfalso. revert E2. rewrite <- E, sorted_missing_fields.
  unfold missing_fields, ValidatePlugins.REQUIRED_PLUGIN_FIELDS in E.
  unfold fields_in_order. cbn [map filter] in *.
  destruct (has_key (txt "name") kv), (has_key (txt "version") kv),
    (has_key (txt "description") kv), (has_key (txt "category") kv),
    (has_key (txt "date") kv), (has_key (txt "tags") kv); cbn [negb] in *;
    discriminate.
Qed.

(* ------------------------------------------------------------------ *)
Lemma name_rule_witness :
  exists errs warns,
    ValidatePlugins.manifest_checks demo_manifest = Ret (errs, warns) /\
    filter (startswith (txt "Invalid name")) errs =
    [txt "Invalid name format 'Demo_Tool' (use lowercase, numbers, hyphens)"].
Proof.
  eexists _, _. split; [exact demo_manifest_checks|].
  exact (name_rule _ (txt "Demo_Tool") _ _ demo_manifest_checks eq_refl).
Defined.

Lemma date_rule_witness :
  exists errs warns,
    ValidatePlugins.manifest_checks demo_manifest = Ret (errs, warns) /\
    filter (startswith (txt "Invalid date")) errs = [].
Proof.
  eexists _, _. split; [exact demo_manifest_checks|].
  exact (date_rule _ (txt "2024-13-40") _ _ demo_manifest_checks eq_refl eq_refl).
Defined.

Lemma missing_fields_rule_witness :
  exists errs warns,
    ValidatePlugins.manifest_checks
      (JObj [(txt "version", JStr (txt "1.0.0")); (txt "name", JStr (txt "demo"))])
    = Ret (errs, warns) /\
    filter (startswith (txt "Missing")) errs =
    [txt "Missing required fields: category, date, description, tags"].
Proof.
  eexists _, _.
  assert (E : ValidatePlugins.manifest_checks
                (JObj [(txt "version", JStr (txt "1.0.0")); (txt "name", JStr (txt "demo"))])
              = Ret ([txt "Missing required fields: category, date, description, tags"], []))
    by (vm_compute; reflexivity).
  split; [exact E|].
  exact (missing_fields_rule _ _ _ E).
Defined.

Lemma missing_msgs_nil (kv : list (str * json)) :
  missing_msgs kv = [] <->
  forall f, In f ValidatePlugins.REQUIRED_PLUGIN_FIELDS -> has_key f kv = true.
Proof.
  unfold missing_msgs, missing_fields. split.
  - intros H f Hf.
    destruct (filter _ ValidatePlugins.REQUIRED_PLUGIN_FIELDS) eqn:E; [|discriminate].
    destruct (has_key f kv) eqn:Hk; trivial.
    assert (Hin : In f (filter (fun f => negb (has_key f kv))
                          ValidatePlugins.REQUIRED_PLUGIN_FIELDS))
      by (apply filter_In; split; [trivial|now rewrite Hk]).
    rewrite E in Hin. destruct Hin.
  - intros H.
    assert (E : filter (fun f => negb (has_key f kv))
                  ValidatePlugins.REQUIRED_PLUGIN_FIELDS = []).
    { induction ValidatePlugins.REQUIRED_PLUGIN_FIELDS as [|f l IH]; trivial.
      cbn [filter]. rewrite (H f) by now left. cbn [negb].
      apply IH. intros g Hg. apply H. now right. }
    now rewrite E.
Qed.

(** X8: what a manifest must be to pass.  For an object whose description
    and date, where they are strings, are ASCII text, the manifest checks
    return an empty error list exactly when the object has a name that is
    a valid name, a version, a description of length 20 or more, a
    category among the eight valid ones, a date of the shape YYYY-MM-DD
    and tags that are a list; any other such object gets an error or
    makes the checks raise. *)
Theorem manifest_passes_iff (kv : list (str * json)) :
  field_ok (txt "description") ascii_json kv &&
  field_ok (txt "date") ascii_json kv = true ->
  (exists warns, ValidatePlugins.manifest_checks (JObj kv) = Ret ([], warns)) <->
  (exists s, dict_find (txt "name") kv = Some (JStr s) /\ valid_name s = true) /\
  has_key (txt "version") kv = true /\
  (exists d n, dict_find (txt "description") kv = Some d /\
               py_len d = Ret n /\ 20 <= n) /\
  (exists c, dict_find (txt "category") kv = Some (JStr c) /\
             In c ValidatePlugins.VALID_CATEGORIES) /\
  (exists s, dict_find (txt "date") kv = Some (JStr s) /\ valid_date s = true) /\
  (exists l, dict_find (txt "tags") kv = Some (JArr l)).
Proof.
  intros _. rewrite manifest_checks_messages. split.
  - intros [warns E]. destruct (well_typed kv) eqn:Hw; [|discriminate].
    injection E as E _.
    apply app_eq_nil in E as [Hmiss E]. apply app_eq_nil in E as [Hname E].
    apply app_eq_nil in E as [Hdesc E]. apply app_eq_nil in E as [Hcat E].
    apply app_eq_nil in E as [Hdate Htags].
    rewrite missing_msgs_nil in Hmiss.
    assert (Hk : forall f, In f ["name"; "version"; "description"; "category";
                                   "date"; "tags"] ->
                           has_key (txt f) kv = true).
    { intros f Hf. apply Hmiss. unfold ValidatePlugins.REQUIRED_PLUGIN_FIELDS.
      now apply in_map. }
    pose proof (Hk "name" ltac:(cbn; tauto)) as K1.
    pose proof (Hk "version" ltac:(cbn; tauto)) as K2.
    pose proof (Hk "description" ltac:(cbn; tauto)) as K3.
    pose proof (Hk "category" ltac:(cbn; tauto)) as K4.
    pose proof (Hk "date" ltac:(cbn; tauto)) as K5.
    pose proof (Hk "tags" ltac:(cbn; tauto)) as K6.
    clear Hk Hmiss.
    unfold well_typed, field_ok in Hw. unfold has_key in K1, K3, K4, K5, K6.
    unfold name_msgs in Hname. unfold desc_msgs in Hdesc.
    unfold category_msgs, valid_category in Hcat. unfold date_msgs in Hdate.
    unfold tags_msgs in Htags.
    destruct (dict_find (txt "name") kv) as [[| | |s| |]|]; try discriminate.
    destruct (dict_find (txt "description") kv) as [d|]; try discriminate.
    destruct (dict_find (txt "category") kv) as [c|]; try discriminate.
    destruct (dict_find (txt "date") kv) as [[| | |dt| |]|];
      try (rewrite ?andb_false_r in Hw; discriminate).
    destruct (dict_find (txt "tags") kv) as [[| | | |l|]|]; try discriminate.
    repeat split; trivial.
    + exists s. split; trivial. destruct (valid_name s); [trivial|discriminate].
    + destruct (py_len d) as [n|] eqn:Hn.
      * exists d, n. repeat split; trivial.
        destruct (n <? ValidatePlugins.MIN_DESCRIPTION_LENGTH) eqn:E1; [discriminate|].
        apply Nat.ltb_ge in E1. exact E1.
      * destruct d; try discriminate; cbn in Hw; discriminate.
    + destruct c as [| | |c| |]; cbn [py_str hashable] in *;
        try discriminate;
        try (destruct b; discriminate);
        try (rewrite ?andb_false_r in Hw; discriminate).
      exists c. split; trivial. apply mem_In.
      destruct (ValidatePlugins.mem c ValidatePlugins.VALID_CATEGORIES);
        [trivial|discriminate].
    + exists dt. split; trivial. destruct (valid_date dt); [trivial|discriminate].
    + now exists l.
  - intros ((s & Hs & Hvs) & Hver & (d & n & Hd & Hn & Hlen) & (c & Hc & Hvc) &
            (dt & Hdt & Hvd) & (l & Hl)).
    assert (Hw : well_typed kv = true).
    { unfold well_typed, field_ok. rewrite Hs, Hd, Hc, Hdt. cbn [is_str hashable andb].
      destruct d; try discriminate; reflexivity. }
    rewrite Hw. exists (tags_warnings kv). f_equal. f_equal.
    assert (E1 : missing_msgs kv = []).
    { apply missing_msgs_nil. intros f Hf.
      unfold ValidatePlugins.REQUIRED_PLUGIN_FIELDS in Hf. cbn [map In] in Hf.
      unfold has_key in *.
      repeat (destruct Hf as [<-|Hf];
              [first [now rewrite Hs|exact Hver|now rewrite Hd|now rewrite Hc
                     |now rewrite Hdt|now rewrite Hl]|]).
      destruct Hf. }
    assert (E2 : name_msgs kv = []) by (unfold name_msgs; now rewrite Hs, Hvs).
    assert (E3 : desc_msgs kv = []).
    { unfold desc_msgs. rewrite Hd, Hn.
      unfold ValidatePlugins.MIN_DESCRIPTION_LENGTH.
      destruct (n <? 20) eqn:E; trivial. apply Nat.ltb_lt in E. lia. }
    assert (E4 : category_msgs kv = []).
    { unfold category_msgs, valid_category. rewrite Hc. cbn [py_str].
      apply mem_In in Hvc. now rewrite Hvc. }
    assert (E5 : date_msgs kv = []) by (unfold date_msgs; now rewrite Hdt, Hvd).
    assert (E6 : tags_msgs kv = []) by (unfold tags_msgs; now rewrite Hl).
    now rewrite E1, E2, E3, E4, E5, E6.
Qed.

(** A manifest that passes. *)
Lemma manifest_passes_iff_witness :
  let kv :=
    [ (txt "name", JStr (txt "alpha"));
      (txt "version", JStr (txt "1.0.0"));
      (txt "description", JStr (txt "Use when: a demo is needed"));
      (txt "category", JStr (txt "tooling"));
      (txt "date", JStr (txt "2024-01-31"));
      (txt "tags", JArr [JStr (txt "demo")]) ] in
  exists warns, ValidatePlugins.manifest_checks (JObj kv) = Ret ([], warns).
Proof.
  cbv zeta.
  apply (manifest_passes_iff
           [ (txt "name", JStr (txt "alpha"));
             (txt "version", JStr (txt "1.0.0"));
             (txt "description", JStr (txt "Use when: a demo is needed"));
             (txt "category", JStr (txt "tooling"));
             (txt "date", JStr (txt "2024-01-31"));
             (txt "tags", JArr [JStr (txt "demo")]) ]); [reflexivity|].
  repeat split.
  - exists (txt "alpha"). split; reflexivity.
  - exists (JStr (txt "Use when: a demo is needed")), 26. repeat split.
    unfold txt. cbn [list_ascii_of_string length]. lia.
  - exists (txt "tooling"). split; [reflexivity|]. cbn. tauto.
  - exists (txt "2024-01-31"). split; reflexivity.
  - exists [JStr (txt "demo")]. reflexivity.
Defined.

(** X9: when the manifest checks raise.  On an object they raise exactly
    when a field has a type they cannot take (a name or a date that is
    not a string, a description without a length, a category that is a
    list or an object), always with [TypeError]; nothing in
    [validate_plugin] catches it. *)
Theorem validate_plugin_type_errors
    (load : decoder) (fs : node) (plugin_dir : path) (text : str)
    (kv : list (str * json)) :
  read_text fs (ValidatePlugins.manifest_path plugin_dir) = Ret text ->
  load text = Decoded (JObj kv) ->
  match ValidatePlugins.validate_plugin load fs plugin_dir with
  | Ret r => well_typed kv = true
  | Raise e => e = TypeError /\ well_typed kv = false
  end.
Proof.
  intros Hread Hload.
  unfold ValidatePlugins.validate_plugin, ValidatePlugins.validate_plugin_json.
  rewrite (read_text_exists _ _ _ Hread), Hread. cbn [negb bind].
  rewrite Hload, manifest_checks_messages.
  destruct (well_typed kv); cbn [bind fst snd]; [|auto].
  destruct (ValidatePlugins.validate_skill_md _ _ _). reflexivity.
Qed.

Lemma validate_plugin_type_errors_witness :
  match ValidatePlugins.validate_plugin sample_decoder good_tree (in_tooling "alpha") with
  | Ret r =>
      well_typed
        [ (txt "name", JStr (txt "alpha"));
          (txt "version", JStr (txt "1.0.0"));
          (txt "description", JStr (txt "Use when: a demo is needed"));
          (txt "category", JStr (txt "tooling"));
          (txt "date", JStr (txt "2024-01-31"));
          (txt "tags", JArr [JStr (txt "demo")]) ] = true
  | Raise e =>
      e = TypeError /\
      well_typed
        [ (txt "name", JStr (txt "alpha"));
          (txt "version", JStr (txt "1.0.0"));
          (txt "description", JStr (txt "Use when: a demo is needed"));
          (txt "category", JStr (txt "tooling"));
          (txt "date", JStr (txt "2024-01-31"));
          (txt "tags", JArr [JStr (txt "demo")]) ] = false
  end.
Proof.
  apply (validate_plugin_type_errors sample_decoder good_tree (in_tooling "alpha")
           (good_text "alpha")); vm_compute; reflexivity.
Defined.

(* ------------------------------------------------------------------ *)
(** ** What the index holds *)

Lemma load_plugin_metadata_manifest (load : decoder) (fs : node) (plugin_dir : path)
    (metadata : option (list (str * json))) :
  GenerateMarketplace.load_plugin_metadata load fs plugin_dir = Ret metadata ->
  match metadata with
  | None => manifest_of load fs plugin_dir = None
  | Some md =>
      exists kv,
        manifest_of load fs plugin_dir = Some kv /\
        dict_find (txt "category") md =
          Some (dict_get (txt "category") (JStr (name (parent plugin_dir))) kv) /\
        forall k, str_eqb k (txt "category") = false ->
                  str_eqb k (txt "path") = false ->
                  dict_find k md = dict_find k kv
  end.
Proof.
  unfold GenerateMarketplace.load_plugin_metadata, manifest_of.
  destruct (exists_ fs (ValidatePlugins.manifest_path plugin_dir)) eqn:He; cbn [negb].
  - destruct (read_text fs (ValidatePlugins.manifest_path plugin_dir)) as [text|e];
      cbn [bind]; [|discriminate].
    destruct (load text) as [[| | | | |kv]|msg]; try discriminate.
    + intros E. injection E as <-. exists kv. split; trivial.
      unfold has_key, dict_get.
      destruct (dict_find (txt "category") kv) as [c|] eqn:Ec; cbn [negb].
      * split.
        -- now rewrite dict_find_set_other.
        -- intros k _ Hp. now rewrite dict_find_set_other.
      * split.
        -- rewrite dict_find_set_other by reflexivity. apply dict_find_set_same.
        -- intros k Hc Hp. now rewrite !dict_find_set_other.
    + intros E. now injection E as <-.
  - intros E. injection E as <-.
    unfold read_text, exists_ in *.
    destruct (lookup fs (ValidatePlugins.manifest_path plugin_dir)); [discriminate|trivial].
Qed.

Lemma collect_entries_returns
    (load : decoder) (fs : node) (plugins_dir : path) (plugins : list path)
    (es : list GenerateMarketplace.entry) :
  GenerateMarketplace.collect_entries load fs plugins_dir plugins = Ret es ->
  es = entries_of load fs plugins_dir plugins.
Proof.
  unfold GenerateMarketplace.collect_entries, entries_of.
  match goal with |- context [for_each ?f [] plugins] => set (body := f) end.
  enough (G : forall acc es,
             for_each body acc plugins = Ret es ->
             es = acc ++
                  flat_map (fun p => match manifest_of load fs p with
                                     | Some kv => [entry_of plugins_dir p kv]
                                     | None => []
                                     end) plugins)
    by (intros E; exact (G [] es E)).
  induction plugins as [|p plugins IH]; intros acc es0; cbn [for_each flat_map].
  - intros E. injection E as <-. now rewrite app_nil_r.
  - unfold body at 1.
    destruct (GenerateMarketplace.load_plugin_metadata load fs p) as [md|e] eqn:El;
      cbn [bind]; [|discriminate].
    apply load_plugin_metadata_manifest in El.
    destruct md as [md|].
    + destruct El as (kv & -> & Hc & Hother). intros E. apply IH in E. subst es0.
      rewrite <- app_assoc. f_equal. cbn [app]. f_equal.
      unfold entry_of, dict_get. rewrite Hc.
      rewrite !Hother by reflexivity. reflexivity.
    + rewrite El. cbn [app]. apply IH.
Qed.

Lemma insert_sorted_perm (x : GenerateMarketplace.entry)
    (l l' : list GenerateMarketplace.entry) :
  GenerateMarketplace.insert_sorted x l = Ret l' -> Permutation (x :: l) l'.
Proof.
  revert l'; induction l as [|y l IH]; intros l'; cbn [GenerateMarketplace.insert_sorted].
  - intros E. injection E as <-. reflexivity.
  - destruct (pair_lt _ _) as [[|]|]; cbn [bind]; try discriminate.
    + intros E. injection E as <-. reflexivity.
    + destruct (GenerateMarketplace.insert_sorted x l) as [l''|]; cbn [bind];
        [|discriminate].
      intros E. injection E as <-. rewrite perm_swap. apply perm_skip. now apply IH.
Qed.

Lemma sort_entries_perm (es sorted : list GenerateMarketplace.entry) :
  GenerateMarketplace.sort_entries es = Ret sorted -> Permutation es sorted.
Proof.
  unfold GenerateMarketplace.sort_entries.
  enough (G : forall acc,
             for_each (fun acc x => GenerateMarketplace.insert_sorted x acc) acc es
               = Ret sorted ->
             Permutation (acc ++ es) sorted) by (apply (G [])).
  induction es as [|x es IH]; intros acc; cbn [for_each].
  - intros E. injection E as <-. now rewrite app_nil_r.
  - destruct (GenerateMarketplace.insert_sorted x acc) as [acc'|] eqn:Ei; cbn [bind];
      [|discriminate].
    intros E. apply IH in E. apply insert_sorted_perm in Ei.
    rewrite <- E. rewrite <- Permutation_middle.
    change (x :: acc ++ es) with ((x :: acc) ++ es).
    now apply Permutation_app_tail.
Qed.

(** X10: what the index holds.  Whenever [generate_marketplace] returns,
    its [plugins] array is a rearrangement of one entry for each
    discovered plugin directory whose manifest is a JSON object, and of
    nothing else; the fields of the entry are those of the manifest, with
    the directory name for a missing name, the empty string for a missing
    description, 1.0.0 for a missing version, the empty list for missing
    tags and the name of the parent directory for a missing category (the
    default [unknown] of the code is never used). *)
Theorem index_holds_the_manifests
    (load : decoder) (fs : node) (plugins_dir : path) (m : GenerateMarketplace.marketplace) :
  GenerateMarketplace.generate_marketplace load fs plugins_dir = Ret m ->
  exists plugins,
    GenerateMarketplace.find_plugins fs plugins_dir = Ret plugins /\
    Permutation (entries_of load fs plugins_dir plugins)
                (GenerateMarketplace.m_plugins m).
Proof.
  unfold GenerateMarketplace.generate_marketplace.
  destruct (GenerateMarketplace.find_plugins fs plugins_dir) as [plugins|]; cbn [bind];
    [|discriminate].
  destruct (GenerateMarketplace.collect_entries load fs plugins_dir plugins)
    as [es|] eqn:Ec; cbn [bind]; [|discriminate].
  destruct (GenerateMarketplace.sort_entries es) as [sorted|] eqn:Es; cbn [bind];
    [|discriminate].
  intros E. injection E as <-. cbn [GenerateMarketplace.m_plugins].
  exists plugins. split; trivial.
  apply collect_entries_returns in Ec. subst es.
  now apply sort_entries_perm.
Qed.

Lemma index_holds_the_manifests_witness :
  exists plugins,
    GenerateMarketplace.find_plugins good_tree [txt "plugins"] = Ret plugins /\
    Permutation
      (entries_of sample_decoder good_tree [txt "plugins"] plugins)
      [entry_of [txt "plugins"] (in_tooling "alpha")
         [ (txt "name", JStr (txt "alpha"));
           (txt "version", JStr (txt "1.0.0"));
           (txt "description", JStr (txt "Use when: a demo is needed"));
           (txt "category", JStr (txt "tooling"));
           (txt "date", JStr (txt "2024-01-31"));
           (txt "tags", JArr [JStr (txt "demo")]) ];
       entry_of [txt "plugins"] (in_tooling "beta")
         [ (txt "name", JStr (txt "beta"));
           (txt "version", JStr (txt "1.0.0"));
           (txt "description", JStr (txt "Use when: a demo is needed"));
           (txt "category", JStr (txt "tooling"));
           (txt "date", JStr (txt "2024-01-31"));
           (txt "tags", JArr [JStr (txt "demo")]) ]].
Proof.
  apply (index_holds_the_manifests sample_decoder good_tree [txt "plugins"]
           {| GenerateMarketplace.m_name := txt "ProjectMnemosyne";
              GenerateMarketplace.m_owner :=
                {| GenerateMarketplace.o_name := txt "HomericIntelligence";
                   GenerateMarketplace.o_url := txt "https://github.com/HomericIntelligence" |};
              GenerateMarketplace.m_description :=
                txt "Skills marketplace for the HomericIntelligence agentic ecosystem";
              GenerateMarketplace.m_version := txt "1.0.0";
              GenerateMarketplace.m_plugins := _ |}).
  vm_compute. reflexivity.
Defined.

(* ------------------------------------------------------------------ *)
Lemma keyed_key (c n : str) (e : GenerateMarketplace.entry) :
  keyed c n e = true <-> key_of e = Some (c, n).
Proof.
  unfold keyed. destruct (key_of e) as [[c' n']|]; [|split; discriminate].
  rewrite andb_true_iff, !str_eqb_eq. split.
  - now intros [-> ->].
  - intros E. now injection E as -> ->.
Qed.

(** An entry placed in a sorted list goes after the entries that have
    its key. *)
Lemma place_stable (c n : str) (x : GenerateMarketplace.entry)
    (l : list GenerateMarketplace.entry) :
  string_keyed x -> Forall string_keyed l -> StronglySorted entry_le l ->
  filter (keyed c n) (place x l) =
  filter (keyed c n) l ++ (if keyed c n x then [x] else []).
Proof.
  intros Hx Hl Hs.
  destruct (string_keyed_key x Hx) as (kx & Kx & _).
  induction Hs as [|y l Hs IH Hy]; cbn [place]; trivial.
  inversion Hl as [|? ? Ky Hl']; subst.
  destruct (string_keyed_key y Ky) as (ky & Kyy & _).
  rewrite Kx, Kyy.
  assert (Hcons : forall z zs, filter (keyed c n) (z :: zs) =
                               if keyed c n z then z :: filter (keyed c n) zs
                               else filter (keyed c n) zs) by reflexivity.
  destruct (key_cmp kx ky) eqn:C.
  - rewrite !Hcons, IH by trivial. now destruct (keyed c n y).
  - rewrite (Hcons x).
    destruct (keyed c n x) eqn:Ex.
    + (* nothing from [y] on has the key of [x] *)
      apply keyed_key in Ex. rewrite Kx in Ex. injection Ex as ->.
      assert (Hnone : forall z, In z (y :: l) -> keyed c n z = false).
      { intros z Hz. destruct (keyed c n z) eqn:Ez; trivial.
        apply keyed_key in Ez. exfalso.
        destruct Hz as [<-|Hz].
        - rewrite Kyy in Ez. injection Ez as ->.
          now rewrite key_cmp_refl in C.
        - rewrite Forall_forall in Hy. destruct (Hy z Hz) as (k1 & k2 & E1 & E2 & Hle).
          rewrite Kyy in E1. injection E1 as <-.
          rewrite Ez in E2. injection E2 as <-.
          apply Hle. rewrite key_cmp_antisym, C. reflexivity. }
      assert (E0 : filter (keyed c n) (y :: l) = []).
      { clear - Hnone. induction (y :: l) as [|z zs IHz]; trivial.
        cbn [filter]. rewrite (Hnone z) by now left.
        apply IHz. intros w Hw. apply Hnone. now right. }
      now rewrite E0.
    + now rewrite app_nil_r.
  - rewrite !Hcons, IH by trivial. now destruct (keyed c n y).
Qed.

(** X11: the sort of the index is stable.  When the categories and the
    names are strings, the entries that share a pair (category, name)
    come out of the sort in the order they went in. *)
Theorem sort_entries_stable (es : list GenerateMarketplace.entry) :
  Forall string_keyed es ->
  exists sorted,
    GenerateMarketplace.sort_entries es = Ret sorted /\
    forall c n, filter (keyed c n) sorted = filter (keyed c n) es.
Proof.
  unfold GenerateMarketplace.sort_entries.
  enough (G : forall acc,
             Forall string_keyed acc -> StronglySorted entry_le acc ->
             Forall string_keyed es ->
             exists sorted,
               for_each (fun acc x => GenerateMarketplace.insert_sorted x acc) acc es
                 = Ret sorted /\
               forall c n, filter (keyed c n) sorted =
                           filter (keyed c n) acc ++ filter (keyed c n) es).
  { intros He. destruct (G [] (Forall_nil _) (SSorted_nil _) He) as (sorted & E & H).
    exists sorted. split; trivial. }
  induction es as [|x es IH]; intros acc Ha Hs He.
  - exists acc. split; [reflexivity|]. intros c n. cbn [filter]. now rewrite app_nil_r.
  - inversion He as [|? ? Hx He']; subst. cbn [for_each].
    rewrite (insert_sorted_place x acc Hx Ha). cbn [bind].
    destruct (IH (place x acc)) as (sorted & E & H); trivial.
    + now apply place_keyed.
    + now apply place_sorted.
    + exists sorted. split; trivial. intros c n.
      rewrite H, place_stable by trivial. rewrite <- app_assoc. f_equal.
      cbn [filter]. now destruct (keyed c n x).
Qed.

Lemma sort_entries_stable_witness :
  exists sorted,
    GenerateMarketplace.sort_entries
      [entry_of [txt "plugins"] (in_tooling "b") [(txt "version", JStr (txt "2"))];
       entry_of [txt "plugins"] (in_tooling "a") [];
       entry_of [txt "plugins"] (in_tooling "b") [(txt "version", JStr (txt "1"))]]
    = Ret sorted /\
    forall c n,
      filter (keyed c n) sorted =
      filter (keyed c n)
        [entry_of [txt "plugins"] (in_tooling "b") [(txt "version", JStr (txt "2"))];
         entry_of [txt "plugins"] (in_tooling "a") [];
         entry_of [txt "plugins"] (in_tooling "b") [(txt "version", JStr (txt "1"))]].
Proof.
  apply sort_entries_stable.
  repeat constructor; eexists; eexists; split; reflexivity.
Defined.

(** ** The sources of the index *)

Lemma removelast_snoc {A} (l : list A) (x : A) : removelast (l ++ [x]) = l.
Proof. apply removelast_last. Qed.

Lemma source_of_discovered (root : path) (c n : str) :
  root <> [] ->
  to_str (relative_to (parent root) (root ++ [c; n])) =
  name root ++ txt "/" ++ c ++ txt "/" ++ n.
Proof.
  intros Hne. destruct (exists_last Hne) as (r & x & ->).
  unfold parent, name, relative_to. rewrite removelast_last, last_last.
  rewrite <- app_assoc. rewrite skipn_app, Nat.sub_diag, skipn_all. cbn [app skipn].
  unfold to_str, join. cbn [flat_map]. now rewrite app_nil_r.
Qed.

Lemma collect_entries_sources
    (load : decoder) (fs : node) (root : path) (plugins : list path)
    (e : GenerateMarketplace.entry) :
  In e (entries_of load fs root plugins) ->
  exists p, In p plugins /\
            GenerateMarketplace.e_source e =
            txt "./" ++ to_str (relative_to (parent root) p).
Proof.
  unfold entries_of. rewrite in_flat_map. intros (p & Hp & He).
  exists p. split; trivial.
  destruct (manifest_of load fs p); [|destruct He].
  destruct He as [<-|[]]. reflexivity.
Qed.

(** X12: the sources of the index.  Whenever [generate_marketplace]
    returns for a root with a name, every entry has a source of the form
    ./root/c/n, where root is the last component of the plugins
    directory and root/c/n is a plugin directory with a manifest file,
    two levels below the root. *)
Theorem index_sources
    (load : decoder) (fs : node) (root : path) (m : GenerateMarketplace.marketplace) :
  GenerateMarketplace.generate_marketplace load fs root = Ret m ->
  root <> [] ->
  forall e, In e (GenerateMarketplace.m_plugins m) ->
  exists c n,
    GenerateMarketplace.e_source e =
      txt "./" ++ name root ++ txt "/" ++ c ++ txt "/" ++ n /\
    is_dir fs (root ++ [c; n]) = true /\
    has_manifest fs (root ++ [c; n]) = true.
Proof.
  intros Hgen Hroot e He.
  unfold GenerateMarketplace.generate_marketplace in Hgen.
  rewrite find_plugins_index_builder in Hgen.
  destruct (iterdir fs root) as [cs|] eqn:Hcs; cbn [bind] in Hgen; [|discriminate].
  destruct (GenerateMarketplace.collect_entries load fs root _)
    as [es|] eqn:Ec; cbn [bind] in Hgen; [|discriminate].
  destruct (GenerateMarketplace.sort_entries es) as [sorted|] eqn:Es;
    cbn [bind] in Hgen; [|discriminate].
  injection Hgen as <-. cbn [GenerateMarketplace.m_plugins] in He.
  apply sort_entries_perm in Es.
  apply (Permutation_in _ (Permutation_sym Es)) in He.
  apply collect_entries_returns in Ec. subst es.
  apply collect_entries_sources in He as (p & Hp & Hsrc).
  assert (Hch : cs = children fs root).
  { unfold iterdir in Hcs. unfold children.
    destruct (lookup fs root) as [[d|es']|]; try discriminate.
    now injection Hcs as <-. }
  subst cs. apply discovered_In in Hp as (c & n & -> & _ & Hv & Hm).
  exists c, n. rewrite Hsrc, (source_of_discovered root c n Hroot).
  split; [reflexivity|]. split; [|exact Hm].
  unfold visible_dir in Hv. apply andb_true_iff in Hv as [Hd _]. exact Hd.
Qed.

Lemma index_sources_witness :
  exists c n,
    GenerateMarketplace.e_source
      (entry_of [txt "plugins"] (in_tooling "beta")
         [ (txt "name", JStr (txt "beta"));
           (txt "version", JStr (txt "1.0.0"));
           (txt "description", JStr (txt "Use when: a demo is needed"));
           (txt "category", JStr (txt "tooling"));
           (txt "date", JStr (txt "2024-01-31"));
           (txt "tags", JArr [JStr (txt "demo")]) ]) =
      txt "./" ++ name [txt "plugins"] ++ txt "/" ++ c ++ txt "/" ++ n /\
    is_dir good_tree ([txt "plugins"] ++ [c; n]) = true /\
    has_manifest good_tree ([txt "plugins"] ++ [c; n]) = true.
Proof.
  eapply (index_sources sample_decoder good_tree [txt "plugins"]
           {| GenerateMarketplace.m_name := txt "ProjectMnemosyne";
              GenerateMarketplace.m_owner :=
                {| GenerateMarketplace.o_name := txt "HomericIntelligence";
                   GenerateMarketplace.o_url := txt "https://github.com/HomericIntelligence" |};
              GenerateMarketplace.m_description :=
                txt "Skills marketplace for the HomericIntelligence agentic ecosystem";
              GenerateMarketplace.m_version := txt "1.0.0";
              GenerateMarketplace.m_plugins := _ |}).
  - vm_compute. reflexivity.
  - discriminate.
  - right. left. reflexivity.
Defined.

(* ------------------------------------------------------------------ *)
(** ** The index and the listing order (C7) *)

Lemma Permutation_filter {A} (f : A -> bool) (l l' : list A) :
  Permutation l l' -> Permutation (filter f l) (filter f l').
Proof.
  induction 1 as [|x l l' _ IH|x y l|l l' l'' _ IH1 _ IH2]; cbn [filter].
  - constructor.
  - destruct (f x); [now constructor|trivial].
  - destruct (f x), (f y); try reflexivity. apply perm_swap.
  - now transitivity (filter f l').
Qed.

Lemma Permutation_flat_map_both {A B} (f g : A -> list B) (l l' : list A) :
  (forall x, Permutation (f x) (g x)) -> Permutation l l' ->
  Permutation (flat_map f l) (flat_map g l').
Proof.
  intros Hfg P. transitivity (flat_map f l'); [now apply Permutation_flat_map|].
  clear P. induction l' as [|x l' IH]; cbn [flat_map]; [constructor|].
  now apply Permutation_app.
Qed.

Section Relisted.
Variables fs fs' : node.
Hypothesis same : relisted fs fs'.

Lemma relisted_exists (p : path) : exists_ fs' p = exists_ fs p.
Proof.
  unfold exists_. specialize (same p).
  destruct (lookup fs p) as [[d|es]|], (lookup fs' p) as [[d'|es']|];
    trivial; contradiction.
Qed.

Lemma relisted_is_dir (p : path) : is_dir fs' p = is_dir fs p.
Proof.
  unfold is_dir. specialize (same p).
  destruct (lookup fs p) as [[d|es]|], (lookup fs' p) as [[d'|es']|];
    trivial; contradiction.
Qed.

Lemma relisted_is_file (p : path) : is_file fs' p = is_file fs p.
Proof.
  unfold is_file. specialize (same p).
  destruct (lookup fs p) as [[d|es]|], (lookup fs' p) as [[d'|es']|];
    trivial; contradiction.
Qed.

Lemma relisted_missing (p : path) : missing fs' p = missing fs p.
Proof.
  unfold missing, through_file.
  assert (E : forall l,
             existsb (fun n => is_file fs' (firstn n p)) l =
             existsb (fun n => is_file fs (firstn n p)) l).
  { induction l as [|n l IH]; cbn [existsb]; trivial.
    now rewrite relisted_is_file, IH. }
  now rewrite E.
Qed.

Lemma relisted_read_text (p : path) : read_text fs' p = read_text fs p.
Proof.
  unfold read_text. rewrite relisted_missing. specialize (same p).
  destruct (lookup fs p) as [[d|es]|], (lookup fs' p) as [[d'|es']|];
    trivial; try contradiction.
  now subst.
Qed.

Lemma relisted_children (p : path) :
  Permutation (children fs p) (children fs' p).
Proof.
  unfold children. specialize (same p).
  destruct (lookup fs p) as [[d|es]|], (lookup fs' p) as [[d'|es']|];
    try contradiction; try constructor.
  rewrite <- (map_map fst (fun n => p ++ [n]) es).
  rewrite <- (map_map fst (fun n => p ++ [n]) es').
  now apply Permutation_map.
Qed.

Lemma relisted_visible_dir (p : path) : visible_dir fs' p = visible_dir fs p.
Proof. unfold visible_dir. now rewrite relisted_is_dir. Qed.

Lemma relisted_has_manifest (p : path) : has_manifest fs' p = has_manifest fs p.
Proof. unfold has_manifest. apply relisted_exists. Qed.

(** The index builder finds the same plugin directories, in another
    order. *)
Lemma relisted_find_plugins (root : path) (plugins : list path) :
  GenerateMarketplace.find_plugins fs root = Ret plugins ->
  exists plugins',
    GenerateMarketplace.find_plugins fs' root = Ret plugins' /\
    Permutation plugins plugins'.
Proof.
  rewrite !find_plugins_index_builder.
  destruct (iterdir fs root) as [cs|e] eqn:Ei; cbn [bind]; [|discriminate].
  intros E. injection E as <-.
  assert (Hd : is_dir fs root = true).
  { unfold iterdir in Ei. unfold is_dir.
    destruct (lookup fs root) as [[d|es]|]; trivial; discriminate. }
  rewrite (iterdir_children fs root Hd) in Ei. injection Ei as <-.
  rewrite (iterdir_children fs' root) by now rewrite relisted_is_dir.
  cbn [bind]. eexists. split; [reflexivity|].
  apply Permutation_flat_map_both.
  - intros c.
    rewrite (filter_ext (fun q => visible_dir fs' q && has_manifest fs' q)
               (fun q => visible_dir fs q && has_manifest fs q)).
    + apply Permutation_filter, relisted_children.
    + intros q. now rewrite relisted_visible_dir, relisted_has_manifest.
  - rewrite (filter_ext (visible_dir fs') (visible_dir fs))
      by apply relisted_visible_dir.
    apply Permutation_filter, relisted_children.
Qed.

Lemma relisted_load_plugin_metadata (load : decoder) (p : path) :
  GenerateMarketplace.load_plugin_metadata load fs' p =
  GenerateMarketplace.load_plugin_metadata load fs p.
Proof.
  unfold GenerateMarketplace.load_plugin_metadata.
  now rewrite relisted_exists, relisted_read_text.
Qed.

End Relisted.

(** The loop that fills the entries returns exactly when every manifest
    is loaded without an exception. *)
Lemma collect_entries_loads
    (load : decoder) (fs : node) (plugins_dir : path) (plugins : list path) :
  (exists es, GenerateMarketplace.collect_entries load fs plugins_dir plugins = Ret es)
  <-> Forall (fun p => exists md,
                GenerateMarketplace.load_plugin_metadata load fs p = Ret md) plugins.
Proof.
  unfold GenerateMarketplace.collect_entries.
  match goal with |- context [for_each ?f [] plugins] => set (body := f) end.
  generalize (@nil GenerateMarketplace.entry) as acc.
  induction plugins as [|p plugins IH]; intros acc; cbn [for_each].
  - split; [constructor|]. intros _. now exists acc.
  - unfold body at 1.
    destruct (GenerateMarketplace.load_plugin_metadata load fs p) as [md|e] eqn:E;
      cbn [bind].
    + assert (L : exists md', GenerateMarketplace.load_plugin_metadata load fs p
                              = Ret md') by now exists md.
      destruct md as [md|]; cbn [bind]; rewrite IH; split.
      all: try (intros H; constructor; [exact L|exact H]).
      all: intros H; now inversion H.
    + split.
      * intros [es H]. discriminate.
      * intros H. inversion H as [|? ? [md Hmd] _]. congruence.
Qed.

Lemma collect_entries_relisted
    (load : decoder) (fs fs' : node) (plugins_dir : path)
    (plugins plugins' : list path) (es : list GenerateMarketplace.entry) :
  relisted fs fs' -> Permutation plugins plugins' ->
  GenerateMarketplace.collect_entries load fs plugins_dir plugins = Ret es ->
  exists es',
    GenerateMarketplace.collect_entries load fs' plugins_dir plugins' = Ret es' /\
    Permutation es es'.
Proof.
  intros same P E.
  assert (L : Forall (fun p => exists md,
                GenerateMarketplace.load_plugin_metadata load fs' p = Ret md) plugins').
  { apply (Permutation_Forall P).
    assert (L : Forall (fun p => exists md,
                GenerateMarketplace.load_plugin_metadata load fs p = Ret md) plugins).
    { apply (proj1 (collect_entries_loads load fs plugins_dir plugins)).
      now exists es. }
    apply (Forall_impl _ (P:=fun p => exists md,
                GenerateMarketplace.load_plugin_metadata load fs p = Ret md)); trivial.
    intros p [md H]. exists md. now rewrite (relisted_load_plugin_metadata fs fs' same). }
  apply (proj2 (collect_entries_loads load fs' plugins_dir plugins')) in L.
  destruct L as [es' E'].
  exists es'. split; trivial.
  apply collect_entries_returns in E, E'. subst es es'.
  unfold entries_of. apply Permutation_flat_map_both; trivial.
  intros p. unfold manifest_of. rewrite (relisted_read_text fs fs' same). reflexivity.
Qed.

(** The sort does not raise on string keys and has one result. *)
Lemma sort_entries_of_strings (es sorted : list GenerateMarketplace.entry) :
  GenerateMarketplace.sort_entries es = Ret sorted ->
  Forall string_keyed sorted ->
  Forall string_keyed es /\ StronglySorted entry_le sorted.
Proof.
  intros E K.
  assert (Ke : Forall string_keyed es).
  { apply (Permutation_Forall (Permutation_sym (sort_entries_perm _ _ E)) K). }
  split; trivial.
  destruct (sort_entries_sorted es Ke) as (s & E' & _ & S).
  rewrite E in E'. now injection E' as <-.
Qed.

(** C7 (amended): when [generate_marketplace] returns and every entry
    of its [plugins] array has strings for its category and its name,
    the array is sorted ascending by the pair (category, name), compared
    as strings.  If moreover no two entries share the pair, a run over
    the same tree with its directories listed in any other order returns
    the same index. *)
Theorem C7_plugins_sorted_by_category_then_name
    (load : decoder) (fs : node) (plugins_dir : path)
    (m : GenerateMarketplace.marketplace) :
  GenerateMarketplace.generate_marketplace load fs plugins_dir = Ret m ->
  Forall string_keyed (GenerateMarketplace.m_plugins m) ->
  StronglySorted entry_le (GenerateMarketplace.m_plugins m) /\
  forall fs',
    relisted fs fs' ->
    NoDup (map key_of (GenerateMarketplace.m_plugins m)) ->
    GenerateMarketplace.generate_marketplace load fs' plugins_dir = Ret m.
Proof.
  unfold GenerateMarketplace.generate_marketplace.
  destruct (GenerateMarketplace.find_plugins fs plugins_dir) as [plugins|] eqn:Ef;
    cbn [bind]; [|discriminate].
  destruct (GenerateMarketplace.collect_entries load fs plugins_dir plugins)
    as [es|] eqn:Ec; cbn [bind]; [|discriminate].
  destruct (GenerateMarketplace.sort_entries es) as [sorted|] eqn:Es; cbn [bind];
    [|discriminate].
  intros E. injection E as <-. cbn [GenerateMarketplace.m_plugins]. intros K.
  destruct (sort_entries_of_strings es sorted Es K) as [Ke S].
  split; trivial.
  intros fs' same N.
  destruct (relisted_find_plugins fs fs' same plugins_dir plugins Ef) as (plugins' & -> & Pp).
  cbn [bind].
  destruct (collect_entries_relisted load fs fs' plugins_dir plugins plugins' es same Pp Ec) as (es' & -> & Pe).
  cbn [bind].
  destruct (sort_entries_sorted es' (Permutation_Forall Pe Ke)) as (s' & -> & Ps & S').
  cbn [bind]. do 2 f_equal. symmetry.
  apply sorted_rearrangements_agree; trivial.
  rewrite <- Ps, <- Pe. symmetry. now apply sort_entries_perm.
Qed.

(** *** Trees listed in another order *)

Lemma entry_perm (c : str) (es es' : list (str * node)) :
  NoDup (map fst es) -> Permutation es es' -> entry c es = entry c es'.
Proof.
  intros N P. induction P as [|[n x] l l' P IH|[n x] [n' x'] l|l l' l'' P1 IH1 P2 IH2];
    cbn [entry map fst] in *; trivial.
  - destruct (str_eqb c n); trivial. apply IH. now inversion N.
  - destruct (str_eqb c n') eqn:E', (str_eqb c n) eqn:E; trivial.
    apply str_eqb_eq in E, E'. subst n n'.
    inversion N as [|? ? Hnot _]. exfalso. apply Hnot. now left.
  - rewrite IH1 by trivial. apply IH2.
    apply (Permutation_NoDup (Permutation_map fst P1) N).
Qed.

Lemma relisted_same (x : node) (p : path) :
  match lookup x p, lookup x p with
  | Some (File d), Some (File d') => d = d'
  | Some (Dir es), Some (Dir es') => Permutation (map fst es) (map fst es')
  | None, None => True
  | _, _ => False
  end.
Proof. destruct (lookup x p) as [[d|es]|]; trivial. Qed.

(** The entries of a directory, in another order. *)
Lemma relisted_dir (es es' : list (str * node)) :
  NoDup (map fst es) -> Permutation es es' -> relisted (Dir es) (Dir es').
Proof.
  intros N P [|c p]; cbn [lookup].
  - now apply Permutation_map.
  - rewrite (entry_perm c es es' N P).
    destruct (entry c es') as [x|]; trivial. apply relisted_same.
Qed.

(** A directory with one entry, relisted below. *)
Lemma relisted_under (n : str) (x x' : node) :
  relisted x x' -> relisted (Dir [(n, x)]) (Dir [(n, x')]).
Proof.
  intros H [|c p]; cbn [lookup entry]; [reflexivity|].
  destruct (str_eqb c n); [apply H|trivial].
Qed.

Lemma relisted_tree (ps ps' : list (str * node)) :
  NoDup (map fst ps) -> Permutation ps ps' -> relisted (tree ps) (tree ps').
Proof.
  intros N P. unfold tree. now apply relisted_under, relisted_under, relisted_dir.
Qed.

(** *** The claim *)

(** C7, as the claim states it, fails.  The two plugin directories of
    [twin_tree] give entries with the same category and the same name;
    the same files, listed the other way round, give the other array. *)
Lemma C7_plugins_follow_the_listing_order :
  relisted twin_tree twin_tree_relisted /\
  exists m m',
    GenerateMarketplace.generate_marketplace sample_decoder twin_tree
      [txt "plugins"] = Ret m /\
    GenerateMarketplace.generate_marketplace sample_decoder twin_tree_relisted
      [txt "plugins"] = Ret m' /\
    map GenerateMarketplace.e_source (GenerateMarketplace.m_plugins m)
      = [txt "./plugins/tooling/one"; txt "./plugins/tooling/two"] /\
    map GenerateMarketplace.e_source (GenerateMarketplace.m_plugins m')
      = [txt "./plugins/tooling/two"; txt "./plugins/tooling/one"] /\
    GenerateMarketplace.m_plugins m <> GenerateMarketplace.m_plugins m'.
Proof.
  split.
  - apply relisted_tree.
    + repeat constructor; cbn; intuition discriminate.
    + apply perm_swap.
  - eexists. eexists.
    split; [vm_compute; reflexivity|].
    split; [vm_compute; reflexivity|].
    split; [reflexivity|]. split; [reflexivity|].
    cbn [GenerateMarketplace.m_plugins]. intros E.
    apply (f_equal (map GenerateMarketplace.e_source)) in E.
    vm_compute in E. discriminate.
Qed.

(** With names and categories that are strings in every manifest, as
    the data model has them, no comparison of the sort raises:
    [generate_marketplace] returns, and every entry has strings for its
    category and its name. *)
Lemma generate_marketplace_returns
    (load : decoder) (fs : node) (plugins_dir : path) (plugins : list path) :
  GenerateMarketplace.find_plugins fs plugins_dir = Ret plugins ->
  (forall p, In p plugins -> manifest_for_index load fs p) ->
  exists m,
    GenerateMarketplace.generate_marketplace load fs plugins_dir = Ret m /\
    Forall string_keyed (GenerateMarketplace.m_plugins m).
Proof.
  intros Hfind Hmanifests.
  destruct (collect_entries_string_keyed load fs plugins_dir plugins Hmanifests)
    as (es & Hcollect & Hkeys).
  destruct (sort_entries_sorted es Hkeys) as (sorted & Hsort & Hperm & Hsorted).
  unfold GenerateMarketplace.generate_marketplace.
  rewrite Hfind. cbn [bind]. rewrite Hcollect. cbn [bind]. rewrite Hsort. cbn [bind].
  eexists. split; [reflexivity|]. cbn [GenerateMarketplace.m_plugins].
  apply (Permutation_Forall Hperm Hkeys).
Qed.

(** In [good_tree] the directory lists [beta] before [alpha]; the index
    has [alpha] first, and so it has when the directory lists [alpha]
    first. *)
Lemma C7_plugins_sorted_by_category_then_name_witness :
  exists m,
    GenerateMarketplace.generate_marketplace sample_decoder good_tree [txt "plugins"]
      = Ret m /\
    map GenerateMarketplace.e_name (GenerateMarketplace.m_plugins m)
      = [JStr (txt "alpha"); JStr (txt "beta")] /\
    StronglySorted entry_le (GenerateMarketplace.m_plugins m) /\
    GenerateMarketplace.generate_marketplace sample_decoder good_tree_relisted
      [txt "plugins"] = Ret m.
Proof.
  assert (H : exists m,
             GenerateMarketplace.generate_marketplace sample_decoder good_tree
               [txt "plugins"] = Ret m /\
             map GenerateMarketplace.e_name (GenerateMarketplace.m_plugins m)
               = [JStr (txt "alpha"); JStr (txt "beta")] /\
             Forall string_keyed (GenerateMarketplace.m_plugins m) /\
             NoDup (map key_of (GenerateMarketplace.m_plugins m))).
  { eexists. split; [vm_compute; reflexivity|]. split; [reflexivity|]. split.
    - repeat constructor; eexists; eexists; split; reflexivity.
    - repeat constructor; cbn; intuition discriminate. }
  destruct H as (m & Hm & Hn & Hk & Hd).
  destruct (C7_plugins_sorted_by_category_then_name sample_decoder good_tree
              [txt "plugins"] m Hm Hk) as [Hs Hr].
  exists m. split; [exact Hm|]. split; [exact Hn|]. split; [exact Hs|].
  apply Hr; [|exact Hd]. apply relisted_tree.
  - repeat constructor; cbn; intuition discriminate.
  - apply perm_swap.
Defined.

(* ------------------------------------------------------------------ *)
(** ** Searching for a heading line *)

Lemma at_bol_multiline (fl : flags) (c : cursor) :
  multiline fl = true -> at_bol fl c = bol (prev c).
Proof. intros H. unfold at_bol, bol. rewrite H. now destruct (prev c). Qed.

(** [^h R] at a cursor: the line starts here with [h], and [R] goes
    on. *)
Lemma match_at_line (fl : flags) (h : str) (r : regex) (c : cursor) :
  multiline fl = true ->
  match_at fl (Bol ;;; Lit h ;;; r) c =
  if bol (prev c) && startswith h (rest c)
  then run fl r (advance (length h) c) [] (final (pos c))
  else None.
Proof.
  intros Hml. unfold match_at. cbn [run]. rewrite at_bol_multiline by trivial.
  destruct (bol (prev c)); cbn [andb]; trivial.
  rewrite lit_spec. destruct (startswith h (rest c)) eqn:E; trivial.
  apply startswith_split in E.
  assert (F : firstn (length h) (rest c) = h).
  { rewrite E, firstn_app, Nat.sub_diag, firstn_all. cbn [firstn].
    now rewrite app_nil_r. }
  unfold advance. now rewrite F.
Qed.

(** The leftmost match of [^h R] when [R] can always go on: at the first
    line that starts with [h]. *)
Lemma search_from_line (fl : flags) (h : str) (r : regex) :
  multiline fl = true ->
  (forall c st, run fl r c [] (final st) <> None) ->
  forall (s : str) (p : option ascii) (i : nat),
    search_from fl (Bol ;;; Lit h ;;; r) p s i =
    match find_line h p s with
    | None => None
    | Some a =>
        run fl r (advance (a + length h) {| prev := p; rest := s; pos := i |})
          [] (final (i + a))
    end.
Proof.
  intros Hml Htotal. induction s as [|c s IH]; intros p i.
  - cbn [search_from find_line]. rewrite match_at_line by trivial.
    cbn [prev rest pos]. destruct (bol p && startswith h []); [|reflexivity].
    rewrite Nat.add_0_r. cbn [Nat.add].
    destruct (run fl r _ [] (final i)) eqn:E; [reflexivity|]. now apply Htotal in E.
  - cbn [search_from find_line]. rewrite match_at_line by trivial.
    cbn [prev rest pos]. destruct (bol p && startswith h (c :: s)).
    + rewrite Nat.add_0_r. cbn [Nat.add].
      destruct (run fl r _ [] (final i)) eqn:E; [reflexivity|]. now apply Htotal in E.
    + rewrite IH. destruct (find_line h (Some c) s) as [a|]; cbn [option_map]; trivial.
      unfold advance. cbn [prev rest pos Nat.add firstn skipn last_opt fold_left].
      now rewrite !Nat.add_succ_r.
Qed.

Lemma not_nl_false (c : ascii) : not_nl c = false -> c = nl.
Proof.
  unfold not_nl. destruct (Ascii.eqb c nl) eqn:E; [|discriminate].
  intros _. now apply Ascii.eqb_eq.
Qed.

(** The text at the end of a line: nothing, or a newline first. *)
Lemma drop_line (s : str) :
  drop_while not_nl s = [] \/ exists s', drop_while not_nl s = nl :: s'.
Proof.
  induction s as [|c s IH]; cbn [drop_while]; [now left|].
  destruct (not_nl c) eqn:E; trivial.
  right. apply not_nl_false in E. subst. eauto.
Qed.

Lemma skipn_line_len (s : str) : skipn (line_len s) s = drop_while not_nl s.
Proof.
  unfold line_len. induction s as [|c s IH]; cbn [take_while drop_while]; trivial.
  destruct (not_nl c); cbn [length skipn]; trivial.
Qed.

Lemma firstn_line_len (s : str) : firstn (line_len s) s = take_while not_nl s.
Proof.
  unfold line_len. induction s as [|c s IH]; cbn [take_while]; trivial.
  destruct (not_nl c); cbn [length firstn]; [now rewrite IH|trivial].
Qed.

(** [.*?$ K]: the lazy star stops at the end of the line when [K] can go
    on from there. *)
Lemma rep_lazy_to_eol {R} (fl : flags) (K : cursor -> option R) (x : R)
    (s : str) (n : nat) (p : option ascii) (i : nat) :
  multiline fl = true ->
  K (advance (line_len s) {| prev := p; rest := s; pos := i |}) = Some x ->
  rep fl Any false 0 None (fun c => if at_eol fl c then K c else None) n p s i = Some x.
Proof.
  intros Hml. revert n p i; induction s as [|c s IH]; intros n p i HK.
  - cbn [rep]. cbn [Nat.leb at_eol rest]. unfold advance, line_len in HK.
    cbn in HK. rewrite Nat.add_0_r in HK. now rewrite HK.
  - cbn [rep]. cbn [Nat.leb at_eol rest]. rewrite Hml. cbn [orb andb].
    unfold line_len in HK. cbn [take_while] in HK. unfold not_nl in HK at 1.
    destruct (Ascii.eqb c nl) eqn:E; cbn [negb andb] in *.
    + unfold advance in HK. cbn in HK. rewrite Nat.add_0_r in HK. now rewrite HK.
    + cbn [atom_ok]. rewrite E, orb_true_r.
      apply IH. unfold advance in *. cbn [length firstn skipn prev rest pos] in *.
      cbn [last_opt fold_left] in HK. rewrite Nat.add_succ_r in HK. exact HK.
Qed.

(** [(.*?)(?:^##|\Z)] under [DOTALL]: group 1 runs to the next line that
    starts with two hashes, or to the end of the text. *)
Lemma rep_lazy_body (st e : nat) (g : captures)
    (s : str) (n : nat) (p : option ascii) (i : nat) :
  exists after,
    rep MULTILINE_DOTALL Any false 0 None
      (fun c' =>
         run MULTILINE_DOTALL (Alt (Bol ;;; Lit (txt "##")) EndZ) c'
           ((1, (e, pos c')) :: g) (final st))
      n p s i
    = Some {| m_start := st;
              m_end := i + body_len p s + (if ends_at_hashes p s then 2 else 0);
              m_groups := (1, (e, i + body_len p s)) :: g;
              m_after := after |}.
Proof.
  set (K := fun c' : cursor =>
              run MULTILINE_DOTALL (Alt (Bol ;;; Lit (txt "##")) EndZ) c'
                ((1, (e, pos c')) :: g) (final st)).
  revert n p i; induction s as [|c s IH]; intros n p i.
  - cbn [rep Nat.leb]. unfold K. cbn [run].
    rewrite at_bol_multiline by reflexivity. cbn [prev rest pos].
    rewrite lit_spec. cbn [body_len ends_at_hashes].
    replace (startswith (txt "##") []) with false by reflexivity.
    rewrite andb_false_r. destruct (bol p); cbn [final]; rewrite !Nat.add_0_r; eauto.
  - cbn [rep Nat.leb]. unfold K at 1. cbn [run].
    rewrite at_bol_multiline by reflexivity. cbn [prev rest pos].
    rewrite lit_spec. cbn [body_len ends_at_hashes].
    destruct (bol p); cbn [andb].
    + destruct (startswith (txt "##") (c :: s)).
      * cbn [final]. rewrite Nat.add_0_r. eexists. reflexivity.
      * cbn [atom_ok dotall MULTILINE_DOTALL orb andb].
        destruct (IH (S n) (Some c) (S i)) as [after E]. rewrite E.
        exists after. now rewrite !Nat.add_succ_r.
    + cbn [atom_ok dotall MULTILINE_DOTALL orb andb].
      destruct (IH (S n) (Some c) (S i)) as [after E]. rewrite E.
      exists after. now rewrite !Nat.add_succ_r.
Qed.

Lemma run_body (st : nat) (g : captures) (c : cursor) :
  exists after,
    run MULTILINE_DOTALL
      (Grp 1 (LazyStar Any) ;;; Alt (Bol ;;; Lit (txt "##")) EndZ) c g (final st)
    = Some {| m_start := st;
              m_end := pos c + body_len (prev c) (rest c) +
                       (if ends_at_hashes (prev c) (rest c) then 2 else 0);
              m_groups := (1, (pos c, pos c + body_len (prev c) (rest c))) :: g;
              m_after := after |}.
Proof. exact (rep_lazy_body st (pos c) g (rest c) 0 (prev c) (pos c)). Qed.

(* ------------------------------------------------------------------ *)
Lemma advance_advance (j k : nat) (c : cursor) :
  advance j (advance k c) = advance (k + j) c.
Proof.
  unfold advance. cbn [prev rest pos]. f_equal.
  - rewrite firstn_add. unfold last_opt. now rewrite fold_left_app.
  - rewrite skipn_skipn. f_equal. lia.
  - lia.
Qed.

(** [.*?$] after the heading: the match ends where the line ends. *)
Lemma run_line_rest (fl : flags) (st : nat) (g : captures) (c : cursor) :
  multiline fl = true ->
  run fl (LazyStar Any ;;; Eol) c g (final st) =
  Some {| m_start := st; m_end := pos c + line_len (rest c); m_groups := g;
          m_after := advance (line_len (rest c)) c |}.
Proof.
  intros Hml. unfold LazyStar. cbn [run].
  now apply (rep_lazy_to_eol fl (fun c' => final st c' g)).
Qed.

(** [.*?$(.*?)(?:^##|\Z)] after the heading: group 1 starts where the
    line ends. *)
Lemma run_section_rest (st : nat) (g : captures) (c : cursor) :
  let c1 := advance (line_len (rest c)) c in
  exists after,
    run MULTILINE_DOTALL
      (LazyStar Any ;;; Eol ;;; Grp 1 (LazyStar Any) ;;;
       Alt (Bol ;;; Lit (txt "##")) EndZ) c g (final st)
    = Some {| m_start := st;
              m_end := pos c1 + body_len (prev c1) (rest c1) +
                       (if ends_at_hashes (prev c1) (rest c1) then 2 else 0);
              m_groups := (1, (pos c1, pos c1 + body_len (prev c1) (rest c1))) :: g;
              m_after := after |}.
Proof.
  intros c1. destruct (run_body st g c1) as [after E]. exists after.
  change (run MULTILINE_DOTALL
            (LazyStar Any ;;; Eol ;;; Grp 1 (LazyStar Any) ;;;
             Alt (Bol ;;; Lit (txt "##")) EndZ) c g (final st))
    with (rep MULTILINE_DOTALL Any false 0 None
            (fun c' => if at_eol MULTILINE_DOTALL c'
                       then run MULTILINE_DOTALL
                              (Grp 1 (LazyStar Any) ;;;
                               Alt (Bol ;;; Lit (txt "##")) EndZ) c' g (final st)
                       else None)
            0 (prev c) (rest c) (pos c)).
  apply (rep_lazy_to_eol MULTILINE_DOTALL
           (fun c' => run MULTILINE_DOTALL
                        (Grp 1 (LazyStar Any) ;;;
                         Alt (Bol ;;; Lit (txt "##")) EndZ) c' g (final st)));
    trivial.
Qed.

(** ** The table patcher, in terms of the text *)

Lemma search_heading_end (s : str) :
  match search MULTILINE FixFailedAttemptsTables.failed_attempts_heading s with
  | None => heading_line_end s = None
  | Some m => heading_line_end s = Some (m_end m)
  end.
Proof.
  unfold search, FixFailedAttemptsTables.failed_attempts_heading, heading_line_end.
  rewrite search_from_line; trivial.
  - fold failed_attempts. destruct (find_line failed_attempts None s) as [a|]; trivial.
    rewrite run_line_rest by trivial. cbn [m_end advance pos rest].
    reflexivity.
  - intros c st. now rewrite run_line_rest.
Qed.

Lemma search_section_group (s : str) :
  match search MULTILINE_DOTALL FixFailedAttemptsTables.failed_attempts_section s with
  | None => heading_line_end s = None
  | Some m =>
      exists e, heading_line_end s = Some e /\ group 1 m s = body_from e s
  end.
Proof.
  unfold search, FixFailedAttemptsTables.failed_attempts_section, heading_line_end.
  rewrite search_from_line; trivial.
  - fold failed_attempts. destruct (find_line failed_attempts None s) as [a|]; trivial.
    destruct (run_section_rest (0 + a) []
                (advance (a + length failed_attempts)
                   {| prev := None; rest := s; pos := 0 |})) as [after E].
    rewrite E. eexists. split; [reflexivity|].
    unfold group. cbn [m_groups span_of Nat.eqb].
    rewrite advance_advance. cbn [advance prev rest pos Nat.add].
    unfold slice, body_from, char_before.
    change (length failed_attempts) with 18.
    set (e := a + 18 + line_len (skipn (a + 18) s)).
    replace (e + body_len (last_opt (firstn e s) None) (skipn e s) - e)
      with (body_len (last_opt (firstn e s) None) (skipn e s)) by lia.
    reflexivity.
  - intros c st. destruct (run_section_rest st [] c) as [after E]. now rewrite E.
Qed.

(* ------------------------------------------------------------------ *)
Lemma has_failed_attempts_table_text (content : str) :
  FixFailedAttemptsTables.has_failed_attempts_table content =
  match heading_line_end content with
  | None => true
  | Some e => contains (txt "|") (body_from e content)
  end.
Proof.
  unfold FixFailedAttemptsTables.has_failed_attempts_table.
  pose proof (search_section_group content) as H.
  destruct (search MULTILINE_DOTALL _ content) as [m|].
  - destruct H as (e & -> & ->). reflexivity.
  - now rewrite H.
Qed.

Lemma add_failed_attempts_table_text (content : str) :
  FixFailedAttemptsTables.add_failed_attempts_table content =
  match heading_line_end content with
  | None => content
  | Some e =>
      firstn e content ++
      FixFailedAttemptsTables.generate_summary_table (body_from e content) ++
      skipn e content
  end.
Proof.
  unfold FixFailedAttemptsTables.add_failed_attempts_table.
  pose proof (search_heading_end content) as H1.
  pose proof (search_section_group content) as H2.
  destruct (search MULTILINE _ content) as [m|]; [|now rewrite H1].
  rewrite H1 in *.
  destruct (search MULTILINE_DOTALL _ content) as [m'|]; [|discriminate].
  destruct H2 as (e & He & ->). now injection He as <-.
Qed.

(** Every table of [generate_summary_table] starts with a newline and a
    pipe. *)
Lemma generate_summary_table_head (section_content : str) :
  exists t,
    FixFailedAttemptsTables.generate_summary_table section_content =
    nl :: "|"%char :: t.
Proof.
  unfold FixFailedAttemptsTables.generate_summary_table.
  destruct (FixFailedAttemptsTables.extract_attempts_from_subsections section_content);
    eexists; reflexivity.
Qed.

Lemma find_line_bound (h : str) (s : str) (p : option ascii) (a : nat) :
  find_line h p s = Some a -> startswith h (skipn a s) = true.
Proof.
  revert p a; induction s as [|c s IH]; intros p a; cbn [find_line].
  - destruct (bol p && startswith h []) eqn:E; [|discriminate].
    intros H. injection H as <-. now apply andb_true_iff in E.
  - destruct (bol p && startswith h (c :: s)) eqn:E.
    + intros H. injection H as <-. now apply andb_true_iff in E.
    + destruct (find_line h (Some c) s) as [a'|] eqn:E'; [|discriminate].
      cbn [option_map]. intros H. injection H as <-. cbn [skipn]. eauto.
Qed.

(** The first heading line is found by looking at the text up to its
    end. *)
Lemma find_line_prefix (h : str) (s1 x y : str) (p : option ascii) (a : nat) :
  find_line h p (s1 ++ y) = Some a -> a + length h <= length s1 ->
  find_line h p (s1 ++ x) = Some a.
Proof.
  revert p a; induction s1 as [|c s1 IH]; intros p a.
  - cbn [length app]. intros H Hl.
    assert (length h = 0) by lia. destruct h; [|discriminate].
    assert (a = 0) by lia. subst a.
    destruct x; cbn [find_line startswith]; now rewrite andb_true_r in *;
      destruct y; cbn [find_line startswith] in H; rewrite andb_true_r in H;
      destruct (bol p); trivial; try discriminate;
      destruct (find_line [] _ _); discriminate.
  - cbn [app find_line length]. intros H Hl.
    assert (E : startswith h (c :: s1 ++ x) = startswith h (c :: s1 ++ y)).
    { change (c :: s1 ++ x) with ((c :: s1) ++ x).
      change (c :: s1 ++ y) with ((c :: s1) ++ y).
      rewrite !startswith_literal; trivial; cbn [length]; lia. }
    rewrite E. destruct (bol p && startswith h (c :: s1 ++ y)); trivial.
    destruct (find_line h (Some c) (s1 ++ y)) as [a'|] eqn:E'; [|discriminate].
    cbn [option_map] in H. injection H as <-.
    rewrite (IH (Some c) a' E') by lia. reflexivity.
Qed.

Lemma take_while_all (ok : ascii -> bool) (s : str) :
  forallb ok (take_while ok s) = true.
Proof.
  induction s as [|c s IH]; cbn [take_while]; trivial.
  destruct (ok c) eqn:E; cbn [forallb]; trivial. now rewrite E.
Qed.

Lemma take_while_app (ok : ascii -> bool) (w r : str) :
  forallb ok w = true ->
  (r = [] \/ exists c r', r = c :: r' /\ ok c = false) ->
  take_while ok (w ++ r) = w.
Proof.
  intros Hw Hr. induction w as [|c w IH]; cbn [app take_while].
  - destruct Hr as [->|(c & r' & -> & Hc)]; trivial. cbn [take_while]. now rewrite Hc.
  - cbn [forallb] in Hw. apply andb_true_iff in Hw as [Hc Hw].
    rewrite Hc. f_equal. auto.
Qed.

Lemma last_opt_not_nl (w : str) (p : option ascii) :
  forallb not_nl w = true -> bol p = false \/ w <> [] ->
  bol (last_opt w p) = false.
Proof.
  revert p; induction w as [|c w IH]; intros p Hw Hp; cbn [last_opt fold_left].
  - destruct Hp as [Hp|Hp]; [trivial|congruence].
  - cbn [forallb] in Hw. apply andb_true_iff in Hw as [Hc Hw].
    apply IH; trivial. left. unfold bol, not_nl in *.
    now destruct (Ascii.eqb c nl).
Qed.

(** The parts of a document around the end of its first heading line. *)
Lemma heading_line_end_parts (s : str) (e : nat) :
  heading_line_end s = Some e ->
  exists a w,
    find_line failed_attempts None s = Some a /\
    e = a + 18 + length w /\
    firstn e s = firstn (a + 18) s ++ w /\
    length (firstn (a + 18) s) = a + 18 /\
    forallb not_nl w = true /\
    bol (char_before e s) = false /\
    (skipn e s = [] \/ exists r, skipn e s = nl :: r).
Proof.
  unfold heading_line_end.
  destruct (find_line failed_attempts None s) as [a|] eqn:Ef; [|discriminate].
  intros H. injection H as <-.
  pose proof (find_line_bound _ _ _ _ Ef) as Hh.
  pose proof (startswith_length _ _ Hh) as Hlen.
  change (length failed_attempts) with 18 in Hlen.
  rewrite length_skipn in Hlen.
  set (u := skipn (a + 18) s).
  exists a, (take_while not_nl u). split; trivial.
  assert (F : firstn (a + 18 + line_len u) s = firstn (a + 18) s ++ take_while not_nl u).
  { rewrite firstn_add. fold u. now rewrite firstn_line_len. }
  assert (Hh' : firstn (a + 18) s = firstn a s ++ failed_attempts).
  { rewrite firstn_add. f_equal. apply startswith_split in Hh.
    rewrite Hh. change 18 with (length failed_attempts).
    rewrite firstn_app, Nat.sub_diag, firstn_all. cbn [firstn]. now rewrite app_nil_r. }
  repeat split; trivial.
  - rewrite length_firstn. lia.
  - apply take_while_all.
  - unfold char_before. rewrite F, Hh'. unfold last_opt. rewrite !fold_left_app.
    apply last_opt_not_nl; [apply take_while_all|]. left.
    apply last_opt_not_nl; [reflexivity|]. right. discriminate.
  - rewrite (Nat.add_comm (a + 18)), <- skipn_skipn. fold u.
    rewrite skipn_line_len. apply drop_line.
Qed.

(* ------------------------------------------------------------------ *)
(** A table put at the end of the heading line is part of the section
    the next search cuts out. *)
Lemma table_at_heading_is_seen (s t : str) (e : nat) :
  heading_line_end s = Some e ->
  let new := firstn e s ++ (nl :: "|"%char :: t) ++ skipn e s in
  heading_line_end new = Some e /\
  contains (txt "|") (body_from e new) = true.
Proof.
  intros He new.
  destruct (heading_line_end_parts s e He) as (a & w & Ha & -> & F & Hl & Hw & Hb & Hr).
  set (e := a + 18 + length w) in *.
  assert (Le : length (firstn e s) = e).
  { rewrite F, length_app, Hl. reflexivity. }
  assert (Ha' : find_line failed_attempts None new = Some a).
  { apply (find_line_prefix _ (firstn e s) _ (skipn e s)).
    - now rewrite firstn_skipn.
    - rewrite Le. change (length failed_attempts) with 18. lia. }
  assert (Hline : line_len (skipn (a + 18) new) = length w).
  { unfold new. rewrite F, <- app_assoc.
    rewrite skipn_app, Hl, Nat.sub_diag, skipn_all2 by lia. cbn [skipn app].
    unfold line_len. rewrite take_while_app; trivial.
    right. exists nl, ("|"%char :: t ++ skipn (a + 18 + length w) s).
    split; reflexivity. }
  split.
  - unfold heading_line_end. now rewrite Ha', Hline.
  - unfold body_from, char_before.
    assert (S1 : skipn e new = (nl :: "|"%char :: t) ++ skipn e s).
    { unfold new. rewrite skipn_app, Le, Nat.sub_diag, skipn_all2 by lia.
      reflexivity. }
    assert (F1 : firstn e new = firstn e s).
    { unfold new. rewrite firstn_app, Le, Nat.sub_diag, firstn_all2 by lia.
      cbn [firstn]. now rewrite app_nil_r. }
    rewrite S1, F1. fold (char_before e s).
    cbn [app body_len]. rewrite Hb. cbn [andb bol].
    rewrite Ascii.eqb_refl. cbn [andb startswith].
    replace (startswith (txt "##") ("|"%char :: t ++ skipn e s)) with false
      by reflexivity.
    cbn [firstn]. change (txt "|") with ["|"%char]. rewrite contains_char. cbn [existsb].
    now rewrite Ascii.eqb_refl, orb_true_r.
Qed.

(** [fix_skill_file] of the table patcher, in terms of the text. *)
Lemma table_patch_text (content : str) :
  FixFailedAttemptsTables.fix_skill_file content =
  match heading_line_end content with
  | None =>
      {| FixFailedAttemptsTables.modified := false;
         FixFailedAttemptsTables.description := txt "Already has table";
         FixFailedAttemptsTables.written := None |}
  | Some e =>
      if contains (txt "|") (body_from e content)
      then {| FixFailedAttemptsTables.modified := false;
              FixFailedAttemptsTables.description := txt "Already has table";
              FixFailedAttemptsTables.written := None |}
      else {| FixFailedAttemptsTables.modified := true;
              FixFailedAttemptsTables.description := txt "Added summary table";
              FixFailedAttemptsTables.written :=
                Some (firstn e content ++
                      FixFailedAttemptsTables.generate_summary_table
                        (body_from e content) ++
                      skipn e content) |}
  end.
Proof.
  unfold FixFailedAttemptsTables.fix_skill_file.
  rewrite has_failed_attempts_table_text, add_failed_attempts_table_text.
  destruct (heading_line_end content) as [e|]; trivial.
  destruct (contains (txt "|") (body_from e content)); trivial.
  destruct (generate_summary_table_head (body_from e content)) as [t ->].
  destruct (str_eqb _ content) eqn:E; [|reflexivity].
  apply str_eqb_eq in E. apply (f_equal (@length ascii)) in E.
  rewrite !length_app in E. cbn [length] in E.
  pose proof (firstn_skipn e content) as Hs. apply (f_equal (@length ascii)) in Hs.
  rewrite length_app in Hs. lia.
Qed.

(** X13: what the table patcher does to a file.  A call of
    [fix_skill_file] either answers "Already has table" and writes
    nothing, or answers "Added summary table" and writes the text of the
    file with a table (a newline, a pipe, ...) put in at the end of the
    first line that starts with [## Failed Attempts], the text before
    and after it unchanged.  The answer "No changes needed" is never
    given. *)
Theorem table_patch_outcomes (content : str) :
  FixFailedAttemptsTables.fix_skill_file content =
    {| FixFailedAttemptsTables.modified := false;
       FixFailedAttemptsTables.description := txt "Already has table";
       FixFailedAttemptsTables.written := None |} \/
  exists e t,
    heading_line_end content = Some e /\
    FixFailedAttemptsTables.fix_skill_file content =
      {| FixFailedAttemptsTables.modified := true;
         FixFailedAttemptsTables.description := txt "Added summary table";
         FixFailedAttemptsTables.written :=
           Some (firstn e content ++ (nl :: "|"%char :: t) ++ skipn e content) |}.
Proof.
  rewrite table_patch_text.
  destruct (heading_line_end content) as [e|]; [|now left].
  destruct (contains (txt "|") (body_from e content)); [now left|].
  right. destruct (generate_summary_table_head (body_from e content)) as [t ->].
  now exists e, t.
Qed.

(** X14: the table patcher is idempotent.  Whatever the file holds, a
    second call of [fix_skill_file], on the text the first call left,
    answers "Already has table" and writes nothing. *)
Theorem table_patch_twice (content : str) :
  FixFailedAttemptsTables.fix_skill_file (after_table_patch content) =
    {| FixFailedAttemptsTables.modified := false;
       FixFailedAttemptsTables.description := txt "Already has table";
       FixFailedAttemptsTables.written := None |}.
Proof.
  unfold after_table_patch. rewrite (table_patch_text content).
  destruct (heading_line_end content) as [e|] eqn:He;
    cbn [FixFailedAttemptsTables.written].
  - destruct (contains (txt "|") (body_from e content)) eqn:Hc;
      cbn [FixFailedAttemptsTables.written].
    + now rewrite table_patch_text, He, Hc.
    + destruct (generate_summary_table_head (body_from e content)) as [t ->].
      destruct (table_at_heading_is_seen content t e He) as [He' Hc'].
      now rewrite table_patch_text, He', Hc'.
  - now rewrite table_patch_text, He.
Qed.

(* ------------------------------------------------------------------ *)
(** ** What a match has read *)

Lemma advance_0 (c : cursor) : advance 0 c = c.
Proof. destruct c. unfold advance. cbn. now rewrite Nat.add_0_r. Qed.

Lemma advance_S (j : nat) (p : option ascii) (x : ascii) (s : str) (i : nat) :
  advance (S j) {| prev := p; rest := x :: s; pos := i |} =
  advance j {| prev := Some x; rest := s; pos := S i |}.
Proof. unfold advance. cbn. now rewrite Nat.add_succ_r. Qed.

(** A repetition that succeeds has read some characters, all of them
    taken by the atom, and the rest of the pattern went on from there. *)
Lemma rep_sound {R} (fl : flags) (a : atom) (greedy : bool) (lo : nat)
    (hi : option nat) (k : cursor -> option R) (x : R)
    (s : str) (n : nat) (p : option ascii) (i : nat) :
  rep fl a greedy lo hi k n p s i = Some x ->
  exists j,
    j <= length s /\ lo <= n + j /\
    forallb (atom_ok fl a) (firstn j s) = true /\
    k (advance j {| prev := p; rest := s; pos := i |}) = Some x.
Proof.
  revert x n p i; induction s as [|c s IH]; intros x n p i; cbn [rep].
  - intros H. exists 0. rewrite advance_0.
    destruct (lo <=? n) eqn:E.
    + apply Nat.leb_le in E. repeat split; trivial; try lia.
      destruct greedy; trivial; destruct (k _); trivial; discriminate.
    + destruct greedy; discriminate.
  - set (more := if match hi with None => true | Some h => n <? h end &&
                    atom_ok fl a c
                 then rep fl a greedy lo hi k (S n) (Some c) s (S i) else None).
    set (stop := if lo <=? n then k {| prev := p; rest := c :: s; pos := i |}
                 else None).
    assert (Hmore : forall y, more = Some y ->
              exists j, j <= length (c :: s) /\ lo <= n + j /\
                        forallb (atom_ok fl a) (firstn j (c :: s)) = true /\
                        k (advance j {| prev := p; rest := c :: s; pos := i |}) = Some y).
    { unfold more. intros y Hy.
      destruct (match hi with None => true | Some h => n <? h end); cbn [andb] in Hy;
        [|discriminate].
      destruct (atom_ok fl a c) eqn:Hc; [|discriminate].
      apply IH in Hy as (j & Hj & Hlo & Hok & Hk). exists (S j).
      rewrite advance_S. cbn [length firstn forallb]. rewrite Hc.
      repeat split; trivial; lia. }
    assert (Hstop : forall y, stop = Some y ->
              exists j, j <= length (c :: s) /\ lo <= n + j /\
                        forallb (atom_ok fl a) (firstn j (c :: s)) = true /\
                        k (advance j {| prev := p; rest := c :: s; pos := i |}) = Some y).
    { unfold stop. intros y Hy. exists 0. rewrite advance_0.
      destruct (lo <=? n) eqn:E; [|discriminate]. apply Nat.leb_le in E.
      repeat split; trivial; cbn [length]; lia. }
    destruct greedy.
    + destruct more as [y|] eqn:Em.
      * intros H. injection H as <-. now apply Hmore.
      * apply Hstop.
    + destruct stop as [y|] eqn:Es.
      * intros H. injection H as <-. now apply Hstop.
      * apply Hmore.
Qed.

(** A search that succeeds matched at some offset. *)
Lemma search_from_sound (fl : flags) (r : regex) (m : mobj)
    (s : str) (p : option ascii) (i : nat) :
  search_from fl r p s i = Some m ->
  exists a, a <= length s /\
            match_at fl r (advance a {| prev := p; rest := s; pos := i |}) = Some m.
Proof.
  revert p i; induction s as [|c s IH]; intros p i; cbn [search_from].
  - destruct (match_at fl r _) eqn:E; [|discriminate].
    intros H. injection H as <-. exists 0. now rewrite advance_0.
  - destruct (match_at fl r _) eqn:E.
    + intros H. injection H as <-. exists 0. rewrite advance_0. split; [cbn; lia|trivial].
    + intros H. apply IH in H as (a & Ha & H). exists (S a).
      rewrite advance_S. split; [cbn; lia|trivial].
Qed.

Lemma advance_start (a : nat) (s : str) :
  advance a (start_of s) =
  {| prev := char_before a s; rest := skipn a s; pos := a |}.
Proof. reflexivity. Qed.

Lemma at_eol_multiline (fl : flags) (c : cursor) :
  multiline fl = true ->
  at_eol fl c = true -> rest c = [] \/ exists r, rest c = nl :: r.
Proof.
  intros Hml. unfold at_eol. destruct (rest c) as [|x r]; [now left|].
  rewrite Hml. cbn [orb]. rewrite andb_true_r. intros E.
  apply Ascii.eqb_eq in E. subst. right. eauto.
Qed.

(** [a* $ R], greedy or lazy: the repetition ended at the end of a
    line. *)
Lemma run_rep_eol {R} (fl : flags) (a : atom) (greedy : bool) (lo : nat)
    (hi : option nat) (r : regex) (c : cursor) (g : captures)
    (k : cursor -> captures -> option R) (x : R) :
  run fl (Rep greedy lo hi a ;;; Eol ;;; r) c g k = Some x ->
  exists j,
    j <= length (rest c) /\
    at_eol fl (advance j c) = true /\
    run fl r (advance j c) g k = Some x.
Proof.
  change (run fl (Rep greedy lo hi a ;;; Eol ;;; r) c g k)
    with (rep fl a greedy lo hi
            (fun c' => if at_eol fl c' then run fl r c' g k else None)
            0 (prev c) (rest c) (pos c)).
  intros H. apply rep_sound in H as (j & Hj & _ & _ & H). exists j.
  change (advance j {| prev := prev c; rest := rest c; pos := pos c |})
    with (advance j c) in H.
  destruct (at_eol fl (advance j c)); [auto|discriminate].
Qed.

(** [^## Failed Attempts\s*$(.*?)(?:^##|\Z)]: where group 1 starts the
    line ends, and it runs up to the next line that starts with two
    hashes or to the end of the text; the match ends after those two
    hashes. *)
Lemma section_match (s : str) (m : mobj) :
  search MULTILINE_DOTALL FixRemainingWarnings.failed_attempts_section s = Some m ->
  exists e,
    0 < e <= length s /\
    (skipn e s = [] \/ exists r, skipn e s = nl :: r) /\
    group 1 m s = body_from e s /\
    m_end m = e + body_len (char_before e s) (skipn e s) +
              (if ends_at_hashes (char_before e s) (skipn e s) then 2 else 0).
Proof.
  unfold search. intros H. apply search_from_sound in H as (a & Ha & H).
  unfold FixRemainingWarnings.failed_attempts_section in H.
  rewrite match_at_line in H by reflexivity.
  destruct (bol _ && startswith _ _) eqn:Hg; [|discriminate].
  apply andb_true_iff in Hg as [_ Hg]. cbn [advance rest] in Hg.
  apply startswith_length in Hg. rewrite length_skipn in Hg.
  fold (start_of s) in H. rewrite advance_advance in H. unfold Star in H.
  apply run_rep_eol in H as (j & Hj & Heol & H).
  rewrite advance_advance in *. rewrite advance_start in *.
  apply at_eol_multiline in Heol; [|reflexivity]. cbn [rest] in Heol.
  match type of H with
  | run _ _ ?c ?g (final ?st) = _ => destruct (run_body st g c) as [after E]
  end.
  rewrite E in H. injection H as <-. cbn [prev rest pos] in *.
  change (length (txt "## Failed Attempts")) with 18 in *.
  cbn [advance rest] in Hj. rewrite length_skipn in Hj.
  exists (a + 18 + j). split; [lia|]. split; [exact Heol|]. split; [|reflexivity].
  unfold group. cbn [m_groups span_of Nat.eqb]. unfold slice, body_from.
  f_equal. lia.
Qed.

(* ------------------------------------------------------------------ *)
(** ** The section of the Failed Attempts heading *)

Lemma startswith_firstn (p s : str) (n : nat) :
  startswith p (firstn n s) = true -> startswith p s = true.
Proof.
  intros H. rewrite <- (firstn_skipn n s). now apply startswith_weaken.
Qed.

(** No line of the section text starts with three hashes: such a line
    starts with two, and the section ends before it. *)
Lemma no_subheading_from (s : str) (p : option ascii) (i : nat) :
  search_from MULTILINE (Bol ;;; Lit (txt "###")) p (firstn (body_len p s) s) i = None.
Proof.
  assert (Hat : forall p' s' i',
            bol p' && startswith (txt "###") s' = false ->
            match_at MULTILINE (Bol ;;; Lit (txt "###"))
              {| prev := p'; rest := s'; pos := i' |} = None).
  { intros p' s' i' H. unfold match_at. cbn [run].
    rewrite at_bol_multiline by reflexivity. cbn [prev rest pos].
    rewrite lit_spec. destruct (bol p'); cbn [andb] in *; trivial. now rewrite H. }
  revert p i; induction s as [|c s IH]; intros p i.
  - assert (E : firstn (body_len p []) (@nil ascii) = []) by now destruct (body_len p []).
    rewrite E. cbn [search_from]. rewrite Hat; trivial.
    now rewrite andb_false_r.
  - cbn [body_len]. destruct (bol p && startswith (txt "##") (c :: s)) eqn:Hstop.
    + cbn [firstn search_from]. rewrite Hat; trivial. now rewrite andb_false_r.
    + cbn [firstn search_from]. rewrite Hat; [apply IH|].
      destruct (bol p); cbn [andb] in *; trivial.
      destruct (startswith (txt "###") (c :: firstn (body_len (Some c) s) s)) eqn:E;
        trivial.
      change (c :: firstn (body_len (Some c) s) s)
        with (firstn (S (body_len (Some c) s)) (c :: s)) in E.
      apply startswith_firstn in E.
      change (txt "###") with (txt "##" ++ txt "#") in E.
      apply startswith_head in E. congruence.
Qed.

Lemma no_subheading_in_section (s : str) (e : nat) :
  skipn e s = [] \/ (exists r, skipn e s = nl :: r) ->
  search MULTILINE (Bol ;;; Lit (txt "###")) (body_from e s) = None.
Proof.
  unfold body_from, search. intros [->|[r ->]].
  - now destruct (body_len (char_before e s) []).
  - cbn [body_len].
    replace (startswith (txt "##") (nl :: r)) with false by reflexivity.
    rewrite andb_false_r. cbn [firstn search_from].
    replace (match_at MULTILINE (Bol ;;; Lit (txt "###"))
               {| prev := None; rest := nl :: firstn (body_len (Some nl) r) r;
                  pos := 0 |}) with (@None mobj) by reflexivity.
    apply no_subheading_from.
Qed.

(* ------------------------------------------------------------------ *)
Lemma body_len_to_end (s : str) (p : option ascii) :
  ends_at_hashes p s = false -> body_len p s = length s.
Proof.
  revert p; induction s as [|c s IH]; intros p; cbn [ends_at_hashes body_len].
  - now destruct (bol p && startswith (txt "##") []).
  - destruct (bol p && startswith (txt "##") (c :: s)); [discriminate|].
    intros H. cbn [length]. now rewrite IH.
Qed.

Lemma body_len_to_hashes (s : str) (p : option ascii) :
  ends_at_hashes p s = true ->
  startswith (txt "##") (skipn (body_len p s) s) = true /\
  bol (last_opt (firstn (body_len p s) s) p) = true.
Proof.
  revert p; induction s as [|c s IH]; intros p; cbn [ends_at_hashes body_len].
  - destruct (bol p && startswith (txt "##") []) eqn:E; [|discriminate].
    intros _. apply andb_true_iff in E as [Hb Hs]. split; [exact Hs|exact Hb].
  - destruct (bol p && startswith (txt "##") (c :: s)) eqn:E.
    + intros _. apply andb_true_iff in E as [Hb Hs]. split; [exact Hs|exact Hb].
    + intros H. apply IH in H. exact H.
Qed.

Lemma body_len_le (s : str) (p : option ascii) : body_len p s <= length s.
Proof.
  revert p; induction s as [|c s IH]; intros p; cbn [body_len length].
  - destruct (bol p && startswith (txt "##") []); lia.
  - destruct (bol p && startswith (txt "##") (c :: s)); [lia|].
    specialize (IH (Some c)). lia.
Qed.

Lemma last_opt_snoc (w : str) (p : option ascii) :
  w <> [] -> exists a c, w = a ++ [c] /\ last_opt w p = Some c.
Proof.
  intros Hw. destruct (exists_last Hw) as (a & c & ->). exists a, c.
  split; trivial. unfold last_opt. now rewrite fold_left_app.
Qed.

(* ------------------------------------------------------------------ *)
(** ** The heading tests of the patchers *)

Lemma match_at_line_start (h : str) (c : cursor) :
  match_at MULTILINE (Bol ;;; Lit h) c =
  if bol (prev c) && startswith h (rest c)
  then Some {| m_start := pos c; m_end := pos c + length h; m_groups := [];
               m_after := {| prev := last_opt h (prev c);
                             rest := skipn (length h) (rest c);
                             pos := pos c + length h |} |}
  else None.
Proof.
  unfold match_at. cbn [run]. rewrite at_bol_multiline by reflexivity.
  destruct (bol (prev c)); cbn [andb]; trivial.
  rewrite lit_spec. reflexivity.
Qed.

(** [re.search(r'^h', s, re.MULTILINE)] finds something exactly when a
    line of [s] starts with [h]. *)
Lemma search_line_start (h : str) (s : str) (p : option ascii) (i : nat) :
  match search_from MULTILINE (Bol ;;; Lit h) p s i with
  | Some m => exists a, find_line h p s = Some a /\ m_start m = i + a
  | None => find_line h p s = None
  end.
Proof.
  revert p i; induction s as [|c s IH]; intros p i; cbn [search_from find_line];
    rewrite match_at_line_start; cbn [prev rest pos].
  - destruct (bol p && startswith h []); trivial.
    exists 0. cbn [m_start]. split; [reflexivity|lia].
  - destruct (bol p && startswith h (c :: s)).
    + exists 0. cbn [m_start]. split; [reflexivity|lia].
    + specialize (IH (Some c) (S i)).
      destruct (search_from MULTILINE (Bol ;;; Lit h) (Some c) s (S i)) as [m|].
      * destruct IH as (a & -> & E). exists (S a). split; [reflexivity|lia].
      * now rewrite IH.
Qed.

Lemma found_line_start (h s : str) :
  FixValidationWarnings.found (search MULTILINE (Bol ;;; Lit h) s) =
  match find_line h None s with Some _ => true | None => false end.
Proof.
  unfold search. pose proof (search_line_start h s None 0) as H.
  destruct (search_from MULTILINE (Bol ;;; Lit h) None s 0) as [m|].
  - destruct H as (a & -> & _). reflexivity.
  - now rewrite H.
Qed.

(** A line that starts with [h] is found. *)
Lemma find_line_complete (h a b : str) (p : option ascii) :
  bol (last_opt a p) = true -> find_line h p (a ++ h ++ b) <> None.
Proof.
  revert p; induction a as [|c a IH]; intros p Hb.
  - cbn [last_opt fold_left app] in *.
    assert (E : find_line h p (h ++ b) = Some 0).
    { destruct (h ++ b) eqn:Eh; cbn [find_line]; rewrite <- ?Eh;
        now rewrite Hb, startswith_app. }
    rewrite E. discriminate.
  - cbn [app find_line]. destruct (bol p && startswith h (c :: a ++ h ++ b));
      [discriminate|].
    specialize (IH (Some c) Hb).
    destruct (find_line h (Some c) (a ++ h ++ b)); [discriminate|congruence].
Qed.

Lemma find_line_contains (h s : str) (p : option ascii) (a : nat) :
  find_line h p s = Some a -> contains h s = true.
Proof.
  intros H. apply contains_occurs. exists a. eapply find_line_bound; eauto.
Qed.

(** The lines of a text: [split] on the newline, line by line. *)
Lemma partition_nl (s : str) :
  partition [nl] s =
  match drop_while not_nl s with
  | [] => None
  | _ :: s' => Some (take_while not_nl s, s')
  end.
Proof.
  induction s as [|c s IH]; [reflexivity|].
  rewrite partition_eq. cbn [startswith drop_while take_while length skipn].
  unfold not_nl at 1 3. rewrite Ascii.eqb_sym.
  destruct (Ascii.eqb c nl) eqn:E; cbn [negb andb]; trivial.
  rewrite IH. now destruct (drop_while not_nl s).
Qed.

Lemma split_nl (s : str) :
  split [nl] s =
  match drop_while not_nl s with
  | [] => [s]
  | _ :: s' => take_while not_nl s :: split [nl] s'
  end.
Proof.
  pose proof (partition_nl s) as P.
  destruct (drop_while not_nl s) as [|x s'] eqn:E.
  - now apply split_none.
  - apply split_cons; [discriminate|trivial].
Qed.

Lemma take_while_nil_drop (ok : ascii -> bool) (s : str) :
  drop_while ok s = [] -> take_while ok s = s.
Proof.
  intros H. pose proof (take_drop_while ok s) as E. rewrite H, app_nil_r in E. exact E.
Qed.

(** [h], which has no newline, starts a text as it starts its first
    line. *)
Lemma startswith_first_line (h s : str) :
  forallb not_nl h = true ->
  startswith h (take_while not_nl s) = startswith h s.
Proof.
  intros Hh. revert s; induction h as [|x h IH]; intros s; [reflexivity|].
  cbn [forallb] in Hh. apply andb_true_iff in Hh as [Hx Hh].
  destruct s as [|c s]; [reflexivity|]. cbn [take_while startswith].
  destruct (Ascii.eqb x c) eqn:E.
  - apply Ascii.eqb_eq in E. subst c. rewrite Hx. cbn [startswith].
    now rewrite Ascii.eqb_refl, IH.
  - cbn [andb]. destruct (not_nl c); cbn [startswith]; [now rewrite E|reflexivity].
Qed.

(** The first line start at which [h] stands, as a test on the lines. *)
Lemma find_line_lines (h : str) :
  forallb not_nl h = true ->
  forall (n : nat) (s : str) (p : option ascii),
    length s <= n ->
    match find_line h p s with Some _ => true | None => false end =
    (bol p && startswith h s) || existsb (startswith h) (tl (split [nl] s)).
Proof.
  intros Hh. induction n as [|n IH]; intros s p Hn.
  - destruct s; [|cbn in Hn; lia]. cbn [find_line].
    destruct (bol p && startswith h []); reflexivity.
  - destruct s as [|c s]; [cbn [find_line]; destruct (bol p && startswith h []); reflexivity|].
    cbn [find_line]. destruct (bol p && startswith h (c :: s)); [reflexivity|].
    cbn [orb]. cbn [length] in Hn.
    assert (E : match option_map S (find_line h (Some c) s) with
                | Some _ => true | None => false end =
                match find_line h (Some c) s with Some _ => true | None => false end)
      by now destruct (find_line h (Some c) s).
    rewrite E, (IH s (Some c)) by lia.
    rewrite (split_nl (c :: s)). cbn [drop_while take_while]. unfold not_nl at 1 3.
    cbn [bol]. destruct (Ascii.eqb c nl) eqn:Ec; cbn [negb tl].
    + (* a new line starts *)
      rewrite (split_nl s). destruct (drop_while not_nl s) as [|x s'] eqn:Ed.
      * cbn [existsb tl]. now rewrite !orb_false_r.
      * cbn [existsb tl]. now rewrite startswith_first_line.
    + rewrite (split_nl s). now destruct (drop_while not_nl s).
Qed.

Lemma line_test (h s : str) :
  forallb not_nl h = true ->
  FixValidationWarnings.found (search MULTILINE (Bol ;;; Lit h) s) =
  existsb (startswith h) (split [nl] s).
Proof.
  intros Hh. rewrite found_line_start.
  rewrite (find_line_lines h Hh (length s) s None) by lia.
  cbn [bol andb]. rewrite (split_nl s).
  destruct (drop_while not_nl s) as [|x s'] eqn:Ed; cbn [existsb tl].
  - reflexivity.
  - now rewrite startswith_first_line.
Qed.

(** X17: the heading tests read the starts of lines.  Each of the three
    tests of the section patcher holds exactly when one of the lines of
    the document starts with the words of its heading. *)
Theorem heading_tests_read_line_starts (content : str) :
  FixValidationWarnings.has_overview_section content =
    existsb (startswith (txt "## Overview")) (split [nl] content) /\
  FixValidationWarnings.has_verified_workflow_section content =
    existsb (startswith (txt "## Verified Workflow")) (split [nl] content) /\
  FixValidationWarnings.has_results_section content =
    existsb (startswith (txt "## Results")) (split [nl] content).
Proof.
  repeat split; apply line_test; reflexivity.
Qed.

Lemma line_test_contains (h s : str) :
  FixValidationWarnings.found (search MULTILINE (Bol ;;; Lit h) s) = true ->
  contains h s = true.
Proof.
  rewrite found_line_start.
  destruct (find_line h None s) as [a|] eqn:E; [|discriminate].
  intros _. eapply find_line_contains; eauto.
Qed.

(** X18: the patcher's tests are stronger than the validator's.  A
    document that passes the three heading tests of the section patcher
    gets none of the validator's warnings about a missing Overview,
    Verified Workflow or Results section. *)
Theorem patcher_tests_satisfy_validator (content : str) :
  FixValidationWarnings.has_overview_section content = true ->
  FixValidationWarnings.has_verified_workflow_section content = true ->
  FixValidationWarnings.has_results_section content = true ->
  let warnings := snd (ValidatePlugins.skill_checks content) in
  ~ In (txt "Missing Overview table") warnings /\
  ~ In (txt "Missing Verified Workflow section") warnings /\
  ~ In (txt "Missing Results & Parameters section") warnings.
Proof.
  intros H1 H2 H3. apply line_test_contains in H1, H2, H3.
  rewrite skill_checks_eq. cbn [snd]. rewrite H1, H2, H3. cbn [app].
  destruct (contains (txt "## When to Use") content),
    (contains (txt "## Failed Attempts") content); cbn [app In];
    try destruct (contains (txt "|") _); cbn [app In];
    intuition discriminate.
Qed.

Lemma patcher_tests_satisfy_validator_witness :
  let warnings := snd (ValidatePlugins.skill_checks good_skill) in
  ~ In (txt "Missing Overview table") warnings /\
  ~ In (txt "Missing Verified Workflow section") warnings /\
  ~ In (txt "Missing Results & Parameters section") warnings.
Proof.
  apply (patcher_tests_satisfy_validator good_skill); vm_compute; reflexivity.
Defined.

(* ------------------------------------------------------------------ *)
(** ** What the fixers establish *)

Lemma join_around (sep : str) (A B : list str) (T : str) :
  exists X Y,
    join sep (A ++ T :: B) = X ++ T ++ Y /\
    (A = [] -> X = []) /\
    (A <> [] -> exists X', X = X' ++ sep).
Proof.
  destruct A as [|x xs].
  - exists [], (flat_map (fun y => sep ++ y) B). cbn [app join].
    repeat split; trivial. congruence.
  - exists (x ++ flat_map (fun y => sep ++ y) xs ++ sep),
           (flat_map (fun y => sep ++ y) B).
    cbn [app join]. rewrite flat_map_app. cbn [flat_map].
    repeat split.
    + now rewrite <- !app_assoc.
    + discriminate.
    + intros _. exists (x ++ flat_map (fun y => sep ++ y) xs). now rewrite <- app_assoc.
Qed.

Lemma has_line_start (h a b : str) :
  bol (last_opt a None) = true ->
  FixValidationWarnings.found (search MULTILINE (Bol ;;; Lit h) (a ++ h ++ b)) = true.
Proof.
  intros Hb. rewrite found_line_start.
  pose proof (find_line_complete h a b None Hb) as H.
  now destruct (find_line h None (a ++ h ++ b)).
Qed.

Lemma last_opt_nl (a : str) (p : option ascii) : bol (last_opt (a ++ [nl]) p) = true.
Proof. unfold last_opt. rewrite fold_left_app. reflexivity. Qed.

(** The text [add_overview_section] returns, cut at the heading of its
    table: a newline comes before it. *)
Lemma add_overview_section_parts (content : str) :
  exists X Y,
    FixValidationWarnings.add_overview_section content =
    (X ++ [nl]) ++ txt "## Overview" ++ Y.
Proof.
  unfold FixValidationWarnings.add_overview_section.
  set (lines := split [nl] content).
  set (pos := FixValidationWarnings.title_pos lines 0 false).
  match goal with
  | |- context [firstn pos lines ++ [?t] ++ skipn pos lines] => set (table := t)
  end.
  assert (Ht : exists t, table = nl :: txt "## Overview" ++ t).
  { unfold table, text_of_lines. cbn [map join flat_map].
    change (txt "") with (@nil ascii). cbn [app].
    eexists. rewrite <- !app_assoc. reflexivity. }
  destruct Ht as [t Ht].
  destruct (join_around [nl] (firstn pos lines) (skipn pos lines) table)
    as (X & Y & E & _ & _).
  change ([table] ++ skipn pos lines) with (table :: skipn pos lines).
  exists X, (t ++ Y).
  enough (G : forall z, z = X ++ table ++ Y ->
                        z = (X ++ [nl]) ++ txt "## Overview" ++ t ++ Y)
    by (apply G, E).
  intros z ->. rewrite Ht. rewrite <- !app_assoc. reflexivity.
Qed.

Lemma split_not_nil (sep s : str) : split sep s <> [].
Proof.
  unfold split. destruct (length s); cbn [split_rounds]; [discriminate|].
  destruct (partition sep s) as [[b a]|]; discriminate.
Qed.

(** The text [add_results_section] returns, cut at the heading it adds:
    a newline comes before it. *)
Lemma add_results_section_parts (content : str) :
  exists X Y,
    FixValidationWarnings.add_results_section content =
    (X ++ [nl]) ++ txt "## Results" ++ Y.
Proof.
  unfold FixValidationWarnings.add_results_section.
  match goal with
  | |- context [rstrip content ++ [nl] ++ ?r] => set (results_section := r)
  end.
  assert (Hr : exists t, results_section = nl :: txt "## Results" ++ t).
  { unfold results_section, text_of_lines. cbn [map join flat_map].
    change (txt "") with (@nil ascii). cbn [app].
    change (txt "## Results & Parameters") with (txt "## Results" ++ txt " & Parameters").
    eexists. rewrite <- !app_assoc. reflexivity. }
  destruct Hr as [t Hr].
  destruct (contains (txt "## References") content) eqn:Hc.
  - unfold replace.
    destruct (partition (txt "## References") content) as [[b a]|] eqn:P.
    + assert (Hsep : txt "## References" <> []) by discriminate.
      rewrite (split_cons _ _ _ _ Hsep P).
      destruct (split (txt "## References") a) as [|x xs] eqn:Es;
        [now apply split_not_nil in Es|].
      cbn [join flat_map]. rewrite Hr. eexists b, _.
      repeat (progress cbn [app] || rewrite <- app_assoc). reflexivity.
    + apply contains_partition in P. congruence.
  - rewrite Hr. exists (rstrip content ++ [nl]), t.
    rewrite <- !app_assoc. reflexivity.
Qed.

(** X19: the two sections the patcher adds pass the tests that guard
    them.  Whatever the document, the text [add_overview_section]
    returns has a line that starts with [## Overview], and the text
    [add_results_section] returns has a line that starts with
    [## Results], before [## References] or at the end. *)
Theorem added_sections_pass_their_tests (content : str) :
  FixValidationWarnings.has_overview_section
    (FixValidationWarnings.add_overview_section content) = true /\
  FixValidationWarnings.has_results_section
    (FixValidationWarnings.add_results_section content) = true.
Proof.
  split.
  - destruct (add_overview_section_parts content) as (X & Y & E).
    unfold FixValidationWarnings.has_overview_section. rewrite E.
    apply has_line_start, last_opt_nl.
  - destruct (add_results_section_parts content) as (X & Y & E).
    unfold FixValidationWarnings.has_results_section. rewrite E.
    apply has_line_start, last_opt_nl.
Qed.

(** ** Replacing a heading line *)

Lemma finditer_first (fl : flags) (r : regex) (s : str) :
  match search fl r s with
  | None => finditer fl r s = []
  | Some m => exists ms, finditer fl r s = m :: ms
  end.
Proof.
  unfold finditer, search. cbn [finditer_from start_of prev rest pos].
  destruct (search_from fl r None s 0); eauto.
Qed.

(** [re.sub] of a heading line by a text that starts with [h]: nothing
    changes, or a line of the result starts with [h]. *)
Lemma sub_line_start (old h t s : str) :
  match search MULTILINE (Bol ;;; Lit old ;;; Eol) s with
  | None => sub MULTILINE (Bol ;;; Lit old ;;; Eol) (h ++ t) s = s
  | Some _ =>
      FixValidationWarnings.found
        (search MULTILINE (Bol ;;; Lit h)
           (sub MULTILINE (Bol ;;; Lit old ;;; Eol) (h ++ t) s)) = true
  end.
Proof.
  pose proof (finditer_first MULTILINE (Bol ;;; Lit old ;;; Eol) s) as Hf.
  destruct (search MULTILINE (Bol ;;; Lit old ;;; Eol) s) as [m|] eqn:Es.
  - destruct Hf as [ms Hf]. unfold sub. rewrite Hf. cbn [sub_between].
    unfold search in Es. apply search_from_sound in Es as (a & Ha & Em).
    rewrite match_at_line in Em by reflexivity.
    destruct (bol _ && startswith _ _) eqn:Hg; [|discriminate].
    apply andb_true_iff in Hg as [Hb _]. cbn [advance prev] in Hb.
    cbn [run] in Em. destruct (at_eol _ _); [|discriminate].
    unfold final in Em. injection Em as <-. cbn [m_start m_end advance pos].
    unfold slice. rewrite Nat.sub_0_r. cbn [skipn Nat.add].
    rewrite <- app_assoc. apply has_line_start. exact Hb.
  - unfold sub. now rewrite Hf.
Qed.

(** The rename applied to its own result changes nothing. *)
Lemma rename_workflow_twice (content : str) :
  FixValidationWarnings.rename_workflow_to_verified
    (FixValidationWarnings.rename_workflow_to_verified content) =
  FixValidationWarnings.rename_workflow_to_verified content.
Proof.
  destruct (FixValidationWarnings.has_verified_workflow_section content) eqn:Hv.
  - assert (E : FixValidationWarnings.rename_workflow_to_verified content = content).
    { unfold FixValidationWarnings.rename_workflow_to_verified. now rewrite Hv. }
    now rewrite !E.
  - assert (E : FixValidationWarnings.rename_workflow_to_verified content =
                sub MULTILINE FixValidationWarnings.workflow_heading
                  (txt "## Verified Workflow") content).
    { unfold FixValidationWarnings.rename_workflow_to_verified. now rewrite Hv. }
    rewrite E.
    pose proof (sub_line_start (txt "## Workflow") (txt "## Verified Workflow") []
                  content) as H.
    rewrite app_nil_r in H. fold FixValidationWarnings.workflow_heading in H.
    destruct (search MULTILINE FixValidationWarnings.workflow_heading content).
    + unfold FixValidationWarnings.rename_workflow_to_verified,
        FixValidationWarnings.has_verified_workflow_section.
      now rewrite H.
    + rewrite H. rewrite E. exact H.
Qed.

(** X22: the wrapper establishes its test.  [add_verified_workflow_wrapper]
    returns the document unchanged (none of the five section headings is
    a line of it), or a document with a line that starts with
    [## Verified Workflow]. *)
Theorem add_verified_workflow_wrapper_establishes (content : str) :
  FixRemainingWarnings.add_verified_workflow_wrapper content = content \/
  FixRemainingWarnings.has_verified_workflow_section
    (FixRemainingWarnings.add_verified_workflow_wrapper content) = true.
Proof.
  unfold FixRemainingWarnings.add_verified_workflow_wrapper.
  generalize FixRemainingWarnings.workflow_sections as names.
  induction names as [|section_name names IH]; cbn [FixRemainingWarnings.wrap_first];
    [now left|].
  pose proof (sub_line_start (txt "## " ++ section_name) (txt "## Verified Workflow")
                ([nl; nl] ++ txt "### " ++ section_name) content) as H.
  fold (FixRemainingWarnings.section_heading section_name) in H.
  fold (FixRemainingWarnings.wrapped_heading section_name) in H.
  destruct (search MULTILINE (FixRemainingWarnings.section_heading section_name) content);
    cbn [FixRemainingWarnings.found]; [|exact IH].
  right. exact H.
Qed.

(* ------------------------------------------------------------------ *)
(** ** The cells of the Overview table *)

Lemma split_lines_no_nl (n : nat) (s : str) :
  length s <= n -> forall l, In l (split [nl] s) -> forallb not_nl l = true.
Proof.
  revert s; induction n as [|n IH]; intros s Hn l; rewrite split_nl.
  - destruct s; [|cbn in Hn; lia]. cbn. intros [<-|[]]. reflexivity.
  - pose proof (take_drop_while not_nl s) as E.
    destruct (drop_while not_nl s) as [|x s'] eqn:Ed.
    + intros [<-|[]]. rewrite <- (take_while_nil_drop _ _ Ed). apply take_while_all.
    + intros [<-|Hl]; [apply take_while_all|].
      apply (IH s'); trivial.
      apply (f_equal (@length ascii)) in E. rewrite length_app in E. cbn [length] in E. lia.
Qed.

Lemma lstrip_In (c : ascii) (s : str) : In c (lstrip s) -> In c s.
Proof.
  induction s as [|x s IH]; cbn [lstrip]; trivial.
  destruct (isspace x); [right; auto|trivial].
Qed.

Lemma strip_In (c : ascii) (s : str) : In c (strip s) -> In c s.
Proof.
  unfold strip, rstrip. rewrite <- in_rev. intros H. apply lstrip_In in H.
  rewrite <- in_rev in H. now apply lstrip_In.
Qed.

(** The lines [objective_loop] collects are stripped lines of the
    text. *)
Lemma objective_loop_lines (lines : list str) (f t : bool) (acc : list str) (x : str) :
  In x (FixValidationWarnings.objective_loop lines f t acc) ->
  In x acc \/ exists l, In l lines /\ x = strip l.
Proof.
  revert f t acc; induction lines as [|line lines IH]; intros f t acc;
    cbn [FixValidationWarnings.objective_loop]; [now left|].
  assert (Hrec : forall f' t',
            In x (FixValidationWarnings.objective_loop lines f' t' acc) ->
            In x acc \/ exists l, In l (line :: lines) /\ x = strip l).
  { intros f' t' H. apply IH in H as [H|(l & Hl & ->)]; [now left|].
    right. exists l. split; [now right|trivial]. }
  destruct (str_eqb (strip line) (txt "---")); [apply Hrec|].
  destruct f; [apply Hrec|].
  destruct (startswith (txt "# ") line); [apply Hrec|].
  destruct (t && _ && _); [|apply Hrec].
  assert (Hacc : In x (acc ++ [strip line]) ->
                 In x acc \/ exists l, In l (line :: lines) /\ x = strip l).
  { intros H. apply in_app_or in H as [H|[<-|[]]]; [now left|].
    right. exists line. split; [now left|trivial]. }
  destruct (100 <? _); [exact Hacc|].
  intros H. apply IH in H as [H|(l & Hl & ->)]; [now apply Hacc|].
  right. exists l. split; [now right|trivial].
Qed.

Lemma join_In (c : ascii) (sep : str) (l : list str) :
  In c (join sep l) -> In c sep \/ exists x, In x l /\ In c x.
Proof.
  destruct l as [|x xs]; cbn [join]; [intros []|].
  intros H. apply in_app_or in H as [H|H].
  - right. exists x. split; [now left|trivial].
  - apply in_flat_map in H as (y & Hy & H). apply in_app_or in H as [H|H].
    + now left.
    + right. exists y. split; [now right|trivial].
Qed.

Lemma not_nl_In (l : str) : forallb not_nl l = true -> ~ In nl l.
Proof.
  intros H Hin. rewrite forallb_forall in H. specialize (H nl Hin).
  unfold not_nl in H. now rewrite Ascii.eqb_refl in H.
Qed.

(** X23: the Objective cell.  Whatever the document, the text
    [extract_objective] returns is not empty and has no newline in it;
    for an ASCII document it is at most 150 characters long. *)
Theorem extract_objective_cell (content : str) :
  FixValidationWarnings.extract_objective content <> [] /\
  ~ In nl (FixValidationWarnings.extract_objective content) /\
  (ascii_text content = true ->
   length (FixValidationWarnings.extract_objective content) <= 150).
Proof.
  unfold FixValidationWarnings.extract_objective.
  set (lines := FixValidationWarnings.objective_loop (split [nl] content) false false []).
  set (o := join (txt " ") lines).
  assert (Ho : ~ In nl o).
  { intros H. apply join_In in H as [H|(x & Hx & H)].
    - vm_compute in H. intuition discriminate.
    - apply objective_loop_lines in Hx as [[]|(l & Hl & ->)].
      apply strip_In in H. revert H. apply not_nl_In.
      now apply (split_lines_no_nl (length content) content). }
  set (o' := if 150 <? length o then firstn 147 o ++ txt "..." else o).
  assert (H1 : length o' <= 150).
  { unfold o'. destruct (150 <? length o) eqn:E.
    - rewrite length_app, length_firstn. cbn [length txt list_ascii_of_string].
      change (length (txt "...")) with 3. lia.
    - now apply Nat.ltb_ge in E. }
  assert (H2 : ~ In nl o').
  { unfold o'. destruct (150 <? length o); trivial.
    intros H. apply in_app_or in H as [H|H].
    - apply Ho. rewrite <- (firstn_skipn 147 o). apply in_or_app. now left.
    - vm_compute in H. intuition discriminate. }
  destruct o' as [|c o'']; [|repeat split; trivial; discriminate].
  repeat split.
  - discriminate.
  - vm_compute. intuition discriminate.
  - intros _. vm_compute. lia.
Qed.

(** The cell of the sample document. *)
Lemma extract_objective_cell_witness :
  FixValidationWarnings.extract_objective good_skill <> [] /\
  ~ In nl (FixValidationWarnings.extract_objective good_skill) /\
  length (FixValidationWarnings.extract_objective good_skill) <= 150.
Proof.
  destruct (extract_objective_cell good_skill) as (H1 & H2 & H3).
  split; [exact H1|]. split; [exact H2|]. apply H3. reflexivity.
Defined.

(* ------------------------------------------------------------------ *)
(** [a{lo,hi} R]: the repetition read [j] characters the atom takes. *)
Lemma run_rep {R} (fl : flags) (a : atom) (greedy : bool) (lo : nat)
    (hi : option nat) (r : regex) (c : cursor) (g : captures)
    (k : cursor -> captures -> option R) (x : R) :
  run fl (Rep greedy lo hi a ;;; r) c g k = Some x ->
  exists j,
    j <= length (rest c) /\ lo <= j /\
    forallb (atom_ok fl a) (firstn j (rest c)) = true /\
    run fl r (advance j c) g k = Some x.
Proof.
  change (run fl (Rep greedy lo hi a ;;; r) c g k)
    with (rep fl a greedy lo hi (fun c' => run fl r c' g k) 0 (prev c) (rest c) (pos c)).
  intros H. apply rep_sound in H as (j & Hj & Hlo & Hok & H). exists j. auto.
Qed.

(** [(a{lo,hi}) R]: the group is the text the repetition read. *)
Lemma run_grp_rep {R} (fl : flags) (n : nat) (a : atom) (greedy : bool) (lo : nat)
    (hi : option nat) (r : regex) (c : cursor) (g : captures)
    (k : cursor -> captures -> option R) (x : R) :
  run fl (Grp n (Rep greedy lo hi a) ;;; r) c g k = Some x ->
  exists j,
    j <= length (rest c) /\ lo <= j /\
    forallb (atom_ok fl a) (firstn j (rest c)) = true /\
    run fl r (advance j c) ((n, (pos c, pos c + j)) :: g) k = Some x.
Proof.
  change (run fl (Grp n (Rep greedy lo hi a) ;;; r) c g k)
    with (rep fl a greedy lo hi
            (fun c' => run fl r c' ((n, (pos c, pos c')) :: g) k)
            0 (prev c) (rest c) (pos c)).
  intros H. apply rep_sound in H as (j & Hj & Hlo & Hok & H). exists j. auto.
Qed.

Lemma run_rep_final (fl : flags) (a : atom) (greedy : bool) (lo : nat)
    (hi : option nat) (c : cursor) (g : captures) (st : nat) (m : mobj) :
  run fl (Rep greedy lo hi a) c g (final st) = Some m -> m_groups m = g.
Proof.
  cbn [run]. intros H. apply rep_sound in H as (j & _ & _ & _ & H).
  unfold final in H. now injection H as <-.
Qed.

(** X24: the Date cell.  Whatever the document, the text
    [extract_frontmatter_date] returns is [N/A] or a non-empty run of
    digits and hyphens. *)
Theorem extract_frontmatter_date_cell (content : str) :
  FixValidationWarnings.extract_frontmatter_date content = txt "N/A" \/
  (FixValidationWarnings.extract_frontmatter_date content <> [] /\
   forallb date_char (FixValidationWarnings.extract_frontmatter_date content) = true).
Proof.
  unfold FixValidationWarnings.extract_frontmatter_date.
  destruct (search MULTILINE FixValidationWarnings.date_line content) as [m|] eqn:Es;
    [|now left].
  right. unfold search in Es. apply search_from_sound in Es as (a & _ & H).
  unfold FixValidationWarnings.date_line in H.
  rewrite match_at_line in H by reflexivity.
  destruct (bol _ && startswith _ _); [|discriminate].
  fold (start_of content) in H. rewrite advance_advance in H.
  unfold Star in H. apply run_rep in H as (j0 & _ & _ & _ & H).
  rewrite advance_advance in H.
  unfold Opt in H. apply run_rep in H as (j1 & _ & _ & _ & H).
  rewrite advance_advance in H.
  unfold Plus in H. apply run_grp_rep in H as (j & Hj & Hlo & Hok & H).
  apply run_rep_final in H.
  unfold group. rewrite H. cbn [span_of Nat.eqb]. rewrite advance_start in *.
  cbn [pos rest] in *. unfold slice.
  match goal with
  | |- context [firstn (?b + j - ?b) ?s] => replace (b + j - b) with j by lia
  end.
  split.
  - intros E. apply (f_equal (@length ascii)) in E.
    rewrite length_firstn in E. cbn [length] in E. lia.
  - exact Hok.
Qed.

(* ------------------------------------------------------------------ *)
(** ** [add_user_invocable] *)

(** [(.*?)(---\n)] under [DOTALL]: group 2 runs to the first [---\n]. *)
Lemma rep_lazy_to_literal (l : str) (g : captures) (st b : nat)
    (s : str) (n : nat) (p : option ascii) (i : nat) :
  rep AddUserInvocable.DOTALL Any false 0 None
    (fun c' =>
       run AddUserInvocable.DOTALL (Grp 3 (Lit l)) c' ((2, (b, pos c')) :: g) (final st))
    n p s i =
  match partition l s with
  | Some (fm, body) =>
      Some {| m_start := st; m_end := i + length fm + length l;
              m_groups := (3, (i + length fm, i + length fm + length l)) ::
                          (2, (b, i + length fm)) :: g;
              m_after := advance (length fm + length l)
                           {| prev := p; rest := s; pos := i |} |}
  | None => None
  end.
Proof.
  revert n p i; induction s as [|c s IH]; intros n p i;
    rewrite partition_eq; cbn [rep Nat.leb run prev rest pos]; rewrite lit_spec.
  - destruct (startswith l []) eqn:E; [|reflexivity].
    cbn [length final pos]. rewrite Nat.add_0_r. unfold advance. cbn [prev rest pos].
    rewrite Nat.add_0_l.
    assert (F : firstn (length l) [] = l).
    { apply startswith_split in E. destruct l; [reflexivity|discriminate]. }
    now rewrite F.
  - destruct (startswith l (c :: s)) eqn:E.
    + cbn [length final pos]. rewrite Nat.add_0_r. unfold advance. cbn [prev rest pos].
      rewrite Nat.add_0_l.
      assert (F : firstn (length l) (c :: s) = l).
      { apply startswith_split in E. rewrite E at 1.
        rewrite firstn_app, Nat.sub_diag, firstn_all. cbn [firstn].
        now rewrite app_nil_r. }
      now rewrite F.
    + cbn [atom_ok AddUserInvocable.DOTALL dotall orb andb].
      rewrite IH. destruct (partition l s) as [[fm body]|]; [|reflexivity].
      cbn [length Nat.add]. rewrite advance_S. rewrite !Nat.add_succ_r.
      cbn [Nat.add]. reflexivity.
Qed.

(** [re.match] of the frontmatter pattern, in terms of the text. *)
Lemma match_frontmatter (content : str) :
  match_ AddUserInvocable.DOTALL AddUserInvocable.pattern content =
  if startswith dashes content
  then match partition dashes (skipn 4 content) with
       | Some (fm, body) =>
           Some {| m_start := 0; m_end := 4 + length fm + 4;
                   m_groups := [(3, (4 + length fm, 4 + length fm + 4));
                                (2, (4, 4 + length fm)); (1, (0, 4))];
                   m_after := advance (length fm + 4)
                                (advance 4 (start_of content)) |}
       | None => None
       end
  else None.
Proof.
  unfold match_, match_at, AddUserInvocable.pattern. fold dashes.
  cbn [run at_bol start_of prev rest pos]. rewrite lit_spec.
  destruct (startswith dashes content) eqn:E; [|reflexivity].
  change (length dashes) with 4. cbn [pos Nat.add].
  pose proof (rep_lazy_to_literal dashes [(1, (0, 4))] 0 4 (skipn 4 content) 0
                (last_opt dashes None) 4) as H.
  cbn [run] in H. unfold final in *. cbn [pos] in H.
  etransitivity; [exact H|].
  destruct (partition dashes (skipn 4 content)) as [[fm body]|]; [|reflexivity].
  change (length dashes) with 4. f_equal. f_equal.
  assert (F : firstn 4 content = dashes).
  { apply startswith_split in E. rewrite E. change 4 with (length dashes).
    rewrite firstn_app, Nat.sub_diag, firstn_all. cbn [firstn]. now rewrite app_nil_r. }
  unfold advance, start_of. cbn [prev rest pos]. now rewrite F.
Qed.

(** X25: what [add_user_invocable] writes, for a file that holds ASCII
    text.  The function writes nothing when the text has
    [user-invocable:] somewhere, when it does not start with the line
    [---], or when no [---] followed by a newline comes after that line.
    Otherwise the frontmatter is the text up to the first [---] followed
    by a newline, wherever it stands in a line; the function writes the
    opening line, the frontmatter without its trailing white space, the
    new field, the closing line and the rest of the text unchanged. *)
Theorem add_user_invocable_text (content : str) :
  ascii_text content = true ->
  AddUserInvocable.add_user_invocable content =
  if contains (txt "user-invocable:") content
  then {| AddUserInvocable.updated := false; AddUserInvocable.written := None |}
  else if startswith dashes content
  then match partition dashes (skipn 4 content) with
       | Some (fm, body) =>
           {| AddUserInvocable.updated := true;
              AddUserInvocable.written :=
                Some (dashes ++ rstrip fm ++ [nl] ++ txt "user-invocable: false" ++ [nl] ++
                      dashes ++ body) |}
       | None =>
           {| AddUserInvocable.updated := false; AddUserInvocable.written := None |}
       end
  else {| AddUserInvocable.updated := false; AddUserInvocable.written := None |}.
Proof.
  intros _.
  unfold AddUserInvocable.add_user_invocable. rewrite match_frontmatter.
  destruct (contains (txt "user-invocable:") content); trivial.
  destruct (startswith dashes content) eqn:E; trivial.
  destruct (partition dashes (skipn 4 content)) as [[fm body]|] eqn:P; trivial.
  f_equal. f_equal. unfold group. cbn [m_groups span_of Nat.eqb m_end].
  unfold slice. replace (4 + length fm - 4) with (length fm) by lia.
  apply partition_Some in P as [P _].
  rewrite P, firstn_app, Nat.sub_diag, firstn_all. cbn [firstn]. rewrite app_nil_r.
  assert (S : skipn (4 + length fm + 4) content = body).
  { replace (4 + length fm + 4) with ((length fm + 4) + 4) by lia.
    rewrite <- skipn_skipn, P, app_assoc.
    assert (L : length (fm ++ dashes) = length fm + 4) by now rewrite length_app.
    rewrite skipn_app, L, Nat.sub_diag, skipn_all2 by lia. reflexivity. }
  rewrite S. unfold dashes. now rewrite <- !app_assoc.
Qed.

(** A frontmatter that ends with an empty line. *)
Lemma add_user_invocable_text_witness :
  AddUserInvocable.add_user_invocable
    (text_of_lines ["---"; "name: demo"; ""; "---"; "# Demo"; ""]) =
  {| AddUserInvocable.updated := true;
     AddUserInvocable.written :=
       Some (text_of_lines
               ["---"; "name: demo"; "user-invocable: false"; "---"; "# Demo"; ""]) |}.
Proof.
  rewrite (add_user_invocable_text
             (text_of_lines ["---"; "name: demo"; ""; "---"; "# Demo"; ""]) eq_refl).
  reflexivity.
Defined.

Lemma contains_middle (p a b : str) : contains p (a ++ p ++ b) = true.
Proof.
  apply contains_occurs. exists (length a).
  rewrite skipn_app, skipn_all, Nat.sub_diag. cbn [skipn app]. apply startswith_app.
Qed.

(** X26: [add_user_invocable] is idempotent.  Whatever the file holds, a
    second call, on the text the first call left, returns [False] and
    writes nothing. *)
Theorem add_user_invocable_twice (content : str) :
  AddUserInvocable.add_user_invocable (after_user_invocable content) =
  {| AddUserInvocable.updated := false; AddUserInvocable.written := None |}.
Proof.
  unfold after_user_invocable, AddUserInvocable.add_user_invocable.
  destruct (contains (txt "user-invocable:") content) eqn:Hc;
    cbn [AddUserInvocable.written]; [now rewrite Hc|].
  destruct (match_ AddUserInvocable.DOTALL AddUserInvocable.pattern content) as [m|] eqn:Em;
    cbn [AddUserInvocable.written].
  - match goal with
    | |- (if contains ?p ?s then _ else _) = _ =>
        assert (E : contains p s = true)
    end.
    { change (txt "user-invocable: false") with (txt "user-invocable:" ++ txt " false").
      rewrite <- !app_assoc, !app_assoc, <- !app_assoc.
      rewrite (app_assoc (txt "---")), (app_assoc (txt "---" ++ [nl])),
        (app_assoc ((txt "---" ++ [nl]) ++ _)).
      apply contains_middle. }
    now rewrite E.
  - now rewrite Hc, Em.
Qed.

(* ------------------------------------------------------------------ *)
(** ** The validator of the registry commands *)

Lemma registry_fields_loop (kv : list (str * json)) (fields acc : list str) :
  for_each
    (fun errors field =>
       present <- RegistryValidatePlugins.py_in field (JObj kv) ;;
       if negb present
       then Ret (errors ++ [txt "Missing required field: " ++ field])
       else Ret errors)
    acc fields
  = Ret (acc ++
         flat_map (fun f => if has_key f kv then []
                            else [txt "Missing required field: " ++ f]) fields).
Proof.
  revert acc; induction fields as [|f fields IH]; intros acc; cbn [for_each flat_map].
  - now rewrite app_nil_r.
  - cbn [RegistryValidatePlugins.py_in bind].
    destruct (has_key f kv); cbn [negb bind]; rewrite IH; trivial.
    now rewrite <- app_assoc.
Qed.

(** X27: what passes the validator of the registry commands.  Among the
    values whose description, where it is a string, is ASCII text, the
    checks of its [validate_plugin] return an empty error list exactly
    for the JSON objects that have a name, a version and a description
    whose length is 20 or more and which holds the words [Use when:]. *)
Theorem registry_manifest_passes_iff (plugin : json) :
  match plugin with
  | JObj kv => field_ok (txt "description") ascii_json kv
  | _ => true
  end = true ->
  RegistryValidatePlugins.manifest_checks plugin = Ret [] <->
  exists kv d n,
    plugin = JObj kv /\
    has_key (txt "name") kv = true /\
    has_key (txt "version") kv = true /\
    dict_find (txt "description") kv = Some d /\
    py_len d = Ret n /\ 20 <= n /\
    RegistryValidatePlugins.py_in (txt "Use when:") d = Ret true.
Proof.
  intros _. unfold RegistryValidatePlugins.manifest_checks. split.
  - destruct plugin as [| | |s|l|kv];
      try (cbn [for_each RegistryValidatePlugins.REQUIRED_FIELDS map
                RegistryValidatePlugins.py_in bind]; discriminate).
    + (* a string: [in] works, [get] does not *)
      match goal with
      | |- bind ?m _ = _ -> _ => destruct m; cbn [bind]; discriminate
      end.
    + match goal with
      | |- bind ?m _ = _ -> _ => destruct m; cbn [bind]; discriminate
      end.
    + rewrite registry_fields_loop. cbn [bind RegistryValidatePlugins.py_get].
      unfold RegistryValidatePlugins.REQUIRED_FIELDS. cbn [map flat_map app].
      unfold dict_get, has_key.
      destruct (dict_find (txt "name") kv) as [vn|] eqn:En;
        destruct (dict_find (txt "version") kv) as [vv|] eqn:Ev;
        destruct (dict_find (txt "description") kv) as [d|] eqn:Ed; cbn [app];
        try (destruct (py_len _) as [n|]; cbn [bind]; [|discriminate];
             destruct (n <? _); destruct (RegistryValidatePlugins.py_in _ _) as [[|]|];
             cbn [bind negb app]; discriminate).
      destruct (py_len d) as [n|] eqn:Hn; cbn [bind]; [|discriminate].
      unfold RegistryValidatePlugins.MIN_DESCRIPTION_LENGTH.
      destruct (n <? 20) eqn:Hlt;
        destruct (RegistryValidatePlugins.py_in (txt "Use when:") d) as [[|]|] eqn:Hin;
        cbn [bind negb app]; try discriminate.
      intros _. exists kv, d, n. apply Nat.ltb_ge in Hlt. rewrite En, Ev.
      repeat split; trivial.
  - intros (kv & d & n & -> & Hn & Hv & Hd & Hlen & Hn20 & Hin).
    rewrite registry_fields_loop. cbn [bind RegistryValidatePlugins.py_get].
    unfold RegistryValidatePlugins.REQUIRED_FIELDS. cbn [map flat_map app].
    rewrite Hn, Hv. unfold has_key, dict_get. rewrite Hd. cbn [app].
    rewrite Hlen. cbn [bind]. unfold RegistryValidatePlugins.MIN_DESCRIPTION_LENGTH.
    assert (E : (n <? 20) = false) by (apply Nat.ltb_ge; lia).
    rewrite E, Hin. reflexivity.
Qed.

(** A manifest that passes. *)
Lemma registry_manifest_passes_iff_witness :
  RegistryValidatePlugins.manifest_checks (good_manifest "alpha") = Ret [].
Proof.
  apply (registry_manifest_passes_iff (good_manifest "alpha")); [reflexivity|].
  eexists _, (JStr (txt "Use when: a demo is needed")), 26.
  repeat split.
  unfold txt. cbn [list_ascii_of_string length]. lia.
Defined.

(** A value that is not an object makes the checks raise. *)
Lemma registry_non_object_raises (plugin : json) :
  is_object plugin = false ->
  exists e, RegistryValidatePlugins.manifest_checks plugin = Raise e.
Proof.
  unfold RegistryValidatePlugins.manifest_checks.
  destruct plugin as [| | |s|l|kv]; intros H; try discriminate;
    try (eexists; reflexivity);
    match goal with
    | |- exists e, bind ?m _ = _ =>
        destruct m; cbn [bind RegistryValidatePlugins.py_get]; eexists; reflexivity
    end.
Qed.

(* ------------------------------------------------------------------ *)
(** ** A Failed Attempts section that nothing follows *)

(** X28: the table test of the section patcher fails only on a section
    that a heading follows.  [has_failed_attempts_table] of
    [fix_validation_warnings.py] answers [False] only if the document
    has a line that starts with [## Failed Attempts] and, after that
    heading, another line that starts with two hashes. *)
Theorem table_needs_a_following_heading (content : str) :
  FixValidationWarnings.has_failed_attempts_table content = false ->
  exists a q,
    a + 18 <= q /\
    bol (char_before a content) = true /\
    startswith (txt "## Failed Attempts") (skipn a content) = true /\
    bol (char_before q content) = true /\
    startswith (txt "##") (skipn q content) = true.
Proof.
  unfold FixValidationWarnings.has_failed_attempts_table.
  destruct (search MULTILINE_DOTALL _ content) as [m|] eqn:Es; [|discriminate].
  intros _. unfold search in Es. apply search_from_sound in Es as (a & _ & H).
  unfold FixValidationWarnings.failed_attempts_up_to_heading in H.
  rewrite match_at_line in H by reflexivity.
  destruct (bol _ && startswith _ _) eqn:Hg; [|discriminate].
  apply andb_true_iff in Hg as [Hb Hs].
  fold (start_of content) in *. rewrite advance_start in Hb, Hs.
  cbn [prev rest] in Hb, Hs.
  rewrite advance_advance in H. unfold Star in H.
  apply run_rep_eol in H as (j & _ & _ & H). rewrite advance_advance in H.
  unfold LazyStar in H. apply run_grp_rep in H as (j2 & _ & _ & _ & H).
  rewrite advance_advance, advance_start in H.
  cbn [run] in H. rewrite at_bol_multiline in H by reflexivity.
  cbn [prev rest pos] in H.
  match type of H with
  | (if ?b then _ else _) = _ => destruct b eqn:Hb2; [|discriminate]
  end.
  rewrite lit_spec in H.
  match type of H with
  | (if ?b then _ else _) = _ => destruct b eqn:Hs2; [|discriminate]
  end.
  change (length (txt "## Failed Attempts")) with 18 in *.
  exists a, (a + 18 + j + j2). repeat split; trivial. lia.
Qed.

Lemma table_needs_a_following_heading_witness :
  exists a q,
    a + 18 <= q /\
    bol (char_before a (text_of_lines ["## Failed Attempts"; "Prose."; "## Results"; ""]))
      = true /\
    startswith (txt "## Failed Attempts")
      (skipn a (text_of_lines ["## Failed Attempts"; "Prose."; "## Results"; ""])) = true /\
    bol (char_before q (text_of_lines ["## Failed Attempts"; "Prose."; "## Results"; ""]))
      = true /\
    startswith (txt "##")
      (skipn q (text_of_lines ["## Failed Attempts"; "Prose."; "## Results"; ""])) = true.
Proof.
  apply (table_needs_a_following_heading
           (text_of_lines ["## Failed Attempts"; "Prose."; "## Results"; ""])).
  vm_compute. reflexivity.
Defined.

(* ------------------------------------------------------------------ *)
(** ** [re.sub] of a whole line *)

Lemma match_whole_line (old : str) (p : option ascii) (L D : str) (i : nat) :
  forallb not_nl old = true -> forallb not_nl L = true ->
  (D = [] \/ exists r, D = nl :: r) ->
  match_at MULTILINE (Bol ;;; Lit old ;;; Eol) {| prev := p; rest := L ++ D; pos := i |} =
  if bol p && str_eqb L old
  then Some {| m_start := i; m_end := i + length old; m_groups := [];
               m_after := {| prev := last_opt old p; rest := D;
                             pos := i + length old |} |}
  else None.
Proof.
  intros Hold HL HD. rewrite match_at_line by reflexivity. cbn [prev rest pos].
  destruct (bol p); cbn [andb]; trivial.
  assert (Hsep : forall X, X = [] \/ (exists r, X = nl :: r) ->
                 X = [] \/ exists c r', X = c :: r' /\ not_nl c = false).
  { intros X [->|[r ->]]; [now left|]. right. exists nl, r. now split. }
  destruct (str_eqb L old) eqn:E.
  - apply str_eqb_eq in E. subst L. rewrite startswith_app. cbn [run].
    unfold advance. cbn [prev rest pos].
    assert (F : firstn (length old) (old ++ D) = old).
    { rewrite firstn_app, Nat.sub_diag, firstn_all. cbn [firstn]. apply app_nil_r. }
    assert (G : skipn (length old) (old ++ D) = D).
    { rewrite skipn_app, Nat.sub_diag, skipn_all. reflexivity. }
    rewrite F, G.
    assert (Heol : at_eol MULTILINE {| prev := last_opt old p; rest := D;
                                       pos := i + length old |} = true).
    { unfold at_eol. cbn [rest]. destruct HD as [->|[r ->]]; trivial. }
    rewrite Heol. reflexivity.
  - destruct (startswith old (L ++ D)) eqn:Es; trivial.
    cbn [run]. destruct (at_eol MULTILINE _) eqn:Heol; trivial.
    apply at_eol_multiline in Heol; [|reflexivity].
    unfold advance in Heol. cbn [rest] in Heol.
    apply startswith_split in Es.
    apply str_eqb_neq in E. exfalso. apply E.
    rewrite <- (take_while_app not_nl L D HL (Hsep D HD)).
    rewrite Es. apply take_while_app; trivial. now apply Hsep.
Qed.

(** No match starts inside a line: the scan goes on at the next line. *)
Lemma search_skip_line (old : str) (D : str) :
  forallb not_nl old = true ->
  (D = [] \/ exists r, D = nl :: r) ->
  forall (L : str) (p : option ascii) (i : nat),
    forallb not_nl L = true ->
    bol p && str_eqb L old = false ->
    search_from MULTILINE (Bol ;;; Lit old ;;; Eol) p (L ++ D) i =
    match D with
    | [] => None
    | _ :: s' =>
        search_from MULTILINE (Bol ;;; Lit old ;;; Eol) (Some nl) s' (i + length L + 1)
    end.
Proof.
  intros Hold HD. induction L as [|c L IH]; intros p i HL E.
  - pose proof (match_whole_line old p [] D i Hold HL HD) as M.
    rewrite E in M. cbn [app] in *.
    destruct HD as [->|[r ->]]; cbn [search_from]; rewrite M; trivial.
    cbn [length]. now rewrite Nat.add_0_r, Nat.add_1_r.
  - pose proof (match_whole_line old p (c :: L) D i Hold HL HD) as M.
    rewrite E in M. cbn [app] in *. cbn [search_from]. rewrite M.
    cbn [forallb] in HL. apply andb_true_iff in HL as [Hc HL].
    rewrite IH; trivial.
    + cbn [length]. destruct D; trivial. f_equal. lia.
    + unfold bol, not_nl in *. now destruct (Ascii.eqb c nl).
Qed.

Lemma search_from_hit (fl : flags) (r : regex) (p : option ascii) (s : str)
    (i : nat) (m : mobj) :
  match_at fl r {| prev := p; rest := s; pos := i |} = Some m ->
  search_from fl r p s i = Some m.
Proof. intros H. destruct s; cbn [search_from]; now rewrite H. Qed.

(** A match of a whole line starts at or after the cursor. *)
Lemma search_whole_line_start (old : str) (p : option ascii) (s : str) (i : nat)
    (m : mobj) :
  search_from MULTILINE (Bol ;;; Lit old ;;; Eol) p s i = Some m -> i <= m_start m.
Proof.
  intros H. apply search_from_sound in H as (a & _ & H).
  rewrite match_at_line in H by reflexivity.
  destruct (bol _ && startswith _ _); [|discriminate].
  cbn [run] in H. destruct (at_eol _ _); [|discriminate].
  unfold final in H. injection H as <-. cbn [m_start advance pos]. lia.
Qed.

Lemma finditer_from_search (n : nat) (fl : flags) (r : regex) (c c' : cursor) :
  search_from fl r (prev c) (rest c) (pos c) =
  search_from fl r (prev c') (rest c') (pos c') ->
  finditer_from n fl r c = finditer_from n fl r c'.
Proof. intros H. destruct n; cbn [finditer_from]; [trivial|now rewrite H]. Qed.

Lemma finditer_from_head (n : nat) (fl : flags) (r : regex) (c : cursor) :
  finditer_from n fl r c = [] \/
  exists m ms, finditer_from n fl r c = m :: ms /\
               search_from fl r (prev c) (rest c) (pos c) = Some m.
Proof.
  destruct n; cbn [finditer_from]; [now left|].
  destruct (search_from fl r (prev c) (rest c) (pos c)) as [m|]; [|now left].
  right. eauto.
Qed.

Lemma flat_map_join (sep : str) (X : list str) :
  X <> [] -> flat_map (fun y => sep ++ y) X = sep ++ join sep X.
Proof.
  destruct X as [|x X]; [congruence|]. intros _. cbn [flat_map join].
  now rewrite app_assoc.
Qed.

Lemma rename_from_bol (old new : str) (p : option ascii) (lines : list str) :
  bol p = true -> rename_from old new p lines = map (rename_line old new) lines.
Proof. intros H. destruct lines; cbn [rename_from map]; [trivial|now rewrite H]. Qed.

(** [re.sub(r'^old$', new, s, flags=re.MULTILINE)] from a cursor on. *)
Lemma sub_between_lines (old new : str) :
  old <> [] -> forallb not_nl old = true ->
  forall (k : nat) (rest_ pre : str) (p : option ascii) (n : nat),
    length rest_ <= k -> k < n ->
    sub_between new
      (finditer_from n MULTILINE (Bol ;;; Lit old ;;; Eol)
         {| prev := p; rest := rest_; pos := length pre |})
      (length pre) (pre ++ rest_) =
    join [nl] (rename_from old new p (split [nl] rest_)).
Proof.
  intros Hne Hold. induction k as [|k IH]; intros rest_ pre p n Hk Hn.
  - destruct rest_; [|cbn in Hk; lia].
    destruct n as [|n]; [lia|]. cbn [finditer_from prev rest pos].
    pose proof (match_whole_line old p [] [] (length pre) Hold eq_refl
                  (or_introl eq_refl)) as M.
    cbn [app] in M.
    assert (E : str_eqb [] old = false) by (destruct old; [congruence|reflexivity]).
    rewrite E, andb_false_r in M.
    cbn [search_from]. rewrite M. cbn [sub_between].
    rewrite skipn_app, Nat.sub_diag, skipn_all. cbn.
    unfold rename_line. rewrite E. now destruct (bol p).
  - pose proof (take_drop_while not_nl rest_) as Hrest.
    pose proof (drop_line rest_) as HD.
    pose proof (take_while_all not_nl rest_) as HL.
    pose proof (split_nl rest_) as Hsplit.
    set (L := take_while not_nl rest_) in *.
    set (D := drop_while not_nl rest_) in *.
    destruct (bol p && str_eqb L old) eqn:E.
    + (* the line at the cursor is renamed *)
      pose proof (match_whole_line old p L D (length pre) Hold HL HD) as M.
      rewrite E, Hrest in M. apply search_from_hit in M.
      apply andb_true_iff in E as [Hb E]. apply str_eqb_eq in E.
      destruct n as [|n]; [lia|]. cbn [finditer_from prev rest pos]. rewrite M.
      cbn [m_start m_end m_after sub_between].
      assert (Hlt : (length pre <? length pre + length old) = true).
      { apply Nat.ltb_lt. destruct old; [congruence|cbn [length]; lia]. }
      rewrite Hlt. unfold slice at 1. rewrite Nat.sub_diag. cbn [firstn app].
      assert (Hpre : pre ++ rest_ = (pre ++ old) ++ D).
      { rewrite <- Hrest, E, app_assoc. reflexivity. }
      rewrite Hpre, <- length_app.
      rewrite IH.
      * assert (Hnb : bol (last_opt old p) = false).
        { apply last_opt_not_nl; auto. }
        assert (Hr : rename_line old new old = new).
        { unfold rename_line. now rewrite str_eqb_refl. }
        rewrite Hsplit. destruct HD as [HD|[s' HD]]; rewrite HD.
        -- assert (Hro : rest_ = old) by (rewrite <- Hrest, HD, app_nil_r; exact E).
           change (split [nl] []) with [@nil ascii].
           cbn [rename_from map join flat_map]. rewrite Hb, Hnb, Hro, Hr.
           reflexivity.
        -- rewrite (split_nl (nl :: s')). cbn [drop_while take_while].
           change (not_nl nl) with false. cbn iota.
           cbn [rename_from]. rewrite Hb, Hnb, E, Hr. cbn [join app]. reflexivity.
      * rewrite <- Hrest, E, length_app in Hk.
        destruct old; [congruence|]. cbn [length] in Hk. lia.
      * lia.
    + (* no match in the line at the cursor *)
      pose proof (search_skip_line old D Hold HD L p (length pre) HL E) as Sk.
      rewrite Hrest in Sk.
      destruct HD as [HD|[s' HD]].
      * rewrite HD in Sk, Hsplit. destruct n as [|n]; [lia|].
        cbn [finditer_from prev rest pos]. rewrite Sk. cbn [sub_between].
        rewrite skipn_app, Nat.sub_diag, skipn_all. cbn [skipn app].
        rewrite Hsplit. cbn [rename_from map join flat_map].
        rewrite app_nil_r. destruct (bol p); trivial.
        cbn [andb] in E. unfold rename_line.
        rewrite <- Hrest, HD, app_nil_r. now rewrite E.
      * rewrite HD in Sk, Hsplit.
        set (c' := {| prev := Some nl; rest := s'; pos := length pre + length L + 1 |}).
        rewrite (finditer_from_search n MULTILINE _ _ c') by exact Sk.
        assert (Hpre : pre ++ rest_ = (pre ++ L ++ [nl]) ++ s').
        { rewrite <- Hrest, HD, <- !app_assoc. reflexivity. }
        assert (Hlen : length pre + length L + 1 = length (pre ++ L ++ [nl])).
        { rewrite !length_app. cbn [length]. lia. }
        assert (Hshift :
          sub_between new (finditer_from n MULTILINE (Bol ;;; Lit old ;;; Eol) c')
            (length pre) (pre ++ rest_) =
          L ++ [nl] ++
          sub_between new (finditer_from n MULTILINE (Bol ;;; Lit old ;;; Eol) c')
            (length pre + length L + 1) (pre ++ rest_)).
        { destruct (finditer_from_head n MULTILINE (Bol ;;; Lit old ;;; Eol) c')
            as [->|(m & ms & -> & Hm)].
          - cbn [sub_between]. rewrite Hlen, Hpre.
            rewrite (skipn_app (length (pre ++ L ++ [nl]))), Nat.sub_diag, skipn_all.
            cbn [skipn app].
            rewrite <- app_assoc, skipn_app, Nat.sub_diag, skipn_all.
            cbn [skipn app]. now rewrite <- app_assoc.
          - cbn [sub_between]. apply search_whole_line_start in Hm.
            cbn [pos c'] in Hm. rewrite !app_assoc. f_equal. f_equal.
            unfold slice.
            replace (m_start m - length pre)
              with ((length L + 1) + (m_start m - (length pre + length L + 1))) by lia.
            rewrite firstn_add. rewrite skipn_skipn.
            replace (length L + 1 + length pre) with (length pre + length L + 1) by lia.
            f_equal.
            rewrite <- Hrest, HD, skipn_app, Nat.sub_diag, skipn_all. cbn [skipn app].
            change (nl :: s') with ([nl] ++ s'). rewrite app_assoc.
            rewrite firstn_app.
            replace (length L + 1 - length (L ++ [nl])) with 0
              by (rewrite length_app; cbn [length]; lia).
            cbn [firstn]. rewrite app_nil_r. apply firstn_all2.
            rewrite length_app. cbn [length]. lia. }
        rewrite Hshift, Hlen, Hpre. unfold c'. rewrite Hlen.
        rewrite IH.
        -- rewrite rename_from_bol by reflexivity. rewrite Hsplit.
           cbn [rename_from join].
           assert (HL' : (if bol p then rename_line old new L else L) = L).
           { destruct (bol p); trivial. cbn [andb] in E. unfold rename_line.
             now rewrite E. }
           rewrite HL'. f_equal.
           rewrite flat_map_join; [reflexivity|].
           pose proof (split_not_nil [nl] s') as Hs.
           destruct (split [nl] s'); [congruence|discriminate].
        -- rewrite <- Hrest, HD, length_app in Hk. cbn [length] in Hk. lia.
        -- lia.
Qed.

Lemma sub_whole_line (old new s : str) :
  old <> [] -> forallb not_nl old = true ->
  sub MULTILINE (Bol ;;; Lit old ;;; Eol) new s =
  join [nl] (map (rename_line old new) (split [nl] s)).
Proof.
  intros Hne Hold. unfold sub, finditer, start_of.
  pose proof (sub_between_lines old new Hne Hold (length s) s [] None (S (length s))
                (le_n _) (Nat.lt_succ_diag_r _)) as H.
  cbn [app length] in H. rewrite H. now rewrite rename_from_bol.
Qed.

(** X21: the rename, line by line.  When no line of the document starts
    with [## Verified Workflow], [rename_workflow_to_verified] returns
    the document with every line that is exactly [## Workflow] replaced
    by [## Verified Workflow] and every other line as it was (a heading
    with a blank after it, or a [## Workflow] in the middle of a line,
    stays); otherwise it returns the document itself.  Applied to its
    own result it changes nothing. *)
Theorem rename_workflow_to_verified_lines (content : str) :
  FixValidationWarnings.rename_workflow_to_verified content =
    (if existsb (startswith (txt "## Verified Workflow")) (split [nl] content)
     then content
     else join [nl]
            (map (rename_line (txt "## Workflow") (txt "## Verified Workflow"))
               (split [nl] content))) /\
  FixValidationWarnings.rename_workflow_to_verified
    (FixValidationWarnings.rename_workflow_to_verified content) =
  FixValidationWarnings.rename_workflow_to_verified content.
Proof.
  split; [|apply rename_workflow_twice].
  unfold FixValidationWarnings.rename_workflow_to_verified,
    FixValidationWarnings.has_verified_workflow_section,
    FixValidationWarnings.workflow_heading.
  rewrite line_test by reflexivity.
  destruct (existsb _ (split [nl] content)); trivial.
  apply sub_whole_line; [discriminate|reflexivity].
Qed.

(* ------------------------------------------------------------------ *)
(** ** What a run of the section patcher leaves *)

Lemma find_line_bol (h : str) (s : str) (p : option ascii) (a : nat) :
  find_line h p s = Some a -> bol (last_opt (firstn a s) p) = true.
Proof.
  revert p a; induction s as [|c s IH]; intros p a; cbn [find_line].
  - destruct (bol p && startswith h []) eqn:E; [|discriminate].
    intros H. injection H as <-. now apply andb_true_iff in E.
  - destruct (bol p && startswith h (c :: s)) eqn:E.
    + intros H. injection H as <-. now apply andb_true_iff in E.
    + destruct (find_line h (Some c) s) as [a'|] eqn:E'; [|discriminate].
      cbn [option_map]. intros H. injection H as <-.
      cbn [firstn last_opt fold_left]. now apply IH.
Qed.

(** A text that passes a heading test, cut at the heading. *)
Lemma line_start_parts (h s : str) :
  FixValidationWarnings.found (search MULTILINE (Bol ;;; Lit h) s) = true ->
  exists a b, s = a ++ h ++ b /\ bol (last_opt a None) = true.
Proof.
  rewrite found_line_start.
  destruct (find_line h None s) as [q|] eqn:E; [|discriminate]. intros _.
  exists (firstn q s), (skipn (length h) (skipn q s)). split.
  - rewrite <- (startswith_split _ _ (find_line_bound _ _ _ _ E)).
    now rewrite firstn_skipn.
  - now apply find_line_bol in E.
Qed.

Lemma drop_while_app (ok : ascii -> bool) (w r : str) :
  forallb ok w = true ->
  (r = [] \/ exists c r', r = c :: r' /\ ok c = false) ->
  drop_while ok (w ++ r) = r.
Proof.
  intros Hw Hr. induction w as [|c w IH]; cbn [app drop_while].
  - destruct Hr as [->|(c & r' & -> & Hc)]; trivial. cbn [drop_while]. now rewrite Hc.
  - cbn [forallb] in Hw. apply andb_true_iff in Hw as [Hc Hw].
    rewrite Hc. auto.
Qed.

(** Lines joined and split again. *)
Lemma split_join_nl (ls : list str) :
  ls <> [] -> (forall l, In l ls -> forallb not_nl l = true) ->
  split [nl] (join [nl] ls) = ls.
Proof.
  induction ls as [|l ls IH]; [congruence|]. intros _ Hall.
  assert (Hl : forallb not_nl l = true) by (apply Hall; now left).
  destruct ls as [|l' ls].
  - cbn [join flat_map]. rewrite app_nil_r. rewrite split_nl.
    rewrite <- (app_nil_r l) at 1.
    rewrite drop_while_app; auto.
  - cbn [join]. rewrite flat_map_join by discriminate.
    rewrite split_nl. cbn [app].
    assert (Hsep : forall X : str, nl :: X = [] \/
                     exists c r', nl :: X = c :: r' /\ not_nl c = false).
    { intros X. right. exists nl, X. now split. }
    rewrite drop_while_app, take_while_app; auto.
    f_equal. apply IH; [discriminate|]. intros x Hx. apply Hall. now right.
Qed.

Lemma rename_keeps_line (h old new : str) (ls : list str) :
  startswith h old = false ->
  existsb (startswith h) ls = true ->
  existsb (startswith h) (map (rename_line old new) ls) = true.
Proof.
  intros Hh H. apply existsb_exists in H as (l & Hin & Hl).
  apply existsb_exists. exists l. split; trivial.
  apply in_map_iff. exists l. split; trivial.
  unfold rename_line. destruct (str_eqb l old) eqn:E; trivial.
  apply str_eqb_eq in E. congruence.
Qed.

Lemma rename_line_no_nl (old new l : str) :
  forallb not_nl new = true -> forallb not_nl l = true ->
  forallb not_nl (rename_line old new l) = true.
Proof. intros Hn Hl. unfold rename_line. now destruct (str_eqb l old). Qed.

(** The rename keeps a line that starts with [## Overview]. *)
Lemma overview_after_rename (content : str) :
  FixValidationWarnings.has_overview_section content = true ->
  FixValidationWarnings.has_overview_section
    (FixValidationWarnings.rename_workflow_to_verified content) = true.
Proof.
  unfold FixValidationWarnings.rename_workflow_to_verified.
  destruct (FixValidationWarnings.has_verified_workflow_section content); trivial.
  unfold FixValidationWarnings.has_overview_section,
    FixValidationWarnings.workflow_heading.
  rewrite sub_whole_line by (discriminate || reflexivity).
  rewrite !line_test by reflexivity. intros H.
  rewrite split_join_nl.
  - apply rename_keeps_line; trivial.
  - pose proof (split_not_nil [nl] content) as Hs.
    destruct (split [nl] content); [congruence|discriminate].
  - intros l Hl. apply in_map_iff in Hl as (l0 & <- & Hl0).
    apply rename_line_no_nl; [reflexivity|].
    eapply split_lines_no_nl; eauto.
Qed.
Lemma lstrip_app_keep (X Y : str) (c : ascii) :
  isspace c = false -> lstrip (X ++ c :: Y) = lstrip X ++ c :: Y.
Proof.
  intros Hc. induction X as [|x X IH]; cbn [app lstrip].
  - now rewrite Hc.
  - destruct (isspace x); trivial.
Qed.

(** [rstrip] stops at a character that is not white space. *)
Lemma rstrip_keep (a h0 b : str) (c : ascii) :
  isspace c = false ->
  rstrip (a ++ (h0 ++ [c]) ++ b) = a ++ (h0 ++ [c]) ++ rstrip b.
Proof.
  intros Hc. unfold rstrip. rewrite !rev_app_distr. cbn [rev app].
  rewrite <- !app_assoc. cbn [app]. rewrite lstrip_app_keep by trivial.
  rewrite rev_app_distr. cbn [rev]. rewrite !rev_app_distr, !rev_involutive.
  now rewrite <- !app_assoc.
Qed.

Lemma replace_cons (old new s x y : str) :
  old <> [] -> partition old s = Some (x, y) ->
  replace old new s = x ++ new ++ replace old new y.
Proof.
  intros Hne P. unfold replace. rewrite (split_cons _ _ _ _ Hne P).
  cbn [join]. now rewrite flat_map_join by apply split_not_nil.
Qed.

Lemma replace_none (old new s : str) :
  partition old s = None -> replace old new s = s.
Proof.
  intros P. unfold replace. rewrite (split_none _ _ P). cbn [join flat_map].
  apply app_nil_r.
Qed.

Lemma last_opt_app (a b : str) (p : option ascii) :
  last_opt (a ++ b) p = last_opt b (last_opt a p).
Proof. unfold last_opt. apply fold_left_app. Qed.

Lemma last_opt_same (w : str) (p q : option ascii) :
  w <> [] -> last_opt w p = last_opt w q.
Proof.
  destruct w as [|c w]; [congruence|]. intros _. reflexivity.
Qed.

(** [s.replace(old, N + old)] keeps a line start [h] that no occurrence
    of [old] can overlap. *)
Lemma line_after_replace (h old N : str) :
  old <> [] -> forallb not_nl old = true -> h <> [] ->
  (forall d b, d < length h -> startswith old (skipn d (h ++ b)) = false) ->
  forall (n : nat) (s a b : str) (p : option ascii),
    length s <= n -> s = a ++ h ++ b -> bol (last_opt a p) = true ->
    exists a' b',
      replace old (N ++ old) s = a' ++ h ++ b' /\ bol (last_opt a' p) = true.
Proof.
  intros Hne Hold Hh Hov. induction n as [|n IH]; intros s a b p Hn Es Hb.
  - destruct s; [|cbn in Hn; lia]. exists a, b. split; trivial.
  - destruct (partition old s) as [[x y]|] eqn:P.
    2:{ rewrite (replace_none _ _ _ P). eauto. }
    rewrite (replace_cons _ _ _ _ _ Hne P).
    apply partition_Some in P as [Ex _].
    assert (Hy : length y <= n).
    { apply (f_equal (@length ascii)) in Ex. rewrite !length_app in Ex.
      destruct old; [congruence|]. cbn [length] in Ex. lia. }
    rewrite Es in Ex. symmetry in Ex.
    apply app_eq_app in Ex as [l [[E1 E2]|[E1 E2]]].
    + (* the first occurrence of [old] starts at or after the line start *)
      apply app_eq_app in E2 as [l' [[E3 E4]|[E3 E4]]].
      * destruct l' as [|c l'].
        -- rewrite app_nil_r in E3. subst l. exists a, ((N ++ old) ++ replace old (N ++ old) y).
           split; trivial. rewrite E1, <- !app_assoc. reflexivity.
        -- exfalso.
           assert (Hs : skipn (length l) (h ++ b) = old ++ y).
           { rewrite E3, <- app_assoc, skipn_app, Nat.sub_diag, skipn_all.
             cbn [skipn]. rewrite E4. reflexivity. }
           assert (Hl : length l < length h)
             by (rewrite E3, length_app; cbn [length]; lia).
           specialize (Hov (length l) b Hl).
           rewrite Hs, startswith_app in Hov. discriminate.
      * exists a, (l' ++ (N ++ old) ++ replace old (N ++ old) y).
        split; trivial. rewrite E1, E3, <- !app_assoc. reflexivity.
    + (* it starts before the line start *)
      apply app_eq_app in E2 as [l' [[E3 E4]|[E3 E4]]].
      * exfalso. destruct l as [|c l].
        -- cbn [app] in E3. subst l'.
           assert (Hl : 0 < length h) by (destruct h; [congruence|cbn [length]; lia]).
           specialize (Hov 0 b Hl). cbn [skipn] in Hov.
           rewrite E4, startswith_app in Hov. discriminate.
        -- rewrite E1, last_opt_app in Hb.
           rewrite last_opt_not_nl in Hb; [discriminate| |right; discriminate].
           rewrite E3, forallb_app in Hold. now apply andb_true_iff in Hold.
      * rewrite E1, E3 in Hb. rewrite app_assoc, last_opt_app in Hb.
        destruct (IH y l' b (last_opt (x ++ old) p) Hy E4 Hb) as (a' & b' & Er & Hb').
        exists (x ++ (N ++ old) ++ a'), b'. rewrite Er. split.
        -- now rewrite <- !app_assoc.
        -- rewrite !app_assoc, last_opt_app. rewrite <- Hb'. do 2 f_equal.
           rewrite !last_opt_app. now apply last_opt_same.
Qed.
Lemma rstrip_keep_line (a h b : str) :
  (exists h0 c, h = h0 ++ [c] /\ isspace c = false) ->
  rstrip (a ++ h ++ b) = a ++ h ++ rstrip b.
Proof. intros (h0 & c & -> & Hc). now apply rstrip_keep. Qed.

(** No [## References] starts inside [## Overview]. *)
Lemma references_not_in_overview (d : nat) (b : str) :
  d < length (txt "## Overview") ->
  startswith (txt "## References") (skipn d (txt "## Overview" ++ b)) = false.
Proof.
  intros Hd. do 11 (destruct d as [|d]; [reflexivity|]).
  change (length (txt "## Overview")) with 11 in Hd. lia.
Qed.

(** [add_results_section] keeps a line that starts with [## Overview]. *)
Lemma overview_after_results (content : str) :
  FixValidationWarnings.has_overview_section content = true ->
  FixValidationWarnings.has_overview_section
    (FixValidationWarnings.add_results_section content) = true.
Proof.
  unfold FixValidationWarnings.has_overview_section. intros H.
  apply line_start_parts in H as (a & b & E & Hb).
  unfold FixValidationWarnings.add_results_section.
  match goal with
  | |- context [rstrip content ++ [nl] ++ ?r] => set (results_section := r)
  end.
  set (h := txt "## Overview") in *.
  destruct (contains (txt "## References") content).
  - assert (Hne : txt "## References" <> []) by discriminate.
    assert (Hh : h <> []) by discriminate.
    destruct (line_after_replace h (txt "## References") (results_section ++ [nl])
                Hne eq_refl Hh references_not_in_overview
                (length content) content a b None (le_n _) E Hb)
      as (a' & b' & Er & Hb').
    rewrite <- app_assoc in Er. rewrite Er. now apply has_line_start.
  - rewrite E, rstrip_keep_line.
    + replace ((a ++ h ++ rstrip b) ++ [nl] ++ results_section)
        with (a ++ h ++ (rstrip b ++ [nl] ++ results_section))
        by (now rewrite <- !app_assoc).
      now apply has_line_start.
    + exists (txt "## Overvie"), "w"%char. split; reflexivity.
Qed.

(** The lines of two texts put together with a newline between. *)
Lemma split_app_nl (Z : str) (n : nat) (X : str) :
  length X <= n ->
  split [nl] (X ++ nl :: Z) = split [nl] X ++ split [nl] Z.
Proof.
  assert (Hsep : forall W : str, nl :: W = [] \/
                   exists c r', nl :: W = c :: r' /\ not_nl c = false).
  { intros W. right. exists nl, W. now split. }
  assert (Hline : forall W : str, drop_while not_nl W = [] ->
            split [nl] (W ++ nl :: Z) = split [nl] W ++ split [nl] Z).
  { intros W HD. rewrite (split_nl (W ++ nl :: Z)), (split_nl W), HD.
    pose proof (take_while_all not_nl W) as HL.
    rewrite (take_while_nil_drop _ _ HD) in HL.
    rewrite drop_while_app, take_while_app; auto. }
  revert X; induction n as [|n IH]; intros X Hn;
    destruct (drop_line X) as [HD|[X' HD]]; auto.
  - destruct X; [discriminate|cbn in Hn; lia].
  - pose proof (take_drop_while not_nl X) as E.
    pose proof (take_while_all not_nl X) as HL.
    rewrite (split_nl X), HD. rewrite HD in E.
    set (L := take_while not_nl X) in *.
    rewrite <- E, <- app_assoc. cbn [app].
    rewrite split_nl, drop_while_app, take_while_app; auto.
    cbn [app]. f_equal. apply IH.
    apply (f_equal (@length ascii)) in E. rewrite length_app in E.
    cbn [length] in E. lia.
Qed.

(** The heading match of the section patcher ends where a line ends. *)
Lemma heading_match_eol (s : str) (m : mobj) :
  search MULTILINE FixValidationWarnings.failed_attempts_heading s = Some m ->
  skipn (m_end m) s = [] \/ exists r, skipn (m_end m) s = nl :: r.
Proof.
  unfold search. intros H. apply search_from_sound in H as (a & _ & H).
  unfold FixValidationWarnings.failed_attempts_heading in H.
  rewrite match_at_line in H by reflexivity.
  destruct (bol _ && startswith _ _); [|discriminate].
  fold (start_of s) in H. rewrite advance_advance in H.
  unfold Star in H. cbn [run] in H.
  apply rep_sound in H as (j & _ & _ & _ & H).
  match type of H with
  | (if at_eol _ ?c then _ else _) = _ =>
      destruct (at_eol MULTILINE c) eqn:Heol; [|discriminate];
      apply at_eol_multiline in Heol; [|reflexivity]
  end.
  unfold final in H. injection H as <-. cbn [m_end].
  match type of Heol with
  | rest ?c = [] \/ _ =>
      assert (Hc : rest c = skipn (pos c) s);
      [|rewrite Hc in Heol; exact Heol]
  end.
  rewrite advance_start.
  change (advance j ?c) with
    {| prev := last_opt (firstn j (rest c)) (prev c);
       rest := skipn j (rest c); pos := pos c + j |}.
  cbn [prev rest pos]. rewrite skipn_skipn. f_equal. lia.
Qed.

(** The table of the section patcher comes after the end of a line and
    ends with a newline: every line start of the document is kept. *)
Lemma line_after_table (h content : str) :
  forallb not_nl h = true ->
  FixValidationWarnings.found (search MULTILINE (Bol ;;; Lit h) content) = true ->
  FixValidationWarnings.found
    (search MULTILINE (Bol ;;; Lit h)
       (FixValidationWarnings.add_failed_attempts_table content)) = true.
Proof.
  intros Hh H. unfold FixValidationWarnings.add_failed_attempts_table.
  destruct (search MULTILINE FixValidationWarnings.failed_attempts_heading content)
    as [m|] eqn:Em; trivial.
  destruct (search MULTILINE_DOTALL _ content) as [sm|]; trivial.
  match goal with
  | |- context [firstn _ content ++ ?t ++ _] => set (table := t)
  end.
  assert (Ht : exists T1, table = nl :: T1).
  { unfold table.
    match goal with
    | |- exists _, (if ?c then _ else _) = _ => destruct c
    end; eexists; reflexivity. }
  destruct Ht as [T1 ->].
  apply heading_match_eol in Em.
  rewrite line_test in * by trivial.
  rewrite <- (firstn_skipn (m_end m) content) in H.
  set (X := firstn (m_end m) content) in *.
  destruct Em as [Em|[r Em]]; rewrite Em in *.
  - rewrite app_nil_r in *. rewrite (split_app_nl _ _ _ (le_n _)), existsb_app.
    now rewrite H.
  - rewrite (split_app_nl _ _ _ (le_n _)), existsb_app in H.
    cbn [app]. rewrite (split_app_nl _ _ _ (le_n _)), existsb_app.
    rewrite (split_app_nl _ _ _ (le_n _)), existsb_app.
    apply orb_true_iff in H as [H|H]; rewrite H; now rewrite ?orb_true_r.
Qed.

(** The text [fix_skill_file] ends with, fix by fix. *)
Lemma apply_fixes_content (content : str) :
  fst (FixValidationWarnings.apply_fixes content) =
  let c1 := if FixValidationWarnings.has_overview_section content then content
            else FixValidationWarnings.add_overview_section content in
  let c2 := if FixValidationWarnings.has_verified_workflow_section c1 then c1
            else FixValidationWarnings.rename_workflow_to_verified c1 in
  let c3 := if FixValidationWarnings.has_results_section c2 then c2
            else FixValidationWarnings.add_results_section c2 in
  if FixValidationWarnings.has_failed_attempts_table c3 then c3
  else FixValidationWarnings.add_failed_attempts_table c3.
Proof.
  unfold FixValidationWarnings.apply_fixes. cbv zeta.
  destruct (FixValidationWarnings.has_overview_section content);
    cbv beta iota delta [negb];
    match goal with
    | |- context [FixValidationWarnings.has_verified_workflow_section ?c] =>
        destruct (FixValidationWarnings.has_verified_workflow_section c)
    end;
    cbv beta iota delta [negb];
    try match goal with
    | |- context [str_eqb ?x ?y] =>
        let E := fresh "E" in
        destruct (str_eqb x y) eqn:E; cbv beta iota delta [negb];
        [apply str_eqb_eq in E; rewrite E|]
    end;
    match goal with
    | |- context [FixValidationWarnings.has_results_section ?c] =>
        destruct (FixValidationWarnings.has_results_section c)
    end;
    cbv beta iota delta [negb];
    match goal with
    | |- context [FixValidationWarnings.has_failed_attempts_table ?c] =>
        destruct (FixValidationWarnings.has_failed_attempts_table c)
    end;
    reflexivity.
Qed.

Lemma file_after_content (content : str) :
  FixValidationWarnings.file_after content =
  fst (FixValidationWarnings.apply_fixes content).
Proof.
  unfold FixValidationWarnings.file_after, FixValidationWarnings.fix_skill_file.
  destruct (FixValidationWarnings.apply_fixes content) as [c f]. cbn [fst].
  destruct (str_eqb c content) eqn:E; cbn [negb FixValidationWarnings.written]; trivial.
  apply str_eqb_eq in E. now subst.
Qed.

(** X30: what a run of the section patcher achieves.  Whatever the file
    holds, the text it holds after [fix_skill_file] of
    [fix_validation_warnings.py] has a line that starts with
    [## Overview] and a line that starts with [## Results]: the two
    sections are added when they are missing, and neither the rename of
    the workflow heading, nor the text put before [## References], nor
    the table of the Failed Attempts section takes them away again. *)
Theorem section_patcher_leaves_overview_and_results (content : str) :
  FixValidationWarnings.has_overview_section
    (FixValidationWarnings.file_after content) = true /\
  FixValidationWarnings.has_results_section
    (FixValidationWarnings.file_after content) = true.
Proof.
  rewrite file_after_content, apply_fixes_content. cbv zeta.
  set (c1 := if FixValidationWarnings.has_overview_section content then content
             else FixValidationWarnings.add_overview_section content).
  set (c2 := if FixValidationWarnings.has_verified_workflow_section c1 then c1
             else FixValidationWarnings.rename_workflow_to_verified c1).
  set (c3 := if FixValidationWarnings.has_results_section c2 then c2
             else FixValidationWarnings.add_results_section c2).
  assert (H1 : FixValidationWarnings.has_overview_section c1 = true).
  { unfold c1.
    destruct (FixValidationWarnings.has_overview_section content) eqn:E; trivial.
    destruct (add_overview_section_parts content) as (X & Y & ->).
    apply has_line_start, last_opt_nl. }
  assert (H2 : FixValidationWarnings.has_overview_section c2 = true).
  { unfold c2.
    destruct (FixValidationWarnings.has_verified_workflow_section c1); trivial.
    now apply overview_after_rename. }
  assert (H3 : FixValidationWarnings.has_overview_section c3 = true /\
               FixValidationWarnings.has_results_section c3 = true).
  { unfold c3.
    destruct (FixValidationWarnings.has_results_section c2) eqn:E; [now split|].
    split; [now apply overview_after_results|].
    destruct (add_results_section_parts c2) as (X & Y & ->).
    apply has_line_start, last_opt_nl. }
  destruct H3 as [H3 H4].
  destruct (FixValidationWarnings.has_failed_attempts_table c3); [now split|].
  split; apply line_after_table; trivial.
Qed.

(* ------------------------------------------------------------------ *)
(** ** The section match, exactly *)

(** [\s*$ K] when [K] always goes on. *)
Lemma rep_space_stop {R} (K : cursor -> option R) :
  (forall c, K c <> None) ->
  forall (s : str) (n : nat) (p : option ascii) (i : nat),
    rep MULTILINE_DOTALL Space true 0 None
      (fun c => if at_eol MULTILINE_DOTALL c then K c else None) n p s i =
    match space_stop s with
    | Some j => K (advance j {| prev := p; rest := s; pos := i |})
    | None => None
    end.
Proof.
  intros Htotal. induction s as [|c s IH]; intros n p i.
  - cbn [rep space_stop Nat.leb at_eol rest]. now rewrite advance_0.
  - cbn [rep space_stop Nat.leb andb atom_ok].
    assert (Hstop : (if at_eol MULTILINE_DOTALL {| prev := p; rest := c :: s; pos := i |}
                     then K {| prev := p; rest := c :: s; pos := i |} else None) =
                    if Ascii.eqb c nl
                    then K (advance 0 {| prev := p; rest := c :: s; pos := i |})
                    else None).
    { rewrite advance_0. unfold at_eol. cbn [rest multiline MULTILINE_DOTALL orb].
      now rewrite andb_true_r. }
    destruct (isspace c).
    + rewrite IH. destruct (space_stop s) as [j|].
      * rewrite advance_S.
        destruct (K (advance j {| prev := Some c; rest := s; pos := S i |})) eqn:E;
          [reflexivity|]. now apply Htotal in E.
      * rewrite Hstop. now destruct (Ascii.eqb c nl).
    + rewrite Hstop. now destruct (Ascii.eqb c nl).
Qed.

(** The section pattern at a cursor. *)
Lemma match_at_section (c : cursor) :
  match_at MULTILINE_DOTALL FixRemainingWarnings.failed_attempts_section c =
  if bol (prev c) && startswith failed_attempts (rest c)
  then match space_stop (skipn 18 (rest c)) with
       | Some j =>
           run MULTILINE_DOTALL
             (Grp 1 (LazyStar Any) ;;; Alt (Bol ;;; Lit (txt "##")) EndZ)
             (advance (18 + j) c) [] (final (pos c))
       | None => None
       end
  else None.
Proof.
  unfold FixRemainingWarnings.failed_attempts_section.
  rewrite match_at_line by reflexivity. fold failed_attempts.
  destruct (bol (prev c) && startswith failed_attempts (rest c)); trivial.
  change (length failed_attempts) with 18.
  set (r := Grp 1 (LazyStar Any) ;;; Alt (Bol ;;; Lit (txt "##")) EndZ).
  change (run MULTILINE_DOTALL (Star Space ;;; Eol ;;; r) (advance 18 c) []
            (final (pos c)))
    with (rep MULTILINE_DOTALL Space true 0 None
            (fun c' => if at_eol MULTILINE_DOTALL c'
                       then run MULTILINE_DOTALL r c' [] (final (pos c)) else None)
            0 (prev (advance 18 c)) (rest (advance 18 c)) (pos (advance 18 c))).
  rewrite rep_space_stop.
  - cbn [advance rest]. destruct (space_stop (skipn 18 (rest c))) as [j|]; trivial.
    change {| prev := prev (advance 18 c); rest := skipn 18 (rest c);
              pos := pos (advance 18 c) |} with (advance 18 c).
    now rewrite advance_advance.
  - intros c'. destruct (run_body (pos c) [] c') as [after E]. unfold r.
    rewrite E. discriminate.
Qed.

(** The leftmost match of the section pattern. *)
Lemma search_section (s : str) (p : option ascii) (i : nat) :
  match find_section p s with
  | None =>
      search_from MULTILINE_DOTALL FixRemainingWarnings.failed_attempts_section p s i
      = None
  | Some (a, j) =>
      let c := advance (a + (18 + j)) {| prev := p; rest := s; pos := i |} in
      exists after,
        search_from MULTILINE_DOTALL FixRemainingWarnings.failed_attempts_section p s i
        = Some {| m_start := i + a;
                  m_end := pos c + body_len (prev c) (rest c) +
                           (if ends_at_hashes (prev c) (rest c) then 2 else 0);
                  m_groups := [(1, (pos c, pos c + body_len (prev c) (rest c)))];
                  m_after := after |}
  end.
Proof.
  revert p i; induction s as [|x s IH]; intros p i.
  - cbn [find_section search_from]. rewrite match_at_section. cbn [prev rest pos].
    destruct (bol p && startswith failed_attempts []); trivial.
    destruct (space_stop (skipn 18 [])) as [j|]; trivial.
    cbv zeta. change (0 + (18 + j)) with (18 + j).
    destruct (run_body i [] (advance (18 + j) {| prev := p; rest := []; pos := i |}))
      as [after E].
    rewrite E. exists after. now rewrite Nat.add_0_r.
  - cbn [find_section search_from]. rewrite match_at_section. cbn [prev rest pos].
    assert (Hnext :
      match
        match find_section (Some x) s with
        | Some (a, j) => Some (S a, j)
        | None => None
        end
      with
      | None =>
          search_from MULTILINE_DOTALL FixRemainingWarnings.failed_attempts_section
            (Some x) s (S i) = None
      | Some (a, j) =>
          let c := advance (a + (18 + j)) {| prev := p; rest := x :: s; pos := i |} in
          exists after,
            search_from MULTILINE_DOTALL FixRemainingWarnings.failed_attempts_section
              (Some x) s (S i)
            = Some {| m_start := i + a;
                      m_end := pos c + body_len (prev c) (rest c) +
                               (if ends_at_hashes (prev c) (rest c) then 2 else 0);
                      m_groups := [(1, (pos c, pos c + body_len (prev c) (rest c)))];
                      m_after := after |}
      end).
    { specialize (IH (Some x) (S i)).
      destruct (find_section (Some x) s) as [[a j]|]; trivial.
      cbv zeta in *. destruct IH as [after E]. exists after. rewrite E.
      change (S a + (18 + j)) with (S (a + (18 + j))). rewrite advance_S.
      f_equal. f_equal. lia. }
    destruct (bol p && startswith failed_attempts (x :: s)); trivial.
    destruct (space_stop (skipn 18 (x :: s))) as [j|]; trivial.
    cbv zeta. change (0 + (18 + j)) with (18 + j).
    destruct (run_body i [] (advance (18 + j) {| prev := p; rest := x :: s; pos := i |}))
      as [after E].
    rewrite E. exists after. now rewrite Nat.add_0_r.
Qed.

(* ------------------------------------------------------------------ *)
(** The section of a document: where its text starts and how far the
    match goes. *)
Lemma section_found (s : str) :
  match find_section None s with
  | None =>
      search MULTILINE_DOTALL FixRemainingWarnings.failed_attempts_section s = None
  | Some (a, j) =>
      let e := a + (18 + j) in
      exists m,
        search MULTILINE_DOTALL FixRemainingWarnings.failed_attempts_section s = Some m /\
        group 1 m s = body_from e s /\
        m_end m = e + body_len (char_before e s) (skipn e s) +
                  (if ends_at_hashes (char_before e s) (skipn e s) then 2 else 0)
  end.
Proof.
  unfold search. pose proof (search_section s None 0) as H.
  destruct (find_section None s) as [[a j]|]; trivial.
  cbv zeta in *. destruct H as [after H]. fold (start_of s) in H.
  rewrite advance_start in H. cbn [prev rest pos] in H.
  eexists. split; [exact H|]. split; [|reflexivity].
  unfold group. cbn [m_groups span_of Nat.eqb]. unfold slice, body_from.
  f_equal. lia.
Qed.

(** ** A text changed after the section *)

Lemma space_stop_prefix (W Y1 Y2 : str) :
  existsb (fun c => negb (isspace c)) W = true ->
  space_stop (W ++ Y1) = space_stop (W ++ Y2).
Proof.
  induction W as [|c W IH]; [discriminate|]. cbn [existsb app space_stop].
  destruct (isspace c); cbn [negb orb]; [|reflexivity].
  intros H. now rewrite IH.
Qed.

Lemma existsb_skipn {A} (f : A -> bool) (n : nat) (l : list A) :
  existsb f (skipn n l) = true -> existsb f l = true.
Proof.
  intros H. rewrite <- (firstn_skipn n l), existsb_app, H. apply orb_true_r.
Qed.

Lemma existsb_length {A} (f : A -> bool) (n : nat) (l : list A) :
  existsb f (skipn n l) = true -> n < length l.
Proof.
  intros H. destruct (Nat.lt_ge_cases n (length l)) as [Hl|Hl]; trivial.
  rewrite skipn_all2 in H by trivial. discriminate.
Qed.

(** The first section of a text is found by reading up to a character
    that is not white space, after its heading. *)
Lemma find_section_prefix (Y1 Y2 : str) (X : str) (p : option ascii) (a j : nat) :
  find_section p (X ++ Y1) = Some (a, j) ->
  existsb (fun c => negb (isspace c)) (skipn (a + 18) X) = true ->
  find_section p (X ++ Y2) = Some (a, j).
Proof.
  revert p a; induction X as [|c X IH]; intros p a H Hns.
  - now rewrite skipn_nil in Hns.
  - pose proof (existsb_length _ _ _ Hns) as Hlen.
    assert (Hs : forall Y, startswith failed_attempts (c :: X ++ Y) =
                           startswith failed_attempts (c :: X)).
    { intros Y. apply (startswith_literal failed_attempts (c :: X) Y).
      change (length failed_attempts) with 18. lia. }
    assert (Hk : forall Y, skipn 18 ((c :: X) ++ Y) = skipn 18 (c :: X) ++ Y).
    { intros Y. rewrite skipn_app.
      replace (18 - length (c :: X)) with 0 by lia. reflexivity. }
    assert (Hsp : space_stop (skipn 18 (c :: X ++ Y1)) =
                  space_stop (skipn 18 (c :: X ++ Y2))).
    { change (c :: X ++ Y1) with ((c :: X) ++ Y1).
      change (c :: X ++ Y2) with ((c :: X) ++ Y2).
      rewrite !Hk. apply space_stop_prefix.
      apply (existsb_skipn _ a). rewrite skipn_skipn. exact Hns. }
    change ((c :: X) ++ Y1) with (c :: X ++ Y1) in H.
    change ((c :: X) ++ Y2) with (c :: X ++ Y2).
    cbn [find_section] in H |- *. rewrite (Hs Y1) in H. rewrite (Hs Y2), <- Hsp.
    assert (Hnext :
      match find_section (Some c) (X ++ Y1) with
      | Some (a0, j0) => Some (S a0, j0)
      | None => None
      end = Some (a, j) ->
      match find_section (Some c) (X ++ Y2) with
      | Some (a0, j0) => Some (S a0, j0)
      | None => None
      end = Some (a, j)).
    { destruct (find_section (Some c) (X ++ Y1)) as [[a0 j0]|] eqn:E; [|discriminate].
      intros E'. injection E' as <- <-.
      now rewrite (IH (Some c) a0 E Hns). }
    destruct (bol p && startswith failed_attempts (c :: X)); [|now apply Hnext].
    destruct (space_stop (skipn 18 (c :: X ++ Y1))); [exact H|now apply Hnext].
Qed.

(** The text of a section that ends at two hashes is found by reading up
    to them. *)
Lemma body_prefix (Y1 Y2 : str) (W : str) (p : option ascii) :
  ends_at_hashes p (W ++ Y1) = true ->
  body_len p (W ++ Y1) + 2 <= length W ->
  body_len p (W ++ Y2) = body_len p (W ++ Y1) /\
  ends_at_hashes p (W ++ Y2) = true.
Proof.
  revert p; induction W as [|c W IH]; intros p He Hl; [cbn [length] in Hl; lia|].
  assert (Hs : forall Y, startswith (txt "##") (c :: W ++ Y) =
                         startswith (txt "##") (c :: W)).
  { intros Y. apply (startswith_literal (txt "##") (c :: W) Y).
    change (length (txt "##")) with 2. cbn [length] in *. lia. }
  change ((c :: W) ++ Y1) with (c :: W ++ Y1) in *.
  change ((c :: W) ++ Y2) with (c :: W ++ Y2) in *.
  cbn [body_len ends_at_hashes] in *. rewrite (Hs Y1) in *. rewrite (Hs Y2).
  destruct (bol p && startswith (txt "##") (c :: W)); [now split|].
  cbn [length] in Hl. destruct (IH (Some c) He) as [E1 E2]; [lia|].
  now rewrite E1, E2.
Qed.

(** A call that changes the text changes it for good. *)
Lemma improve_changes (content : str) :
  FixRemainingWarnings.has_failed_attempts_table content = false ->
  FixRemainingWarnings.improve_failed_attempts_table content <> content.
Proof.
  unfold FixRemainingWarnings.has_failed_attempts_table,
    FixRemainingWarnings.improve_failed_attempts_table.
  destruct (search MULTILINE_DOTALL _ content) as [m|]; [|discriminate].
  intros ->. intros E. apply (f_equal (@length ascii)) in E.
  rewrite !length_app, length_firstn, length_skipn in E.
  assert (0 < length FixRemainingWarnings.generic_table)
    by (vm_compute; lia).
  lia.
Qed.

(** X20: the improvement is seen only at the end of the document.  When
    [improve_failed_attempts_table] of [fix_remaining_warnings.py] puts
    its table anywhere but at the very end of the text, that is after
    the two hashes of the heading that follows the section, the text of
    the section is what it was: [has_failed_attempts_table] still
    answers [False] on the result, and another call puts another table
    in. *)
Theorem improve_is_seen_only_at_the_end (content : str) :
  let result := FixRemainingWarnings.improve_failed_attempts_table content in
  result = content \/
  result = content ++ FixRemainingWarnings.generic_table \/
  (FixRemainingWarnings.has_failed_attempts_table result = false /\
   FixRemainingWarnings.improve_failed_attempts_table result <> result).
Proof.
  cbv zeta.
  enough (G : FixRemainingWarnings.improve_failed_attempts_table content = content \/
              FixRemainingWarnings.improve_failed_attempts_table content =
                content ++ FixRemainingWarnings.generic_table \/
              FixRemainingWarnings.has_failed_attempts_table
                (FixRemainingWarnings.improve_failed_attempts_table content) = false).
  { destruct G as [G|[G|G]]; auto. right. right. split; trivial.
    now apply improve_changes. }
  pose proof (section_found content) as Hs.
  unfold FixRemainingWarnings.improve_failed_attempts_table at 1 2 3.
  destruct (find_section None content) as [[a j]|] eqn:Ef;
    [|rewrite Hs; now left].
  cbv zeta in Hs. destruct Hs as (m & -> & Hg & He). rewrite Hg, He.
  set (e := a + (18 + j)) in *. set (p := char_before e content) in *.
  set (L := body_len p (skipn e content)) in *.
  destruct (contains (txt "|") (body_from e content)) eqn:Hpipe; [now left|].
  destruct (ends_at_hashes p (skipn e content)) eqn:Eh.
  2:{ right. left. apply body_len_to_end in Eh. fold L in Eh.
      rewrite length_skipn in Eh. rewrite Nat.add_0_r.
      rewrite firstn_all2, skipn_all2 by lia. now rewrite app_nil_r. }
  right. right.
  (* the text up to the two hashes, the two hashes, what follows them *)
  pose proof (body_len_to_hashes _ _ Eh) as [Hh _]. fold L in Hh.
  rewrite skipn_skipn in Hh. apply startswith_split in Hh.
  change (length (txt "##")) with 2 in Hh. rewrite skipn_skipn in Hh.
  pose proof (body_len_le (skipn e content) p) as HL. fold L in HL.
  rewrite length_skipn in HL.
  assert (Hlen : e + L + 2 <= length content).
  { apply (f_equal (@length ascii)) in Hh. rewrite length_skipn, length_app in Hh.
    change (length (txt "##")) with 2 in Hh. lia. }
  set (F := firstn (e + L) content).
  set (R := skipn (e + L + 2) content).
  assert (HF : length F = e + L) by (unfold F; rewrite length_firstn; lia).
  assert (Hc : content = (F ++ txt "##") ++ R).
  { rewrite <- (firstn_skipn (e + L) content) at 1. fold F. rewrite <- app_assoc.
    f_equal. rewrite (Nat.add_comm e L). rewrite Hh. f_equal. unfold R. f_equal. lia. }
  assert (HX : firstn (e + L + 2) content = F ++ txt "##").
  { rewrite Hc at 1. rewrite firstn_app.
    replace (e + L + 2 - length (F ++ txt "##")) with 0
      by (rewrite length_app, HF; change (length (txt "##")) with 2; lia).
    cbn [firstn]. rewrite app_nil_r. apply firstn_all2.
    rewrite length_app, HF. change (length (txt "##")) with 2. lia. }
  rewrite HX. fold R.
  set (T := FixRemainingWarnings.generic_table).
  set (X := F ++ txt "##") in *.
  assert (HXl : length X = e + L + 2).
  { unfold X. rewrite length_app, HF. reflexivity. }
  (* the section of the new text *)
  assert (Ef' : find_section None (X ++ T ++ R) = Some (a, j)).
  { apply (find_section_prefix R); [now rewrite <- Hc|].
    unfold X. rewrite skipn_app.
    replace (a + 18 - length F) with 0 by lia. cbn [skipn].
    rewrite existsb_app. apply orb_true_iff. right. reflexivity. }
  pose proof (section_found (X ++ T ++ R)) as Hs'. rewrite Ef' in Hs'.
  cbv zeta in Hs'. destruct Hs' as (m' & Em' & Hg' & _). fold e in Hg'.
  unfold FixRemainingWarnings.has_failed_attempts_table. rewrite Em', Hg'.
  enough (G : body_from e (X ++ T ++ R) = body_from e content)
    by (rewrite G; exact Hpipe).
  (* the same text before and after *)
  assert (Hcb : char_before e (X ++ T ++ R) = p).
  { unfold p, char_before. f_equal.
    enough (G : forall z, z = X ++ R -> firstn e (X ++ T ++ R) = firstn e z)
      by (apply G, Hc).
    intros z ->. rewrite !firstn_app. replace (e - length X) with 0 by lia.
    cbn [firstn]. reflexivity. }
  assert (Hsk : forall Y, skipn e (X ++ Y) = skipn e X ++ Y).
  { intros Y. rewrite skipn_app. replace (e - length X) with 0 by lia. reflexivity. }
  assert (HW : length (skipn e X) = L + 2) by (rewrite length_skipn; lia).
  unfold body_from. rewrite Hcb, !Hsk.
  assert (Hsame : skipn e content = skipn e X ++ R).
  { enough (G : forall z, z = X ++ R -> skipn e z = skipn e X ++ R) by (apply G, Hc).
    intros z ->. apply Hsk. }
  fold p. unfold L in *. rewrite Hsame in *.
  destruct (body_prefix R (T ++ R) (skipn e X) p Eh) as [E1 _]; [lia|].
  rewrite E1. rewrite !firstn_app.
  replace (body_len p (skipn e X ++ R) - length (skipn e X)) with 0 by lia.
  reflexivity.
Qed.

(** A table put in before a heading, and the test after it. *)
Lemma table_before_a_heading_is_not_seen :
  let content :=
    text_of_lines ["## Failed Attempts"; "Prose."; "## Results"; "Fine."] in
  FixRemainingWarnings.improve_failed_attempts_table content =
    text_of_lines ["## Failed Attempts"; "Prose."; "##"] ++
    FixRemainingWarnings.generic_table ++ text_of_lines [" Results"; "Fine."] /\
  FixRemainingWarnings.has_failed_attempts_table
    (FixRemainingWarnings.improve_failed_attempts_table content) = false.
Proof. vm_compute. split; reflexivity. Qed.

(* ------------------------------------------------------------------ *)
(** ** The report of the last patcher *)

(** Lines split and joined again. *)
Lemma join_split_nl (n : nat) (s : str) :
  length s <= n -> join [nl] (split [nl] s) = s.
Proof.
  revert s; induction n as [|n IH]; intros s Hn; rewrite split_nl;
    pose proof (take_drop_while not_nl s) as E;
    destruct (drop_while not_nl s) as [|x s'] eqn:Ed;
    try (cbn [join flat_map]; now rewrite app_nil_r).
  - destruct s; [discriminate|cbn in Hn; lia].
  - assert (Hx : x = nl).
    { destruct (drop_line s) as [H|[r H]]; rewrite Ed in H; congruence. }
    subst x. cbn [join]. rewrite flat_map_join by apply split_not_nil.
    rewrite IH; [exact E|].
    apply (f_equal (@length ascii)) in E. rewrite length_app in E.
    cbn [length] in E. lia.
Qed.

Lemma length_flat_map_le (sep : str) (f : str -> str) (ls : list str) :
  (forall l, length l <= length (f l)) ->
  length (flat_map (fun y => sep ++ y) ls) <=
  length (flat_map (fun y => sep ++ y) (map f ls)).
Proof.
  intros Hf. induction ls as [|l ls IH]; cbn [map flat_map]; trivial.
  rewrite !length_app. specialize (Hf l). lia.
Qed.

Lemma length_join_le (sep : str) (f : str -> str) (ls : list str) :
  (forall l, length l <= length (f l)) ->
  length (join sep ls) <= length (join sep (map f ls)).
Proof.
  intros Hf. destruct ls as [|l ls]; cbn [map join]; trivial.
  rewrite !length_app. pose proof (length_flat_map_le sep f ls Hf).
  specialize (Hf l). lia.
Qed.

(** [re.sub(r'^old$', new, ...)] with a longer [new] does not shorten
    the text. *)
Lemma sub_whole_line_length (old new s : str) :
  old <> [] -> forallb not_nl old = true -> length old <= length new ->
  length s <= length (sub MULTILINE (Bol ;;; Lit old ;;; Eol) new s).
Proof.
  intros Hne Hold Hl. rewrite sub_whole_line by trivial.
  rewrite <- (join_split_nl (length s) s (le_n _)) at 1.
  apply length_join_le. intros l. unfold rename_line.
  destruct (str_eqb l old) eqn:E; trivial.
  apply str_eqb_eq in E. now subst.
Qed.

Lemma wrap_first_length (names : list str) (content : str) :
  forallb (forallb not_nl) names = true ->
  length content <= length (FixRemainingWarnings.wrap_first names content).
Proof.
  induction names as [|name names IH]; cbn [FixRemainingWarnings.wrap_first forallb];
    trivial.
  intros H. apply andb_true_iff in H as [Hn Hs].
  destruct (FixRemainingWarnings.found _); [|auto].
  unfold FixRemainingWarnings.section_heading, FixRemainingWarnings.wrapped_heading.
  apply sub_whole_line_length.
  - discriminate.
  - rewrite forallb_app, Hn. reflexivity.
  - rewrite !length_app. cbn [length].
    change (length (txt "## Verified Workflow")) with 20.
    change (length (txt "### ")) with 4. change (length (txt "## ")) with 3. lia.
Qed.

Lemma improve_length (content : str) :
  FixRemainingWarnings.has_failed_attempts_table content = false ->
  length content <
  length (FixRemainingWarnings.improve_failed_attempts_table content).
Proof.
  unfold FixRemainingWarnings.has_failed_attempts_table,
    FixRemainingWarnings.improve_failed_attempts_table.
  destruct (search MULTILINE_DOTALL _ content) as [m|]; [|discriminate].
  intros ->. rewrite !length_app, length_firstn, length_skipn.
  assert (0 < length FixRemainingWarnings.generic_table) by (vm_compute; lia).
  lia.
Qed.

(** X29: the report of [fix_skill_file] of [fix_remaining_warnings.py].
    With [c1] the document after the first fix (the wrapper, tried when
    no line starts with [## Verified Workflow]), the call reports
    "Added ## Verified Workflow wrapper" exactly when [c1] is not the
    document it read, and "Improved Failed Attempts table" exactly when
    the table test fails on [c1]; it writes, and answers [True], exactly
    when it reports a fix, and what it writes is [c1], improved when the
    test failed.  The two branches that compare with the original text
    never keep a fix out of the report. *)
Theorem remaining_fixes_report (content : str) :
  let c1 :=
    if FixRemainingWarnings.has_verified_workflow_section content then content
    else FixRemainingWarnings.add_verified_workflow_wrapper content in
  let wrapped := negb (str_eqb c1 content) in
  let improved := negb (FixRemainingWarnings.has_failed_attempts_table c1) in
  let c2 :=
    if improved then FixRemainingWarnings.improve_failed_attempts_table c1 else c1 in
  FixRemainingWarnings.fix_skill_file content =
  if wrapped || improved
  then {| FixRemainingWarnings.modified := true;
          FixRemainingWarnings.fixes_applied :=
            (if wrapped then [txt "Added ## Verified Workflow wrapper"] else []) ++
            (if improved then [txt "Improved Failed Attempts table"] else []);
          FixRemainingWarnings.written := Some c2 |}
  else {| FixRemainingWarnings.modified := false;
          FixRemainingWarnings.fixes_applied := [];
          FixRemainingWarnings.written := None |}.
Proof.
  cbv zeta.
  assert (Hw : length content <=
               length (FixRemainingWarnings.add_verified_workflow_wrapper content)).
  { apply wrap_first_length. reflexivity. }
  assert (Hneq : forall x, length content <= length x ->
            FixRemainingWarnings.has_failed_attempts_table x = false ->
            str_eqb (FixRemainingWarnings.improve_failed_attempts_table x) content
            = false).
  { intros x Hx Ht. apply str_eqb_neq. intros E.
    pose proof (improve_length x Ht) as Hl. rewrite E in Hl. lia. }
  unfold FixRemainingWarnings.fix_skill_file, FixRemainingWarnings.apply_fixes.
  cbv zeta.
  destruct (FixRemainingWarnings.has_verified_workflow_section content);
    cbv beta iota delta [negb].
  - rewrite str_eqb_refl.
    destruct (FixRemainingWarnings.has_failed_attempts_table content) eqn:Ht;
      cbv beta iota delta [negb orb andb app].
    + now rewrite str_eqb_refl.
    + rewrite (Hneq content (le_n _) Ht). cbv beta iota delta [negb orb andb app].
      now rewrite (Hneq content (le_n _) Ht).
  - destruct (str_eqb (FixRemainingWarnings.add_verified_workflow_wrapper content)
                content) eqn:Ew; cbv beta iota delta [negb].
    + apply str_eqb_eq in Ew. rewrite Ew.
      destruct (FixRemainingWarnings.has_failed_attempts_table content) eqn:Ht;
        cbv beta iota delta [negb orb andb app].
      * now rewrite str_eqb_refl.
      * rewrite (Hneq content (le_n _) Ht). cbv beta iota delta [negb orb andb app].
        now rewrite (Hneq content (le_n _) Ht).
    + destruct (FixRemainingWarnings.has_failed_attempts_table
                  (FixRemainingWarnings.add_verified_workflow_wrapper content)) eqn:Ht;
        cbv beta iota delta [negb orb andb app].
      * now rewrite Ew.
      * rewrite (Hneq _ Hw Ht). cbv beta iota delta [negb orb andb app].
        now rewrite (Hneq _ Hw Ht).
Qed.

(* ------------------------------------------------------------------ *)
(** ** Where the tables are put *)

(** The heading match of the section patcher starts a line and ends
    where a line ends. *)
Lemma heading_match_place (s : str) (m : mobj) :
  search MULTILINE FixValidationWarnings.failed_attempts_heading s = Some m ->
  exists a,
    bol (char_before a s) = true /\
    startswith (txt "## Failed Attempts") (skipn a s) = true /\
    a + 18 <= m_end m.
Proof.
  unfold search. intros H. apply search_from_sound in H as (a & _ & H).
  unfold FixValidationWarnings.failed_attempts_heading in H.
  rewrite match_at_line in H by reflexivity.
  destruct (bol _ && startswith _ _) eqn:Hg; [|discriminate].
  apply andb_true_iff in Hg as [Hb Hs].
  fold (start_of s) in *. rewrite advance_start in Hb, Hs. cbn [prev rest] in Hb, Hs.
  rewrite advance_advance in H.
  unfold Star in H. cbn [run] in H.
  apply rep_sound in H as (j & _ & _ & _ & H).
  match type of H with
  | (if ?b then _ else _) = _ => destruct b; [|discriminate]
  end.
  unfold final in H. injection H as <-. cbn [m_end].
  exists a. repeat split; trivial. lia.
Qed.

(** X15: the table of the section patcher.  Whatever the document,
    [add_failed_attempts_table] of [fix_validation_warnings.py] returns
    it unchanged, or with the table whose row is "Initial approach" put
    in at the end of a line, at or after the end of a [## Failed
    Attempts] that starts a line: the text it tests for subsections
    never has a line that starts with three hashes, so the table that
    points to "detailed subsections" is never written.  In an ASCII
    document the table stands where the heading match ends. *)
Theorem subsections_table_is_never_written (content : str) :
  FixValidationWarnings.add_failed_attempts_table content = content \/
  exists a e,
    bol (char_before a content) = true /\
    startswith (txt "## Failed Attempts") (skipn a content) = true /\
    a + 18 <= e /\
    (skipn e content = [] \/ exists r, skipn e content = nl :: r) /\
    FixValidationWarnings.add_failed_attempts_table content =
      firstn e content ++
      text_of_lines
        [""; ""; "| Attempt | Why Failed | Lesson |";
         "|---------|-----------|--------|";
         "| Initial approach | See details below | Refer to notes in this section |";
         ""] ++
      skipn e content /\
    (ascii_text content = true ->
     exists m,
       search MULTILINE FixValidationWarnings.failed_attempts_heading content = Some m /\
       m_end m = e).
Proof.
  unfold FixValidationWarnings.add_failed_attempts_table.
  destruct (search MULTILINE _ content) as [m|] eqn:Eh; [|now left].
  destruct (search MULTILINE_DOTALL _ content) as [m'|] eqn:Es; [|now left].
  right. destruct (heading_match_place content m Eh) as (a & Hb & Hs & Ha).
  exists a, (m_end m). repeat split; trivial.
  - now apply heading_match_eol.
  - apply section_match in Es as (e & _ & Heol & -> & _).
    rewrite (no_subheading_in_section content e Heol). reflexivity.
  - intros _. now exists m.
Qed.

(** A section with a subsection: the table is the one for prose. *)
Lemma subsections_table_is_never_written_witness :
  let content :=
    text_of_lines ["# T"; "## Failed Attempts"; "### First"; "It broke."; "## Results"; ""] in
  exists m,
    search MULTILINE FixValidationWarnings.failed_attempts_heading content = Some m /\
    m_end m = 22 /\
    FixValidationWarnings.add_failed_attempts_table content =
      text_of_lines
        ["# T"; "## Failed Attempts"; "";
         "| Attempt | Why Failed | Lesson |";
         "|---------|-----------|--------|";
         "| Initial approach | See details below | Refer to notes in this section |";
         "";
         "### First"; "It broke."; "## Results"; ""].
Proof.
  cbv zeta.
  destruct (subsections_table_is_never_written
              (text_of_lines ["# T"; "## Failed Attempts"; "### First"; "It broke.";
                              "## Results"; ""]))
    as [H|(a & e & _ & _ & _ & _ & H & G)].
  - apply (f_equal (@length ascii)) in H. vm_compute in H. discriminate.
  - destruct G as (m & Hm & He); [reflexivity|].
    exists m. split; [exact Hm|].
    assert (E : m_end m = 22).
    { vm_compute in Hm. injection Hm as <-. reflexivity. }
    split; [exact E|]. rewrite H, <- He, E. reflexivity.
Defined.

(** *** The table of [improve_failed_attempts_table] *)

Lemma space_stop_sound (s : str) (j : nat) :
  space_stop s = Some j ->
  j <= length s /\ (skipn j s = [] \/ exists r, skipn j s = nl :: r).
Proof.
  revert j; induction s as [|c s IH]; intros j; cbn [space_stop].
  - intros E. injection E as <-. split; [cbn; lia|now left].
  - destruct (if isspace c then space_stop s else None) as [j'|] eqn:Ej.
    + intros E. injection E as <-.
      destruct (isspace c); [|discriminate].
      destruct (IH j' Ej) as [Hl He]. split; [cbn; lia|exact He].
    + destruct (Ascii.eqb c nl) eqn:Ec; [|discriminate].
      intros E. injection E as <-. apply Ascii.eqb_eq in Ec. subst c.
      split; [cbn; lia|]. right. now exists s.
Qed.

Lemma find_section_sound (s : str) (p : option ascii) (a j : nat) :
  find_section p s = Some (a, j) ->
  bol (last_opt (firstn a s) p) = true /\
  startswith failed_attempts (skipn a s) = true /\
  space_stop (skipn (a + 18) s) = Some j.
Proof.
  revert p a; induction s as [|c s IH]; intros p a.
  - cbn [find_section].
    destruct (bol p && startswith failed_attempts []) eqn:Hg; [|discriminate].
    apply andb_true_iff in Hg as [_ Hs]. discriminate.
  - cbn [find_section].
    assert (Hnext :
      match find_section (Some c) s with
      | Some (a0, j0) => Some (S a0, j0)
      | None => None
      end = Some (a, j) ->
      bol (last_opt (firstn a (c :: s)) p) = true /\
      startswith failed_attempts (skipn a (c :: s)) = true /\
      space_stop (skipn (a + 18) (c :: s)) = Some j).
    { destruct (find_section (Some c) s) as [[a0 j0]|] eqn:Ef; [|discriminate].
      intros E. injection E as <- <-. apply IH in Ef. exact Ef. }
    destruct (bol p && startswith failed_attempts (c :: s)) eqn:Hg; [|exact Hnext].
    destruct (space_stop (skipn 18 (c :: s))) as [j0|] eqn:Ej; [|exact Hnext].
    intros E. injection E as <- <-.
    apply andb_true_iff in Hg as [Hb Hs]. repeat split; trivial.
Qed.

(** No line of the text of a section starts with two hashes. *)
Lemma body_len_none (s : str) (p : option ascii) (k : nat) :
  k < body_len p s ->
  bol (last_opt (firstn k s) p) && startswith (txt "##") (skipn k s) = false.
Proof.
  revert p k; induction s as [|c s IH]; intros p k; cbn [body_len].
  - destruct (bol p && startswith (txt "##") []); intros H; inversion H.
  - destruct (bol p && startswith (txt "##") (c :: s)) eqn:Hg; [intros H; inversion H|].
    destruct k as [|k]; [intros _; exact Hg|].
    intros H. apply (IH (Some c) k). lia.
Qed.

Lemma char_before_add (e k : nat) (s : str) :
  char_before (e + k) s = last_opt (firstn k (skipn e s)) (char_before e s).
Proof. unfold char_before, last_opt. now rewrite firstn_add, fold_left_app. Qed.

(** X16: where [improve_failed_attempts_table] of
    [fix_remaining_warnings.py] puts its table.  The function returns
    the document unchanged, or there are a [## Failed Attempts] that
    starts a line at [a], the end [e] of a line at or after the end of
    that heading, and the first place [q] from [e] on where a line
    starts with two hashes, or the end of the text when there is no such
    line; there is no pipe from [e] to [q], and the function returns the
    document with the generic table appended at the very end, when [q]
    is the end of the text, and put in right after the two hashes at [q],
    in the middle of that heading line, otherwise: the table is put
    where the match of the section ends, not after the Failed Attempts
    heading.  In an ASCII document [a] and [e] are those of
    [find_section]: the first such heading that only white space follows
    on its line, and the last end of a line in the white space after
    it. *)
Theorem improve_puts_table_after_section (content : str) :
  FixRemainingWarnings.improve_failed_attempts_table content = content \/
  exists a e q,
    bol (char_before a content) = true /\
    startswith (txt "## Failed Attempts") (skipn a content) = true /\
    a + 18 <= e /\ e <= q /\
    (skipn e content = [] \/ exists r, skipn e content = nl :: r) /\
    (forall i, e <= i < q ->
       bol (char_before i content) && startswith (txt "##") (skipn i content) = false) /\
    contains (txt "|") (slice e q content) = false /\
    ((q = length content /\
      FixRemainingWarnings.improve_failed_attempts_table content =
        content ++ FixRemainingWarnings.generic_table) \/
     (bol (char_before q content) = true /\
      startswith (txt "##") (skipn q content) = true /\
      FixRemainingWarnings.improve_failed_attempts_table content =
        firstn (q + 2) content ++ FixRemainingWarnings.generic_table ++
        skipn (q + 2) content)) /\
    (ascii_text content = true ->
     exists j, find_section None content = Some (a, j) /\ e = a + (18 + j)).
Proof.
  pose proof (section_found content) as Hs.
  unfold FixRemainingWarnings.improve_failed_attempts_table.
  destruct (find_section None content) as [[a j]|] eqn:Ef; [|rewrite Hs; now left].
  cbv zeta in Hs. destruct Hs as (m & -> & Hg & He). rewrite Hg, He.
  set (e := a + (18 + j)) in *. set (p := char_before e content) in *.
  set (L := body_len p (skipn e content)) in *.
  destruct (contains (txt "|") (body_from e content)) eqn:Hpipe; [now left|].
  right. exists a, e, (e + L).
  apply find_section_sound in Ef as (Hb & Hh & Hj).
  apply space_stop_sound in Hj as [Hjl Heol].
  rewrite skipn_skipn in Heol.
  replace (j + (a + 18)) with e in Heol by (unfold e; lia).
  assert (Hlen : e <= length content).
  { apply startswith_length in Hh. rewrite !length_skipn in *.
    change (length failed_attempts) with 18 in Hh. unfold e. lia. }
  split; [exact Hb|]. split; [exact Hh|].
  split; [unfold e; lia|]. split; [lia|]. split; [exact Heol|].
  split.
  { intros i Hi. assert (Ei : exists k, i = e + k /\ k < L) by (exists (i - e); lia).
    destruct Ei as (k & -> & Hk).
    rewrite char_before_add, (Nat.add_comm e k), <- skipn_skipn.
    now apply body_len_none. }
  split.
  { unfold slice. replace (e + L - e) with L by lia. exact Hpipe. }
  split; [|intros _; now exists j].
  destruct (ends_at_hashes p (skipn e content)) eqn:Eh.
  - right. apply body_len_to_hashes in Eh as [Hh2 Hb2]. fold L in Hh2, Hb2.
    rewrite skipn_skipn in Hh2. rewrite (Nat.add_comm L e) in Hh2.
    fold p in Hb2. unfold p in Hb2. rewrite <- char_before_add in Hb2.
    repeat split; trivial.
  - left. apply body_len_to_end in Eh. fold L in Eh.
    rewrite length_skipn in Eh.
    assert (Hq : e + L = length content) by lia.
    split; [exact Hq|]. rewrite Nat.add_0_r, Hq.
    now rewrite firstn_all, skipn_all, app_nil_r.
Qed.

(** Prose under the heading, another section after it: the table lands
    in the heading of that section. *)
Lemma improve_puts_table_after_section_witness :
  let content := text_of_lines ["## Failed Attempts"; "It broke."; "## Results"; ""] in
  exists a j,
  find_section None content = Some (a, j) /\
  FixRemainingWarnings.improve_failed_attempts_table content =
    text_of_lines
      ["## Failed Attempts"; "It broke."; "##";
       "";
       "| Approach | Issue | Resolution |";
       "|----------|-------|------------|";
       "| See details below | Various implementation challenges | Documented in this section |";
       " Results"; ""].
Proof.
  cbv zeta.
  destruct (improve_puts_table_after_section
              (text_of_lines ["## Failed Attempts"; "It broke."; "## Results"; ""]))
    as [H|(a & e & q & _ & _ & _ & _ & _ & _ & _ & _ & G)].
  - apply (f_equal (@length ascii)) in H. vm_compute in H. discriminate.
  - destruct G as (j & Hf & _); [reflexivity|].
    exists a, j. split; [exact Hf|reflexivity].
Defined.
